(** * Prompter: the document normalizer, the merge engine and the library
      controller

    A shallow embedding of the data layer of the extension:
    - [normalizeDb], [mergeImported], [loadDb] and the [useLibrary]
      mutators of [src/App.tsx];
    - [parseHash] and [makeHash], the tag editor of [CreatePromptPage], the
      counts of [CategoriesPage] and the import of [DataPage], of the same
      file;
    - [worker_normalizeDb], [getDb] and [savePromptFromPage] of the
      background worker;
    - [makeTitle] of the content script.

    Conventions.
    - A JavaScript string is a [string] whose characters are code units (the
      one-byte range of them); [isWhiteSpace] is the ECMAScript WhiteSpace and
      LineTerminator set on that range.
    - A value produced by [JSON.parse] is a [value]; reading a property of
      [null] or [undefined] and calling something that is not a function
      raise [TypeError].
    - [new Date().toISOString()], [crypto.randomUUID()], [localeCompare],
      [toLowerCase] and [String(x)] belong to the platform: they are the
      variables of the sections below.  The clock and the id generator are
      read through a [World] that counts the calls made so far.
    - [chrome.storage.local] is a [Store]: the item under the key of the
      document, and which of the next reads and writes are rejected.
    - An [async] function is the segments between its [await]s; where
      other calls can run in between and it matters, each segment is a
      call of its own. *)

From Stdlib Require Import String Ascii List ZArith Bool Arith Lia DecimalString.
Import ListNotations.
Local Open Scope string_scope.
Local Open Scope list_scope.

(** ** Strings *)

Definition isWhiteSpace (c : ascii) : bool :=
  let n := nat_of_ascii c in
  ((9 <=? n)%nat && (n <=? 13)%nat) || (n =? 32)%nat || (n =? 160)%nat.

Fixpoint trimStart (s : string) : string :=
  match s with
  | EmptyString => EmptyString
  | String c r => if isWhiteSpace c then trimStart r else s
  end.

Fixpoint trimEnd (s : string) : string :=
  match s with
  | EmptyString => EmptyString
  | String c r =>
      match trimEnd r with
      | EmptyString => if isWhiteSpace c then EmptyString else String c EmptyString
      | r' => String c r'
      end
  end.

(** [String.prototype.trim] *)
Definition trim (s : string) : string := trimEnd (trimStart s).

(** A string is falsy exactly when it is empty. *)
Definition nonEmpty (s : string) : bool := negb (s =? "").

Definition trimmed (s : string) : Prop := trim s = s.

(** ** Exceptions and results *)

Inductive exn : Type :=
| TypeError
| Error (message : string).

Inductive outcome (A : Type) : Type :=
| Ok (a : A)
| Throw (e : exn).

Arguments Ok {A} a.
Arguments Throw {A} e.

(** ** Values read back from [JSON.parse] *)

#[warnings="-register-all"]
Inductive value : Type :=
| VUndefined
| VNull
| VBool (b : bool)
| VNum (n : Z)
| VStr (s : string)
| VArr (items : list value)
| VObj (props : list (string * value)).

Fixpoint lookup (k : string) (props : list (string * value)) : value :=
  match props with
  | [] => VUndefined
  | (k', v) :: rest => if k' =? k then v else lookup k rest
  end.

(** [v.k], for the property names the program reads (none of them is
    inherited from a prototype). *)
Definition get (v : value) (k : string) : outcome value :=
  match v with
  | VUndefined | VNull => Throw TypeError
  | VObj props => Ok (lookup k props)
  | _ => Ok VUndefined
  end.

(** [v?.k] *)
Definition getOpt (v : value) (k : string) : value :=
  match v with
  | VObj props => lookup k props
  | _ => VUndefined
  end.

(** [Boolean(v)] *)
Definition truthy (v : value) : bool :=
  match v with
  | VUndefined | VNull => false
  | VBool b => b
  | VNum n => negb (n =? 0)%Z
  | VStr s => nonEmpty s
  | VArr _ | VObj _ => true
  end.

Definition nullish (v : value) : bool :=
  match v with
  | VUndefined | VNull => true
  | _ => false
  end.

(** [v && typeof v === "object"] *)
Definition isObject (v : value) : bool :=
  match v with
  | VArr _ | VObj _ => true
  | _ => false
  end.

(** [a ?? b] *)
Definition orElse (a b : value) : value := if nullish a then b else a.

(** [a || b] *)
Definition orDefault (a b : value) : value := if truthy a then a else b.

(** [v.trim()] *)
Definition callTrim (v : value) : outcome string :=
  match v with
  | VStr s => Ok (trim s)
  | _ => Throw TypeError
  end.

(** [v?.trim() || d] *)
Definition trimOr (v : value) (d : string) : outcome string :=
  if nullish v then Ok d
  else match callTrim v with
       | Ok t => Ok (if nonEmpty t then t else d)
       | Throw e => Throw e
       end.

Fixpoint chars (s : string) : list value :=
  match s with
  | EmptyString => []
  | String c r => VStr (String c EmptyString) :: chars r
  end.

(** The elements [v] yields to [[...v]] and to [for (const x of v)]. *)
Definition iterate (v : value) : outcome (list value) :=
  match v with
  | VArr items => Ok items
  | VStr s => Ok (chars s)
  | _ => Throw TypeError
  end.

(** [v === s] for a string [s] *)
Definition isString (v : value) (s : string) : bool :=
  match v with
  | VStr s' => s' =? s
  | _ => false
  end.

(** ** [Map], keyed by strings, in insertion order *)

Definition Map (V : Type) : Type := list (string * V).

Definition map_has {V} (m : Map V) (k : string) : bool :=
  existsb (fun kv => fst kv =? k) m.

Fixpoint map_get {V} (m : Map V) (k : string) : option V :=
  match m with
  | [] => None
  | (k', v) :: rest => if k' =? k then Some v else map_get rest k
  end.

Fixpoint map_set {V} (m : Map V) (k : string) (v : V) : Map V :=
  match m with
  | [] => [(k, v)]
  | (k', v') :: rest =>
      if k' =? k then (k, v) :: rest else (k', v') :: map_set rest k v
  end.

Definition map_values {V} (m : Map V) : list V := map snd m.

(** [new Map(entries)] *)
Definition map_of {V} (entries : list (string * V)) : Map V :=
  fold_left (fun m kv => map_set m (fst kv) (snd kv)) entries [].

(** [m.has(v)] for an arbitrary value: only a string can be a key here. *)
Definition map_hasValue {V} (m : Map V) (v : value) : bool :=
  match v with
  | VStr s => map_has m s
  | _ => false
  end.

(** ** Sets and sorting *)

(** [Array.from(new Set(l))]: the first occurrence of each string, in order. *)
Fixpoint uniq (l : list string) : list string :=
  match l with
  | [] => []
  | x :: r => x :: filter (fun y => negb (y =? x)) (uniq r)
  end.

Section Sorting.
Variable cmp : string -> string -> comparison.

Fixpoint insertBy (x : string) (l : list string) : list string :=
  match l with
  | [] => [x]
  | y :: r =>
      match cmp x y with
      | Gt => y :: insertBy x r
      | _ => x :: l
      end
  end.

(** [Array.prototype.sort] is stable; with a consistent comparator every
    stable sort gives this list. *)
Definition sortBy (l : list string) : list string :=
  fold_right insertBy [] l.

(** No element is followed by a smaller one. *)
Fixpoint sortedBy (l : list string) : Prop :=
  match l with
  | [] => True
  | x :: r =>
      match r with
      | [] => True
      | y :: _ => cmp x y <> Gt
      end /\ sortedBy r
  end.

(** [Array.from(new Set(l.filter(Boolean))).sort(cmp)] on trimmed tags *)
Definition sortedSet (l : list string) : list string :=
  sortBy (uniq (filter nonEmpty l)).

(** What the proofs ask of a comparator: two strings are never each
    greater than the other. *)
Definition comparator : Prop :=
  forall a b, cmp a b = Gt -> cmp b a <> Gt.

(** The tag list of a normalized prompt. *)
Definition tags_ok (tags : list string) : Prop :=
  Forall (fun t => trimmed t /\ t <> "") tags /\
  NoDup tags /\ sortedBy tags.
End Sorting.

(** ** State and exceptions *)

(** A computation over a state [S] that returns or throws.  The state a
    throwing computation leaves behind is kept: what was written before the
    [throw] stays written. *)
Definition St (S A : Type) : Type := S -> outcome A * S.

Definition ret {S A} (a : A) : St S A := fun s => (Ok a, s).

Definition raise {S A} (e : exn) : St S A := fun s => (Throw e, s).

Definition bind {S A B} (m : St S A) (k : A -> St S B) : St S B :=
  fun s =>
    match m s with
    | (Ok a, s') => k a s'
    | (Throw e, s') => (Throw e, s')
    end.

Definition lift {S A} (o : outcome A) : St S A := fun s => (o, s).

(** [try { m } catch (e) { handler(e) }] *)
Definition tryCatch {S A} (m : St S A) (handler : exn -> St S A) : St S A :=
  fun s =>
    match m s with
    | (Ok a, s') => (Ok a, s')
    | (Throw e, s') => handler e s'
    end.

Declare Scope js_scope.
Delimit Scope js_scope with js.
Notation "x <- m ;; k" := (bind m (fun x => k))
  (at level 61, m at next level, right associativity) : js_scope.
Notation "m ;;; k" := (bind m (fun _ => k))
  (at level 61, right associativity) : js_scope.
Local Open Scope js_scope.

Fixpoint mapM {S A B} (f : A -> St S B) (l : list A) : St S (list B) :=
  match l with
  | [] => ret []
  | x :: r => y <- f x ;; ys <- mapM f r ;; ret (y :: ys)
  end.

(** ** The clock and the id generator *)

(** How many times the clock was read and the id generator was called. *)
Record World : Type := mkWorld { ticks : nat; draws : nat }.

Definition M (A : Type) : Type := St World A.

(** ** The document *)

Record Category : Type := mkCategory {
  c_id : string;
  c_name : string;
  c_createdAt : value
}.

Record Prompt : Type := mkPrompt {
  p_id : string;
  p_title : string;
  p_categoryId : string;
  p_content : string;
  p_tags : list string;
  p_favorite : bool;
  p_createdAt : value;
  p_updatedAt : value;
  p_lastUsedAt : value
}.

Record DbFile : Type := mkDb {
  version : Z;
  categories : list Category;
  prompts : list Prompt
}.

(** The objects as [JSON.parse] and the mutators see them. *)
Definition categoryValue (c : Category) : value :=
  VObj [("id", VStr (c_id c)); ("name", VStr (c_name c));
        ("createdAt", c_createdAt c)].

Definition promptValue (p : Prompt) : value :=
  VObj [("id", VStr (p_id p)); ("title", VStr (p_title p));
        ("categoryId", VStr (p_categoryId p)); ("content", VStr (p_content p));
        ("tags", VArr (map VStr (p_tags p))); ("favorite", VBool (p_favorite p));
        ("createdAt", p_createdAt p); ("updatedAt", p_updatedAt p);
        ("lastUsedAt", p_lastUsedAt p)].

Definition dbValue (d : DbFile) : value :=
  VObj [("version", VNum (version d));
        ("categories", VArr (map categoryValue (categories d)));
        ("prompts", VArr (map promptValue (prompts d)))].

Definition UNCATEGORIZED_ID : string := "uncategorized".

(** ** The store *)

(** What [chrome.storage.local] holds under the key of the document:
    nothing; a text, empty or not, with what [JSON.parse] returns or throws
    on it; or a value [v] that is not a text. *)
Inductive item : Type :=
| Absent
| Text (isEmpty : bool) (parsed : outcome value)
| Plain (v : value).

(** The store, and how its next operations end: [Some e] for one that is
    rejected with [e], [None] for one that succeeds, as does every
    operation past the end of the list. *)
Record Store : Type := mkStore { held : item; faults : list (option exn) }.

(** [await chrome.storage.local.get([STORAGE_KEY])], then [result?.[STORAGE_KEY]] *)
Definition storageGet : St Store item :=
  fun st =>
    match faults st with
    | Some e :: rest => (Throw e, mkStore (held st) rest)
    | None :: rest => (Ok (held st), mkStore (held st) rest)
    | [] => (Ok (held st), st)
    end.

(** [await chrome.storage.local.set({ [STORAGE_KEY]: JSON.stringify(d) })]:
    the text of a document is not empty, and [JSON.parse] reads the
    document back from it. *)
Definition storageSet (d : DbFile) : St Store unit :=
  fun st =>
    match faults st with
    | Some e :: rest => (Throw e, mkStore (held st) rest)
    | None :: rest => (Ok tt, mkStore (Text false (Ok (dbValue d))) rest)
    | [] => (Ok tt, mkStore (Text false (Ok (dbValue d))) [])
    end.

(** A computation that reads the clock, draws ids and uses the store. *)
Definition IO (A : Type) : Type := St (World * Store) A.

Definition onWorld {A} (m : M A) : IO A :=
  fun s => let (r, w) := m (fst s) in (r, (w, snd s)).

Definition onStore {A} (m : St Store A) : IO A :=
  fun s => let (r, st) := m (snd s) in (r, (fst s, st)).


(** ** The hook [useLibrary] *)

Record PromptDraft : Type := mkDraft {
  d_id : option string;
  d_title : string;
  d_categoryId : string;
  d_content : string;
  d_tags : list string;
  d_favorite : bool
}.

(** The state of the hook.  [queue] holds the updaters passed to [setDb]
    that React has not run yet: an updater given to a state setter runs when
    the component is next rendered, not inside the call of the setter. *)
Record Library : Type := mkLibrary {
  loading : bool;
  backupPending : bool;
  db : DbFile;
  error : option string;
  toast : option string;
  queue : list (DbFile -> M DbFile)
}.

Record Session : Type := mkSession { lib : Library; world : World }.

Definition Ctl (A : Type) : Type := St Session A.

(** What the user interface and the runtime can do to the hook.
    [copyPrompt] is two of them: the call, which runs up to its [await],
    and the answer of the clipboard, which resumes it; anything can be
    called in between.  The runtime resumes only a call it has started; the
    sequences of calls considered below do not ask for that, so that what
    holds of all of them holds of those that can happen. *)
Inductive call : Type :=
| CallLoaded (st : Store)
| CallUpsertPrompt (draft : PromptDraft)
| CallDeletePrompt (id : string)
| CallDuplicatePrompt (id : string)
| CallCopyPrompt (id : string)
| CallClipboardAnswered (id : string) (answer : outcome unit)
| CallCreateCategory (name : string)
| CallRenameCategory (id name : string)
| CallDeleteCategory (id : string)
| CallImportJson (parsed : outcome value)
| CallClearError
| CallDismissBackupNotice
| CallRender.

(** The mutators of the hook other than the stamp of [copyPrompt] and the
    merge of [importJson]. *)
Inductive edit : Type :=
| EditUpsertPrompt (draft : PromptDraft) (promptId : string)
| EditDeletePrompt (id : string)
| EditDuplicatePrompt (id copyId : string)
| EditCreateCategory (trimmed : string)
| EditRenameCategory (id trimmed : string)
| EditDeleteCategory (id : string).


(** ** A platform to run the examples on *)

(** The lower case of a code unit of the one-byte range: of the letters
    [A] to [Z], and of the accented capitals, 192 to 222 but for the
    multiplication sign, 215. *)
Definition lowerAscii (c : ascii) : ascii :=
  let n := nat_of_ascii c in
  if (((65 <=? n)%nat && (n <=? 90)%nat) ||
      ((192 <=? n)%nat && (n <=? 222)%nat && negb (n =? 215)%nat))%bool
  then ascii_of_nat (n + 32) else c.

Fixpoint lowerCase (s : string) : string :=
  match s with
  | EmptyString => EmptyString
  | String c r => String (lowerAscii c) (lowerCase r)
  end.

(** Compares without regard to case. *)
Definition sampleCompare (a b : string) : comparison :=
  String.compare (lowerCase a) (lowerCase b).

Fixpoint tally (n : nat) : string :=
  match n with
  | O => EmptyString
  | S k => String "i" (tally k)
  end.

(** The clock reads ["T"], ["Ti"], ["Tii"], ... *)
Definition sampleNow (n : nat) : string := String "T" (tally n).

(** The ids are ["u"], ["ui"], ["uii"], ... *)
Definition sampleUuid (n : nat) : string := String "u" (tally n).

Definition sampleTypeError : string := "TypeError".

(** *** [String(v)] *)

(** The decimal digits of a natural number. *)
Definition digits (x : Z) : string :=
  NilZero.string_of_uint (N.to_uint (Z.to_N x)).

(** The distance from the double [x] to the next one. *)
Definition ulp (x : Z) : Z :=
  let e := Z.log2 x in if (e <=? 52)%Z then 1%Z else (2 ^ (e - 52))%Z.

(** The double nearest to the natural number [x], ties to even. *)
Definition nearestDouble (x : Z) : Z :=
  let u := ulp x in
  let q := (x / u)%Z in
  let r := (x mod u)%Z in
  if (2 * r <? u)%Z then (q * u)%Z
  else if (u <? 2 * r)%Z then ((q + 1) * u)%Z
  else if Z.even q then (q * u)%Z else ((q + 1) * u)%Z.

(** Whether the natural number [v] is read as the double [x]. *)
Definition readsAs (x v : Z) : bool := (nearestDouble v =? x)%Z.

Fixpoint dropZeros (l : list ascii) : list ascii :=
  match l with
  | "0"%char :: r => dropZeros r
  | _ => l
  end.

(** [ds] without the zeros it ends with. *)
Definition significant (ds : string) : string :=
  string_of_list_ascii (rev (dropZeros (rev (list_ascii_of_string ds)))).

(** The natural number with the fewest digits before its last zeros that
    is read as the double [x]; of two, the nearer to [x]; of two as near,
    the one that ends in an even digit.  [k] digits are tried next. *)
Fixpoint shortest (fuel : nat) (k : Z) (x : Z) : Z :=
  match fuel with
  | O => x
  | S f =>
      let p := (Z.of_nat (String.length (digits x)) - k)%Z in
      if (p <=? 0)%Z then x
      else
        let lo := (x / 10 ^ p * 10 ^ p)%Z in
        let hi := (lo + 10 ^ p)%Z in
        match readsAs x lo, readsAs x hi with
        | true, true =>
            if (x - lo <? hi - x)%Z then lo
            else if (hi - x <? x - lo)%Z then hi
            else if Z.even (lo / 10 ^ p) then lo else hi
        | true, false => lo
        | false, true => hi
        | false, false => shortest f (k + 1)%Z x
        end
  end.

(** [Number.prototype.toString] on a double that is a natural number: all
    the digits up to twenty-one of them, an exponent beyond. *)
Definition naturalToString (x : Z) : string :=
  let ds := digits (shortest 17 1 x) in
  let n := Z.of_nat (String.length ds) in
  if (n <=? 21)%Z then ds
  else
    match significant ds with
    | String d EmptyString => String d ("e+" ++ digits (n - 1))%string
    | String d rest => String d ("." ++ rest ++ "e+" ++ digits (n - 1))%string
    | EmptyString => ds
    end.

(** [String(n)]: [VNum n] stands for the double nearest to [n]. *)
Definition numberToString (n : Z) : string :=
  let x := nearestDouble (Z.abs n) in
  if (2 ^ 1024 <=? x)%Z then (if (n <? 0)%Z then "-Infinity" else "Infinity")
  else if (n <? 0)%Z then ("-" ++ naturalToString x)%string
  else naturalToString x.

(** [String(v)] for a value read by [JSON.parse].  An array is joined with
    commas, [null] standing for the empty string.  An object has the text
    of [Object.prototype.toString], unless it has a property [toString] of
    its own: that property is no function, [valueOf] returns the object,
    and the conversion throws. *)
Fixpoint sampleStringOf (v : value) : outcome string :=
  match v with
  | VUndefined => Ok "undefined"
  | VNull => Ok "null"
  | VBool true => Ok "true"
  | VBool false => Ok "false"
  | VNum n => Ok (numberToString n)
  | VStr s => Ok s
  | VArr items =>
      (fix join (l : list value) : outcome string :=
         match l with
         | [] => Ok ""
         | x :: r =>
             match (if nullish x then Ok "" else sampleStringOf x) with
             | Throw e => Throw e
             | Ok s =>
                 match r with
                 | [] => Ok s
                 | _ :: _ =>
                     match join r with
                     | Throw e => Throw e
                     | Ok t => Ok (s ++ "," ++ t)%string
                     end
                 end
             end
         end) items
  | VObj props =>
      if existsb (fun kv => fst kv =? "toString") props
      then Throw TypeError
      else Ok "[object Object]"
  end.

Definition world0 : World := mkWorld 0 0.

(** A library with one category besides the reserved one, and one prompt
    that was never used. *)
Definition sampleLibrary : DbFile :=
  mkDb 1
    [mkCategory "uncategorized" "Bez kategorii" (VStr "2024-01-01");
     mkCategory "c1" "Work" (VStr "2024-01-02")]
    [mkPrompt "p1" "Hello" "c1" "World" ["a"] false
       (VStr "2024-01-03") (VStr "2024-01-03") VNull].

Definition sampleSession : Session :=
  mkSession (mkLibrary false false sampleLibrary None None []) world0.

(** A file to import: the same prompt, used on another installation. *)
Definition usedElsewhere : value :=
  VObj [("version", VNum 1);
        ("categories", VArr []);
        ("prompts",
         VArr [VObj [("id", VStr "p1"); ("title", VStr "Hello");
                     ("categoryId", VStr "uncategorized");
                     ("content", VStr "World");
                     ("tags", VArr []); ("favorite", VBool false);
                     ("createdAt", VStr "2024-01-03");
                     ("updatedAt", VStr "2024-02-01");
                     ("lastUsedAt", VStr "2024-02-01")]])].

(** A stored document, complete, with one prompt whose fields are given. *)
Definition storedWith (title tags : value) : value :=
  VObj [("version", VNum 1);
        ("categories",
         VArr [VObj [("id", VStr "uncategorized");
                     ("name", VStr "Bez kategorii");
                     ("createdAt", VStr "2024-01-01")]]);
        ("prompts",
         VArr [VObj [("id", VStr "p1"); ("title", title);
                     ("categoryId", VStr "uncategorized");
                     ("content", VStr "World");
                     ("tags", tags); ("favorite", VBool false);
                     ("createdAt", VStr "2024-01-03");
                     ("updatedAt", VStr "2024-01-03");
                     ("lastUsedAt", VNull)]])].

(** The document both normalizers should make of it. *)
Definition storedAs (title : string) (tags : list string) : DbFile :=
  mkDb 1
    [mkCategory "uncategorized" "Bez kategorii" (VStr "2024-01-01")]
    [mkPrompt "p1" title "uncategorized" "World" tags false
       (VStr "2024-01-03") (VStr "2024-01-03") VNull].

(** What the quick-save widget sends. *)
Definition quickSave : value :=
  VObj [("title", VStr "Greeting"); ("content", VStr "Hello");
        ("tags", VStr "a,B")].

(** A file to import into the sample library: its category has the name
    of ["Work"] but for case and an id of its own, and its prompt has the
    id of the prompt of the library. *)
Definition workElsewhere : Category :=
  mkCategory "c9" "work" (VStr "2024-03-01").

Definition helloElsewhere : Prompt :=
  mkPrompt "p1" "Hello again" "c9" "World, again" ["a"; "B"] true
    (VStr "2024-01-03") (VStr "2024-03-02") VNull.

Definition sampleImport : DbFile :=
  mkDb 1
    [mkCategory "uncategorized" "Bez kategorii" (VStr "2024-03-01");
     workElsewhere]
    [helloElsewhere].

(** The sample library with a second category, and a file whose category
    is named like the first and carries the id of the second. *)
Definition twoCategories : DbFile :=
  mkDb 1
    [mkCategory "uncategorized" "Bez kategorii" (VStr "2024-01-01");
     mkCategory "c1" "Work" (VStr "2024-01-02");
     mkCategory "c2" "Other" (VStr "2024-01-02")]
    [].

Definition clashingImport : DbFile :=
  mkDb 1
    [mkCategory "uncategorized" "Bez kategorii" (VStr "2024-03-01");
     mkCategory "c2" "work" (VStr "2024-03-01")]
    [mkPrompt "p9" "Note" "c2" "Text" [] false
       (VStr "2024-03-02") (VStr "2024-03-02") VNull].

(** A draft whose title is blank. *)
Definition blankDraft : PromptDraft :=
  mkDraft None "   " "uncategorized" "World" [] false.

(** A stored document in need of repair: a padded id, a missing name, a
    prompt without id, tags out of order, twice and blank. *)
Definition rawSample : value :=
  VObj [("categories",
         VArr [VObj [("id", VStr " c1 "); ("name", VNull)]; VNum 3]);
        ("prompts",
         VArr [VObj [("title", VStr " hi "); ("categoryId", VStr "c1");
                     ("tags", VArr [VStr " b"; VStr "A"; VStr "b"; VStr ""])];
               VObj [("id", VStr "p2"); ("categoryId", VStr "gone");
                     ("lastUsedAt", VNum 0)]])].

Definition repairedSample : DbFile :=
  mkDb 1
    [mkCategory "c1" "Bez nazwy" (VStr "Ti");
     mkCategory "uncategorized" "Bez kategorii" (VStr "T")]
    [mkPrompt "u" "hi" "c1" "" ["A"; "b"] false (VStr "Tii") (VStr "Tiii") VNull;
     mkPrompt "p2" "Nowy prompt" "uncategorized" "" [] false
        (VStr "Tiiii") (VStr "Tiiiii") VNull].


(** The prompt of the sample library. *)
Definition sampleHello : Prompt :=
  mkPrompt "p1" "Hello" "c1" "World" ["a"] false
    (VStr "2024-01-03") (VStr "2024-01-03") VNull.

(** A draft that edits it, and a draft for a new prompt whose category
    does not exist. *)
Definition helloDraft : PromptDraft :=
  mkDraft (Some "p1") " Hello again " "c1" " New text " [" b "; "a"; "b"] true.

Definition noteDraft : PromptDraft :=
  mkDraft None " Note " "nowhere" " Text " [] false.

(** A document in which two categories and two prompts share an id. *)
Definition twiceCategories : list Category :=
  [mkCategory "uncategorized" "Bez kategorii" (VStr "2024-01-01");
   mkCategory "c1" "Work" (VStr "2024-01-02");
   mkCategory "c1" "Play" (VStr "2024-01-05")].

Definition twicePrompts : list Prompt :=
  [sampleHello;
   mkPrompt "p1" "Bye" "uncategorized" "" [] true
     (VStr "2024-01-04") (VStr "2024-01-04") VNull].

(** The load of the sample and the render that shows it; then [copyPrompt]
    of ["p2"] is called, and a category is created while the clipboard is
    written. *)
Definition copying : list call :=
  [CallLoaded (mkStore (Plain rawSample) []); CallRender;
   CallCopyPrompt "p2"; CallCreateCategory "Later"].

(** The document the updates that wait then lead to. *)
Definition afterCopying : DbFile :=
  mkDb 1
    [mkCategory "c1" "Bez nazwy" (VStr "Tii");
     mkCategory "uncategorized" "Bez kategorii" (VStr "Ti");
     mkCategory "ui" "Later" (VStr "Tiiiiiii")]
    [mkPrompt "u" "hi" "c1" "" ["A"; "b"] false (VStr "Tiii") (VStr "Tiiii")
       VNull;
     mkPrompt "p2" "Nowy prompt" "uncategorized" "" [] false
       (VStr "Tiiiii") (VStr "Tiiiiii") VNull].

(** A document whose one prompt has a tag that is an object with a
    property [toString]. *)
Definition badTags : value :=
  VObj [("prompts",
         VArr [VObj [("tags",
                      VArr [VStr "a"; VObj [("toString", VNum 1)]])]])].

(** What [normalizeDb] makes of [usedElsewhere] at the first reading of
    the clock. *)
Definition usedElsewhereDb : DbFile :=
  mkDb 1
    [mkCategory "uncategorized" "Bez kategorii" (VStr "T")]
    [mkPrompt "p1" "Hello" "uncategorized" "World" [] false
       (VStr "2024-01-03") (VStr "2024-02-01") (VStr "2024-02-01")].

(** [xs.map(f)] where [f] may throw: the first exception ends the loop. *)
Fixpoint traverse {A B} (f : A -> outcome B) (l : list A) : outcome (list B) :=
  match l with
  | [] => Ok []
  | x :: r =>
      match f x with
      | Throw e => Throw e
      | Ok y =>
          match traverse f r with
          | Throw e => Throw e
          | Ok ys => Ok (y :: ys)
          end
      end
  end.

(** [v.map((tag) => tag.trim())]: only an array has [map]. *)
Definition mapTrim (v : value) : outcome (list string) :=
  match v with
  | VArr items => traverse callTrim items
  | _ => Throw TypeError
  end.

(** ** [src/App.tsx] *)

Section App.

Set Default Proof Using "Type".

(** [a.localeCompare(b, "pl", { sensitivity: "base" })], by its sign *)
Variable localeCompare : string -> string -> comparison.
(** [s.toLowerCase()] *)
Variable toLowerCase : string -> string.
(** the message of a [TypeError] the engine raises *)
Variable typeErrorMessage : string.
(** [String(v)] for a [v] that is not a string *)
Variable stringOfOther : value -> outcome string.
(** what the n-th reading of the clock returns *)
Variable nowAt : nat -> string.
(** what the n-th call of the id generator returns *)
Variable uuidAt : nat -> string.

Definition nowIso : M string :=
  fun w => (Ok (nowAt (ticks w)), mkWorld (S (ticks w)) (draws w)).

Definition uuid : M string :=
  fun w => (Ok (uuidAt (draws w)), mkWorld (ticks w) (S (draws w))).

(** [v || nowIso()] *)
Definition orNow (v : value) : M value :=
  if truthy v then ret v else (now <- nowIso ;; ret (VStr now)).

(** [{ id: UNCATEGORIZED_ID, name: "Bez kategorii", createdAt: nowIso() }] *)
Definition uncategorized : M Category :=
  now <- nowIso ;;
  ret (mkCategory UNCATEGORIZED_ID "Bez kategorii" (VStr now)).

Definition defaultDb : M DbFile :=
  c <- uncategorized ;;
  ret (mkDb 1 [c] []).

(** [categories.some((c) => c.id === UNCATEGORIZED_ID)] *)
Fixpoint someUncategorized (cs : list value) : outcome bool :=
  match cs with
  | [] => Ok false
  | c :: rest =>
      match get c "id" with
      | Throw e => Throw e
      | Ok v => if isString v UNCATEGORIZED_ID then Ok true
                else someUncategorized rest
      end
  end.

(** The tags of a prompt, as every writer of the UI computes them. *)
Definition tagSet (l : list string) : list string :=
  sortedSet localeCompare (map trim l).

(** [categoryMap.has(v) ? v : UNCATEGORIZED_ID] *)
Definition resolveCategory (categoryMap : Map Category) (v : value) : string :=
  match v with
  | VStr s => if map_has categoryMap s then s else UNCATEGORIZED_ID
  | _ => UNCATEGORIZED_ID
  end.

(** The first loop of [normalizeDb]. *)
Fixpoint categoryLoop (cs : list value) (categoryMap : Map Category)
  : M (Map Category) :=
  match cs with
  | [] => ret categoryMap
  | c :: rest =>
      idv <- lift (get c "id") ;;
      id <- lift (callTrim (orElse idv (VStr ""))) ;;
      if negb (nonEmpty id) || map_has categoryMap id
      then categoryLoop rest categoryMap
      else
        namev <- lift (get c "name") ;;
        name <- lift (trimOr namev "Bez nazwy") ;;
        cv <- lift (get c "createdAt") ;;
        createdAt <- orNow cv ;;
        categoryLoop rest
          (map_set categoryMap id (mkCategory id name createdAt))
  end.

(** The second loop of [normalizeDb]. *)
Fixpoint promptLoop (categoryMap : Map Category) (ps : list value)
    (promptMap : Map Prompt) : M (Map Prompt) :=
  match ps with
  | [] => ret promptMap
  | p :: rest =>
      idv <- lift (get p "id") ;;
      t <- lift (callTrim (orElse idv (VStr ""))) ;;
      id <- (if nonEmpty t then ret t else uuid) ;;
      if map_has promptMap id then promptLoop categoryMap rest promptMap
      else
        tagsv <- lift (get p "tags") ;;
        trimmed <- lift (mapTrim (orElse tagsv (VArr []))) ;;
        let tags := sortedSet localeCompare trimmed in
        titlev <- lift (get p "title") ;;
        title <- lift (trimOr titlev "Nowy prompt") ;;
        catv <- lift (get p "categoryId") ;;
        contentv <- lift (get p "content") ;;
        content <- lift (trimOr contentv "") ;;
        favv <- lift (get p "favorite") ;;
        createdv <- lift (get p "createdAt") ;;
        createdAt <- orNow createdv ;;
        updatedv <- lift (get p "updatedAt") ;;
        updatedAt <- orNow (orDefault updatedv createdv) ;;
        lastv <- lift (get p "lastUsedAt") ;;
        promptLoop categoryMap rest
          (map_set promptMap id
             (mkPrompt id title (resolveCategory categoryMap catv) content
                       tags (truthy favv) createdAt updatedAt
                       (orDefault lastv VNull)))
  end.

Definition normalizeDb (input : value) : M DbFile :=
  cats <- lift (get input "categories") ;;
  categories <- lift (iterate (orElse cats (VArr []))) ;;
  found <- lift (someUncategorized categories) ;;
  categories <- (if found then ret categories
                 else c <- uncategorized ;;
                      ret (categories ++ [categoryValue c])) ;;
  categoryMap <- categoryLoop categories [] ;;
  categoryMap <- (if map_has categoryMap UNCATEGORIZED_ID then ret categoryMap
                  else c <- uncategorized ;;
                       ret (map_set categoryMap UNCATEGORIZED_ID c)) ;;
  ps <- lift (get input "prompts") ;;
  promptList <- lift (iterate (orElse ps (VArr []))) ;;
  promptMap <- promptLoop categoryMap promptList [] ;;
  ret (mkDb 1 (map_values categoryMap) (map_values promptMap)).




(** *** [mergeImported] *)

(** [x || uuid()] *)
Definition orUuid (x : string) : M string :=
  if nonEmpty x then ret x else uuid.

(** The loop over [imported.categories]: the categories of [next], the
    id-to-id map and the name-to-id map. *)
Fixpoint mergeCategories (imported : list Category) (cats : list Category)
    (categoryIdMap categoryNameMap : Map string)
  : M (list Category * Map string) :=
  match imported with
  | [] => ret (cats, categoryIdMap)
  | importedCategory :: rest =>
      importedId <- orUuid (c_id importedCategory) ;;
      if map_has categoryIdMap importedId
      then mergeCategories rest cats
             (map_set categoryIdMap importedId importedId) categoryNameMap
      else
        let name := toLowerCase (c_name importedCategory) in
        match map_get categoryNameMap name with
        | Some existingByName =>
            if nonEmpty existingByName
            then mergeCategories rest cats
                   (map_set categoryIdMap importedId existingByName)
                   categoryNameMap
            else mergeCategories rest (cats ++ [importedCategory])
                   (map_set categoryIdMap importedId importedId)
                   (map_set categoryNameMap name importedId)
        | None =>
            mergeCategories rest (cats ++ [importedCategory])
              (map_set categoryIdMap importedId importedId)
              (map_set categoryNameMap name importedId)
        end
  end.

(** [categoryIdMap.get(id) ?? UNCATEGORIZED_ID] *)
Definition resolveImported (categoryIdMap : Map string) (id : string) : string :=
  match map_get categoryIdMap id with
  | Some target => target
  | None => UNCATEGORIZED_ID
  end.

(** The record [mergeImported] stores for an imported prompt: the prompt
    with its id, its category id sent through the id-to-id map, and its
    tags made a sorted set again. *)
Definition rewritten (categoryIdMap : Map string) (id : string)
    (importedPrompt : Prompt) : Prompt :=
  mkPrompt id (p_title importedPrompt)
    (resolveImported categoryIdMap (p_categoryId importedPrompt))
    (p_content importedPrompt) (tagSet (p_tags importedPrompt))
    (p_favorite importedPrompt) (p_createdAt importedPrompt)
    (p_updatedAt importedPrompt) (p_lastUsedAt importedPrompt).

(** The loop over [imported.prompts]. *)
Fixpoint mergePrompts (categoryIdMap : Map string) (imported : list Prompt)
    (promptById : Map Prompt) : M (Map Prompt) :=
  match imported with
  | [] => ret promptById
  | importedPrompt :: rest =>
      id <- orUuid (p_id importedPrompt) ;;
      mergePrompts categoryIdMap rest
        (map_set promptById id (rewritten categoryIdMap id importedPrompt))
  end.

(** The first half of [mergeImported]: the categories of [next] and the
    finished id-to-id map. *)
Definition mergedCategories (current imported : DbFile)
  : M (list Category * Map string) :=
  let cats := categories current in
  let categoryIdMap := map_of (map (fun c => (c_id c, c_id c)) cats) in
  let categoryNameMap :=
    map_of (map (fun c => (toLowerCase (c_name c), c_id c)) cats) in
  merged <- mergeCategories (categories imported) cats
              categoryIdMap categoryNameMap ;;
  ret (fst merged, map_set (snd merged) UNCATEGORIZED_ID UNCATEGORIZED_ID).

(** The document [mergeImported] hands to [normalizeDb]. *)
Definition mergeNext (current imported : DbFile) : M DbFile :=
  merged <- mergedCategories current imported ;;
  let promptById := map_of (map (fun p => (p_id p, p)) (prompts current)) in
  promptById <- mergePrompts (snd merged) (prompts imported) promptById ;;
  ret (mkDb 1 (fst merged) (map_values promptById)).

Definition mergeImported (current imported : DbFile) : M DbFile :=
  next <- mergeNext current imported ;;
  normalizeDb (dbValue next).
(** *** [useLibrary] *)

(** A computation on the clock and the id generator, run by the hook. *)
Definition inWorld {A} (m : M A) : Ctl A :=
  fun s => let (r, w) := m (world s) in (r, mkSession (lib s) w).

Definition update (f : Library -> Library) : Ctl unit :=
  fun s => (Ok tt, mkSession (f (lib s)) (world s)).

Definition setError (e : option string) : Ctl unit :=
  update (fun l => mkLibrary (loading l) (backupPending l) (db l) e
                             (toast l) (queue l)).

Definition setToast (t : option string) : Ctl unit :=
  update (fun l => mkLibrary (loading l) (backupPending l) (db l) (error l)
                             t (queue l)).

Definition setBackupPending (b : bool) : Ctl unit :=
  update (fun l => mkLibrary (loading l) b (db l) (error l) (toast l)
                             (queue l)).

Definition setDb (updater : DbFile -> M DbFile) : Ctl unit :=
  update (fun l => mkLibrary (loading l) (backupPending l) (db l) (error l)
                             (toast l) (queue l ++ [updater])).

(** [(prev) => normalizeDb(mutator(prev))] *)
Definition committed (mutator : DbFile -> M DbFile) : DbFile -> M DbFile :=
  fun prev => next <- mutator prev ;; normalizeDb (dbValue next).

Definition commit (mutator : DbFile -> M DbFile) (toastMessage : string)
  : Ctl unit :=
  setError None ;;;
  setDb (committed mutator) ;;;
  setBackupPending true ;;;
  (if nonEmpty toastMessage then setToast (Some toastMessage) else ret tt).

(** [e instanceof Error ? e.message : ...]: every exception raised here is
    an [Error]. *)
Definition messageOf (e : exn) : string :=
  match e with
  | TypeError => typeErrorMessage
  | Error message => message
  end.

Definition withValidation (action : Ctl unit) : Ctl unit :=
  tryCatch action (fun e => setError (Some (messageOf e))).

(** The queued updaters, applied in order to the document. *)
Fixpoint runQueue (q : list (DbFile -> M DbFile)) (d : DbFile) : M DbFile :=
  match q with
  | [] => ret d
  | updater :: rest => d' <- updater d ;; runQueue rest d'
  end.

(** The next render of the component.  An updater that throws makes the
    render throw: no handler of the hook is on the stack then. *)
Definition render : Ctl unit :=
  fun s =>
    let l := lib s in
    match runQueue (queue l) (db l) (world s) with
    | (Ok d, w) =>
        (Ok tt, mkSession (mkLibrary (loading l) (backupPending l) d (error l)
                                     (toast l) []) w)
    | (Throw e, w) => (Throw e, mkSession l w)
    end.

Definition withPrompts (prev : DbFile) (ps : list Prompt) : DbFile :=
  mkDb (version prev) (categories prev) ps.

Definition upsertMutator (draft : PromptDraft) (promptId : string)
    (prev : DbFile) : M DbFile :=
  now <- nowIso ;;
  let categoryId :=
    if existsb (fun c => c_id c =? d_categoryId draft) (categories prev)
    then d_categoryId draft else UNCATEGORIZED_ID in
  let tags := tagSet (d_tags draft) in
  match find (fun p => p_id p =? promptId) (prompts prev) with
  | Some _ =>
      ret (withPrompts prev
             (map (fun p =>
                     if p_id p =? promptId
                     then mkPrompt (p_id p) (trim (d_title draft)) categoryId
                            (trim (d_content draft)) tags (d_favorite draft)
                            (p_createdAt p) (VStr now) (p_lastUsedAt p)
                     else p)
                  (prompts prev)))
  | None =>
      ret (withPrompts prev
             (prompts prev ++
              [mkPrompt promptId (trim (d_title draft)) categoryId
                 (trim (d_content draft)) tags (d_favorite draft)
                 (VStr now) (VStr now) VNull]))
  end.

Definition upsertPrompt (draft : PromptDraft) : Ctl string :=
  if negb (nonEmpty (trim (d_title draft)))
  then raise (Error "Pole title jest wymagane")
  else if negb (nonEmpty (trim (d_categoryId draft)))
  then raise (Error "Pole categoryId jest wymagane")
  else if negb (nonEmpty (trim (d_content draft)))
  then raise (Error "Pole content jest wymagane")
  else
    promptId <- inWorld (match d_id draft with
                         | Some id => orUuid id
                         | None => uuid
                         end) ;;
    withValidation (commit (upsertMutator draft promptId) "Zapisano") ;;;
    ret promptId.

Definition deletePromptMutator (id : string) (prev : DbFile) : M DbFile :=
  ret (withPrompts prev
         (filter (fun p => negb (p_id p =? id)) (prompts prev))).

Definition deletePrompt (id : string) : Ctl unit :=
  withValidation (commit (deletePromptMutator id) "Usunięto prompt").

Definition duplicateMutator (id copyId : string) (prev : DbFile) : M DbFile :=
  match find (fun p => p_id p =? id) (prompts prev) with
  | None => raise (Error "Prompt nie istnieje")
  | Some original =>
      now <- nowIso ;;
      ret (withPrompts prev
             (prompts prev ++
              [mkPrompt copyId (p_title original ++ " (kopia)")
                 (p_categoryId original) (p_content original)
                 (p_tags original) (p_favorite original)
                 (VStr now) (VStr now) VNull]))
  end.

Definition duplicatePrompt (id : string) : Ctl string :=
  copyId <- inWorld uuid ;;
  withValidation (commit (duplicateMutator id copyId) "Zduplikowano") ;;;
  ret copyId.

(** [{ ...p, lastUsedAt: now, updatedAt: now }] *)
Definition stamped (now : string) (p : Prompt) : Prompt :=
  mkPrompt (p_id p) (p_title p) (p_categoryId p) (p_content p) (p_tags p)
           (p_favorite p) (p_createdAt p) (VStr now) (VStr now).

Definition stampMutator (id : string) (prev : DbFile) : M DbFile :=
  now <- nowIso ;;
  ret (withPrompts prev
         (map (fun p => if p_id p =? id then stamped now p else p)
              (prompts prev))).

(** [copyPrompt] up to its [await]: the text it hands to
    [navigator.clipboard.writeText], when the document on show has the
    prompt. *)
Definition copyPrompt (id : string) : Ctl (option string) :=
  fun s =>
    match find (fun p => p_id p =? id) (prompts (db (lib s))) with
    | None => (setError (Some "Prompt nie istnieje") ;;; ret None) s
    | Some prompt => ret (Some (p_content prompt)) s
    end.

(** [copyPrompt] from its [await] on: [answer] is how the promise of
    [writeText] was settled.  Other calls and renders may have run since
    the text was handed over. *)
Definition copyPromptResumed (id : string) (answer : outcome unit)
  : Ctl unit :=
  match answer with
  | Throw _ => setError (Some "Nie udało się skopiować do schowka")
  | Ok _ => commit (stampMutator id) "Skopiowano"
  end.

Definition createCategoryMutator (trimmed : string) (prev : DbFile)
  : M DbFile :=
  if existsb (fun c => toLowerCase (c_name c) =? toLowerCase trimmed)
             (categories prev)
  then raise (Error "Kategoria o tej nazwie już istnieje")
  else
    id <- uuid ;;
    now <- nowIso ;;
    ret (mkDb (version prev)
           (categories prev ++ [mkCategory id trimmed (VStr now)])
           (prompts prev)).

(** The function [createCategory] hands to [withValidation]. *)
Definition createCategoryAction (name : string) : Ctl unit :=
  let trimmed := trim name in
  if negb (nonEmpty trimmed)
  then raise (Error "Nazwa kategorii jest wymagana")
  else commit (createCategoryMutator trimmed) "Dodano kategorię".

Definition createCategory (name : string) : Ctl unit :=
  withValidation (createCategoryAction name).

Definition renameCategoryMutator (id trimmed : string) (prev : DbFile)
  : M DbFile :=
  if existsb (fun c => negb (c_id c =? id) &&
                       (toLowerCase (c_name c) =? toLowerCase trimmed))
             (categories prev)
  then raise (Error "Kategoria o tej nazwie już istnieje")
  else if negb (existsb (fun c => c_id c =? id) (categories prev))
  then raise (Error "Kategoria nie istnieje")
  else
    ret (mkDb (version prev)
           (map (fun c => if c_id c =? id
                          then mkCategory (c_id c) trimmed (c_createdAt c)
                          else c) (categories prev))
           (prompts prev)).

(** The function [renameCategory] hands to [withValidation]. *)
Definition renameCategoryAction (id name : string) : Ctl unit :=
  let trimmed := trim name in
  if negb (nonEmpty trimmed)
  then raise (Error "Nazwa kategorii jest wymagana")
  else if id =? UNCATEGORIZED_ID
  then raise (Error "Nie można zmienić nazwy kategorii Bez kategorii")
  else commit (renameCategoryMutator id trimmed) "Zmieniono nazwę kategorii".

Definition renameCategory (id name : string) : Ctl unit :=
  withValidation (renameCategoryAction id name).

Definition deleteCategoryMutator (id : string) (prev : DbFile) : M DbFile :=
  if negb (existsb (fun c => c_id c =? id) (categories prev))
  then raise (Error "Kategoria nie istnieje")
  else
    ps <- mapM (fun p =>
                  if p_categoryId p =? id
                  then now <- nowIso ;;
                       ret (mkPrompt (p_id p) (p_title p) UNCATEGORIZED_ID
                              (p_content p) (p_tags p) (p_favorite p)
                              (p_createdAt p) (VStr now) (p_lastUsedAt p))
                  else ret p)
               (prompts prev) ;;
    ret (mkDb (version prev)
           (filter (fun c => negb (c_id c =? id)) (categories prev))
           ps).

(** The function [deleteCategory] hands to [withValidation]. *)
Definition deleteCategoryAction (id : string) : Ctl unit :=
  if id =? UNCATEGORIZED_ID
  then raise (Error "Nie można usunąć kategorii Bez kategorii")
  else commit (deleteCategoryMutator id) "Usunięto kategorię".

Definition deleteCategory (id : string) : Ctl unit :=
  withValidation (deleteCategoryAction id).

(** [parsed] is what [JSON.parse(raw)] returns or throws. *)
Definition importJson (parsed : outcome value) : Ctl unit :=
  withValidation
    (v <- lift parsed ;;
     normalizedImported <- inWorld (normalizeDb v) ;;
     commit (fun prev => mergeImported prev normalizedImported)
            "Zaimportowano dane").

Definition clearError : Ctl unit := setError None.

Definition dismissBackupNotice : Ctl unit := setBackupPending false.

(** [readStoredDbRaw], with the storage of the extension: a text, as
    whether it is empty and what [JSON.parse] makes of it, or [null].
    [JSON.stringify] of an object that was stored as such is taken to be a
    text from which [JSON.parse] reads the object back.  ([localStorage],
    used outside the extension, holds nothing but texts.) *)
Definition readStoredDbRaw : St Store (option (bool * outcome value)) :=
  value <- storageGet ;;
  match value with
  | Text isEmpty parsed => ret (Some (isEmpty, parsed))
  | Plain v => if isObject v then ret (Some (false, Ok v)) else ret None
  | Absent => ret None
  end.

(** [writeStoredDbRaw(JSON.stringify(d))] *)
Definition writeStoredDbRaw (d : DbFile) : St Store unit := storageSet d.

Definition loadDb : IO DbFile :=
  raw <- onStore readStoredDbRaw ;;
  match raw with
  | None | Some (true, _) =>
      initial <- onWorld defaultDb ;;
      onStore (writeStoredDbRaw initial) ;;;
      ret initial
  | Some (false, parsed) =>
      tryCatch
        (parsed <- lift parsed ;;
         normalized <- onWorld (normalizeDb parsed) ;;
         onStore (writeStoredDbRaw normalized) ;;;
         ret normalized)
        (fun _ =>
           fallback <- onWorld defaultDb ;;
           onStore (writeStoredDbRaw fallback) ;;;
           ret fallback)
  end.

Definition setLoading (b : bool) : Ctl unit :=
  update (fun l => mkLibrary b (backupPending l) (db l) (error l) (toast l)
                             (queue l)).

(** The effect that runs once after the first render, on the store [st].
    It is started with [void]: when [loadDb] is rejected nothing is set,
    and nothing is thrown to anyone. *)
Definition loaded (st : Store) : Ctl unit :=
  fun s =>
    match loadDb (world s, st) with
    | (Ok d, (w, _)) =>
        (setDb (fun _ => ret d) ;;; setLoading false) (mkSession (lib s) w)
    | (Throw _, (w, _)) => (Ok tt, mkSession (lib s) w)
    end.

(** The state of the hook at its first render. *)
Definition firstRender (w : World) : Session :=
  match defaultDb w with
  | (Ok d, w') => mkSession (mkLibrary true false d None None []) w'
  | (Throw _, w') =>
      mkSession (mkLibrary true false (mkDb 1 [] []) None None []) w'
  end.

(** The session [s] with [message] as its last error: the document, the
    updates that wait and the clock are as they were. *)
Definition surfaced (s : Session) (message : string) : Session :=
  let l := lib s in
  mkSession (mkLibrary (loading l) (backupPending l) (db l) (Some message)
                       (toast l) (queue l))
            (world s).

Definition perform (c : call) : Ctl unit :=
  match c with
  | CallLoaded st => loaded st
  | CallUpsertPrompt draft => upsertPrompt draft ;;; ret tt
  | CallDeletePrompt id => deletePrompt id
  | CallDuplicatePrompt id => duplicatePrompt id ;;; ret tt
  | CallCopyPrompt id => copyPrompt id ;;; ret tt
  | CallClipboardAnswered id answer => copyPromptResumed id answer
  | CallCreateCategory name => createCategory name
  | CallRenameCategory id name => renameCategory id name
  | CallDeleteCategory id => deleteCategory id
  | CallImportJson parsed => importJson parsed
  | CallClearError => clearError
  | CallDismissBackupNotice => dismissBackupNotice
  | CallRender => render
  end.

(** The session after a sequence of calls, whether they return or throw. *)
Fixpoint performAll (cs : list call) (s : Session) : Session :=
  match cs with
  | [] => s
  | c :: rest => performAll rest (snd (perform c s))
  end.

Definition editMutator (e : edit) : DbFile -> M DbFile :=
  match e with
  | EditUpsertPrompt draft promptId => upsertMutator draft promptId
  | EditDeletePrompt id => deletePromptMutator id
  | EditDuplicatePrompt id copyId => duplicateMutator id copyId
  | EditCreateCategory trimmed => createCategoryMutator trimmed
  | EditRenameCategory id trimmed => renameCategoryMutator id trimmed
  | EditDeleteCategory id => deleteCategoryMutator id
  end.

(** The calls that edit the library through one of these mutators. *)
Definition isEdit (c : call) : bool :=
  match c with
  | CallUpsertPrompt _ | CallDeletePrompt _ | CallDuplicatePrompt _
  | CallCreateCategory _ | CallRenameCategory _ _ | CallDeleteCategory _ =>
      true
  | _ => false
  end.

(** ** Canonical documents *)

(** What is stored never starts or ends with white space. *)
Definition category_shape (c : Category) : Prop :=
  trimmed (c_id c) /\ c_id c <> "" /\
  trimmed (c_name c) /\ c_name c <> "".

Definition category_ok (c : Category) : Prop :=
  category_shape c /\ truthy (c_createdAt c) = true.

(** [ids] are the ids of the document's categories. *)
Definition prompt_shape (ids : list string) (p : Prompt) : Prop :=
  trimmed (p_title p) /\ p_title p <> "" /\
  In (p_categoryId p) ids /\
  trimmed (p_content p) /\
  Forall (fun t => trimmed t /\ t <> "") (p_tags p) /\
  NoDup (p_tags p) /\
  (p_lastUsedAt p = VNull \/ truthy (p_lastUsedAt p) = true).

Definition prompt_ok (ids : list string) (p : Prompt) : Prop :=
  prompt_shape ids p /\
  trimmed (p_id p) /\ p_id p <> "" /\
  sortedBy localeCompare (p_tags p) /\
  truthy (p_createdAt p) = true /\
  truthy (p_updatedAt p) = true.

(** The documents [normalizeDb] returns (see [normalizeDb_canonical]) and
    leaves as they are (see [normalizeDb_fixed]). *)
Definition canonical (d : DbFile) : Prop :=
  version d = 1%Z /\
  NoDup (map c_id (categories d)) /\
  In UNCATEGORIZED_ID (map c_id (categories d)) /\
  Forall category_ok (categories d) /\
  NoDup (map p_id (prompts d)) /\
  Forall (prompt_ok (map c_id (categories d))) (prompts d).

(** What the platform is asked for: a timestamp is not empty, an id is not
    empty and has no white space around it. *)
Definition clock_ok : Prop := forall n, nowAt n <> "".

Definition ids_ok : Prop := forall n, trimmed (uuidAt n) /\ uuidAt n <> "".

(** The entries of a [Map] built from a list of records. *)
Definition categoryEntries (l : list Category) : Map Category :=
  map (fun c => (c_id c, c)) l.

Definition promptEntries (l : list Prompt) : Map Prompt :=
  map (fun p => (p_id p, p)) l.

(** One turn of the first loop of [normalizeDb]: the category [out] it
    stores for the array element [c]. *)
Definition categoryOf (c : value) (out : Category) : Prop :=
  exists idv namev cv w w',
    get c "id" = Ok idv /\
    callTrim (orElse idv (VStr "")) = Ok (c_id out) /\
    nonEmpty (c_id out) = true /\
    get c "name" = Ok namev /\
    trimOr namev "Bez nazwy" = Ok (c_name out) /\
    get c "createdAt" = Ok cv /\
    orNow cv w = (Ok (c_createdAt out), w').

(** One turn of the second loop: the prompt [out] it stores for [p]. *)
Definition promptOf (cm : Map Category) (p : value) (out : Prompt) : Prop :=
  exists idv t w0 w1 tagsv strings titlev catv contentv favv
         createdv w2 updatedv w3 lastv,
    get p "id" = Ok idv /\
    callTrim (orElse idv (VStr "")) = Ok t /\
    (if nonEmpty t then ret t else uuid) w0 = (Ok (p_id out), w1) /\
    get p "tags" = Ok tagsv /\
    mapTrim (orElse tagsv (VArr [])) = Ok strings /\
    p_tags out = sortedSet localeCompare strings /\
    get p "title" = Ok titlev /\
    trimOr titlev "Nowy prompt" = Ok (p_title out) /\
    get p "categoryId" = Ok catv /\
    p_categoryId out = resolveCategory cm catv /\
    get p "content" = Ok contentv /\
    trimOr contentv "" = Ok (p_content out) /\
    get p "favorite" = Ok favv /\
    p_favorite out = truthy favv /\
    get p "createdAt" = Ok createdv /\
    orNow createdv w1 = (Ok (p_createdAt out), w2) /\
    get p "updatedAt" = Ok updatedv /\
    orNow (orDefault updatedv createdv) w2 = (Ok (p_updatedAt out), w3) /\
    get p "lastUsedAt" = Ok lastv /\
    p_lastUsedAt out = orDefault lastv VNull.

(** The entries a loop has added: each under its own id, each made from an
    element of the array. *)
Definition categoriesFrom (cs : list value) (added : Map Category) : Prop :=
  Forall (fun kv => fst kv = c_id (snd kv) /\
                    exists c, In c cs /\ categoryOf c (snd kv)) added.

Definition promptsFrom (cm : Map Category) (ps : list value)
    (added : Map Prompt) : Prop :=
  Forall (fun kv => fst kv = p_id (snd kv) /\
                    exists p, In p ps /\ promptOf cm p (snd kv)) added.

(** The categories of the result: unique ids, the reserved one among them. *)
Definition categoryMap_ok (cm : Map Category) : Prop :=
  NoDup (map fst cm) /\
  In UNCATEGORIZED_ID (map fst cm) /\
  Forall (fun kv => fst kv = c_id (snd kv) /\ category_shape (snd kv) /\
                    (clock_ok -> category_ok (snd kv))) cm.


(** No text of the document starts or ends with white space, and no tag is
    empty. *)
Definition text_trimmed (d : DbFile) : Prop :=
  Forall (fun c => trimmed (c_name c)) (categories d) /\
  Forall (fun p => trimmed (p_title p) /\ trimmed (p_content p) /\
                   Forall (fun t => trimmed t /\ t <> "") (p_tags p))
         (prompts d).

(** A white space character, by its code: tab, line feed, vertical tab,
    form feed, carriage return, space, no-break space. *)
Definition whiteSpaceCode (c : ascii) : Prop :=
  In (nat_of_ascii c) [9; 10; 11; 12; 13; 32; 160].

(** [s] neither starts nor ends with a white space character. *)
Definition bare (s : string) : Prop :=
  (forall c r, s = String c r -> ~ whiteSpaceCode c) /\
  (forall r c, s = (r ++ String c "")%string -> ~ whiteSpaceCode c).

(** No text of the document starts or ends with a white space character,
    and no tag is empty. *)
Definition text_bare (d : DbFile) : Prop :=
  Forall (fun c => bare (c_name c)) (categories d) /\
  Forall (fun p => bare (p_title p) /\ bare (p_content p) /\
                   Forall (fun t => bare t /\ t <> "") (p_tags p))
         (prompts d).

(** How many categories carry the reserved id. *)
Definition reservedCount (d : DbFile) : nat :=
  length (filter (fun c => c_id c =? UNCATEGORIZED_ID) (categories d)).

(** A property of documents that [normalizeDb] and [defaultDb] establish. *)
Definition established (P : DbFile -> Prop) : Prop :=
  (forall (input : value) (d : DbFile) (w w' : World),
      normalizeDb input w = (Ok d, w') -> P d) /\
  (forall (d : DbFile) (w w' : World), defaultDb w = (Ok d, w') -> P d).

(** An updater that, when it returns, returns a document with [P]. *)
Definition yields (P : DbFile -> Prop) (updater : DbFile -> M DbFile) : Prop :=
  forall (prev d : DbFile) (w w' : World),
    updater prev w = (Ok d, w') -> P d.

(** The document of the hook has [P], and so has every document an update
    that waits can produce. *)
Definition settled (P : DbFile -> Prop) (s : Session) : Prop :=
  P (db (lib s)) /\ Forall (yields P) (queue (lib s)).

(** A computation of the hook that keeps this, however it ends. *)
Definition keeps (P : DbFile -> Prop) {A} (c : Ctl A) : Prop :=
  forall s, settled P s -> settled P (snd (c s)).

(** Every prompt of [d] that was used was already used, at the same time,
    in [prev]. *)
Definition usesFrom (prev d : DbFile) : Prop :=
  forall q, In q (prompts d) -> p_lastUsedAt q <> VNull ->
    exists p, In p (prompts prev) /\ p_id p = p_id q /\
              p_lastUsedAt p = p_lastUsedAt q.

(** The last sentence of the contract of [copyPrompt], taken to the
    letter: whatever else is called, the render that follows introduces no
    time of last use. *)
Definition onlyCopyPromptMarksUse : Prop :=
  forall (c : call) (s s' : Session),
    (forall id, c <> CallCopyPrompt id) ->
    (forall id answer, c <> CallClipboardAnswered id answer) ->
    canonical (db (lib s)) -> queue (lib s) = [] ->
    render (snd (perform c s)) = (Ok tt, s') ->
    usesFrom (db (lib s)) (db (lib s')).

(** One turn of the loop over [imported.categories], for a category whose
    id is not empty. *)
Definition mergeCategoryStep (st : list Category * Map string * Map string)
    (importedCategory : Category) : list Category * Map string * Map string :=
  let '(cats, categoryIdMap, categoryNameMap) := st in
  let importedId := c_id importedCategory in
  let name := toLowerCase (c_name importedCategory) in
  if map_has categoryIdMap importedId
  then (cats, map_set categoryIdMap importedId importedId, categoryNameMap)
  else
    match map_get categoryNameMap name with
    | Some existingByName =>
        if nonEmpty existingByName
        then (cats, map_set categoryIdMap importedId existingByName,
              categoryNameMap)
        else (cats ++ [importedCategory],
              map_set categoryIdMap importedId importedId,
              map_set categoryNameMap name importedId)
    | None =>
        (cats ++ [importedCategory],
         map_set categoryIdMap importedId importedId,
         map_set categoryNameMap name importedId)
    end.

(** One turn of the loop over [imported.prompts], likewise. *)
Definition mergePromptStep (categoryIdMap : Map string)
    (promptById : Map Prompt) (importedPrompt : Prompt) : Map Prompt :=
  map_set promptById (p_id importedPrompt)
    (rewritten categoryIdMap (p_id importedPrompt) importedPrompt).

(** What holds of the state of the loop over [imported.categories] once
    the categories [seen] have been handled: [cats0] are the categories of
    the current document, [nameMap0] its name-to-id map. *)
Definition mergeInv (cats0 : list Category) (nameMap0 : Map string)
    (seen : list Category)
    (st : list Category * Map string * Map string) : Prop :=
  let '(cats, categoryIdMap, categoryNameMap) := st in
  exists added,
    cats = cats0 ++ added /\ incl added seen /\
    NoDup (map c_id cats) /\
    (forall k, map_has categoryIdMap k = true <->
               In k (map c_id cats0) \/ In k (map c_id seen)) /\
    (forall k v, map_get categoryIdMap k = Some v -> In v (map c_id cats)) /\
    (forall k v, map_get categoryNameMap k = Some v ->
                 In v (map c_id cats)) /\
    (forall k v, map_get nameMap0 k = Some v -> v <> "" ->
                 map_get categoryNameMap k = Some v) /\
    (forall c, In c seen -> In (c_id c) (map c_id cats0) -> ~ In c added) /\
    (forall c v, In c seen -> ~ In (c_id c) (map c_id cats0) ->
                 map_get nameMap0 (toLowerCase (c_name c)) = Some v ->
                 v <> "" ->
                 map_get categoryIdMap (c_id c) = Some v /\ ~ In c added).

(** [categoryNameMap] as [mergeImported] first builds it. *)
Definition nameMapOf (cats : list Category) : Map string :=
  map_of (map (fun c => (toLowerCase (c_name c), c_id c)) cats).

(** The scenario of the category name fallback, taken to the letter: the
    imported category has the name of [c1] but for case, and another id. *)
Definition nameFallbackAsStated : Prop :=
  forall (current imported merged : DbFile) (c1 ic : Category) (w w' : World),
    canonical current -> canonical imported ->
    In c1 (categories current) -> In ic (categories imported) ->
    toLowerCase (c_name ic) = toLowerCase (c_name c1) ->
    c_id ic <> c_id c1 ->
    mergeImported current imported w = (Ok merged, w') ->
    categories merged = categories current /\
    (forall p, In p (prompts imported) -> p_categoryId p = c_id ic ->
       exists q, find (fun q => p_id q =? p_id p) (prompts merged) = Some q /\
                 p_categoryId q = c_id c1).

(** The error policy taken to the letter for [upsertPrompt]: a blank
    title ends in a last error and a call that returns. *)
Definition upsertFailureSurfaces : Prop :=
  forall (draft : PromptDraft) (s : Session),
    trim (d_title draft) = "" ->
    exists id message,
      upsertPrompt draft s = (Ok id, surfaced s message).

(** ** The background worker *)

(** [String(v)] *)
Definition stringOf (v : value) : outcome string :=
  match v with
  | VStr s => Ok s
  | _ => stringOfOther v
  end.

(** [typeof v === "string" && v ? v : d] *)
Definition stringOr (v : value) (d : string) : string :=
  match v with
  | VStr s => if nonEmpty s then s else d
  | _ => d
  end.

(** [typeof v === "string" && v.trim() ? v.trim() : d] *)
Definition trimmedOr (v : value) (d : string) : string :=
  match v with
  | VStr s => if nonEmpty (trim s) then trim s else d
  | _ => d
  end.

(** [Array.isArray(v) ? v : []] *)
Definition arrayOrEmpty (v : value) : list value :=
  match v with
  | VArr items => items
  | _ => []
  end.

(** [typeof v === "string" && v ? v : nowIso()] *)
Definition stringOrNow (v : value) : M value :=
  match v with
  | VStr s => if nonEmpty s then ret (VStr s) else now <- nowIso ;; ret (VStr now)
  | _ => now <- nowIso ;; ret (VStr now)
  end.

(** [categories.some((cat) => cat && cat.id === UNCATEGORIZED_ID)] *)
Definition worker_someUncategorized (cs : list value) : bool :=
  existsb (fun cat => truthy cat && isString (getOpt cat "id") UNCATEGORIZED_ID)
          cs.

Fixpoint worker_categoryLoop (cs : list value) (categoryMap : Map Category)
  : M (Map Category) :=
  match cs with
  | [] => ret categoryMap
  | category :: rest =>
      let id := trimmedOr (getOpt category "id") "" in
      if negb (nonEmpty id) || map_has categoryMap id
      then worker_categoryLoop rest categoryMap
      else
        let name := trimmedOr (getOpt category "name") "Bez nazwy" in
        createdAt <- stringOrNow (getOpt category "createdAt") ;;
        worker_categoryLoop rest
          (map_set categoryMap id (mkCategory id name createdAt))
  end.

Fixpoint worker_promptLoop (categoryMap : Map Category) (ps : list value)
    (promptMap : Map Prompt) : M (Map Prompt) :=
  match ps with
  | [] => ret promptMap
  | prompt :: rest =>
      let t := trimmedOr (getOpt prompt "id") "" in
      id <- (if nonEmpty t then ret t else uuid) ;;
      if map_has promptMap id then worker_promptLoop categoryMap rest promptMap
      else
        strings <- lift (traverse stringOf
                           (arrayOrEmpty (getOpt prompt "tags"))) ;;
        let tags := sortedSet String.compare (map trim strings) in
        let title := trimmedOr (getOpt prompt "title") "Nowy prompt" in
        let content := trimmedOr (getOpt prompt "content") "" in
        let createdv := getOpt prompt "createdAt" in
        createdAt <- stringOrNow createdv ;;
        updatedAt <- (match getOpt prompt "updatedAt" with
                      | VStr s => if nonEmpty s then ret (VStr s)
                                  else stringOrNow createdv
                      | _ => stringOrNow createdv
                      end) ;;
        let lastUsedAt := match getOpt prompt "lastUsedAt" with
                          | VStr s => if nonEmpty s then VStr s else VNull
                          | _ => VNull
                          end in
        worker_promptLoop categoryMap rest
          (map_set promptMap id
             (mkPrompt id title
                (resolveCategory categoryMap (getOpt prompt "categoryId"))
                content tags (truthy (getOpt prompt "favorite"))
                createdAt updatedAt lastUsedAt))
  end.

Definition worker_normalizeDb (input : value) : M DbFile :=
  base <- (if isObject input then ret input
           else d <- defaultDb ;; ret (dbValue d)) ;;
  let categories := arrayOrEmpty (getOpt base "categories") in
  categories <- (if worker_someUncategorized categories then ret categories
                 else c <- uncategorized ;;
                      ret (categories ++ [categoryValue c])) ;;
  categoryMap <- worker_categoryLoop categories [] ;;
  categoryMap <- (if map_has categoryMap UNCATEGORIZED_ID then ret categoryMap
                  else c <- uncategorized ;;
                       ret (map_set categoryMap UNCATEGORIZED_ID c)) ;;
  let promptsInput := arrayOrEmpty (getOpt base "prompts") in
  promptMap <- worker_promptLoop categoryMap promptsInput [] ;;
  ret (mkDb 1 (map_values categoryMap) (map_values promptMap)).

(** [!raw] *)
Definition noItem (raw : item) : bool :=
  match raw with
  | Absent => true
  | Text isEmpty _ => isEmpty
  | Plain v => negb (truthy v)
  end.

(** [typeof raw === "string" ? JSON.parse(raw) : raw] *)
Definition parsedItem (raw : item) : outcome value :=
  match raw with
  | Text _ parsed => parsed
  | Plain v => Ok v
  | Absent => Ok VUndefined
  end.

Definition getDb : IO DbFile :=
  raw <- onStore storageGet ;;
  if noItem raw
  then
    db <- onWorld defaultDb ;;
    onStore (storageSet db) ;;;
    ret db
  else
    tryCatch
      (parsed <- lift (parsedItem raw) ;;
       normalized <- onWorld (worker_normalizeDb parsed) ;;
       onStore (storageSet normalized) ;;;
       ret normalized)
      (fun _ =>
         db <- onWorld defaultDb ;;
         onStore (storageSet db) ;;;
         ret db).

Definition saveDb (d : DbFile) : St Store unit := storageSet d.

(** [s.split(",")] *)
Fixpoint splitComma (s : string) : list string :=
  match s with
  | EmptyString => [EmptyString]
  | String c r =>
      if Ascii.eqb c ","%char then EmptyString :: splitComma r
      else match splitComma r with
           | h :: t => String c h :: t
           | [] => [String c EmptyString]
           end
  end.

(** [savePromptFromPage]; what it returns, [{ ok: true }], is [tt]. *)
Definition savePromptFromPage (payload : value) : IO unit :=
  let title := match getOpt payload "title" with
               | VStr s => trim s | _ => "" end in
  let content := match getOpt payload "content" with
                 | VStr s => trim s | _ => "" end in
  let tagsRaw := match getOpt payload "tags" with
                 | VStr s => s | _ => "" end in
  if negb (nonEmpty title) then raise (Error "Tytul jest wymagany")
  else if negb (nonEmpty content) then raise (Error "Tresc promptu jest wymagana")
  else
    d <- getDb ;;
    now <- onWorld nowIso ;;
    let tags := sortedSet String.compare (map trim (splitComma tagsRaw)) in
    id <- onWorld uuid ;;
    let pushed :=
      withPrompts d
        (prompts d ++
         [mkPrompt id title UNCATEGORIZED_ID content tags false
            (VStr now) (VStr now) VNull]) in
    normalized <- onWorld (worker_normalizeDb (dbValue pushed)) ;;
    onStore (saveDb normalized) ;;;
    ret tt.

(** ** What [deleteCategory] makes of a prompt *)

(** [p'] is [p] after the category [id] was deleted: filed under the
    reserved category and updated at some reading of the clock when it was
    in [id], as it was otherwise. *)
Definition movedFrom (id : string) (p p' : Prompt) : Prop :=
  if p_categoryId p =? id
  then exists n,
      p' = mkPrompt (p_id p) (p_title p) UNCATEGORIZED_ID (p_content p)
             (p_tags p) (p_favorite p) (p_createdAt p) (VStr (nowAt n))
             (p_lastUsedAt p)
  else p' = p.

(** ** The import page, [DataPage] *)

(** [l.includes(x)], and [new Set(l).has(x)], for strings *)
Definition includes (l : list string) (x : string) : bool :=
  existsb (String.eqb x) l.

(** The state of the page that the import reads and writes. *)
Record ImportState : Type := mkImportState {
  importPreview : option DbFile;
  selectedImportIds : list string;
  importFileName : string;
  importError : option string
}.

(** The prompts ticked when a file is opened: those whose id the library
    does not have. *)
Definition defaultSelection (current normalized : DbFile) : list string :=
  map p_id
      (filter (fun prompt =>
                 negb (includes (map p_id (prompts current)) (p_id prompt)))
              (prompts normalized)).

(** [onFileImport]: [parsed] is what [JSON.parse] makes of the text of the
    file. *)
Definition onFileImport (fileName : string) (parsed : outcome value)
  : Ctl ImportState :=
  fun s =>
    match (v <- lift parsed ;; inWorld (normalizeDb v)) s with
    | (Ok normalized, s') =>
        (Ok (mkImportState (Some normalized)
               (defaultSelection (db (lib s)) normalized) fileName None),
         s')
    | (Throw _, s') =>
        (Ok (mkImportState None [] "" (Some "Niepoprawny plik JSON")), s')
    end.

Definition selectedPrompts (importPreview : DbFile)
    (selectedImportIds : list string) : list Prompt :=
  filter (fun prompt => includes selectedImportIds (p_id prompt))
         (prompts importPreview).

(** The document [applySelectedImport] builds: the ticked prompts and the
    categories they are filed under. *)
Definition selectedPayload (importPreview : DbFile)
    (selectedImportIds : list string) : DbFile :=
  let selected := selectedPrompts importPreview selectedImportIds in
  let usedCategoryIds := UNCATEGORIZED_ID :: map p_categoryId selected in
  mkDb 1
    (filter (fun category => includes usedCategoryIds (c_id category))
            (categories importPreview))
    selected.

(** [applySelectedImport].  The payload goes to [importJson] as text:
    [JSON.parse] of [JSON.stringify] of a document is taken to be the
    document. *)
Definition applySelectedImport (st : ImportState) : Ctl ImportState :=
  match importPreview st with
  | None => ret st
  | Some preview =>
      match selectedPrompts preview (selectedImportIds st) with
      | [] =>
          ret (mkImportState (importPreview st) (selectedImportIds st)
                 (importFileName st) (Some "Wybierz co najmniej jeden prompt"))
      | _ :: _ =>
          importJson
            (Ok (dbValue (selectedPayload preview (selectedImportIds st)))) ;;;
          ret (mkImportState None [] "" None)
      end
  end.

(** ** What the worker stores *)

(** A string that is not empty. *)
Definition isText (v : value) : Prop := exists s, v = VStr s /\ s <> "".

Definition worker_category_ok (c : Category) : Prop :=
  category_shape c /\ isText (c_createdAt c).

(** The tags of the worker are in the order of the code units. *)
Definition worker_prompt_ok (ids : list string) (p : Prompt) : Prop :=
  prompt_shape ids p /\
  trimmed (p_id p) /\ p_id p <> "" /\
  sortedBy String.compare (p_tags p) /\
  isText (p_createdAt p) /\ isText (p_updatedAt p) /\
  (p_lastUsedAt p = VNull \/ isText (p_lastUsedAt p)).

(** The documents [worker_normalizeDb] returns and leaves as they are. *)
Definition worker_canonical (d : DbFile) : Prop :=
  version d = 1%Z /\
  NoDup (map c_id (categories d)) /\
  In UNCATEGORIZED_ID (map c_id (categories d)) /\
  Forall worker_category_ok (categories d) /\
  NoDup (map p_id (prompts d)) /\
  Forall (worker_prompt_ok (map c_id (categories d))) (prompts d).

(** The prompt with its tags in the order of [localeCompare]. *)
Definition resorted (p : Prompt) : Prompt :=
  mkPrompt (p_id p) (p_title p) (p_categoryId p) (p_content p)
           (sortBy localeCompare (p_tags p)) (p_favorite p)
           (p_createdAt p) (p_updatedAt p) (p_lastUsedAt p).

(** [String(tag)] returns for every tag of [tags]. *)
Definition printable (tags : list value) : Prop :=
  Forall (fun tag => exists s, stringOf tag = Ok s) tags.

(** The tags of every prompt of [input] are printable. *)
Definition tagsPrint (input : value) : Prop :=
  Forall (fun prompt => printable (arrayOrEmpty (getOpt prompt "tags")))
         (arrayOrEmpty (getOpt input "prompts")).

(** ** The router *)

Inductive AppPage : Type :=
| PageDashboard
| PagePrompts
| PageCreate
| PageCategories
| PageData.

Definition pageName (page : AppPage) : string :=
  match page with
  | PageDashboard => "dashboard"
  | PagePrompts => "prompts"
  | PageCreate => "create"
  | PageCategories => "categories"
  | PageData => "data"
  end.

(** [["dashboard", "prompts", "create", "categories", "data"].includes(name)] *)
Definition pageOf (name : string) : option AppPage :=
  find (fun page => pageName page =? name)
       [PageDashboard; PagePrompts; PageCreate; PageCategories; PageData].

(** The route: the page and the text [URLSearchParams] is made of. *)
Record RouteState : Type := mkRoute { page : AppPage; params : string }.

(** [s.split(sep)] for a separator of one character *)
Fixpoint splitOn (sep : ascii) (s : string) : list string :=
  match s with
  | EmptyString => [EmptyString]
  | String c r =>
      if Ascii.eqb c sep then EmptyString :: splitOn sep r
      else match splitOn sep r with
           | h :: t => String c h :: t
           | [] => [String c EmptyString]
           end
  end.

(** Whether [c] occurs in [s]. *)
Fixpoint hasChar (c : ascii) (s : string) : bool :=
  match s with
  | EmptyString => false
  | String c' r => Ascii.eqb c' c || hasChar c r
  end.

(** [hash.replace(/^#/, "")] *)
Definition dropHash (hash : string) : string :=
  match hash with
  | String "#" r => r
  | _ => hash
  end.

(** [parseHash], of the hash of the location *)
Definition parseHash (hash : string) : RouteState :=
  let hashRaw := dropHash hash in
  let parts := splitOn "?" hashRaw in
  let pathPart := nth 0 parts "" in
  let queryPart := nth_error parts 1 in
  let name := if nonEmpty pathPart then pathPart else "dashboard" in
  let validPage := match pageOf name with
                   | Some p => p
                   | None => PageDashboard
                   end in
  mkRoute validPage
    (match queryPart with
     | Some q => if nonEmpty q then q else ""
     | None => ""
     end).

(** [makeHash]: [query] is what [toString] makes of the parameters, the
    empty string when there are none. *)
Definition makeHash (page : AppPage) (query : string) : string :=
  if nonEmpty query
  then ("#" ++ pageName page ++ "?" ++ query)%string
  else ("#" ++ pageName page)%string.

(** ** The title the quick-save panel proposes *)



(** ** The counts of the categories page *)

(** [map.get(id) || 0] *)
Definition countOf (m : Map nat) (id : string) : nat :=
  match map_get m id with
  | Some n => n
  | None => 0
  end.

(** [counts] of [CategoriesPage] *)
Definition counts (d : DbFile) : Map nat :=
  let m := fold_left (fun m category => map_set m (c_id category) 0)
                     (categories d) [] in
  fold_left (fun m prompt =>
               map_set m (p_categoryId prompt)
                       (countOf m (p_categoryId prompt) + 1))
            (prompts d) m.

(** ** The category an imported prompt ends under *)

(** What holds of the loop over [imported.categories] besides [mergeInv]:
    the id of a category already handled is sent to itself or to the id of
    a category of the same name up to case, and the name-to-id map sends a
    name to the id of a category of that name. *)
Definition assignInv (seen : list Category)
    (st : list Category * Map string * Map string) : Prop :=
  let '(cats, categoryIdMap, categoryNameMap) := st in
  (forall c, In c seen ->
     exists v, map_get categoryIdMap (c_id c) = Some v /\
               (v = c_id c \/
                exists cm, In cm cats /\ c_id cm = v /\
                           toLowerCase (c_name cm) = toLowerCase (c_name c))) /\
  (forall k v, map_get categoryNameMap k = Some v ->
     exists cm, In cm cats /\ c_id cm = v /\ toLowerCase (c_name cm) = k).

(** ** Records that share an id *)

(** The records whose id none of [seen] and no earlier record has. *)
Fixpoint firstCategories (seen : list string) (l : list Category)
  : list Category :=
  match l with
  | [] => []
  | c :: r =>
      if includes seen (c_id c) then firstCategories seen r
      else c :: firstCategories (seen ++ [c_id c]) r
  end.

Fixpoint firstPrompts (seen : list string) (l : list Prompt) : list Prompt :=
  match l with
  | [] => []
  | p :: r =>
      if includes seen (p_id p) then firstPrompts seen r
      else p :: firstPrompts (seen ++ [p_id p]) r
  end.

(** ** The tags of the editor *)





(** ** Documents [normalizeDb] can repair *)

(** A field that is missing, [null], or a string. *)
Definition textOrMissing (v : value) : Prop :=
  nullish v = true \/ exists s, v = VStr s.

(** An element of [categories] whose id and name are strings where they
    are there. *)
Definition categoryLike (c : value) : Prop :=
  exists idv namev,
    get c "id" = Ok idv /\ textOrMissing idv /\
    get c "name" = Ok namev /\ textOrMissing namev.

(** An element of [prompts] whose id, title and content are strings and
    whose tags are an array of strings, where they are there. *)
Definition promptLike (p : value) : Prop :=
  exists idv titlev contentv tagsv,
    get p "id" = Ok idv /\ textOrMissing idv /\
    get p "title" = Ok titlev /\ textOrMissing titlev /\
    get p "content" = Ok contentv /\ textOrMissing contentv /\
    get p "tags" = Ok tagsv /\
    (nullish tagsv = true \/ exists tags, tagsv = VArr (map VStr tags)).

(** A value with arrays of such elements, where they are there. *)
Definition documentLike (input : value) : Prop :=
  exists cats ps,
    get input "categories" = Ok cats /\
    (nullish cats = true \/ exists cs, cats = VArr cs /\ Forall categoryLike cs) /\
    get input "prompts" = Ok ps /\
    (nullish ps = true \/ exists l, ps = VArr l /\ Forall promptLike l).

(** ** Calls and renders *)

(** A computation of the hook that leaves the document on show as it is,
    however it ends. *)
Definition quiet {A} (c : Ctl A) : Prop :=
  forall s, db (lib (snd (c s))) = db (lib s).

(** The calls that can throw to their caller: the render, and
    [upsertPrompt] with a draft that has a blank title, category or
    content. *)
Definition mayThrow (c : call) : bool :=
  match c with
  | CallRender => true
  | CallUpsertPrompt draft =>
      negb (nonEmpty (trim (d_title draft))) ||
      negb (nonEmpty (trim (d_categoryId draft))) ||
      negb (nonEmpty (trim (d_content draft)))
  | _ => false
  end.

(** ** What is read in the store *)


(** The value [getDb] of the worker finds there: that of such a text, or
    any value stored as such that is not falsy. *)
Definition worker_readable (it : item) (v : value) : Prop :=
  it = Text false (Ok v) \/ (it = Plain v /\ truthy v = true).

(** The default document, made at the reading [n] of the clock. *)
Definition defaultAt (n : nat) : DbFile :=
  mkDb 1 [mkCategory "uncategorized" "Bez kategorii" (VStr (nowAt n))] [].

(** The store that holds the text of [d]. *)
Definition holding (d : DbFile) (rest : list (option exn)) : Store :=
  mkStore (Text false (Ok (dbValue d))) rest.

(** The world after one more reading of the clock. *)
Definition ticked (w : World) : World := mkWorld (S (ticks w)) (draws w).

(** * Properties *)

(** The platform variables stay in scope: the lemmas below hold for every
    platform. *)

(** ** Trimming *)

Lemma trimStart_head (s : string) :
  trimStart s = "" \/
  exists c r, trimStart s = String c r /\ isWhiteSpace c = false.
Proof.
  induction s as [|c r IH]; simpl.
  - now left.
  - destruct (isWhiteSpace c) eqn:E; [exact IH|].
    right. now exists c, r.
Qed.

Lemma trimEnd_idem (s : string) : trimEnd (trimEnd s) = trimEnd s.
Proof.
  induction s as [|c r IH]; simpl; [reflexivity|].
  destruct (trimEnd r) as [|c' r'] eqn:E.
  - destruct (isWhiteSpace c) eqn:W; simpl; [reflexivity|].
    now rewrite W.
  - change (trimEnd (String c (String c' r')) = String c (String c' r')).
    cbn [trimEnd]. fold trimEnd.
    change (match trimEnd (String c' r') with
            | "" => if isWhiteSpace c then "" else String c ""
            | String a b => String c (String a b)
            end = String c (String c' r')).
    now rewrite IH.
Qed.

Lemma trimEnd_head (c : ascii) (r : string) :
  isWhiteSpace c = false -> exists r', trimEnd (String c r) = String c r'.
Proof.
  intros W. simpl. destruct (trimEnd r) as [|c' r'].
  - rewrite W. now exists "".
  - now exists (String c' r').
Qed.

Lemma trim_idem (s : string) : trim (trim s) = trim s.
Proof.
  unfold trim.
  destruct (trimStart_head s) as [E | (c & r & E & W)]; rewrite E.
  - reflexivity.
  - destruct (trimEnd_head c r W) as [r' E'].
    rewrite E'. simpl trimStart. rewrite W. rewrite <- E'.
    apply trimEnd_idem.
Qed.

Lemma trimmed_trim (s : string) : trimmed (trim s).
Proof. apply trim_idem. Qed.

Lemma nonEmpty_true (s : string) : nonEmpty s = true <-> s <> "".
Proof.
  unfold nonEmpty. destruct (String.eqb_spec s ""); simpl; split; congruence.
Qed.

Lemma nonEmpty_false (s : string) : nonEmpty s = false <-> s = "".
Proof.
  unfold nonEmpty. destruct (String.eqb_spec s ""); simpl; split; congruence.
Qed.

Lemma trimOr_trimmed (v : value) (d s : string) :
  trimOr v d = Ok s -> trimmed d -> trimmed s.
Proof.
  unfold trimOr. destruct (nullish v); [congruence|].
  destruct v; simpl; try discriminate.
  destruct (nonEmpty (trim s0)); intros [= <-] Hd; auto using trimmed_trim.
Qed.

Lemma trimOr_nonEmpty (v : value) (d s : string) :
  trimOr v d = Ok s -> d <> "" -> s <> "".
Proof.
  unfold trimOr. destruct (nullish v); [congruence|].
  destruct v; simpl; try discriminate.
  destruct (nonEmpty (trim s0)) eqn:E; intros [= <-] Hd; auto.
  now apply nonEmpty_true.
Qed.

Lemma trimOr_string (s d : string) :
  trimmed s -> s <> "" -> trimOr (VStr s) d = Ok s.
Proof.
  intros T N. unfold trimOr; simpl. rewrite T.
  apply nonEmpty_true in N. now rewrite N.
Qed.

(** ** Sets and sorting *)

Lemma uniq_In (y : string) (l : list string) : In y (uniq l) <-> In y l.
Proof.
  clear typeErrorMessage toLowerCase localeCompare.
  induction l as [|x r IH]; simpl; [tauto|].
  rewrite filter_In, IH.
  destruct (String.eqb_spec y x); simpl; intuition congruence.
Qed.

Lemma uniq_NoDup (l : list string) : NoDup (uniq l).
Proof.
  induction l as [|x r IH]; simpl; constructor.
  - rewrite filter_In. intros [_ H]. now rewrite String.eqb_refl in H.
  - now apply NoDup_filter.
Qed.

Lemma filter_all {A} (f : A -> bool) (l : list A) :
  Forall (fun x => f x = true) l -> filter f l = l.
Proof.
  induction 1 as [|x r Hx _ IH]; simpl; [reflexivity|].
  now rewrite Hx, IH.
Qed.

Lemma uniq_fixed (l : list string) : NoDup l -> uniq l = l.
Proof.
  induction 1 as [|x r Hx _ IH]; simpl; [reflexivity|].
  rewrite IH. f_equal. apply filter_all, Forall_forall.
  intros y Hy. destruct (String.eqb_spec y x); [subst; contradiction|reflexivity].
Qed.

Section SortingFacts.
Variable cmp : string -> string -> comparison.

Lemma insertBy_In (x y : string) (l : list string) :
  In y (insertBy cmp x l) <-> y = x \/ In y l.
Proof.
  clear typeErrorMessage toLowerCase localeCompare.
  induction l as [|z r IH]; simpl; [intuition|].
  destruct (cmp x z); simpl; rewrite ?IH; intuition.
Qed.

Lemma sortBy_In (y : string) (l : list string) :
  In y (sortBy cmp l) <-> In y l.
Proof.
  clear typeErrorMessage toLowerCase localeCompare.
  induction l as [|x r IH]; simpl; [tauto|].
  rewrite insertBy_In, IH. intuition.
Qed.

Lemma insertBy_NoDup (x : string) (l : list string) :
  ~ In x l -> NoDup l -> NoDup (insertBy cmp x l).
Proof.
  clear typeErrorMessage toLowerCase localeCompare.
  induction l as [|z r IH]; simpl; intros Hx Hl.
  - constructor; [tauto|constructor].
  - inversion Hl as [|? ? Hz Hr]; subst.
    destruct (cmp x z); try (constructor; [simpl; tauto|assumption]).
    constructor.
    + rewrite insertBy_In. intuition.
    + apply IH; tauto.
Qed.

Lemma sortBy_NoDup (l : list string) : NoDup l -> NoDup (sortBy cmp l).
Proof.
  induction 1 as [|x r Hx _ IH]; simpl; [constructor|].
  apply insertBy_NoDup; [now rewrite sortBy_In|assumption].
Qed.

Lemma insertBy_sorted (x : string) (l : list string) :
  comparator cmp -> sortedBy cmp l -> sortedBy cmp (insertBy cmp x l).
Proof.
  clear typeErrorMessage toLowerCase localeCompare.
  intros T. induction l as [|z r IH]; simpl; [tauto|].
  intros [Hz Hr]. destruct (cmp x z) eqn:E.
  - simpl. repeat split; auto; congruence.
  - simpl. repeat split; auto; congruence.
  - specialize (IH Hr). split; [|exact IH].
    destruct r as [|z' r']; simpl.
    + now apply T.
    + destruct (cmp x z'); auto.
Qed.

Lemma sortBy_sorted (l : list string) :
  comparator cmp -> sortedBy cmp (sortBy cmp l).
Proof.
  intros T. induction l as [|x r IH]; simpl; [exact I|].
  now apply insertBy_sorted.
Qed.

Lemma sortBy_fixed (l : list string) : sortedBy cmp l -> sortBy cmp l = l.
Proof.
  induction l as [|x r IH]; simpl; [reflexivity|].
  intros [Hx Hr]. rewrite (IH Hr).
  destruct r as [|y r']; simpl; [reflexivity|].
  destruct (cmp x y); congruence.
Qed.

Lemma sortedSet_In (y : string) (l : list string) :
  In y (sortedSet cmp l) <-> In y l /\ y <> "".
Proof.
  unfold sortedSet. rewrite sortBy_In, uniq_In, filter_In.
  now rewrite nonEmpty_true.
Qed.

Lemma sortedSet_ok (l : list string) :
  comparator cmp -> Forall trimmed l -> tags_ok cmp (sortedSet cmp l).
Proof.
  intros T Hl. repeat split.
  - apply Forall_forall. intros y Hy. apply sortedSet_In in Hy.
    destruct Hy as [Hy Hn]. split; [|exact Hn].
    now apply (proj1 (Forall_forall _ _) Hl).
  - apply sortBy_NoDup, uniq_NoDup.
  - now apply sortBy_sorted.
Qed.

Lemma sortedSet_fixed (tags : list string) :
  tags_ok cmp tags -> sortedSet cmp (map trim tags) = tags.
Proof.
  intros (Ht & Hn & Hs). unfold sortedSet.
  assert (E : map trim tags = tags).
  { clear Hn Hs. induction Ht as [|t r [Ht _] _ IH]; simpl; congruence. }
  rewrite E, filter_all, uniq_fixed, sortBy_fixed; auto.
  apply Forall_forall. intros y Hy. apply nonEmpty_true.
  now apply (proj1 (Forall_forall _ _) Ht).
Qed.
End SortingFacts.

(** ** Maps *)

Lemma map_has_In {V} (m : Map V) (k : string) :
  map_has m k = true <-> In k (map fst m).
Proof.
  unfold map_has. rewrite existsb_exists, in_map_iff. split.
  - intros (kv & Hin & E). apply String.eqb_eq in E. now exists kv.
  - intros (kv & E & Hin). exists kv. split; [exact Hin|].
    now apply String.eqb_eq.
Qed.

Lemma map_has_false {V} (m : Map V) (k : string) :
  map_has m k = false <-> ~ In k (map fst m).
Proof.
  rewrite <- map_has_In. destruct (map_has m k); split; congruence.
Qed.

Lemma map_set_fresh {V} (m : Map V) (k : string) (v : V) :
  map_has m k = false -> map_set m k v = m ++ [(k, v)].
Proof.
  induction m as [|[k' v'] r IH]; simpl; [reflexivity|].
  intros H. apply orb_false_iff in H. destruct H as [H1 H2].
  rewrite H1. now rewrite IH.
Qed.

Lemma map_has_app {V} (m1 m2 : Map V) (k : string) :
  map_has (m1 ++ m2) k = map_has m1 k || map_has m2 k.
Proof. unfold map_has. apply existsb_app. Qed.

(** ** Reading a computation that returned *)

Lemma bind_Ok {S A B} (m : St S A) (k : A -> St S B) (s s' : S) (b : B) :
  bind m k s = (Ok b, s') ->
  exists a s1, m s = (Ok a, s1) /\ k a s1 = (Ok b, s').
Proof.
  unfold bind. destruct (m s) as [[a|e] s1]; [|discriminate].
  intros H. now exists a, s1.
Qed.

Lemma lift_Ok {S A} (o : outcome A) (s s' : S) (a : A) :
  lift o s = (Ok a, s') -> o = Ok a /\ s' = s.
Proof. unfold lift. now intros [= -> ->]. Qed.

Lemma ret_Ok {S A} (a b : A) (s s' : S) :
  ret a s = (Ok b, s') -> b = a /\ s' = s.
Proof. unfold ret. now intros [= -> ->]. Qed.

Lemma bind_run {S A B} (m : St S A) (k : A -> St S B) (s s1 : S) (a : A) :
  m s = (Ok a, s1) -> bind m k s = k a s1.
Proof. unfold bind. now intros ->. Qed.

Lemma bind_lift {S A B} (a : A) (k : A -> St S B) (s : S) :
  bind (lift (Ok a)) k s = k a s.
Proof. reflexivity. Qed.

(** One step of a computation whose next action is known. *)
Ltac run_lift := rewrite bind_lift; cbv beta.
Ltac run_with E := rewrite (bind_run _ _ _ _ _ E); cbv beta.

Ltac inv_step H :=
  match type of H with
  | bind _ _ _ = (Ok _, _) =>
      let a := fresh "a" in
      let s := fresh "s" in
      let H1 := fresh "H" in
      apply bind_Ok in H; destruct H as (a & s & H1 & H);
      inv_step H1; inv_step H
  | lift _ _ = (Ok _, _) =>
      let E := fresh "E" in
      apply lift_Ok in H; destruct H as [E ->]
  | ret _ _ = (Ok _, _) =>
      let E := fresh "E" in
      apply ret_Ok in H; destruct H as [E ->]; try subst
  | _ => idtac
  end.

Lemma orNow_truthy (v x : value) (w w' : World) :
  clock_ok -> orNow v w = (Ok x, w') -> truthy x = true.
Proof.
  intros C. unfold orNow. destruct (truthy v) eqn:T.
  - now intros [= <- _].
  - unfold bind, nowIso, ret. intros [= <- _]. simpl.
    apply nonEmpty_true, C.
Qed.

Lemma orNow_fixed (v : value) (w : World) :
  truthy v = true -> orNow v w = (Ok v, w).
Proof. intros T. unfold orNow. now rewrite T. Qed.

Lemma callTrim_trimmed (v : value) (s : string) :
  callTrim v = Ok s -> trimmed s.
Proof.
  destruct v; simpl; try discriminate.
  intros [= <-]. apply trimmed_trim.
Qed.

Lemma traverse_callTrim (l : list value) (r : list string) :
  traverse callTrim l = Ok r -> Forall trimmed r.
Proof.
  revert r. induction l as [|v l IH]; simpl; intros r.
  - intros [= <-]. constructor.
  - destruct (callTrim v) as [t|] eqn:E; [|discriminate].
    destruct (traverse callTrim l) as [ts|]; [|discriminate].
    intros [= <-]. constructor; [now apply callTrim_trimmed with v|now apply IH].
Qed.

Lemma traverse_callTrim_strings (l : list string) :
  traverse callTrim (map VStr l) = Ok (map trim l).
Proof.
  induction l as [|s l IH]; simpl; [reflexivity|]. now rewrite IH.
Qed.

(** ** What [normalizeDb] returns *)

Lemma NoDup_keys_add {V} (m : Map V) (k : string) (v : V) :
  NoDup (map fst m) -> map_has m k = false ->
  NoDup (map fst (m ++ [(k, v)])).
Proof.
  clear typeErrorMessage toLowerCase localeCompare.
  intros Hn Hh. rewrite map_app. simpl. apply NoDup_app; try assumption.
  - constructor; [simpl; tauto|constructor].
  - intros x Hx [<-|[]]. now apply map_has_false in Hh.
Qed.

Lemma categoriesFrom_more (c : value) (cs : list value) (l : Map Category) :
  categoriesFrom cs l -> categoriesFrom (c :: cs) l.
Proof.
  unfold categoriesFrom. apply Forall_impl.
  intros kv (E & c' & Hin & H). split; [exact E|].
  exists c'. split; [now right|exact H].
Qed.

Lemma promptsFrom_more (cm : Map Category) (p : value) (ps : list value)
    (l : Map Prompt) :
  promptsFrom cm ps l -> promptsFrom cm (p :: ps) l.
Proof.
  unfold promptsFrom. apply Forall_impl.
  intros kv (E & p' & Hin & H). split; [exact E|].
  exists p'. split; [now right|exact H].
Qed.

(** The first loop only appends, under fresh keys. *)
Lemma categoryLoop_entries (cs : list value) :
  forall (m m' : Map Category) (w w' : World),
    categoryLoop cs m w = (Ok m', w') ->
    exists added,
      m' = m ++ added /\ categoriesFrom cs added /\
      (NoDup (map fst m) -> NoDup (map fst m')).
Proof.
  clear typeErrorMessage toLowerCase localeCompare.
  induction cs as [|c cs IH]; intros m m' w w' H.
  - apply ret_Ok in H. destruct H as [-> _].
    exists []. rewrite app_nil_r. repeat split; [constructor|tauto].
  - simpl in H. inv_step H.
    destruct (negb (nonEmpty a0) || map_has m a0) eqn:G.
    + apply IH in H. destruct H as (added & E' & F & N).
      exists added. repeat split; try assumption.
      now apply categoriesFrom_more.
    + apply orb_false_iff in G. destruct G as [G1 G2].
      apply negb_false_iff in G1.
      inv_step H. rewrite map_set_fresh in H by assumption.
      apply IH in H. destruct H as (added & E' & F & N).
      exists ((a0, mkCategory a0 a2 a4) :: added). repeat split.
      * now rewrite E', <- app_assoc.
      * constructor; [|now apply categoriesFrom_more].
        split; [reflexivity|]. exists c. split; [now left|].
        exists a, a1, a3, w, s. simpl. repeat split; assumption.
      * intros Hn. apply N. now apply NoDup_keys_add.
Qed.

(** So does the second. *)
Lemma promptLoop_entries (cm : Map Category) (ps : list value) :
  forall (m m' : Map Prompt) (w w' : World),
    promptLoop cm ps m w = (Ok m', w') ->
    exists added,
      m' = m ++ added /\ promptsFrom cm ps added /\
      (NoDup (map fst m) -> NoDup (map fst m')).
Proof.
  clear typeErrorMessage toLowerCase.
  induction ps as [|p ps IH]; intros m m' w w' H.
  - apply ret_Ok in H. destruct H as [-> _].
    exists []. rewrite app_nil_r. repeat split; [constructor|tauto].
  - simpl in H. inv_step H. rename a1 into id.
    destruct (map_has m id) eqn:G.
    + apply IH in H. destruct H as (added & E' & F & N).
      exists added. repeat split; try assumption.
      now apply promptsFrom_more.
    + inv_step H. rewrite map_set_fresh in H by assumption.
      apply IH in H. destruct H as (added & E' & F & N).
      eexists (_ :: added). repeat split.
      * rewrite E', <- app_assoc. reflexivity.
      * constructor; [|now apply promptsFrom_more].
        split; [reflexivity|]. exists p. split; [now left|].
        exists a, a0, w, s, a1, a2, a3, a5, a6, a8, a9, s0, a11, s1, a13.
        simpl. repeat split; assumption.
      * intros Hn. apply N. now apply NoDup_keys_add.
Qed.

(** *** What one turn of a loop stores *)

Lemma categoryOf_shape (c : value) (out : Category) :
  categoryOf c out -> category_shape out.
Proof.
  intros (idv & namev & cv & w & w' & _ & Hid & Hne & _ & Hname & _).
  repeat split.
  - now apply callTrim_trimmed with (orElse idv (VStr "")).
  - now apply nonEmpty_true.
  - apply trimOr_trimmed with namev "Bez nazwy"; [assumption|reflexivity].
  - apply trimOr_nonEmpty with namev "Bez nazwy"; [assumption|discriminate].
Qed.

Lemma categoryOf_ok (c : value) (out : Category) :
  clock_ok -> categoryOf c out -> category_ok out.
Proof.
  intros C H. split; [now apply categoryOf_shape with c|].
  destruct H as (idv & namev & cv & w & w' & _ & _ & _ & _ & _ & _ & H).
  now apply orNow_truthy with cv w w'.
Qed.

Lemma resolveCategory_In (m : Map Category) (v : value) :
  In UNCATEGORIZED_ID (map fst m) -> In (resolveCategory m v) (map fst m).
Proof.
  intros U. unfold resolveCategory. destruct v; try exact U.
  destruct (map_has m s) eqn:E; [|exact U].
  now apply map_has_In.
Qed.

Lemma orDefault_null (v : value) :
  orDefault v VNull = VNull \/ truthy (orDefault v VNull) = true.
Proof.
  unfold orDefault. destruct (truthy v) eqn:T; [now right|now left].
Qed.

Lemma mapTrim_trimmed (v : value) (l : list string) :
  mapTrim v = Ok l -> Forall trimmed l.
Proof.
  destruct v; simpl; try discriminate. apply traverse_callTrim.
Qed.

Lemma promptOf_shape (cm : Map Category) (p : value) (out : Prompt) :
  In UNCATEGORIZED_ID (map fst cm) ->
  promptOf cm p out -> prompt_shape (map fst cm) out.
Proof.
  intros U (idv & t & w0 & w1 & tagsv & strings & titlev & catv & contentv &
            favv & createdv & w2 & updatedv & w3 & lastv & H).
  destruct H as (_ & _ & _ & _ & Htags & Etags & _ & Htitle & _ & Ecat & _ &
                 Hcontent & _ & _ & _ & _ & _ & _ & _ & Elast).
  apply mapTrim_trimmed in Htags.
  repeat split.
  - apply trimOr_trimmed with titlev "Nowy prompt"; [assumption|reflexivity].
  - apply trimOr_nonEmpty with titlev "Nowy prompt"; [assumption|discriminate].
  - rewrite Ecat. now apply resolveCategory_In.
  - apply trimOr_trimmed with contentv ""; [assumption|reflexivity].
  - rewrite Etags. apply Forall_forall. intros y Hy.
    apply sortedSet_In in Hy. destruct Hy as [Hy Hn]. split; [|exact Hn].
    now apply (proj1 (Forall_forall _ _) Htags).
  - rewrite Etags. apply sortBy_NoDup, uniq_NoDup.
  - rewrite Elast. apply orDefault_null.
Qed.

Lemma promptOf_ok (cm : Map Category) (p : value) (out : Prompt) :
  clock_ok -> ids_ok -> comparator localeCompare ->
  In UNCATEGORIZED_ID (map fst cm) ->
  promptOf cm p out -> prompt_ok (map fst cm) out.
Proof.
  intros C I T U H. split; [now apply promptOf_shape with p|].
  destruct H as (idv & t & w0 & w1 & tagsv & strings & titlev & catv &
                 contentv & favv & createdv & w2 & updatedv & w3 & lastv & H).
  destruct H as (_ & Ht & Hid & _ & _ & Etags & _ & _ & _ & _ & _ &
                 _ & _ & _ & _ & Hc & _ & Hu & _ & _).
  assert (Gid : trimmed (p_id out) /\ p_id out <> "").
  { destruct (nonEmpty t) eqn:N.
    - apply ret_Ok in Hid. destruct Hid as [-> _]. split.
      + now apply callTrim_trimmed with (orElse idv (VStr "")).
      + now apply nonEmpty_true.
    - unfold uuid in Hid. injection Hid as <- _. apply I. }
  destruct Gid as [G1 G2]. repeat split; try assumption.
  - rewrite Etags. now apply sortBy_sorted.
  - now apply orNow_truthy with createdv w1 w2.
  - now apply orNow_truthy with (orDefault updatedv createdv) w2 w3.
Qed.

Lemma uncategorized_ok (c : Category) (w w' : World) :
  uncategorized w = (Ok c, w') ->
  c_id c = UNCATEGORIZED_ID /\ category_shape c /\
  (clock_ok -> category_ok c).
Proof.
  unfold uncategorized, bind, nowIso, ret. intros [= <- _].
  assert (S : category_shape
                (mkCategory UNCATEGORIZED_ID "Bez kategorii"
                            (VStr (nowAt (ticks w))))).
  { repeat split; try reflexivity; discriminate. }
  repeat split; try apply S.
  simpl. now apply nonEmpty_true.
Qed.

(** *** The whole function *)

(** [normalizeDb] read backwards: the two maps it built. *)
Lemma normalizeDb_inv (input : value) (d : DbFile) (w w' : World) :
  normalizeDb input w = (Ok d, w') ->
  exists cm pm pv ps,
    d = mkDb 1 (map_values cm) (map_values pm) /\
    categoryMap_ok cm /\
    get input "prompts" = Ok pv /\
    iterate (orElse pv (VArr [])) = Ok ps /\
    NoDup (map fst pm) /\ promptsFrom cm ps pm.
Proof.
  intros H. unfold normalizeDb in H. inv_step H.
  rename a3 into cm0, a4 into cm, a7 into pm.
  apply categoryLoop_entries in H1.
  destruct H1 as (added & E' & F & N). simpl in E'. subst added.
  specialize (N (NoDup_nil _)).
  assert (F0 : Forall (fun kv => fst kv = c_id (snd kv) /\
                                 category_shape (snd kv) /\
                                 (clock_ok -> category_ok (snd kv))) cm0).
  { eapply Forall_impl; [|exact F]. intros kv (E' & c & _ & Hc).
    repeat split; [exact E'|apply (categoryOf_shape c (snd kv) Hc)..|].
    now apply categoryOf_ok with c. }
  assert (Hcm : categoryMap_ok cm).
  { clear H3. destruct (map_has cm0 UNCATEGORIZED_ID) eqn:G.
    - apply ret_Ok in H2. destruct H2 as [-> _].
      repeat split; try assumption. now apply map_has_In.
    - apply bind_Ok in H2. destruct H2 as (c & s' & Hc & H2).
      apply ret_Ok in H2. destruct H2 as [-> _].
      apply uncategorized_ok in Hc. destruct Hc as (Eid & Hs & Hc).
      rewrite map_set_fresh by assumption. repeat split.
      + now apply NoDup_keys_add.
      + rewrite map_app. apply in_or_app. right. now left.
      + apply Forall_app. split; [assumption|].
        constructor; [|constructor]. simpl. now rewrite Eid. }
  apply promptLoop_entries in H3.
  destruct H3 as (added & E' & F' & N'). simpl in E'. subst added.
  exists cm, pm, a5, a6. repeat split; try assumption; try apply Hcm.
  apply N'. constructor.
Qed.

Lemma categoryMap_ids (cm : Map Category) :
  categoryMap_ok cm -> map c_id (map_values cm) = map fst cm.
Proof.
  intros (_ & _ & H). unfold map_values. rewrite map_map.
  induction H as [|kv r [E _] _ IH]; simpl; [reflexivity|].
  now rewrite IH, E.
Qed.

Lemma promptsFrom_ids (cm : Map Category) (ps : list value)
    (pm : Map Prompt) :
  promptsFrom cm ps pm -> map p_id (map_values pm) = map fst pm.
Proof.
  intros H. unfold map_values. rewrite map_map.
  induction H as [|kv r [E _] _ IH]; simpl; [reflexivity|].
  now rewrite IH, E.
Qed.

(** Every document [normalizeDb] returns is canonical. *)
Lemma normalizeDb_canonical (input : value) (d : DbFile) (w w' : World) :
  clock_ok -> ids_ok -> comparator localeCompare ->
  normalizeDb input w = (Ok d, w') -> canonical d.
Proof.
  intros C I T H. apply normalizeDb_inv in H.
  destruct H as (cm & pm & pv & ps & -> & Hcm & _ & _ & Np & Fp).
  unfold canonical. simpl.
  rewrite (categoryMap_ids cm Hcm), (promptsFrom_ids cm ps pm Fp).
  destruct Hcm as (Nc & U & Fc).
  repeat split; try assumption.
  - unfold map_values. apply Forall_map.
    eapply Forall_impl; [|exact Fc]. intros kv (_ & _ & Hk). now apply Hk.
  - unfold map_values. apply Forall_map.
    eapply Forall_impl; [|exact Fp]. intros kv (_ & p & _ & Hp).
    now apply promptOf_ok with p.
Qed.

(** ** What [normalizeDb] leaves as it is *)

Lemma someUncategorized_found (l : list Category) :
  In UNCATEGORIZED_ID (map c_id l) ->
  someUncategorized (map categoryValue l) = Ok true.
Proof.
  clear typeErrorMessage toLowerCase localeCompare.
  induction l as [|c l IH]; simpl; [tauto|].
  destruct (String.eqb_spec (c_id c) UNCATEGORIZED_ID) as [E|N].
  - reflexivity.
  - intros [E|H]; [contradiction|]. now apply IH.
Qed.

Lemma categoryLoop_fixed (l : list Category) :
  forall (m : Map Category) (w : World),
    NoDup (map fst m ++ map c_id l) -> Forall category_ok l ->
    categoryLoop (map categoryValue l) m w = (Ok (m ++ categoryEntries l), w).
Proof.
  induction l as [|c l IH]; intros m w Hn Hf.
  - simpl. now rewrite app_nil_r.
  - inversion Hf as [|? ? ((T1 & N1 & T2 & N2) & T3) Hf']; subst.
    destruct c as [id name createdAt]. simpl in *.
    cbn [map categoryLoop categoryValue].
    assert (G : map_has m id = false).
    { apply map_has_false. intros Hin.
      apply NoDup_remove_2 in Hn. apply Hn, in_or_app. now left. }
    apply nonEmpty_true in N1.
    run_lift. cbn [orElse nullish callTrim]. rewrite T1. run_lift.
    rewrite N1, G. cbn [negb orb].
    run_lift. rewrite (trimOr_string name "Bez nazwy" T2 N2). run_lift.
    run_lift. run_with (orNow_fixed createdAt w T3).
    rewrite map_set_fresh by assumption.
    rewrite IH; [|rewrite map_app, <- app_assoc; exact Hn|assumption].
    now rewrite <- app_assoc.
Qed.

Lemma resolveCategory_fixed (cm : Map Category) (id : string) :
  In id (map fst cm) -> resolveCategory cm (VStr id) = id.
Proof.
  intros H. unfold resolveCategory.
  apply map_has_In in H. now rewrite H.
Qed.

Lemma orDefault_fixed (v d : value) : truthy v = true -> orDefault v d = v.
Proof. intros T. unfold orDefault. now rewrite T. Qed.

Lemma orDefault_null_fixed (v : value) :
  v = VNull \/ truthy v = true -> orDefault v VNull = v.
Proof. intros [->|T]; [reflexivity|now apply orDefault_fixed]. Qed.

Lemma promptLoop_fixed (cm : Map Category) (l : list Prompt) :
  forall (m : Map Prompt) (w : World),
    NoDup (map fst m ++ map p_id l) ->
    Forall (prompt_ok (map fst cm)) l ->
    promptLoop cm (map promptValue l) m w = (Ok (m ++ promptEntries l), w).
Proof.
  induction l as [|p l IH]; intros m w Hn Hf.
  - simpl. now rewrite app_nil_r.
  - inversion Hf as [|? ? ((T2 & N2 & Hc & T3 & Ft & Nt & L) &
                            T1 & N1 & St & C1 & C2) Hf']; subst.
    assert (Ht : tags_ok localeCompare (p_tags p)) by (repeat split; assumption).
    destruct p as [id title categoryId content tags favorite
                   createdAt updatedAt lastUsedAt].
    simpl in *.
    assert (G : map_has m id = false).
    { apply map_has_false. intros Hin.
      apply NoDup_remove_2 in Hn. apply Hn, in_or_app. now left. }
    apply nonEmpty_true in N1.
    cbn [map promptLoop promptValue].
    run_lift. cbn [orElse nullish callTrim]. rewrite T1. run_lift.
    rewrite N1. unfold ret at 1. rewrite bind_run with (a := id) (s1 := w)
      by reflexivity.
    cbv beta. rewrite G.
    run_lift. cbn [orElse nullish mapTrim].
    rewrite traverse_callTrim_strings. run_lift.
    change (sortedSet localeCompare (map trim tags)) with (tagSet tags).
    unfold tagSet. rewrite (sortedSet_fixed localeCompare tags Ht).
    run_lift. rewrite (trimOr_string title "Nowy prompt" T2 N2). run_lift.
    run_lift. run_lift.
    assert (Ec : trimOr (VStr content) "" = Ok content).
    { unfold trimOr. simpl. rewrite T3. now destruct (nonEmpty content) eqn:E;
        [|apply nonEmpty_false in E; subst]. }
    rewrite Ec. run_lift. run_lift. run_lift.
    run_with (orNow_fixed createdAt w C1).
    run_lift. rewrite (orDefault_fixed updatedAt createdAt C2).
    run_with (orNow_fixed updatedAt w C2).
    run_lift.
    rewrite (resolveCategory_fixed cm categoryId Hc).
    rewrite (orDefault_null_fixed lastUsedAt L).
    assert (Ef : truthy (VBool favorite) = favorite) by reflexivity.
    rewrite Ef.
    rewrite map_set_fresh by assumption.
    rewrite IH; [|rewrite map_app, <- app_assoc; exact Hn|assumption].
    now rewrite <- app_assoc.
Qed.

Lemma categoryEntries_values (l : list Category) :
  map_values (categoryEntries l) = l.
Proof.
  unfold map_values, categoryEntries. rewrite map_map. apply map_id.
Qed.

Lemma categoryEntries_keys (l : list Category) :
  map fst (categoryEntries l) = map c_id l.
Proof. unfold categoryEntries. now rewrite map_map. Qed.

Lemma promptEntries_values (l : list Prompt) :
  map_values (promptEntries l) = l.
Proof.
  unfold map_values, promptEntries. rewrite map_map. apply map_id.
Qed.

Lemma promptEntries_keys (l : list Prompt) :
  map fst (promptEntries l) = map p_id l.
Proof. unfold promptEntries. now rewrite map_map. Qed.

Lemma get_categories (d : DbFile) :
  get (dbValue d) "categories" = Ok (VArr (map categoryValue (categories d))).
Proof. reflexivity. Qed.

Lemma get_prompts (d : DbFile) :
  get (dbValue d) "prompts" = Ok (VArr (map promptValue (prompts d))).
Proof. reflexivity. Qed.

(** A canonical document is a fixed point of [normalizeDb]: nothing is
    repaired, the clock and the id generator are not used. *)
Lemma normalizeDb_fixed (d : DbFile) (w : World) :
  canonical d -> normalizeDb (dbValue d) w = (Ok d, w).
Proof.
  intros (V & Nc & U & Fc & Np & Fp).
  unfold normalizeDb. rewrite get_categories, get_prompts.
  destruct d as [v cats ps]. simpl in *. subst v.
  run_lift. cbn [orElse nullish iterate]. run_lift.
  rewrite (someUncategorized_found cats U). run_lift.
  unfold ret at 1. rewrite bind_run with (a := map categoryValue cats) (s1 := w)
    by reflexivity.
  cbv beta.
  rewrite (bind_run _ _ _ _ _ (categoryLoop_fixed cats [] w Nc Fc)). cbv beta.
  cbn [app].
  assert (H : map_has (categoryEntries cats) UNCATEGORIZED_ID = true).
  { apply map_has_In. now rewrite categoryEntries_keys. }
  rewrite H. unfold ret at 1.
  rewrite bind_run with (a := categoryEntries cats) (s1 := w) by reflexivity.
  cbv beta. run_lift. cbn [orElse nullish iterate]. run_lift.
  rewrite (bind_run _ _ _ _ _
             (promptLoop_fixed (categoryEntries cats) ps [] w Np
                ltac:(now rewrite categoryEntries_keys))).
  cbv beta. cbn [app].
  now rewrite categoryEntries_values, promptEntries_values.
Qed.
(** ** The store *)

Lemma onWorld_Ok {A} (m : M A) (s s' : World * Store) (a : A) :
  onWorld m s = (Ok a, s') -> m (fst s) = (Ok a, fst s') /\ snd s' = snd s.
Proof.
  clear. unfold onWorld. destruct (m (fst s)) as [r w].
  now intros [= -> <-].
Qed.

Lemma onStore_Ok {A} (m : St Store A) (s s' : World * Store) (a : A) :
  onStore m s = (Ok a, s') -> m (snd s) = (Ok a, snd s') /\ fst s' = fst s.
Proof.
  clear. unfold onStore. destruct (m (snd s)) as [r st].
  now intros [= -> <-].
Qed.

Lemma tryCatch_Ok {S A} (m : St S A) (h : exn -> St S A) (s s' : S) (a : A) :
  tryCatch m h s = (Ok a, s') ->
  m s = (Ok a, s') \/ exists e s1, m s = (Throw e, s1) /\ h e s1 = (Ok a, s').
Proof.
  clear. unfold tryCatch. destruct (m s) as [[x|e] s1].
  - intros H. now left.
  - intros H. right. now exists e, s1.
Qed.

(** A write that returns has stored the text of the document. *)
Lemma storageSet_Ok (d : DbFile) (st st' : Store) :
  storageSet d st = (Ok tt, st') -> held st' = Text false (Ok (dbValue d)).
Proof.
  clear. unfold storageSet.
  destruct (faults st) as [|[e|] rest]; now intros [= <-].
Qed.

(** A document written to the store and returned. *)
Lemma written_Ok (d d' : DbFile) (s s' : World * Store) :
  (onStore (storageSet d) ;;; ret d) s = (Ok d', s') ->
  d' = d /\ fst s' = fst s /\ held (snd s') = Text false (Ok (dbValue d)).
Proof.
  clear. intros H. apply bind_Ok in H. destruct H as ([] & s1 & H1 & H).
  apply ret_Ok in H. destruct H as [-> ->].
  apply onStore_Ok in H1. destruct H1 as [H1 E].
  split; [reflexivity|]. split; [exact E|]. now apply storageSet_Ok in H1.
Qed.

(** The default document, made, written and returned. *)
Lemma fresh_Ok (d : DbFile) (s s' : World * Store) :
  (db <- onWorld defaultDb ;; onStore (storageSet db) ;;; ret db) s
  = (Ok d, s') ->
  defaultDb (fst s) = (Ok d, fst s') /\
  held (snd s') = Text false (Ok (dbValue d)).
Proof.
  intros H. apply bind_Ok in H. destruct H as (d0 & s1 & H1 & H).
  apply onWorld_Ok in H1. destruct H1 as [H1 _].
  apply written_Ok in H. destruct H as (-> & E & Hh).
  rewrite E. now split.
Qed.

(** Where the document [loadDb] returns comes from, and where it went. *)
Lemma loadDb_source (w w' : World) (st st' : Store) (d : DbFile) :
  loadDb (w, st) = (Ok d, (w', st')) ->
  ((exists v w0, normalizeDb v w0 = (Ok d, w')) \/
   (exists w0, defaultDb w0 = (Ok d, w'))) /\
  held st' = Text false (Ok (dbValue d)).
Proof.
  unfold loadDb. intros H. apply bind_Ok in H.
  destruct H as (raw & s1 & _ & H).
  assert (F : forall s, (initial <- onWorld defaultDb ;;
                         onStore (writeStoredDbRaw initial) ;;; ret initial) s
                        = (Ok d, (w', st')) ->
              ((exists v w0, normalizeDb v w0 = (Ok d, w')) \/
               (exists w0, defaultDb w0 = (Ok d, w'))) /\
              held st' = Text false (Ok (dbValue d))).
  { intros s Hs. apply fresh_Ok in Hs. destruct Hs as [Hd Hh].
    split; [right; now exists (fst s)|exact Hh]. }
  destruct raw as [[[|] parsed]|]; try (now apply F with s1).
  apply tryCatch_Ok in H. destruct H as [H|(e & s2 & _ & H)];
    [|now apply F with s2].
  apply bind_Ok in H. destruct H as (v & s2 & _ & H).
  apply bind_Ok in H. destruct H as (n & s3 & Hn & H).
  apply onWorld_Ok in Hn. destruct Hn as [Hn _].
  apply written_Ok in H. destruct H as (-> & E & Hh).
  simpl in E, Hh. rewrite <- E in Hn.
  split; [left; now exists v, (fst s2)|exact Hh].
Qed.



(** * The normalizer *)

(** C1.  Normalization is idempotent: whenever [normalizeDb] returns a
    document, normalizing that document again, at any later time, returns
    the same document: same categories, same prompts, same field values,
    same order of tags. *)
Theorem normalizeDb_idempotent (input : value) (d : DbFile) (w w1 w2 : World) :
  clock_ok -> ids_ok -> comparator localeCompare ->
  normalizeDb input w = (Ok d, w1) ->
  normalizeDb (dbValue d) w2 = (Ok d, w2).
Proof.
  intros C I T H. apply normalizeDb_fixed.
  now apply normalizeDb_canonical with input w w1.
Qed.

(** C5.  Referential integrity: in a document [normalizeDb] returns, the
    [categoryId] of every prompt is the id of a category of that document.
    It is the [categoryId] of the record the prompt was read from -- a
    record of the input whose id, trimmed, is the id of the prompt, or is
    blank -- when that is the id of a category of the document, and
    ["uncategorized"] when it is not, or is no string. *)
Theorem normalizeDb_referential_integrity
    (input : value) (d : DbFile) (w w1 : World) :
  normalizeDb input w = (Ok d, w1) ->
  exists pv records,
    get input "prompts" = Ok pv /\
    iterate (orElse pv (VArr [])) = Ok records /\
    Forall
      (fun q =>
         In (p_categoryId q) (map c_id (categories d)) /\
         exists record idv catv,
           In record records /\
           get record "id" = Ok idv /\
           (callTrim (orElse idv (VStr "")) = Ok (p_id q) \/
            callTrim (orElse idv (VStr "")) = Ok "") /\
           get record "categoryId" = Ok catv /\
           ((exists id, catv = VStr id /\
                        In id (map c_id (categories d)) /\
                        p_categoryId q = id) \/
            ((forall id, catv = VStr id ->
                         ~ In id (map c_id (categories d))) /\
             p_categoryId q = "uncategorized")))
      (prompts d).
Proof.
  intros H. apply normalizeDb_inv in H.
  destruct H as (cm & pm & pv & ps & -> & Hcm & Hpv & Hps & _ & Fp).
  exists pv, ps. split; [exact Hpv|]. split; [exact Hps|].
  simpl. rewrite (categoryMap_ids cm Hcm).
  unfold map_values. apply Forall_map.
  eapply Forall_impl; [|exact Fp]. intros kv (_ & p & Hin & Hp).
  split; [apply (promptOf_shape cm p (snd kv)); [apply Hcm|exact Hp]|].
  destruct Hp as (idv & t & w0 & w2 & tagsv & strings & titlev & catv &
                  contentv & favv & createdv & w3 & updatedv & w4 & lastv & Hp).
  destruct Hp as (Hid & Ht & Hout & _ & _ & _ & _ & _ & Hcat & Ecat & _).
  exists p, idv, catv. split; [exact Hin|]. split; [exact Hid|]. split.
  { destruct (nonEmpty t) eqn:N.
    - apply ret_Ok in Hout. destruct Hout as [<- _]. now left.
    - apply nonEmpty_false in N. subst t. now right. }
  split; [exact Hcat|]. rewrite Ecat. unfold resolveCategory.
  destruct catv; try (right; split; [intros id0; discriminate|reflexivity]).
  destruct (map_has cm s) eqn:G.
  - left. exists s. split; [reflexivity|]. split; [|reflexivity].
    now apply map_has_In.
  - right. split; [|reflexivity]. intros id0 [= <-] Hin'.
    apply map_has_In in Hin'. congruence.
Qed.

Lemma filter_absent (x : string) (l : list string) :
  ~ In x l -> filter (fun y => y =? x) l = [].
Proof.
  clear. induction l as [|y r IH]; simpl; [reflexivity|].
  intros H. destruct (String.eqb_spec y x) as [->|N]; [tauto|].
  apply IH. tauto.
Qed.

Lemma count_one (x : string) (l : list string) :
  NoDup l -> In x l -> length (filter (fun y => y =? x) l) = 1.
Proof.
  clear. induction 1 as [|y r Hy Hr IH]; simpl; [tauto|].
  destruct (String.eqb_spec y x) as [->|N].
  - intros _. simpl. now rewrite filter_absent.
  - intros [E|H]; [contradiction|]. now apply IH.
Qed.

Lemma normalizeDb_reservedCount (input : value) (d : DbFile) (w w1 : World) :
  normalizeDb input w = (Ok d, w1) -> reservedCount d = 1.
Proof.
  intros H. apply normalizeDb_inv in H.
  destruct H as (cm & pm & pv & ps & -> & Hcm & _).
  unfold reservedCount. simpl.
  pose proof (categoryMap_ids cm Hcm) as E.
  destruct Hcm as (N & U & _). rewrite <- E in N, U.
  rewrite <- (count_one UNCATEGORIZED_ID (map c_id (map_values cm)) N U).
  generalize (map_values cm). intros l.
  induction l as [|c l IH]; simpl; [reflexivity|].
  destruct (c_id c =? UNCATEGORIZED_ID); simpl; now rewrite IH.
Qed.

Lemma normalizeDb_text_trimmed (input : value) (d : DbFile) (w w1 : World) :
  normalizeDb input w = (Ok d, w1) -> text_trimmed d.
Proof.
  intros H. apply normalizeDb_inv in H.
  destruct H as (cm & pm & pv & ps & -> & Hcm & _ & _ & _ & Fp).
  split; simpl; unfold map_values; apply Forall_map.
  - destruct Hcm as (_ & _ & Fc).
    eapply Forall_impl; [|exact Fc]. intros kv (_ & S & _). apply S.
  - eapply Forall_impl; [|exact Fp]. intros kv (_ & p & _ & Hp).
    apply (promptOf_shape cm p (snd kv)) in Hp; [|apply Hcm].
    destruct Hp as (T1 & _ & _ & T2 & T3 & _). now repeat split.
Qed.

(** ** Input of the wrong type *)

(** C2.  [normalizeDb] of the user interface is not total: on [null], on a
    stored document with a title that is a number and on one with a tag
    that is a number it throws, where the normalizer of the background
    worker repairs the same title. *)
Theorem normalizeDb_throws (w : World) :
  normalizeDb VNull w = (Throw TypeError, w) /\
  normalizeDb (storedWith (VNum 5) (VArr [])) w = (Throw TypeError, w) /\
  normalizeDb (storedWith (VStr "Hello") (VArr [VNum 5])) w
  = (Throw TypeError, w) /\
  worker_normalizeDb (storedWith (VNum 5) (VArr [])) w
  = (Ok (storedAs "Nowy prompt" []), w).
Proof.
  destruct w as [t n].
  split; [|split; [|split]]; vm_compute; reflexivity.
Qed.

(** What [loadDb] makes of it: one title of the wrong type in the store,
    and the whole library is replaced by the default document, in the
    store as well. *)
Lemma loadDb_resets (w : World) :
  exists d w',
    defaultDb w = (Ok d, w') /\
    loadDb (w, mkStore (Text false (Ok (storedWith (VNum 5) (VArr [])))) [])
    = (Ok d, (w', mkStore (Text false (Ok (dbValue d))) [])).
Proof. destruct w as [t n]. eexists. eexists. split; reflexivity. Qed.

(** ** The two normalizers *)

(** C3.  The worker does not order tags the way the user interface does.
    Where the collation puts ["a"] before ["B"] and ["B"] after ["a"], a
    stored document with the
    tags ["a"; "B"] is normalized to ["a"; "B"] by the user interface and to
    ["B"; "a"] by the worker, and the user interface changes the document
    the worker wrote when it loads it. *)
Theorem normalizers_disagree (w : World) :
  localeCompare "a" "B" = Lt -> localeCompare "B" "a" = Gt ->
  normalizeDb (storedWith (VStr "Hello") (VArr [VStr "a"; VStr "B"])) w
  = (Ok (storedAs "Hello" ["a"; "B"]), w) /\
  worker_normalizeDb (storedWith (VStr "Hello") (VArr [VStr "a"; VStr "B"])) w
  = (Ok (storedAs "Hello" ["B"; "a"]), w) /\
  normalizeDb (dbValue (storedAs "Hello" ["B"; "a"])) w
  = (Ok (storedAs "Hello" ["a"; "B"]), w).
Proof.
  intros H1 H2. destruct w as [t n].
  split; [|split].
  - cbv. now rewrite H1.
  - vm_compute. reflexivity.
  - cbv. now rewrite H2.
Qed.

(** * The library controller *)

(** ** Failures raised before [commit] *)

Lemma renameCategory_blank (id name : string) (s : Session) :
  trim name = "" ->
  renameCategoryAction id name s
  = (Throw (Error "Nazwa kategorii jest wymagana"), s) /\
  renameCategory id name s
  = (Ok tt, surfaced s "Nazwa kategorii jest wymagana").
Proof.
  intros E. unfold renameCategory, withValidation, tryCatch,
    renameCategoryAction.
  rewrite E. simpl. split; reflexivity.
Qed.

Lemma renameCategory_reserved (name : string) (s : Session) :
  trim name <> "" ->
  renameCategoryAction UNCATEGORIZED_ID name s
  = (Throw (Error "Nie można zmienić nazwy kategorii Bez kategorii"), s) /\
  renameCategory UNCATEGORIZED_ID name s
  = (Ok tt, surfaced s "Nie można zmienić nazwy kategorii Bez kategorii").
Proof.
  intros N. unfold renameCategory, withValidation, tryCatch,
    renameCategoryAction.
  apply nonEmpty_true in N. rewrite N. simpl. split; reflexivity.
Qed.

Lemma deleteCategory_reserved (s : Session) :
  deleteCategoryAction UNCATEGORIZED_ID s
  = (Throw (Error "Nie można usunąć kategorii Bez kategorii"), s) /\
  deleteCategory UNCATEGORIZED_ID s
  = (Ok tt, surfaced s "Nie można usunąć kategorii Bez kategorii").
Proof. split; reflexivity. Qed.

Lemma createCategory_blank (name : string) (s : Session) :
  trim name = "" ->
  createCategoryAction name s
  = (Throw (Error "Nazwa kategorii jest wymagana"), s) /\
  createCategory name s = (Ok tt, surfaced s "Nazwa kategorii jest wymagana").
Proof.
  intros E. unfold createCategory, withValidation, tryCatch,
    createCategoryAction.
  rewrite E. simpl. split; reflexivity.
Qed.

Lemma upsertPrompt_blank (draft : PromptDraft) (s : Session) :
  trim (d_title draft) = "" \/ trim (d_categoryId draft) = "" \/
  trim (d_content draft) = "" ->
  exists message, upsertPrompt draft s = (Throw (Error message), s).
Proof.
  clear toLowerCase.
  intros H. unfold upsertPrompt.
  destruct (nonEmpty (trim (d_title draft))) eqn:E1; simpl;
    [|eexists; reflexivity].
  destruct (nonEmpty (trim (d_categoryId draft))) eqn:E2; simpl;
    [|eexists; reflexivity].
  destruct (nonEmpty (trim (d_content draft))) eqn:E3; simpl;
    [|eexists; reflexivity].
  apply nonEmpty_true in E1, E2, E3. tauto.
Qed.

(** C4.  Reserved category invariance: a document [normalizeDb] returns has
    exactly one category with the reserved id; [renameCategory] and
    [deleteCategory] called with the reserved id raise a validation error,
    which [withValidation] stores as the last error, and leave the
    document, and the updates that wait for the next render, as they were. *)
Theorem reserved_category_invariance :
  (forall (input : value) (d : DbFile) (w w1 : World),
      normalizeDb input w = (Ok d, w1) -> reservedCount d = 1) /\
  (forall (name : string) (s : Session),
      exists message,
        renameCategoryAction UNCATEGORIZED_ID name s
        = (Throw (Error message), s) /\
        renameCategory UNCATEGORIZED_ID name s
        = (Ok tt, surfaced s message)) /\
  (forall (s : Session),
      exists message,
        deleteCategoryAction UNCATEGORIZED_ID s
        = (Throw (Error message), s) /\
        deleteCategory UNCATEGORIZED_ID s = (Ok tt, surfaced s message)).
Proof.
  split; [|split].
  - apply normalizeDb_reservedCount.
  - intros name s. destruct (string_dec (trim name) "") as [E|N].
    + eexists. now apply renameCategory_blank.
    + eexists. now apply renameCategory_reserved.
  - intros s. eexists. apply deleteCategory_reserved.
Qed.

(** C6, amended.  A validation failure that a mutator raises before it
    commits (a blank name in [createCategory] and [renameCategory], the
    reserved id in [renameCategory] and [deleteCategory]) is caught by
    [withValidation], becomes the last error and leaves the document and
    the waiting updates as they were.  [upsertPrompt] checks its draft
    before it enters [withValidation]: a blank title, category id or
    content is thrown to the caller, and the session, last error included,
    stays as it was. *)
Theorem validation_failures :
  (forall name s,
      trim name = "" ->
      createCategory name s
      = (Ok tt, surfaced s "Nazwa kategorii jest wymagana")) /\
  (forall id name s,
      trim name = "" ->
      renameCategory id name s
      = (Ok tt, surfaced s "Nazwa kategorii jest wymagana")) /\
  (forall name s,
      trim name <> "" ->
      renameCategory UNCATEGORIZED_ID name s
      = (Ok tt, surfaced s "Nie można zmienić nazwy kategorii Bez kategorii")) /\
  (forall s,
      deleteCategory UNCATEGORIZED_ID s
      = (Ok tt, surfaced s "Nie można usunąć kategorii Bez kategorii")) /\
  (forall draft s,
      trim (d_title draft) = "" \/ trim (d_categoryId draft) = "" \/
      trim (d_content draft) = "" ->
      exists message, upsertPrompt draft s = (Throw (Error message), s)).
Proof.
  split; [|split; [|split; [|split]]].
  - intros name s E. apply (proj2 (createCategory_blank name s E)).
  - intros id name s E. apply (proj2 (renameCategory_blank id name s E)).
  - intros name s N. apply (proj2 (renameCategory_reserved name s N)).
  - intros s. apply (proj2 (deleteCategory_reserved s)).
  - apply upsertPrompt_blank.
Qed.

(** ** Every commit normalizes *)

Section Settled.

Variable P : DbFile -> Prop.

Lemma keeps_ret {A} (a : A) : keeps P (ret a).
Proof. now intros s H. Qed.

Lemma keeps_raise {A} (e : exn) : keeps P (@raise Session A e).
Proof. now intros s H. Qed.

Lemma keeps_lift {A} (o : outcome A) : keeps P (lift o).
Proof. now intros s H. Qed.

Lemma keeps_bind {A B} (m : Ctl A) (k : A -> Ctl B) :
  keeps P m -> (forall a, keeps P (k a)) -> keeps P (bind m k).
Proof.
  intros Hm Hk s H. unfold bind. specialize (Hm s H).
  destruct (m s) as [[a|e] s1]; simpl in *; [now apply Hk|exact Hm].
Qed.

Lemma keeps_tryCatch {A} (m : Ctl A) (h : exn -> Ctl A) :
  keeps P m -> (forall e, keeps P (h e)) -> keeps P (tryCatch m h).
Proof.
  intros Hm Hh s H. unfold tryCatch. specialize (Hm s H).
  destruct (m s) as [[a|e] s1]; simpl in *; [exact Hm|now apply Hh].
Qed.

Lemma keeps_inWorld {A} (m : M A) : keeps P (inWorld m).
Proof.
  intros s H. unfold inWorld. now destruct (m (world s)).
Qed.

Lemma keeps_update (f : Library -> Library) :
  (forall l, db (f l) = db l /\ queue (f l) = queue l) ->
  keeps P (update f).
Proof.
  intros Hf s [H1 H2]. unfold update, settled. simpl.
  destruct (Hf (lib s)) as [-> ->]. now split.
Qed.

Lemma keeps_setError (e : option string) : keeps P (setError e).
Proof. apply keeps_update. now intros l. Qed.

Lemma keeps_setToast (t : option string) : keeps P (setToast t).
Proof. apply keeps_update. now intros l. Qed.

Lemma keeps_setBackupPending (b : bool) : keeps P (setBackupPending b).
Proof. apply keeps_update. now intros l. Qed.

Lemma keeps_setLoading (b : bool) : keeps P (setLoading b).
Proof. apply keeps_update. now intros l. Qed.

Lemma keeps_setDb (updater : DbFile -> M DbFile) :
  yields P updater -> keeps P (setDb updater).
Proof.
  intros Hu s [H1 H2]. unfold setDb, update, settled. simpl.
  split; [exact H1|].
  apply Forall_app. split; [exact H2|]. now constructor.
Qed.

(** The updater [commit] queues ends in [normalizeDb]. *)
Lemma commit_yields (mutator : DbFile -> M DbFile) :
  established P ->
  yields P (committed mutator).
Proof.
  intros [HN _] prev d w w' H. apply bind_Ok in H.
  destruct H as (next & w1 & _ & H).
  now apply HN with (dbValue next) w1 w'.
Qed.

Lemma keeps_commit (mutator : DbFile -> M DbFile) (message : string) :
  established P -> keeps P (commit mutator message).
Proof.
  intros HP. unfold commit.
  apply keeps_bind; [apply keeps_setError|intros _].
  apply keeps_bind; [now apply keeps_setDb, commit_yields|intros _].
  apply keeps_bind; [apply keeps_setBackupPending|intros _].
  destruct (nonEmpty message); [apply keeps_setToast|apply keeps_ret].
Qed.

Lemma keeps_withValidation (action : Ctl unit) :
  keeps P action -> keeps P (withValidation action).
Proof.
  intros H. apply keeps_tryCatch; [exact H|].
  intros e. apply keeps_setError.
Qed.

Lemma runQueue_yields (q : list (DbFile -> M DbFile)) :
  Forall (yields P) q ->
  forall (d d' : DbFile) (w w' : World),
    P d -> runQueue q d w = (Ok d', w') -> P d'.
Proof.
  induction 1 as [|u q Hu _ IH]; intros d d' w w' Hd H; simpl in H.
  - apply ret_Ok in H. now destruct H as [-> _].
  - apply bind_Ok in H. destruct H as (d1 & w1 & H1 & H).
    apply IH with d1 w1 w'; [|exact H]. now apply Hu with d w w1.
Qed.

Lemma keeps_render : keeps P render.
Proof.
  intros s [H1 H2]. unfold render.
  destruct (runQueue (queue (lib s)) (db (lib s)) (world s))
    as [[d|e] w] eqn:E; simpl.
  - split; simpl; [|constructor].
    now apply (runQueue_yields (queue (lib s)) H2 (db (lib s)) d (world s) w).
  - now split.
Qed.

Lemma loadDb_established (d : DbFile) (w w' : World) (st st' : Store) :
  established P -> loadDb (w, st) = (Ok d, (w', st')) -> P d.
Proof.
  intros [HN HD] H. apply loadDb_source in H.
  destruct H as [[(v & w0 & H)|(w0 & H)] _];
    [now apply HN with v w0 w'|now apply HD with w0 w'].
Qed.

Lemma keeps_loaded (st : Store) :
  established P -> keeps P (loaded st).
Proof.
  intros HP s H. unfold loaded.
  destruct (loadDb (world s, st)) as [[d|e] [w st']] eqn:E; [|exact H].
  apply (keeps_bind (setDb (fun _ => ret d)) (fun _ => setLoading false)).
  - apply keeps_setDb. intros prev d' w1 w2 [= <- _].
    now apply loadDb_established with (world s) w st st'.
  - intros _. apply keeps_setLoading.
  - exact H.
Qed.

Lemma keeps_perform (c : call) : established P -> keeps P (perform c).
Proof.
  intros HP. destruct c; simpl.
  - now apply keeps_loaded.
  - apply keeps_bind; [|intros _; apply keeps_ret].
    unfold upsertPrompt.
    repeat match goal with
           | |- keeps P (if ?b then _ else _) => destruct b
           end; try apply keeps_raise.
    apply keeps_bind; [apply keeps_inWorld|intros promptId].
    apply keeps_bind; [|intros _; apply keeps_ret].
    now apply keeps_withValidation, keeps_commit.
  - now apply keeps_withValidation, keeps_commit.
  - apply keeps_bind; [|intros _; apply keeps_ret].
    unfold duplicatePrompt.
    apply keeps_bind; [apply keeps_inWorld|intros copyId].
    apply keeps_bind; [|intros _; apply keeps_ret].
    now apply keeps_withValidation, keeps_commit.
  - apply keeps_bind; [|intros _; apply keeps_ret].
    intros s H. unfold copyPrompt.
    destruct (find (fun p => p_id p =? id) (prompts (db (lib s))));
      [exact H|].
    apply (keeps_bind (setError (Some "Prompt nie istnieje"))
                      (fun _ => ret None));
      [apply keeps_setError|intros _; apply keeps_ret|exact H].
  - unfold copyPromptResumed.
    destruct answer; [now apply keeps_commit|apply keeps_setError].
  - apply keeps_withValidation. unfold createCategoryAction.
    destruct (negb (nonEmpty (trim name)));
      [apply keeps_raise|now apply keeps_commit].
  - apply keeps_withValidation. unfold renameCategoryAction.
    destruct (negb (nonEmpty (trim name))); [apply keeps_raise|].
    destruct (id =? UNCATEGORIZED_ID);
      [apply keeps_raise|now apply keeps_commit].
  - apply keeps_withValidation. unfold deleteCategoryAction.
    destruct (id =? UNCATEGORIZED_ID);
      [apply keeps_raise|now apply keeps_commit].
  - apply keeps_withValidation.
    apply keeps_bind; [apply keeps_lift|intros v].
    apply keeps_bind; [apply keeps_inWorld|intros d].
    now apply keeps_commit.
  - apply keeps_setError.
  - apply keeps_setBackupPending.
  - apply keeps_render.
Qed.

Lemma settled_firstRender (w : World) :
  established P -> settled P (firstRender w).
Proof.
  intros [_ HD]. unfold firstRender.
  destruct (defaultDb w) as [[d|e] w'] eqn:E.
  - split; simpl; [now apply HD with w w'|constructor].
  - unfold defaultDb, uncategorized, bind, nowIso, ret in E. discriminate.
Qed.

Lemma settled_performAll (cs : list call) :
  established P -> forall s, settled P s -> settled P (performAll cs s).
Proof.
  intros HP. induction cs as [|c cs IH]; intros s H; simpl; [exact H|].
  apply IH. now apply keeps_perform.
Qed.

(** After any sequence of calls that follows the first render, the
    document of the hook has every property that [normalizeDb] and
    [defaultDb] establish. *)
Lemma reachable_established (w : World) (cs : list call) :
  established P -> P (db (lib (performAll cs (firstRender w)))).
Proof.
  intros HP. apply (settled_performAll cs HP (firstRender w)).
  now apply settled_firstRender.
Qed.

End Settled.

Lemma text_trimmed_established : established text_trimmed.
Proof.
  split; [apply normalizeDb_text_trimmed|].
  intros d w w'. unfold defaultDb, uncategorized, bind, nowIso, ret.
  intros [= <- _]. split; simpl; repeat constructor.
Qed.

Lemma canonical_established :
  clock_ok -> ids_ok -> comparator localeCompare -> established canonical.
Proof.
  intros C I T. split; [intros input d w w'; now apply normalizeDb_canonical|].
  intros d w w'. unfold defaultDb, bind, ret.
  destruct (uncategorized w) as [[c|e] w1] eqn:E; [|discriminate].
  intros [= <- _]. apply uncategorized_ok in E.
  destruct E as (Eid & S & Hc).
  unfold canonical. simpl. rewrite Eid.
  repeat split; try (constructor; auto); try constructor; simpl; tauto.
Qed.

(** ** [copyPrompt] and the time of last use *)

(** What the second loop stores for a prompt that is already a record. *)
Lemma promptOf_record (cm : Map Category) (p out : Prompt) :
  promptOf cm (promptValue p) out ->
  p_lastUsedAt out = orDefault (p_lastUsedAt p) VNull /\
  (trim (p_id p) <> "" -> p_id out = trim (p_id p)).
Proof.
  intros (idv & t & w0 & w1 & tagsv & strings & titlev & catv & contentv &
          favv & createdv & w2 & updatedv & w3 & lastv & H).
  destruct H as (Hid & Ht & Hout & _ & _ & _ & _ & _ & _ & _ & _ & _ & _ & _ &
                 _ & _ & _ & _ & Hlast & Elast).
  injection Hid as <-. injection Hlast as <-. simpl in Ht.
  injection Ht as <-. split; [exact Elast|].
  intros N. apply nonEmpty_true in N. rewrite N in Hout.
  apply ret_Ok in Hout. now destruct Hout as [-> _].
Qed.

Lemma normalizeDb_usesFrom (prev next d : DbFile) (w w' : World) :
  canonical prev ->
  (forall p, In p (prompts next) ->
     p_lastUsedAt p = VNull \/
     exists p0, In p0 (prompts prev) /\ p_id p0 = p_id p /\
                p_lastUsedAt p0 = p_lastUsedAt p) ->
  normalizeDb (dbValue next) w = (Ok d, w') -> usesFrom prev d.
Proof.
  intros Hc Hnext H. apply normalizeDb_inv in H.
  destruct H as (cm & pm & pv & ps & -> & Hcm & Hpv & Hps & _ & Fp).
  rewrite get_prompts in Hpv. injection Hpv as <-.
  simpl in Hps. injection Hps as <-.
  intros q Hq Hused. simpl in Hq. unfold map_values in Hq.
  apply in_map_iff in Hq. destruct Hq as (kv & <- & Hkv).
  apply (proj1 (Forall_forall _ _) Fp) in Hkv.
  destruct Hkv as (_ & pval & Hin & Hof).
  apply in_map_iff in Hin. destruct Hin as (p & <- & Hp).
  apply promptOf_record in Hof. destruct Hof as [El Eid].
  destruct (Hnext p Hp) as [E|(p0 & Hp0 & Eid0 & El0)].
  - rewrite E in El. simpl in El. contradiction.
  - exists p0. split; [exact Hp0|].
    destruct Hc as (_ & _ & _ & _ & _ & Fprev).
    apply (proj1 (Forall_forall _ _) Fprev) in Hp0.
    destruct Hp0 as ((_ & _ & _ & _ & _ & _ & L) & T & N & _).
    rewrite <- Eid0 in Eid. rewrite T in Eid. rewrite (Eid N).
    split; [reflexivity|]. rewrite El, <- El0.
    symmetry. now apply orDefault_null_fixed.
Qed.

Lemma mapM_each {A B} (f : A -> M B) (R : A -> B -> Prop) :
  (forall a b w w', f a w = (Ok b, w') -> R a b) ->
  forall (l : list A) (r : list B) (w w' : World),
    mapM f l w = (Ok r, w') -> Forall2 R l r.
Proof.
  intros Hf. induction l as [|a l IH]; intros r w w' H; simpl in H.
  - apply ret_Ok in H. destruct H as [-> _]. constructor.
  - apply bind_Ok in H. destruct H as (b & w1 & Hb & H).
    apply bind_Ok in H. destruct H as (bs & w2 & Hbs & H).
    apply ret_Ok in H. destruct H as [-> _].
    constructor; [now apply Hf with w w1|now apply IH with w1 w2].
Qed.

Lemma Forall2_In_r {A B} (R : A -> B -> Prop) (l : list A) (r : list B) :
  Forall2 R l r -> forall b, In b r -> exists a, In a l /\ R a b.
Proof.
  induction 1 as [|a b l r Hab _ IH]; intros x Hx; [contradiction|].
  destruct Hx as [<-|Hx].
  - exists a. split; [now left|exact Hab].
  - destruct (IH x Hx) as (a' & Ha & HR). exists a'. split; [now right|exact HR].
Qed.

(** No edit gives a prompt a time of last use: a prompt it returns is
    unused, or it is a prompt of [prev] with the time it had. *)
Lemma editMutator_uses (e : edit) (prev next : DbFile) (w w' : World) :
  editMutator e prev w = (Ok next, w') ->
  forall p, In p (prompts next) ->
    p_lastUsedAt p = VNull \/
    exists p0, In p0 (prompts prev) /\ p_id p0 = p_id p /\
               p_lastUsedAt p0 = p_lastUsedAt p.
Proof.
  assert (Same : forall p, In p (prompts prev) ->
            p_lastUsedAt p = VNull \/
            exists p0, In p0 (prompts prev) /\ p_id p0 = p_id p /\
                       p_lastUsedAt p0 = p_lastUsedAt p).
  { intros p Hp. right. now exists p. }
  destruct e; simpl; intros H p Hp.
  - unfold upsertMutator in H. apply bind_Ok in H.
    destruct H as (now & w1 & _ & H).
    destruct (find (fun x => p_id x =? promptId) (prompts prev));
      apply ret_Ok in H; destruct H as [-> _]; simpl in Hp.
    + apply in_map_iff in Hp. destruct Hp as (x & <- & Hx).
      destruct (p_id x =? promptId); [|now apply Same].
      right. now exists x.
    + apply in_app_or in Hp. destruct Hp as [Hp|[<-|[]]];
        [now apply Same|now left].
  - unfold deletePromptMutator in H. apply ret_Ok in H.
    destruct H as [-> _]. simpl in Hp. apply filter_In in Hp.
    now apply Same.
  - unfold duplicateMutator in H.
    destruct (find (fun x => p_id x =? id) (prompts prev));
      [|discriminate].
    apply bind_Ok in H. destruct H as (now & w1 & _ & H).
    apply ret_Ok in H. destruct H as [-> _]. simpl in Hp.
    apply in_app_or in Hp. destruct Hp as [Hp|[<-|[]]];
      [now apply Same|now left].
  - unfold createCategoryMutator in H.
    destruct (existsb _ (categories prev)); [discriminate|].
    inv_step H. now apply Same.
  - unfold renameCategoryMutator in H.
    destruct (existsb _ (categories prev)); [discriminate|].
    destruct (negb (existsb _ (categories prev))); [discriminate|].
    apply ret_Ok in H. destruct H as [-> _]. now apply Same.
  - unfold deleteCategoryMutator in H.
    destruct (negb (existsb _ (categories prev))); [discriminate|].
    apply bind_Ok in H. destruct H as (ps & w1 & Hps & H).
    apply ret_Ok in H. destruct H as [-> _]. simpl in Hp.
    apply (mapM_each _ (fun a b => p_id a = p_id b /\
                                   p_lastUsedAt a = p_lastUsedAt b)) in Hps.
    + destruct (Forall2_In_r _ _ _ Hps p Hp) as (p0 & Hp0 & E1 & E2).
      right. now exists p0.
    + intros a b w2 w3. destruct (p_categoryId a =? id).
      * unfold bind, nowIso, ret. now intros [= <- _].
      * unfold ret. now intros [= <- _].
Qed.

Lemma stamped_ok (ids : list string) (now : string) (p : Prompt) :
  now <> "" -> prompt_ok ids p -> prompt_ok ids (stamped now p).
Proof.
  intros N ((T1 & N1 & Hc & T2 & Ft & Nt & L) & T & Ni & St & C1 & C2).
  apply nonEmpty_true in N.
  repeat split; simpl; try assumption. now right.
Qed.

Lemma canonical_stamped (d : DbFile) (id now : string) :
  now <> "" -> canonical d ->
  canonical (withPrompts d
               (map (fun p => if p_id p =? id then stamped now p else p)
                    (prompts d))).
Proof.
  intros N (V & Nc & U & Fc & Np & Fp).
  unfold canonical. simpl. repeat split; try assumption.
  - rewrite map_map.
    replace (map (fun x => p_id (if p_id x =? id then stamped now x else x))
                 (prompts d)) with (map p_id (prompts d)); [exact Np|].
    apply map_ext. intros p. now destruct (p_id p =? id).
  - apply Forall_map. eapply Forall_impl; [|exact Fp].
    intros p Hp. destruct (p_id p =? id); [now apply stamped_ok|exact Hp].
Qed.

Lemma runQueue_app (q : list (DbFile -> M DbFile))
    (u : DbFile -> M DbFile) (d : DbFile) (w : World) :
  runQueue (q ++ [u]) d w = (d' <- runQueue q d ;; u d') w.
Proof.
  clear. revert d w. induction q as [|x q IH]; intros d w; simpl.
  - unfold bind, ret. now destruct (u d w) as [[a|e] w'].
  - unfold bind at 1. unfold bind at 1.
    destruct (x d w) as [[d1|e] w1] eqn:E.
    + rewrite IH. unfold bind. now rewrite E.
    + unfold bind. now rewrite E.
Qed.

(** The render after [commit], whatever updates wait: [prev] is the
    document they lead to. *)
Lemma commit_pending (mutator : DbFile -> M DbFile) (message : string)
    (s : Session) (w : World) (prev next : DbFile) (w1 w2 : World) :
  runQueue (queue (lib s)) (db (lib s)) w = (Ok prev, w1) ->
  mutator prev w1 = (Ok next, w2) ->
  canonical next ->
  render (snd (commit mutator message (mkSession (lib s) w)))
  = (Ok tt,
     mkSession (mkLibrary (loading (lib s)) true next None
                  (if nonEmpty message then Some message else toast (lib s))
                  [])
               w2).
Proof.
  intros Hq Hm Hc.
  assert (R : runQueue (queue (lib s) ++ [committed mutator]) (db (lib s)) w
              = (Ok next, w2)).
  { rewrite runQueue_app. unfold bind at 1. rewrite Hq.
    unfold committed, bind. rewrite Hm. now apply normalizeDb_fixed. }
  unfold commit, bind, setError, setDb, setBackupPending, setToast, update, ret.
  destruct (nonEmpty message); simpl; unfold render; simpl; now rewrite R.
Qed.

(** The waiting updates of a session reached from the first render lead
    to a canonical document. *)
Lemma pending_canonical (w0 : World) (cs : list call) (w w1 : World)
    (prev : DbFile) :
  clock_ok -> ids_ok -> comparator localeCompare ->
  let s := performAll cs (firstRender w0) in
  runQueue (queue (lib s)) (db (lib s)) w = (Ok prev, w1) ->
  canonical prev.
Proof.
  intros K I C s H.
  pose proof (canonical_established K I C) as HP.
  destruct (settled_performAll canonical cs HP (firstRender w0)
              (settled_firstRender canonical w0 HP)) as [Hd Hq].
  now apply (runQueue_yields canonical _ Hq (db (lib s)) prev w w1).
Qed.

(** The update [copyPrompt] leaves, on a canonical document. *)
Lemma stamp_runs (id : string) (prev : DbFile) (w : World) :
  stampMutator id prev w
  = (Ok (withPrompts prev
           (map (fun p => if p_id p =? id
                          then stamped (nowAt (ticks w)) p else p)
                (prompts prev))),
     mkWorld (S (ticks w)) (draws w)).
Proof. reflexivity. Qed.

(** [copyPrompt], resumed by a clipboard that took the text, and the
    render. *)
Lemma copyPrompt_stamps (id : string) (s : Session) (prev : DbFile)
    (w1 : World) :
  clock_ok -> canonical prev ->
  runQueue (queue (lib s)) (db (lib s)) (world s) = (Ok prev, w1) ->
  render (snd (copyPromptResumed id (Ok tt) s))
  = (Ok tt,
     mkSession
       (mkLibrary (loading (lib s)) true
          (withPrompts prev
             (map (fun p => if p_id p =? id
                            then stamped (nowAt (ticks w1)) p else p)
                  (prompts prev)))
          None (Some "Skopiowano") [])
       (mkWorld (S (ticks w1)) (draws w1))).
Proof.
  intros K Hc Hq. unfold copyPromptResumed.
  destruct s as [l w]. simpl in Hq.
  apply (commit_pending (stampMutator id) "Skopiowano"
           (mkSession l w) w prev _ w1 _ Hq (stamp_runs id prev w1)).
  apply canonical_stamped; [apply K|exact Hc].
Qed.

Lemma copyPrompt_absent (id : string) (s : Session) :
  find (fun q => p_id q =? id) (prompts (db (lib s))) = None ->
  copyPrompt id s = (Ok None, surfaced s "Prompt nie istnieje").
Proof. intros H. unfold copyPrompt. now rewrite H. Qed.

Lemma copyPrompt_found (id : string) (s : Session) (p : Prompt) :
  find (fun q => p_id q =? id) (prompts (db (lib s))) = Some p ->
  copyPrompt id s = (Ok (Some (p_content p)), s).
Proof. intros H. unfold copyPrompt. now rewrite H. Qed.

(** No edit introduces a time of last use. *)
Lemma edit_usesFrom (e : edit) (prev d : DbFile) (w w' : World) :
  canonical prev -> committed (editMutator e) prev w = (Ok d, w') ->
  usesFrom prev d.
Proof.
  intros Hc H. unfold committed in H. apply bind_Ok in H.
  destruct H as (next & w1 & Hn & H).
  apply (normalizeDb_usesFrom prev next d w1 w' Hc); [|exact H].
  now apply editMutator_uses with e w w1.
Qed.

(** A call that edits changes nothing at once: it leaves at most one
    update, that of an edit, for the next render. *)
Lemma perform_edit (c : call) (s : Session) :
  isEdit c = true ->
  db (lib (snd (perform c s))) = db (lib s) /\
  (queue (lib (snd (perform c s))) = queue (lib s) \/
   exists e, queue (lib (snd (perform c s)))
             = queue (lib s) ++ [committed (editMutator e)]).
Proof.
  destruct c; simpl; try discriminate; intros _;
    unfold upsertPrompt, deletePrompt, duplicatePrompt, createCategory,
      createCategoryAction, renameCategory, renameCategoryAction,
      deleteCategory, deleteCategoryAction, withValidation, tryCatch, commit,
      bind, setError, setDb, setBackupPending, setToast, update, inWorld,
      orUuid, uuid, ret, raise.
  - destruct (negb (nonEmpty (trim (d_title draft)))); [now split; [|left]|].
    destruct (negb (nonEmpty (trim (d_categoryId draft))));
      [now split; [|left]|].
    destruct (negb (nonEmpty (trim (d_content draft))));
      [now split; [|left]|].
    destruct (d_id draft) as [i|]; [destruct (nonEmpty i)|]; simpl;
      (split; [reflexivity|right; eexists (EditUpsertPrompt draft _);
                           reflexivity]).
  - simpl. split; [reflexivity|right]. now exists (EditDeletePrompt id).
  - simpl. split; [reflexivity|right].
    now exists (EditDuplicatePrompt id (uuidAt (draws (world s)))).
  - destruct (negb (nonEmpty (trim name))); [now split; [|left]|].
    simpl. split; [reflexivity|right].
    now exists (EditCreateCategory (trim name)).
  - destruct (negb (nonEmpty (trim name))); [now split; [|left]|].
    destruct (id =? UNCATEGORIZED_ID); [now split; [|left]|].
    simpl. split; [reflexivity|right].
    now exists (EditRenameCategory id (trim name)).
  - destruct (id =? UNCATEGORIZED_ID); [now split; [|left]|].
    simpl. split; [reflexivity|right].
    now exists (EditDeleteCategory id).
Qed.

Lemma usesFrom_refl (d : DbFile) : usesFrom d d.
Proof. intros q Hq _. now exists q. Qed.

(** An editing call and the render that follows introduce no time of last
    use: [prev] is the document the updates that waited lead to. *)
Lemma edit_call_usesFrom (c : call) (s s' : Session) (prev : DbFile)
    (w1 : World) :
  isEdit c = true -> canonical prev ->
  runQueue (queue (lib s)) (db (lib s)) (world (snd (perform c s)))
  = (Ok prev, w1) ->
  render (snd (perform c s)) = (Ok tt, s') ->
  usesFrom prev (db (lib s')).
Proof.
  intros Hc Hd Hq H. destruct (perform_edit c s Hc) as [Ed [Eq|(e & Eq)]];
    unfold render in H; rewrite Ed, Eq in H.
  - rewrite Hq in H. injection H as <-. simpl. apply usesFrom_refl.
  - rewrite runQueue_app in H. unfold bind at 1 in H. rewrite Hq in H.
    destruct (committed (editMutator e) prev w1) as [[d|x] w2] eqn:E;
      [|discriminate].
    injection H as <-. simpl.
    now apply edit_usesFrom with e w1 w2.
Qed.

(** * The merge engine *)

(** ** More on maps *)

Lemma map_get_set {V} (m : Map V) (k k' : string) (v : V) :
  map_get (map_set m k v) k' = if k =? k' then Some v else map_get m k'.
Proof.
  clear. induction m as [|[k0 v0] r IH]; simpl.
  - reflexivity.
  - destruct (String.eqb_spec k0 k) as [->|N]; simpl.
    + destruct (k =? k'); reflexivity.
    + rewrite IH. destruct (String.eqb_spec k0 k') as [->|N'];
        [|reflexivity].
      destruct (String.eqb_spec k k'); [congruence|reflexivity].
Qed.

Lemma map_keys_set {V} (m : Map V) (k : string) (v : V) :
  map fst (map_set m k v)
  = if map_has m k then map fst m else map fst m ++ [k].
Proof.
  clear. induction m as [|[k0 v0] r IH]; simpl; [reflexivity|].
  destruct (String.eqb_spec k0 k) as [->|N]; simpl; [reflexivity|].
  rewrite IH. now destruct (map_has r k).
Qed.

Lemma map_has_set {V} (m : Map V) (k k' : string) (v : V) :
  map_has (map_set m k v) k' = (k =? k') || map_has m k'.
Proof.
  clear. apply eq_true_iff_eq. rewrite orb_true_iff, !map_has_In, map_keys_set.
  destruct (map_has m k) eqn:E.
  - apply map_has_In in E. rewrite String.eqb_eq. split; [tauto|].
    intros [H|H]; [now subst k'|exact H].
  - rewrite in_app_iff. simpl. rewrite String.eqb_eq. tauto.
Qed.

Lemma map_set_Forall {V} (Q : string * V -> Prop) (m : Map V) (k : string)
    (v : V) :
  Forall Q m -> Q (k, v) -> Forall Q (map_set m k v).
Proof.
  clear. intros H Hq. induction H as [|[k0 v0] r H0 Hr IH]; simpl.
  - now constructor.
  - destruct (k0 =? k); constructor; assumption.
Qed.

Lemma map_set_NoDup {V} (m : Map V) (k : string) (v : V) :
  NoDup (map fst m) -> NoDup (map fst (map_set m k v)).
Proof.
  clear. intros H. rewrite map_keys_set. destruct (map_has m k) eqn:E;
    [exact H|].
  apply map_has_false in E. apply NoDup_app; [exact H| |].
  - constructor; [simpl; tauto|constructor].
  - intros x Hx [<-|[]]. contradiction.
Qed.

Lemma map_get_has {V} (m : Map V) (k : string) :
  map_has m k = true <-> exists v, map_get m k = Some v.
Proof.
  clear. induction m as [|[k0 v0] r IH]; simpl.
  - split; [discriminate|]. now intros [v H].
  - destruct (k0 =? k); simpl; [|exact IH].
    split; [|reflexivity]. intros _. now exists v0.
Qed.

Lemma map_get_In {V} (m : Map V) (k : string) (v : V) :
  map_get m k = Some v -> In (k, v) m.
Proof.
  clear. induction m as [|[k0 v0] r IH]; simpl; [discriminate|].
  destruct (String.eqb_spec k0 k) as [->|N].
  - intros [= ->]. now left.
  - intros H. right. now apply IH.
Qed.

(** [new Map(entries)]: a key is there when an entry has it, and its value
    is that of one of them. *)
Lemma fold_set_has {V} (entries : list (string * V)) :
  forall (acc : Map V) (k : string),
    map_has (fold_left (fun m kv => map_set m (fst kv) (snd kv)) entries acc) k
    = map_has acc k || existsb (fun kv => fst kv =? k) entries.
Proof.
  clear. induction entries as [|[k0 v0] r IH]; intros acc k; simpl.
  - now rewrite orb_false_r.
  - rewrite IH, map_has_set. now destruct (k0 =? k), (map_has acc k).
Qed.

Lemma fold_set_get {V} (entries : list (string * V)) :
  forall (acc : Map V) (k : string) (v : V),
    map_get (fold_left (fun m kv => map_set m (fst kv) (snd kv)) entries acc) k
    = Some v ->
    In (k, v) entries \/ map_get acc k = Some v.
Proof.
  clear. induction entries as [|[k0 v0] r IH]; intros acc k v; simpl.
  - now right.
  - intros H. apply IH in H. destruct H as [H|H]; [now left; right|].
    rewrite map_get_set in H.
    destruct (String.eqb_spec k0 k) as [->|N]; [|now right].
    injection H as ->. left. now left.
Qed.

Lemma map_of_has {V} (entries : list (string * V)) (k : string) :
  map_has (map_of entries) k = true <-> In k (map fst entries).
Proof.
  clear. unfold map_of. rewrite fold_set_has. simpl.
  apply (map_has_In entries k).
Qed.

Lemma map_of_get {V} (entries : list (string * V)) (k : string) (v : V) :
  map_get (map_of entries) k = Some v -> In (k, v) entries.
Proof.
  clear. unfold map_of. intros H. apply fold_set_get in H.
  destruct H as [H|H]; [exact H|discriminate].
Qed.

Lemma fold_set_fresh {V} (entries : list (string * V)) :
  forall acc : Map V,
    NoDup (map fst acc ++ map fst entries) ->
    fold_left (fun m kv => map_set m (fst kv) (snd kv)) entries acc
    = acc ++ entries.
Proof.
  clear. induction entries as [|[k0 v0] r IH]; intros acc H; simpl.
  - now rewrite app_nil_r.
  - simpl in H. rewrite map_set_fresh.
    + rewrite IH; [now rewrite <- app_assoc|].
      now rewrite map_app, <- app_assoc.
    + apply map_has_false. intros Hin.
      apply NoDup_remove_2 in H. apply H, in_or_app. now left.
Qed.

Lemma map_of_fresh {V} (entries : list (string * V)) :
  NoDup (map fst entries) -> map_of entries = entries.
Proof. clear. intros H. now apply (fold_set_fresh entries []). Qed.

(** ** The loops as folds *)

Lemma fold_left_prefix {A B} (f : A -> B -> A) (P : list B -> A -> Prop)
    (l : list B) (a0 : A) :
  P [] a0 ->
  (forall done b rest a,
      l = done ++ b :: rest -> P done a -> P (done ++ [b]) (f a b)) ->
  P l (fold_left f l a0).
Proof.
  clear. intros H0 Hstep.
  assert (G : forall rest done a,
             l = done ++ rest -> P done a -> P l (fold_left f rest a)).
  { induction rest as [|b rest IH]; intros done a E H; simpl.
    - rewrite app_nil_r in E. now subst.
    - apply (IH (done ++ [b])).
      + now rewrite <- app_assoc.
      + now apply Hstep with rest. }
  now apply (G l []).
Qed.

Lemma orUuid_given (x : string) (w : World) :
  x <> "" -> orUuid x w = (Ok x, w).
Proof. intros N. unfold orUuid. apply nonEmpty_true in N. now rewrite N. Qed.

Lemma mergeCategories_fold (imported : list Category) :
  Forall (fun c => c_id c <> "") imported ->
  forall cats idMap nameMap w,
    mergeCategories imported cats idMap nameMap w
    = (Ok (fst (fold_left mergeCategoryStep imported (cats, idMap, nameMap))),
       w).
Proof.
  induction 1 as [|c r Hc _ IH]; intros cats idMap nameMap w; simpl.
  - reflexivity.
  - run_with (orUuid_given (c_id c) w Hc).
    destruct (map_has idMap (c_id c)); [apply IH|].
    destruct (map_get nameMap (toLowerCase (c_name c))) as [e|]; [|apply IH].
    destruct (nonEmpty e); apply IH.
Qed.

Lemma mergePrompts_fold (idMap : Map string) (imported : list Prompt) :
  Forall (fun p => p_id p <> "") imported ->
  forall m w,
    mergePrompts idMap imported m w
    = (Ok (fold_left (mergePromptStep idMap) imported m), w).
Proof.
  induction 1 as [|p r Hp _ IH]; intros m w; simpl.
  - reflexivity.
  - run_with (orUuid_given (p_id p) w Hp). apply IH.
Qed.

(** ** The categories of the merged document *)

Lemma mergeCategoryStep_inv (cats0 : list Category) (nameMap0 : Map string)
    (l done rest : list Category) (b : Category)
    (st : list Category * Map string * Map string) :
  l = done ++ b :: rest -> NoDup (map c_id l) ->
  mergeInv cats0 nameMap0 done st ->
  mergeInv cats0 nameMap0 (done ++ [b]) (mergeCategoryStep st b).
Proof.
  clear typeErrorMessage localeCompare.
  intros El Hl. destruct st as [[cats idMap] nameMap].
  intros (added & Ec & Hincl & Hnd & Hkeys & Hval & Hnval & Hpers & Hkeep &
          Hres).
  assert (Hb : ~ In (c_id b) (map c_id done)).
  { rewrite El, map_app in Hl. simpl in Hl. apply NoDup_remove_2 in Hl.
    intros H. apply Hl, in_or_app. now left. }
  assert (Hbd : forall c, In c done -> c_id b <> c_id c).
  { intros c Hc E. apply Hb. rewrite E. now apply in_map. }
  assert (Hba : ~ In b added).
  { intros H. apply Hb, in_map, Hincl, H. }
  assert (Hkeys' : forall (v : string) k,
             map_has (map_set idMap (c_id b) v) k = true <->
             In k (map c_id cats0) \/ In k (map c_id (done ++ [b]))).
  { intros v k. rewrite map_has_set, orb_true_iff, Hkeys, map_app, in_app_iff,
      String.eqb_eq. simpl. tauto. }
  assert (Hold : forall (v : string) c x,
             In c done -> map_get idMap (c_id c) = Some x ->
             map_get (map_set idMap (c_id b) v) (c_id c) = Some x).
  { intros v c x Hc Hx. rewrite map_get_set.
    destruct (String.eqb_spec (c_id b) (c_id c)) as [E|_]; [|exact Hx].
    now apply Hbd in E. }
  unfold mergeCategoryStep.
  destruct (map_has idMap (c_id b)) eqn:Hh.
  - assert (H0 : In (c_id b) (map c_id cats0)).
    { apply Hkeys in Hh. tauto. }
    exists added. repeat split; try assumption.
    + now apply incl_appl.
    + apply Hkeys'.
    + apply Hkeys'.
    + intros k v. rewrite map_get_set.
      destruct (String.eqb_spec (c_id b) k) as [E|_]; [|apply Hval].
      intros [= <-]. rewrite Ec, map_app. apply in_or_app. now left.
    + intros c Hc Hin Ha. apply in_app_or in Hc.
      destruct Hc as [Hc|[<-|[]]]; [now apply (Hkeep c)|contradiction].
    + apply in_app_or in H. destruct H as [Hc|[<-|[]]]; [|contradiction].
      apply Hold; [exact Hc|]. now apply (Hres c v).
    + apply in_app_or in H. destruct H as [Hc|[<-|[]]]; [|contradiction].
      now apply (Hres c v).
  - assert (Hfresh : ~ In (c_id b) (map c_id cats)).
    { rewrite Ec, map_app. intros H. apply in_app_or in H.
      destruct H as [H|H].
      - assert (T : map_has idMap (c_id b) = true) by (apply Hkeys; now left).
        congruence.
      - apply in_map_iff in H. destruct H as (c & E & Hc).
        apply Hincl in Hc. apply Hbd in Hc. congruence. }
    assert (Happend :
      (forall v, map_get nameMap0 (toLowerCase (c_name b)) = Some v ->
                 v <> "" -> False) ->
      mergeInv cats0 nameMap0 (done ++ [b])
        (cats ++ [b], map_set idMap (c_id b) (c_id b),
         map_set nameMap (toLowerCase (c_name b)) (c_id b))).
    { intros Hnone. exists (added ++ [b]). repeat split.
      - now rewrite Ec, app_assoc.
      - apply incl_app; [now apply incl_appl|].
        apply incl_appr, incl_refl.
      - rewrite map_app. apply NoDup_app; [exact Hnd| |].
        + constructor; [simpl; tauto|constructor].
        + intros x Hx [<-|[]]. contradiction.
      - apply Hkeys'.
      - apply Hkeys'.
      - intros k v. rewrite map_get_set, map_app, in_app_iff.
        destruct (String.eqb_spec (c_id b) k) as [E|_].
        + intros [= <-]. right. now left.
        + intros H. left. now apply Hval with k.
      - intros k v. rewrite map_get_set, map_app, in_app_iff.
        destruct (String.eqb_spec (toLowerCase (c_name b)) k) as [E|_].
        + intros [= <-]. right. now left.
        + intros H. left. now apply Hnval with k.
      - intros k v Hk Hv. rewrite map_get_set.
        destruct (String.eqb_spec (toLowerCase (c_name b)) k) as [E|_];
          [|now apply Hpers].
        subst k. exfalso. now apply (Hnone v).
      - intros c Hc Hin Ha. apply in_app_or in Ha. apply in_app_or in Hc.
        assert (Nb : ~ In (c_id b) (map c_id cats0)).
        { intros H. assert (T : map_has idMap (c_id b) = true)
            by (apply Hkeys; now left). congruence. }
        destruct Ha as [Ha|[<-|[]]]; [|contradiction].
        destruct Hc as [Hc|[<-|[]]]; [now apply (Hkeep c)|contradiction].
      - apply in_app_or in H. destruct H as [Hc|[<-|[]]].
        + apply Hold; [exact Hc|]. now apply (Hres c v).
        + exfalso. now apply (Hnone v).
      - apply in_app_or in H. destruct H as [Hc|[<-|[]]].
        + intros Ha. apply in_app_or in Ha. destruct Ha as [Ha|[E|[]]].
          * now apply (Hres c v) in Ha.
          * subst c. apply (Hbd b) in Hc. congruence.
        + exfalso. now apply (Hnone v). }
    destruct (map_get nameMap (toLowerCase (c_name b))) as [e|] eqn:Hg.
    + destruct (nonEmpty e) eqn:He.
      * exists added. repeat split; try assumption.
        -- now apply incl_appl.
        -- apply Hkeys'.
        -- apply Hkeys'.
        -- intros k v. rewrite map_get_set.
           destruct (String.eqb_spec (c_id b) k) as [E|_]; [|apply Hval].
           intros [= <-]. now apply Hnval with (toLowerCase (c_name b)).
        -- intros c Hc Hin Ha. apply in_app_or in Hc.
           destruct Hc as [Hc|[<-|[]]]; [now apply (Hkeep c)|contradiction].
        -- apply in_app_or in H. destruct H as [Hc|[<-|[]]].
           ++ apply Hold; [exact Hc|]. now apply (Hres c v).
           ++ rewrite map_get_set, String.eqb_refl.
              apply Hpers in H1; [|exact H2]. congruence.
        -- apply in_app_or in H. destruct H as [Hc|[<-|[]]];
             [now apply (Hres c v)|exact Hba].
      * apply Happend. intros v Hv Nv. apply Hpers in Hv; [|exact Nv].
        rewrite Hg in Hv. injection Hv as ->.
        apply nonEmpty_true in Nv. congruence.
    + apply Happend. intros v Hv Nv. apply Hpers in Hv; [|exact Nv].
      congruence.
Qed.

Lemma mergeInv_start (cats0 : list Category) :
  NoDup (map c_id cats0) ->
  mergeInv cats0 (nameMapOf cats0) []
    (cats0, map_of (map (fun c => (c_id c, c_id c)) cats0), nameMapOf cats0).
Proof.
  intros Hn. exists []. rewrite app_nil_r. repeat split; try assumption;
    try contradiction.
  - apply incl_refl.
  - intros H. apply map_of_has in H. rewrite map_map in H. now left.
  - intros [H|[]]. apply map_of_has. now rewrite map_map.
  - intros k v H. apply map_of_get, in_map_iff in H.
    destruct H as (c & [= _ <-] & Hc). now apply in_map.
  - intros k v H. apply map_of_get, in_map_iff in H.
    destruct H as (c & [= _ <-] & Hc). now apply in_map.
  - intros k v H _. exact H.
Qed.

(** The first half of [mergeImported] on canonical documents. *)
Lemma mergedCategories_spec (current imported : DbFile) (w : World) :
  canonical current -> canonical imported ->
  exists cats idMap added,
    mergedCategories current imported w = (Ok (cats, idMap), w) /\
    cats = categories current ++ added /\
    incl added (categories imported) /\
    NoDup (map c_id cats) /\
    Forall category_ok cats /\
    In UNCATEGORIZED_ID (map c_id cats) /\
    (forall k, In (resolveImported idMap k) (map c_id cats)) /\
    (forall c, In c (categories imported) ->
               In (c_id c) (map c_id (categories current)) -> ~ In c added) /\
    (forall c v, In c (categories imported) ->
                 ~ In (c_id c) (map c_id (categories current)) ->
                 map_get (nameMapOf (categories current))
                         (toLowerCase (c_name c)) = Some v ->
                 v <> "" ->
                 resolveImported idMap (c_id c) = v /\ ~ In c added).
Proof.
  intros (_ & Nc & U & Fc & _) (_ & Ni & _ & Fi & _).
  unfold mergedCategories.
  assert (Hids : Forall (fun c => c_id c <> "") (categories imported)).
  { eapply Forall_impl; [|exact Fi]. intros c ((_ & N & _) & _). exact N. }
  pose proof (fold_left_prefix mergeCategoryStep
                (mergeInv (categories current) (nameMapOf (categories current)))
                (categories imported)
                (categories current,
                 map_of (map (fun c => (c_id c, c_id c)) (categories current)),
                 nameMapOf (categories current))
                (mergeInv_start (categories current) Nc)) as Hfold.
  run_with (mergeCategories_fold (categories imported) Hids
              (categories current)
              (map_of (map (fun c => (c_id c, c_id c)) (categories current)))
              (nameMapOf (categories current)) w).
  destruct (fold_left mergeCategoryStep (categories imported) _)
    as [[cats idMap] nameMap].
  destruct Hfold as (added & Ec & Hincl & Hnd & Hkeys & Hval & _ & _ & Hkeep &
                     Hres).
  { intros done b rest st El H.
    apply (mergeCategoryStep_inv _ _ (categories imported) done rest b st El
             Ni H). }
  assert (U' : In UNCATEGORIZED_ID (map c_id cats)).
  { rewrite Ec, map_app. apply in_or_app. now left. }
  exists cats, (map_set idMap UNCATEGORIZED_ID UNCATEGORIZED_ID), added.
  simpl. repeat split; try assumption.
  - rewrite Ec. apply Forall_app. split; [exact Fc|].
    apply Forall_forall. intros c Hc.
    apply (proj1 (Forall_forall _ _) Fi), Hincl, Hc.
  - intros k. unfold resolveImported. rewrite map_get_set.
    destruct (UNCATEGORIZED_ID =? k); [exact U'|].
    destruct (map_get idMap k) as [v|] eqn:E; [now apply Hval with k|exact U'].
  - unfold resolveImported. rewrite map_get_set.
    destruct (String.eqb_spec UNCATEGORIZED_ID (c_id c)) as [E|_].
    + exfalso. apply H0. now rewrite <- E.
    + now rewrite (proj1 (Hres c v H H0 H1 H2)).
  - now apply (Hres c v).
Qed.

(** ** The prompts of the merged document *)

Lemma prompt_ok_ids (ids ids' : list string) (p : Prompt) :
  incl ids ids' -> prompt_ok ids p -> prompt_ok ids' p.
Proof.
  intros Hi ((T1 & N1 & Hc & R) & Hr). repeat split; try assumption;
    try apply R; try apply Hr. now apply Hi.
Qed.

Lemma tagSet_fixed (p : Prompt) (ids : list string) :
  prompt_ok ids p -> tagSet (p_tags p) = p_tags p.
Proof.
  intros ((_ & _ & _ & _ & Ft & Nt & _) & _ & _ & St & _).
  apply sortedSet_fixed. now repeat split.
Qed.

Lemma rewritten_ok (ids ids' : list string) (idMap : Map string) (p : Prompt) :
  (forall k, In (resolveImported idMap k) ids') ->
  prompt_ok ids p -> prompt_ok ids' (rewritten idMap (p_id p) p).
Proof.
  intros Hr Hp. pose proof (tagSet_fixed p ids Hp) as Et.
  destruct Hp as ((T1 & N1 & Hc & T2 & Ft & Nt & L) & T & N & St & C1 & C2).
  unfold rewritten. repeat split; simpl; try assumption; try apply Hr;
    rewrite Et; assumption.
Qed.

Lemma find_values (m : Map Prompt) (k : string) :
  Forall (fun kv => fst kv = p_id (snd kv)) m ->
  find (fun q => p_id q =? k) (map_values m) = map_get m k.
Proof.
  induction 1 as [|[k0 v0] r E _ IH]; simpl; [reflexivity|].
  simpl in E. rewrite <- E. now destruct (k0 =? k).
Qed.

Lemma mergePrompts_spec (ids : list string) (idMap : Map string)
    (imported : list Prompt) (m0 : Map Prompt) :
  (forall k, In (resolveImported idMap k) ids) ->
  NoDup (map p_id imported) ->
  (exists ids0, Forall (prompt_ok ids0) imported) ->
  NoDup (map fst m0) ->
  Forall (fun kv => fst kv = p_id (snd kv) /\ prompt_ok ids (snd kv)) m0 ->
  let m := fold_left (mergePromptStep idMap) imported m0 in
  NoDup (map fst m) /\
  Forall (fun kv => fst kv = p_id (snd kv) /\ prompt_ok ids (snd kv)) m /\
  (forall p, In p imported ->
             map_get m (p_id p) = Some (rewritten idMap (p_id p) p)).
Proof.
  intros Hr Hn (ids0 & Hok) Hn0 Hf0 m.
  apply (fold_left_prefix (mergePromptStep idMap)
           (fun done m => NoDup (map fst m) /\
              Forall (fun kv => fst kv = p_id (snd kv) /\
                                prompt_ok ids (snd kv)) m /\
              (forall p, In p done ->
                 map_get m (p_id p) = Some (rewritten idMap (p_id p) p)))
           imported m0).
  - repeat split; try assumption. contradiction.
  - intros done b rest a El (H1 & H2 & H3). unfold mergePromptStep.
    assert (Hb : In b imported).
    { rewrite El. apply in_or_app. right. now left. }
    repeat split.
    + now apply map_set_NoDup.
    + apply map_set_Forall; [exact H2|]. split; [reflexivity|].
      apply rewritten_ok with ids0; [exact Hr|].
      now apply (proj1 (Forall_forall _ _) Hok).
    + intros p Hp. rewrite map_get_set. apply in_app_or in Hp.
      destruct Hp as [Hp|[<-|[]]]; [|now rewrite String.eqb_refl].
      destruct (String.eqb_spec (p_id b) (p_id p)) as [E|_]; [|now apply H3].
      exfalso. rewrite El, map_app in Hn. simpl in Hn.
      apply NoDup_remove_2 in Hn. apply Hn, in_or_app. left.
      rewrite E. now apply in_map.
Qed.

Lemma promptEntries_ok (ids : list string) (l : list Prompt) :
  Forall (prompt_ok ids) l ->
  Forall (fun kv => fst kv = p_id (snd kv) /\ prompt_ok ids (snd kv))
         (promptEntries l).
Proof.
  intros H. unfold promptEntries. apply Forall_map.
  eapply Forall_impl; [|exact H]. now intros p Hp.
Qed.

(** [mergeImported] on canonical documents: nothing is left for
    [normalizeDb] to repair, so the merged document is the document built
    by the two loops. *)
Lemma mergeImported_spec (current imported : DbFile) (w : World) :
  canonical current -> canonical imported ->
  exists cats idMap pm,
    mergedCategories current imported w = (Ok (cats, idMap), w) /\
    mergeImported current imported w
    = (Ok (mkDb 1 cats (map_values pm)), w) /\
    canonical (mkDb 1 cats (map_values pm)) /\
    Forall (fun kv => fst kv = p_id (snd kv)) pm /\
    (forall p, In p (prompts imported) ->
               map_get pm (p_id p) = Some (rewritten idMap (p_id p) p)).
Proof.
  intros Hc Hi.
  destruct (mergedCategories_spec current imported w Hc Hi)
    as (cats & idMap & added & Em & Ec & Hincl & Hnd & Fc & U & Hr & _).
  pose proof Hc as (_ & _ & _ & _ & Np & Fp).
  pose proof Hi as (_ & _ & _ & Fi & Npi & Fpi).
  assert (Hsub : incl (map c_id (categories current)) (map c_id cats)).
  { rewrite Ec, map_app. now apply incl_appl. }
  assert (Hids : Forall (fun p => p_id p <> "") (prompts imported)).
  { eapply Forall_impl; [|exact Fpi]. intros p (_ & _ & N & _). exact N. }
  assert (E0 : map_of (map (fun p => (p_id p, p)) (prompts current))
               = promptEntries (prompts current)).
  { apply map_of_fresh. fold (promptEntries (prompts current)).
    now rewrite promptEntries_keys. }
  destruct (mergePrompts_spec (map c_id cats) idMap (prompts imported)
              (promptEntries (prompts current)) Hr Npi
              (ex_intro _ _ Fpi)) as (H1 & H2 & H3).
  { now rewrite promptEntries_keys. }
  { apply promptEntries_ok. eapply Forall_impl; [|exact Fp].
    intros p. now apply prompt_ok_ids. }
  set (pm := fold_left (mergePromptStep idMap) (prompts imported)
               (promptEntries (prompts current))) in *.
  assert (Hcan : canonical (mkDb 1 cats (map_values pm))).
  { unfold canonical. simpl.
    assert (Ek : map p_id (map_values pm) = map fst pm).
    { unfold map_values. rewrite map_map. clear - H2.
      induction H2 as [|kv r [E _] _ IH]; simpl; [reflexivity|].
      now rewrite IH, E. }
    rewrite Ek. repeat split; try assumption.
    unfold map_values. apply Forall_map.
    eapply Forall_impl; [|exact H2]. now intros kv [_ H]. }
  exists cats, idMap, pm. repeat split; try assumption; try apply Hcan.
  - unfold mergeImported, mergeNext. unfold bind at 1.
    run_with Em. simpl fst. simpl snd. rewrite E0.
    run_with (mergePrompts_fold idMap (prompts imported) Hids
                (promptEntries (prompts current)) w).
    fold pm. unfold ret at 1.
    now apply normalizeDb_fixed.
  - eapply Forall_impl; [|exact H2]. now intros kv [H _].
Qed.



Lemma assignInv_step (l done rest : list Category) (b : Category)
    (st : list Category * Map string * Map string) :
  l = done ++ b :: rest -> NoDup (map c_id l) ->
  assignInv done st -> assignInv (done ++ [b]) (mergeCategoryStep st b).
Proof.
  intros El Hl. destruct st as [[cats idMap] nameMap]. intros [Hid Hname].
  assert (Hb : forall c, In c done -> c_id b <> c_id c).
  { intros c Hc E. rewrite El, map_app in Hl. simpl in Hl.
    apply NoDup_remove_2 in Hl. apply Hl, in_or_app. left.
    rewrite E. now apply in_map. }
  assert (Hold : forall (cats' : list Category) (v0 : string) c,
             incl cats cats' -> In c done ->
             exists v, map_get (map_set idMap (c_id b) v0) (c_id c) = Some v /\
                       (v = c_id c \/
                        exists cm, In cm cats' /\ c_id cm = v /\
                                   toLowerCase (c_name cm)
                                   = toLowerCase (c_name c))).
  { intros cats' v0 c Hi Hc. destruct (Hid c Hc) as (v & G & D).
    exists v. rewrite map_get_set.
    destruct (String.eqb_spec (c_id b) (c_id c)) as [E|_];
      [now apply Hb in E|].
    split; [exact G|]. destruct D as [D|(cm & Hcm & D)]; [now left|].
    right. exists cm. split; [now apply Hi|exact D]. }
  unfold mergeCategoryStep.
  destruct (map_has idMap (c_id b)) eqn:Hh.
  - split; [|exact Hname]. intros c Hc. apply in_app_or in Hc.
    destruct Hc as [Hc|[<-|[]]]; [now apply Hold; [apply incl_refl|]|].
    exists (c_id b). rewrite map_get_set, String.eqb_refl. split; [reflexivity|now left].
  - destruct (map_get nameMap (toLowerCase (c_name b))) as [existing|] eqn:G.
    + destruct (nonEmpty existing) eqn:Ne.
      * split; [|exact Hname]. intros c Hc. apply in_app_or in Hc.
        destruct Hc as [Hc|[<-|[]]]; [now apply Hold; [apply incl_refl|]|].
        exists existing. rewrite map_get_set, String.eqb_refl.
        split; [reflexivity|]. right. now apply Hname.
      * split.
        -- intros c Hc. apply in_app_or in Hc.
           destruct Hc as [Hc|[<-|[]]];
             [apply Hold; [now apply incl_appl, incl_refl|exact Hc]|].
           exists (c_id b). rewrite map_get_set, String.eqb_refl.
           split; [reflexivity|now left].
        -- intros k v. rewrite map_get_set.
           destruct (String.eqb_spec (toLowerCase (c_name b)) k) as [E|_].
           ++ intros [= <-]. exists b. split; [|now split].
              apply in_or_app. right. now left.
           ++ intros H. destruct (Hname k v H) as (cm & Hcm & D).
              exists cm. split; [|exact D]. apply in_or_app. now left.
    + split.
      * intros c Hc. apply in_app_or in Hc.
        destruct Hc as [Hc|[<-|[]]];
          [apply Hold; [now apply incl_appl, incl_refl|exact Hc]|].
        exists (c_id b). rewrite map_get_set, String.eqb_refl.
        split; [reflexivity|now left].
      * intros k v. rewrite map_get_set.
        destruct (String.eqb_spec (toLowerCase (c_name b)) k) as [E|_].
        -- intros [= <-]. exists b. split; [|now split].
           apply in_or_app. right. now left.
        -- intros H. destruct (Hname k v H) as (cm & Hcm & D).
           exists cm. split; [|exact D]. apply in_or_app. now left.
Qed.

Lemma mergedCategories_assign (current imported : DbFile) (w : World)
    (cats : list Category) (idMap : Map string) :
  canonical current -> canonical imported ->
  mergedCategories current imported w = (Ok (cats, idMap), w) ->
  forall c, In c (categories imported) ->
    resolveImported idMap (c_id c) = c_id c \/
    exists cm, In cm cats /\ c_id cm = resolveImported idMap (c_id c) /\
               toLowerCase (c_name cm) = toLowerCase (c_name c).
Proof.
  intros (_ & Nc & U & Fc & _) (_ & Ni & _ & Fi & _) Em.
  unfold mergedCategories in Em.
  assert (Hids : Forall (fun c => c_id c <> "") (categories imported)).
  { eapply Forall_impl; [|exact Fi]. intros c ((_ & N & _) & _). exact N. }
  pose proof (fold_left_prefix mergeCategoryStep assignInv
                (categories imported)
                (categories current,
                 map_of (map (fun c => (c_id c, c_id c)) (categories current)),
                 map_of (map (fun c => (toLowerCase (c_name c), c_id c))
                             (categories current)))) as Hfold.
  rewrite (bind_run _ _ _ _ _
             (mergeCategories_fold (categories imported) Hids
                (categories current)
                (map_of (map (fun c => (c_id c, c_id c)) (categories current)))
                (map_of (map (fun c => (toLowerCase (c_name c), c_id c))
                             (categories current))) w)) in Em.
  cbv beta in Em.
  destruct (fold_left mergeCategoryStep (categories imported) _)
    as [[cats' idMap'] nameMap'].
  unfold ret in Em. simpl in Em. injection Em as <- <-.
  destruct Hfold as [Hid _].
  { split; [contradiction|]. intros k v H.
    apply map_of_get, in_map_iff in H. destruct H as (c & [= <- <-] & Hc).
    now exists c. }
  { intros done b rest st El H.
    now apply (assignInv_step (categories imported) done rest b st El Ni). }
  intros c Hc. destruct (Hid c Hc) as (v & G & D).
  unfold resolveImported. rewrite map_get_set.
  destruct (String.eqb_spec UNCATEGORIZED_ID (c_id c)) as [E|_]; [now left|].
  rewrite G. exact D.
Qed.


Lemma nameMapOf_some (cats : list Category) (c0 : Category) :
  In c0 cats ->
  exists v c, map_get (nameMapOf cats) (toLowerCase (c_name c0)) = Some v /\
              In c cats /\ v = c_id c /\
              toLowerCase (c_name c) = toLowerCase (c_name c0).
Proof.
  intros H0.
  assert (Hh : map_has (nameMapOf cats) (toLowerCase (c_name c0)) = true).
  { apply map_of_has. rewrite map_map. simpl.
    apply in_map_iff. now exists c0. }
  apply map_get_has in Hh. destruct Hh as [v Hv]. exists v.
  pose proof Hv as Hin. apply map_of_get, in_map_iff in Hin.
  destruct Hin as (c & [= E1 E2] & Hc). exists c. now repeat split.
Qed.

Lemma same_id_same (l : list Category) (a b : Category) :
  NoDup (map c_id l) -> In a l -> In b l -> c_id a = c_id b -> a = b.
Proof.
  clear. induction l as [|x l IH]; simpl; [contradiction|].
  intros Hn Ha Hb E. inversion Hn as [|? ? Hx Hl]; subst.
  destruct Ha as [->|Ha], Hb as [->|Hb]; try reflexivity.
  - exfalso. apply Hx. rewrite E. now apply in_map.
  - exfalso. apply Hx. rewrite <- E. now apply in_map.
  - now apply IH.
Qed.

(** C8, amended.  Category name fallback: the current document has the
    category [c1], the only one of that name but for case; the imported
    document has a category [ic] of that name but for case, whose id is the
    id of no current category.  Then the merged document has no category
    with the id of [ic], every imported prompt that referred to [ic]
    refers to [c1], and when every imported category matches a current one
    by id or by name no category is added at all. *)
Theorem merge_name_fallback (current imported : DbFile) (c1 ic : Category)
    (w : World) :
  canonical current -> canonical imported ->
  In c1 (categories current) -> In ic (categories imported) ->
  toLowerCase (c_name ic) = toLowerCase (c_name c1) ->
  ~ In (c_id ic) (map c_id (categories current)) ->
  (forall c, In c (categories current) ->
             toLowerCase (c_name c) = toLowerCase (c_name c1) ->
             c_id c = c_id c1) ->
  exists merged,
    mergeImported current imported w = (Ok merged, w) /\
    ~ In (c_id ic) (map c_id (categories merged)) /\
    (forall p, In p (prompts imported) -> p_categoryId p = c_id ic ->
       exists q, find (fun q => p_id q =? p_id p) (prompts merged) = Some q /\
                 p_categoryId q = c_id c1) /\
    ((forall c, In c (categories imported) ->
        In (c_id c) (map c_id (categories current)) \/
        exists c0, In c0 (categories current) /\
                   toLowerCase (c_name c0) = toLowerCase (c_name c)) ->
     categories merged = categories current).
Proof.
  intros Hc Hi H1 Hic En Hnew Huniq.
  destruct (mergeImported_spec current imported w Hc Hi)
    as (cats & idMap & pm & Em & E & Hcan & Hk & Hget).
  destruct (mergedCategories_spec current imported w Hc Hi)
    as (cats' & idMap' & added & Em' & Ec & Hincl & Hnd & Fc & U & Hr &
        Hkeep & Hres).
  rewrite Em in Em'. injection Em' as <- <-.
  pose proof Hc as (_ & _ & _ & Fc0 & _).
  pose proof Hi as (_ & Ni & _).
  assert (Hne : forall c, In c (categories current) -> c_id c <> "").
  { intros c Hin. apply (proj1 (Forall_forall _ _) Fc0) in Hin.
    apply Hin. }
  assert (Hname : map_get (nameMapOf (categories current))
                          (toLowerCase (c_name ic)) = Some (c_id c1)).
  { destruct (nameMapOf_some (categories current) c1 H1)
      as (v & c & Hv & Hin & -> & El).
    rewrite En, Hv. f_equal. now apply Huniq. }
  destruct (Hres ic (c_id c1) Hic Hnew Hname (Hne c1 H1)) as [Eres Hnot].
  exists (mkDb 1 cats (map_values pm)). simpl.
  split; [exact E|]. split; [|split].
  - rewrite Ec, map_app. intros Hin. apply in_app_or in Hin.
    destruct Hin as [Hin|Hin]; [contradiction|].
    apply in_map_iff in Hin. destruct Hin as (c & Eid & Hin).
    apply Hnot.
    now rewrite <- (same_id_same (categories imported) c ic Ni
                      (Hincl c Hin) Hic Eid).
  - intros p Hp Ep. exists (rewritten idMap (p_id p) p). split.
    + rewrite find_values by assumption. now apply Hget.
    + simpl. now rewrite Ep.
  - intros Hall. rewrite Ec.
    destruct added as [|c added]; [now rewrite app_nil_r|].
    exfalso.
    assert (Hin : In c (categories imported)) by (apply Hincl; now left).
    assert (Hadd : In c (c :: added)) by now left.
    destruct (in_dec string_dec (c_id c) (map c_id (categories current)))
      as [Hold|Hnew'].
    + now apply (Hkeep c Hin Hold).
    + destruct (Hall c Hin) as [Hold|(c0 & H0 & E0)]; [contradiction|].
      destruct (nameMapOf_some (categories current) c0 H0)
        as (v & c' & Hv & Hin' & -> & El).
      rewrite E0 in Hv.
      now apply (Hres c (c_id c') Hin Hnew' Hv (Hne c' Hin')).
Qed.

(** * More on trimmed strings *)

(** A trimmed string that is not empty starts with a character that is
    not white space, and [trimEnd] leaves it as it is. *)
Lemma trimmed_parts (t : string) :
  trimmed t -> t <> "" ->
  (exists c r, t = String c r /\ isWhiteSpace c = false) /\ trimEnd t = t.
Proof.
  unfold trimmed, trim. intros E N.
  destruct (trimStart_head t) as [Z | (c & r & Z & W)]; rewrite Z in E.
  - simpl in E. congruence.
  - split.
    + destruct (trimEnd_head c r W) as [r' E']. rewrite E' in E.
      now exists c, r'.
    + rewrite <- E at 1. rewrite trimEnd_idem. exact E.
Qed.

Lemma trimEnd_app (t x : string) :
  trimEnd x = x -> x <> "" -> trimEnd (t ++ x) = (t ++ x)%string.
Proof.
  intros E N. induction t as [|c r IH]; simpl; [exact E|].
  rewrite IH. destruct (r ++ x)%string eqn:A; [|reflexivity].
  destruct r; simpl in A; [congruence|discriminate].
Qed.

Lemma trimmed_app (t x : string) :
  trimmed t -> t <> "" -> trimEnd x = x -> x <> "" -> trimmed (t ++ x).
Proof.
  intros T N E Nx. destruct (trimmed_parts t T N) as [(c & r & -> & W) _].
  unfold trimmed, trim. simpl. rewrite W.
  change (String c (r ++ x)) with (String c r ++ x)%string.
  now apply trimEnd_app.
Qed.

Lemma app_nonEmpty (t x : string) : x <> "" -> (t ++ x)%string <> "".
Proof. clear typeErrorMessage toLowerCase localeCompare. destruct t; simpl; [tauto|discriminate]. Qed.

(** * Stored text *)

Lemma whiteSpaceCode_isWhiteSpace (c : ascii) :
  whiteSpaceCode c -> isWhiteSpace c = true.
Proof.
  clear. unfold whiteSpaceCode, isWhiteSpace. cbv zeta. simpl.
  intros H. repeat (destruct H as [H|H]; [now rewrite <- H|]).
  contradiction.
Qed.

Lemma trimEnd_snoc (r : string) (c : ascii) :
  isWhiteSpace c = true ->
  trimEnd (r ++ String c "") <> (r ++ String c "")%string.
Proof.
  clear. intros W. induction r as [|a r IH]; simpl.
  - rewrite W. discriminate.
  - destruct (trimEnd (r ++ String c "")) as [|c' r'] eqn:E.
    + destruct (isWhiteSpace a); [discriminate|].
      intros [= H]. now destruct r.
    + intros [= H]. apply IH. now rewrite H.
Qed.

(** A string that is its own trim neither starts nor ends with a white
    space character. *)
Lemma trimmed_bare (s : string) : trimmed s -> bare s.
Proof.
  intros T. split.
  - intros c r E W. apply whiteSpaceCode_isWhiteSpace in W.
    destruct (trimmed_parts s T) as [(c' & r' & E' & W') _];
      [rewrite E; discriminate|].
    rewrite E in E'. injection E' as -> _. congruence.
  - intros r c E W. apply whiteSpaceCode_isWhiteSpace in W.
    destruct (trimmed_parts s T) as [_ E'];
      [rewrite E; now destruct r|].
    rewrite E in E'. now apply (trimEnd_snoc r c W).
Qed.

Lemma text_trimmed_bare (d : DbFile) : text_trimmed d -> text_bare d.
Proof.
  intros [Hc Hp]. split.
  - eapply Forall_impl; [|exact Hc]. intros c. apply trimmed_bare.
  - eapply Forall_impl; [|exact Hp]. intros p (T1 & T2 & Ft).
    split; [now apply trimmed_bare|]. split; [now apply trimmed_bare|].
    eapply Forall_impl; [|exact Ft]. intros t [T N].
    split; [now apply trimmed_bare|exact N].
Qed.

(** C10.  Stored text is trimmed: in every document [normalizeDb] returns,
    the name of each category and the title and content of each prompt
    equal their own trim, and neither start nor end with a white space
    character -- a tab, a line feed, a vertical tab, a form feed, a
    carriage return, a space, a no-break space -- and each tag is so and
    is not empty; and since [commit] normalizes whatever a mutator
    returns, the document of the hook has this property after any
    sequence of calls and renders that follows the first render. *)
Theorem stored_text_is_trimmed :
  (forall (input : value) (d : DbFile) (w w1 : World),
      normalizeDb input w = (Ok d, w1) -> text_trimmed d /\ text_bare d) /\
  (forall (w : World) (cs : list call),
      text_trimmed (db (lib (performAll cs (firstRender w)))) /\
      text_bare (db (lib (performAll cs (firstRender w))))).
Proof.
  split.
  - intros input d w w1 H.
    pose proof (normalizeDb_text_trimmed input d w w1 H) as T.
    split; [exact T|now apply text_trimmed_bare].
  - intros w cs.
    pose proof (reachable_established text_trimmed w cs
                  text_trimmed_established) as T.
    split; [exact T|now apply text_trimmed_bare].
Qed.

(** * The mutators, through the render that follows *)

(** [commit] does not throw: [withValidation] around it changes nothing. *)
Lemma withValidation_commit (mutator : DbFile -> M DbFile) (message : string)
    (s : Session) :
  withValidation (commit mutator message) s = commit mutator message s.
Proof.
  unfold withValidation, tryCatch, commit, bind, setError, setDb,
    setBackupPending, setToast, update, ret.
  simpl. destruct (nonEmpty message); reflexivity.
Qed.

(** A commit and the render: when nothing else waits and the mutator
    returns a canonical document, that document is stored as it is. *)
Lemma commit_render (mutator : DbFile -> M DbFile) (message : string)
    (s : Session) (next : DbFile) (w1 : World) :
  queue (lib s) = [] ->
  mutator (db (lib s)) (world s) = (Ok next, w1) ->
  canonical next ->
  render (snd (commit mutator message s))
  = (Ok tt,
     mkSession (mkLibrary (loading (lib s)) true next None
                  (if nonEmpty message then Some message else toast (lib s))
                  [])
               w1).
Proof.
  intros Hq Hm Hc.
  unfold commit, bind, setError, setDb, setBackupPending, setToast, update, ret.
  destruct (nonEmpty message); simpl; unfold render; simpl; rewrite Hq; simpl;
    unfold bind at 1; unfold committed at 1; unfold bind at 1; rewrite Hm;
    rewrite (normalizeDb_fixed next w1 Hc); reflexivity.
Qed.

Lemma NoDup_snoc {A} (x : A) (l : list A) :
  ~ In x l -> NoDup l -> NoDup (l ++ [x]).
Proof.
  intros H N. apply NoDup_app; [exact N|repeat constructor; intros []|].
  intros a Ha [<-|[]]. contradiction.
Qed.

Lemma existsb_id_In (x : string) (cats : list Category) :
  existsb (fun c => c_id c =? x) cats = true <-> In x (map c_id cats).
Proof.
  rewrite existsb_exists, in_map_iff. split.
  - intros (c & Hc & E). apply String.eqb_eq in E. now exists c.
  - intros (c & E & Hc). exists c. split; [exact Hc|]. now apply String.eqb_eq.
Qed.

Lemma find_id_None (id : string) (l : list Prompt) :
  find (fun q => p_id q =? id) l = None <-> ~ In id (map p_id l).
Proof.
  clear typeErrorMessage toLowerCase localeCompare.
  induction l as [|q l IH]; simpl; [tauto|].
  destruct (p_id q =? id) eqn:E.
  - apply String.eqb_eq in E. split; [discriminate|]. intros H. exfalso. tauto.
  - apply String.eqb_neq in E. rewrite IH. tauto.
Qed.

Lemma find_id_Some (id : string) (l : list Prompt) (p : Prompt) :
  find (fun q => p_id q =? id) l = Some p -> In p l /\ p_id p = id.
Proof.
  intros H. apply find_some in H. destruct H as [H E].
  now apply String.eqb_eq in E.
Qed.

Lemma find_id_last (id : string) (l : list Prompt) (p : Prompt) :
  ~ In id (map p_id l) -> p_id p = id ->
  find (fun q => p_id q =? id) (l ++ [p]) = Some p.
Proof.
  clear typeErrorMessage toLowerCase localeCompare.
  intros H E. induction l as [|q l IH]; simpl.
  - now rewrite E, String.eqb_refl.
  - simpl in H. destruct (p_id q =? id) eqn:Q.
    + apply String.eqb_eq in Q. tauto.
    + apply IH. tauto.
Qed.

(** Replacing the prompt of one id by a record of the same id. *)
Lemma find_replaced (id : string) (f : Prompt -> Prompt) (l : list Prompt)
    (p : Prompt) :
  (forall q, p_id (f q) = p_id q) ->
  find (fun q => p_id q =? id) l = Some p ->
  find (fun q => p_id q =? id) (map (fun q => if p_id q =? id then f q else q) l)
  = Some (f p).
Proof.
  intros F. induction l as [|q l IH]; simpl; [discriminate|].
  destruct (p_id q =? id) eqn:E; simpl.
  - rewrite F, E. now intros [= ->].
  - rewrite E. exact IH.
Qed.

Lemma ids_replaced (id : string) (f : Prompt -> Prompt) (l : list Prompt) :
  (forall q, p_id (f q) = p_id q) ->
  map p_id (map (fun q => if p_id q =? id then f q else q) l) = map p_id l.
Proof.
  intros F. rewrite map_map. apply map_ext. intros q.
  destruct (p_id q =? id); [apply F|reflexivity].
Qed.

Lemma others_replaced (id : string) (f : Prompt -> Prompt) (l : list Prompt)
    (q : Prompt) :
  (forall q, p_id (f q) = p_id q) -> p_id q <> id ->
  (In q (map (fun q => if p_id q =? id then f q else q) l) <-> In q l).
Proof.
  intros F N. rewrite in_map_iff. split.
  - intros (x & E & Hx). destruct (p_id x =? id) eqn:X.
    + apply String.eqb_eq in X. subst q. rewrite F in N. contradiction.
    + now subst x.
  - intros H. exists q. split; [|exact H].
    apply String.eqb_neq in N. now rewrite N.
Qed.

(** *** [upsertPrompt] *)

(** The category an upsert files the prompt under. *)
Lemma upsert_category (draft : PromptDraft) (cats : list Category) :
  In UNCATEGORIZED_ID (map c_id cats) ->
  In (if existsb (fun c => c_id c =? d_categoryId draft) cats
      then d_categoryId draft else UNCATEGORIZED_ID) (map c_id cats).
Proof.
  intros U. destruct (existsb _ cats) eqn:E; [|exact U].
  now apply existsb_id_In.
Qed.

Lemma tagSet_ok (tags : list string) :
  comparator localeCompare -> tags_ok localeCompare (tagSet tags).
Proof.
  intros C. apply sortedSet_ok; [exact C|].
  apply Forall_map, Forall_forall. intros t _. apply trimmed_trim.
Qed.

Lemma upsertMutator_canonical (draft : PromptDraft) (promptId : string)
    (prev next : DbFile) (w w' : World) :
  clock_ok -> comparator localeCompare -> canonical prev ->
  trimmed promptId -> promptId <> "" -> trim (d_title draft) <> "" ->
  upsertMutator draft promptId prev w = (Ok next, w') -> canonical next.
Proof.
  intros K C (V & Nc & U & Fc & Np & Fp) Ti Ni Nt H.
  unfold upsertMutator, bind, nowIso in H.
  pose proof (tagSet_ok (d_tags draft) C) as (Ft & Nd & Sd).
  pose proof (upsert_category draft (categories prev) U) as Hcat.
  assert (Hnow : truthy (VStr (nowAt (ticks w))) = true)
    by (simpl; apply nonEmpty_true, K).
  destruct (find (fun p => p_id p =? promptId) (prompts prev)) eqn:F;
    unfold ret in H; injection H as <- _; unfold canonical; simpl;
    (split; [exact V|]); (split; [exact Nc|]); (split; [exact U|]);
    (split; [exact Fc|]).
  - split.
    + rewrite ids_replaced; [exact Np|reflexivity].
    + apply Forall_map. eapply Forall_impl; [|exact Fp].
      intros q ((T1 & N1 & Hc & T2 & Fq & Nq & L) & T & Nq' & Sq & C1 & C2).
      destruct (p_id q =? promptId).
      * repeat split; simpl; try assumption; apply trimmed_trim.
      * repeat split; assumption.
  - split.
    + rewrite map_app. simpl. apply find_id_None in F.
      apply NoDup_snoc; assumption.
    + apply Forall_app. split; [exact Fp|]. constructor; [|constructor].
      repeat split; simpl; try assumption; try apply trimmed_trim.
      now left.
Qed.

Lemma commit_returns (mutator : DbFile -> M DbFile) (message : string)
    (s : Session) :
  commit mutator message s = (Ok tt, snd (commit mutator message s)).
Proof.
  unfold commit, bind, setError, setDb, setBackupPending, setToast, update, ret.
  simpl. destruct (nonEmpty message); reflexivity.
Qed.

(** [upsertPrompt] of a draft that passes the three checks. *)
Lemma upsertPrompt_valid (draft : PromptDraft) (s : Session)
    (promptId : string) (w1 : World) :
  trim (d_title draft) <> "" -> trim (d_categoryId draft) <> "" ->
  trim (d_content draft) <> "" ->
  match d_id draft with Some id => orUuid id | None => uuid end (world s)
  = (Ok promptId, w1) ->
  upsertPrompt draft s
  = (Ok promptId,
     snd (commit (upsertMutator draft promptId) "Zapisano"
            (mkSession (lib s) w1))).
Proof.
  intros T C B E. unfold upsertPrompt.
  apply nonEmpty_true in T, C, B. rewrite T, C, B. simpl.
  unfold bind at 1. unfold inWorld at 1. rewrite E.
  unfold bind at 1. rewrite withValidation_commit, commit_returns.
  reflexivity.
Qed.

(** X1.  Saving a draft that carries the id of a stored prompt replaces that
    prompt in place: title and content trimmed, tags made a sorted set, the
    category kept only if it exists, the time of creation and of last use
    as they were. *)
Theorem upsertPrompt_updates (draft : PromptDraft) (id : string)
    (old : Prompt) (s : Session) :
  clock_ok -> comparator localeCompare ->
  canonical (db (lib s)) -> queue (lib s) = [] ->
  trim (d_title draft) <> "" -> trim (d_categoryId draft) <> "" ->
  trim (d_content draft) <> "" ->
  d_id draft = Some id ->
  find (fun q => p_id q =? id) (prompts (db (lib s))) = Some old ->
  exists s1 s',
    upsertPrompt draft s = (Ok id, s1) /\ render s1 = (Ok tt, s') /\
    find (fun q => p_id q =? id) (prompts (db (lib s')))
    = Some (mkPrompt id (trim (d_title draft))
              (if existsb (fun c => c_id c =? d_categoryId draft)
                          (categories (db (lib s)))
               then d_categoryId draft else UNCATEGORIZED_ID)
              (trim (d_content draft)) (tagSet (d_tags draft))
              (d_favorite draft) (p_createdAt old)
              (VStr (nowAt (ticks (world s)))) (p_lastUsedAt old)) /\
    map p_id (prompts (db (lib s'))) = map p_id (prompts (db (lib s))) /\
    (forall q, p_id q <> id ->
       (In q (prompts (db (lib s'))) <-> In q (prompts (db (lib s))))) /\
    categories (db (lib s')) = categories (db (lib s)) /\
    error (lib s') = None /\ toast (lib s') = Some "Zapisano".
Proof.
  intros K C Hc Hq T Cc B Hid Hf.
  destruct (find_id_Some id _ old Hf) as [Hin Eid].
  assert (Hok : trimmed id /\ id <> "").
  { destruct Hc as (_ & _ & _ & _ & _ & Fp).
    rewrite Forall_forall in Fp. destruct (Fp old Hin) as (_ & Ti & Ni & _).
    rewrite Eid in Ti, Ni. now split. }
  destruct Hok as [Ti Ni].
  destruct s as [l w]. simpl in *.
  assert (E : match d_id draft with Some id => orUuid id | None => uuid end w
              = (Ok id, w)) by (rewrite Hid; now apply orUuid_given).
  pose proof (upsertPrompt_valid draft (mkSession l w) id w T Cc B E) as Hu.
  simpl in Hu.
  set (next := withPrompts (db l)
         (map (fun p =>
                 if p_id p =? id
                 then mkPrompt (p_id p) (trim (d_title draft))
                        (if existsb (fun c => c_id c =? d_categoryId draft)
                                    (categories (db l))
                         then d_categoryId draft else UNCATEGORIZED_ID)
                        (trim (d_content draft)) (tagSet (d_tags draft))
                        (d_favorite draft) (p_createdAt p)
                        (VStr (nowAt (ticks w))) (p_lastUsedAt p)
                 else p) (prompts (db l)))).
  assert (Hm : upsertMutator draft id (db l) w
               = (Ok next, mkWorld (S (ticks w)) (draws w))).
  { unfold upsertMutator, bind, nowIso. now rewrite Hf. }
  assert (Hn : canonical next)
    by (apply (upsertMutator_canonical draft id (db l) next w _ K C Hc Ti Ni T Hm)).
  pose proof (commit_render (upsertMutator draft id) "Zapisano"
                (mkSession l w) next _ Hq Hm Hn) as Hr.
  eexists. eexists. split; [exact Hu|]. split; [exact Hr|]. simpl.
  split.
  { unfold next. simpl.
    rewrite (find_replaced id
               (fun p => mkPrompt (p_id p) (trim (d_title draft))
                  (if existsb (fun c => c_id c =? d_categoryId draft)
                              (categories (db l))
                   then d_categoryId draft else UNCATEGORIZED_ID)
                  (trim (d_content draft)) (tagSet (d_tags draft))
                  (d_favorite draft) (p_createdAt p)
                  (VStr (nowAt (ticks w))) (p_lastUsedAt p))
               (prompts (db l)) old (fun _ => eq_refl) Hf).
    now rewrite Eid. }
  split; [unfold next; simpl; now apply ids_replaced|].
  split; [intros q Nq; unfold next; simpl; now apply others_replaced|].
  repeat split.
Qed.

(** X2.  Saving a draft without id appends a prompt under a new id, never
    used, created and updated now. *)
Theorem upsertPrompt_creates (draft : PromptDraft) (s : Session) :
  clock_ok -> ids_ok -> comparator localeCompare ->
  canonical (db (lib s)) -> queue (lib s) = [] ->
  trim (d_title draft) <> "" -> trim (d_categoryId draft) <> "" ->
  trim (d_content draft) <> "" ->
  d_id draft = None ->
  ~ In (uuidAt (draws (world s))) (map p_id (prompts (db (lib s)))) ->
  exists s1 s',
    upsertPrompt draft s = (Ok (uuidAt (draws (world s))), s1) /\
    render s1 = (Ok tt, s') /\
    prompts (db (lib s'))
    = prompts (db (lib s)) ++
      [mkPrompt (uuidAt (draws (world s))) (trim (d_title draft))
         (if existsb (fun c => c_id c =? d_categoryId draft)
                     (categories (db (lib s)))
          then d_categoryId draft else UNCATEGORIZED_ID)
         (trim (d_content draft)) (tagSet (d_tags draft)) (d_favorite draft)
         (VStr (nowAt (ticks (world s)))) (VStr (nowAt (ticks (world s))))
         VNull] /\
    categories (db (lib s')) = categories (db (lib s)) /\
    error (lib s') = None /\ toast (lib s') = Some "Zapisano".
Proof.
  intros K I C Hc Hq T Cc B Hid Hfresh.
  destruct s as [l w]. simpl in *.
  destruct (I (draws w)) as [Ti Ni].
  assert (E : match d_id draft with Some id => orUuid id | None => uuid end w
              = (Ok (uuidAt (draws w)), mkWorld (ticks w) (S (draws w))))
    by (now rewrite Hid).
  pose proof (upsertPrompt_valid draft (mkSession l w) _ _ T Cc B E) as Hu.
  simpl in Hu.
  apply find_id_None in Hfresh.
  set (next := withPrompts (db l)
         (prompts (db l) ++
          [mkPrompt (uuidAt (draws w)) (trim (d_title draft))
             (if existsb (fun c => c_id c =? d_categoryId draft)
                         (categories (db l))
              then d_categoryId draft else UNCATEGORIZED_ID)
             (trim (d_content draft)) (tagSet (d_tags draft))
             (d_favorite draft) (VStr (nowAt (ticks w)))
             (VStr (nowAt (ticks w))) VNull])).
  assert (Hm : upsertMutator draft (uuidAt (draws w)) (db l)
                 (mkWorld (ticks w) (S (draws w)))
               = (Ok next, mkWorld (S (ticks w)) (S (draws w)))).
  { unfold upsertMutator, bind, nowIso. now rewrite Hfresh. }
  assert (Hn : canonical next)
    by (apply (upsertMutator_canonical draft _ (db l) next _ _ K C Hc Ti Ni T Hm)).
  pose proof (commit_render (upsertMutator draft (uuidAt (draws w))) "Zapisano"
                (mkSession l (mkWorld (ticks w) (S (draws w)))) next _ Hq Hm Hn)
    as Hr.
  eexists. eexists. split; [exact Hu|]. split; [exact Hr|]. simpl.
  repeat split.
Qed.

(** *** [deletePrompt] *)

Lemma canonical_without (d : DbFile) (id : string) :
  canonical d ->
  canonical (withPrompts d (filter (fun p => negb (p_id p =? id)) (prompts d))).
Proof.
  clear typeErrorMessage toLowerCase.
  intros (V & Nc & U & Fc & Np & Fp). unfold canonical. simpl.
  repeat split; try assumption.
  - clear Fp. induction (prompts d) as [|p l IH]; simpl; [constructor|].
    inversion Np as [|? ? Hx Hl]; subst.
    destruct (negb (p_id p =? id)); [|now apply IH].
    simpl. constructor; [|now apply IH].
    intros H. apply Hx. apply in_map_iff in H. destruct H as (q & E & Hq).
    apply filter_In in Hq. apply in_map_iff. exists q. tauto.
  - apply Forall_forall. intros p Hp. apply filter_In in Hp.
    rewrite Forall_forall in Fp. now apply Fp.
Qed.

(** X3.  Deleting a prompt removes it and nothing else; deleting an id that is
    not there leaves the document as it is, and still reports a deletion
    and asks for a backup. *)
Theorem deletePrompt_removes (id : string) (s : Session) :
  canonical (db (lib s)) -> queue (lib s) = [] ->
  exists s',
    render (snd (deletePrompt id s)) = (Ok tt, s') /\
    prompts (db (lib s'))
    = filter (fun p => negb (p_id p =? id)) (prompts (db (lib s))) /\
    ~ In id (map p_id (prompts (db (lib s')))) /\
    (forall q, p_id q <> id ->
       (In q (prompts (db (lib s'))) <-> In q (prompts (db (lib s))))) /\
    categories (db (lib s')) = categories (db (lib s)) /\
    (~ In id (map p_id (prompts (db (lib s)))) -> db (lib s') = db (lib s)) /\
    world s' = world s /\ error (lib s') = None /\
    backupPending (lib s') = true /\ toast (lib s') = Some "Usunięto prompt".
Proof.
  clear toLowerCase.
  intros Hc Hq. unfold deletePrompt. rewrite withValidation_commit.
  pose proof (commit_render (deletePromptMutator id) "Usunięto prompt" s
                _ (world s) Hq eq_refl (canonical_without _ id Hc)) as Hr.
  eexists. split; [exact Hr|]. simpl.
  split; [reflexivity|].
  split.
  { intros H. apply in_map_iff in H. destruct H as (q & E & Hq').
    apply filter_In in Hq'. destruct Hq' as [_ Hq'].
    rewrite E, String.eqb_refl in Hq'. discriminate. }
  split.
  { intros q N. rewrite filter_In. apply String.eqb_neq in N. rewrite N.
    simpl. tauto. }
  split; [reflexivity|].
  split.
  { intros N. destruct (db (lib s)) as [v cs ps]. unfold withPrompts. simpl in *.
    f_equal. apply filter_all. apply Forall_forall. intros p Hp.
    destruct (p_id p =? id) eqn:E; [|reflexivity].
    apply String.eqb_eq in E. exfalso. apply N. apply in_map_iff. now exists p. }
  repeat split.
Qed.

(** *** [duplicatePrompt] *)

(** X4.  Duplicating a stored prompt appends a copy under a new id: the title
    with [" (kopia)"] after it, the same category, content, tags and
    favourite mark, created and updated now, never used. *)
Theorem duplicatePrompt_copies (id : string) (original : Prompt)
    (s : Session) :
  clock_ok -> ids_ok ->
  canonical (db (lib s)) -> queue (lib s) = [] ->
  find (fun q => p_id q =? id) (prompts (db (lib s))) = Some original ->
  ~ In (uuidAt (draws (world s))) (map p_id (prompts (db (lib s)))) ->
  exists s1 s',
    duplicatePrompt id s = (Ok (uuidAt (draws (world s))), s1) /\
    render s1 = (Ok tt, s') /\
    prompts (db (lib s'))
    = prompts (db (lib s)) ++
      [mkPrompt (uuidAt (draws (world s))) (p_title original ++ " (kopia)")
         (p_categoryId original) (p_content original) (p_tags original)
         (p_favorite original)
         (VStr (nowAt (ticks (world s)))) (VStr (nowAt (ticks (world s))))
         VNull] /\
    categories (db (lib s')) = categories (db (lib s)) /\
    error (lib s') = None /\ toast (lib s') = Some "Zduplikowano".
Proof.
  intros K I Hc Hq Hf Hfresh.
  destruct s as [l w]. simpl in *.
  destruct (I (draws w)) as [Ti Ni].
  destruct (find_id_Some id _ original Hf) as [Hin Eid].
  set (copy := mkPrompt (uuidAt (draws w)) (p_title original ++ " (kopia)")
                 (p_categoryId original) (p_content original)
                 (p_tags original) (p_favorite original)
                 (VStr (nowAt (ticks w))) (VStr (nowAt (ticks w))) VNull).
  set (next := withPrompts (db l) (prompts (db l) ++ [copy])).
  assert (Hm : duplicateMutator id (uuidAt (draws w)) (db l)
                 (mkWorld (ticks w) (S (draws w)))
               = (Ok next, mkWorld (S (ticks w)) (S (draws w)))).
  { unfold duplicateMutator. rewrite Hf. reflexivity. }
  assert (Hn : canonical next).
  { destruct Hc as (V & Nc & U & Fc & Np & Fp). unfold canonical. simpl.
    repeat split; try assumption.
    - rewrite map_app. simpl. now apply NoDup_snoc.
    - apply Forall_app. split; [exact Fp|]. constructor; [|constructor].
      rewrite Forall_forall in Fp.
      destruct (Fp original Hin)
        as ((T1 & N1 & Hcat & T2 & Ft & Nt & L) & _ & _ & St & _ & _).
      assert (Hnow : nonEmpty (nowAt (ticks w)) = true)
        by apply nonEmpty_true, K.
      repeat split; simpl; try assumption.
      + apply trimmed_app; [assumption|assumption|reflexivity|discriminate].
      + apply app_nonEmpty. discriminate.
      + now left. }
  pose proof (commit_render (duplicateMutator id (uuidAt (draws w)))
                "Zduplikowano"
                (mkSession l (mkWorld (ticks w) (S (draws w)))) next _
                Hq Hm Hn) as Hr.
  eexists. eexists. split.
  { unfold duplicatePrompt. unfold bind at 1. unfold inWorld at 1.
    unfold uuid at 1. simpl. unfold bind at 1.
    rewrite withValidation_commit, commit_returns. reflexivity. }
  split; [exact Hr|]. simpl. repeat split.
Qed.

(** *** [createCategory] *)

(** X5.  Creating a category whose name, trimmed, is not blank and is the name
    of no category up to case, appends it under a new id. *)
Theorem createCategory_adds (name : string) (s : Session) :
  clock_ok -> ids_ok ->
  canonical (db (lib s)) -> queue (lib s) = [] ->
  trim name <> "" ->
  (forall c, In c (categories (db (lib s))) ->
             toLowerCase (c_name c) <> toLowerCase (trim name)) ->
  ~ In (uuidAt (draws (world s))) (map c_id (categories (db (lib s)))) ->
  exists s',
    render (snd (createCategory name s)) = (Ok tt, s') /\
    categories (db (lib s'))
    = categories (db (lib s)) ++
      [mkCategory (uuidAt (draws (world s))) (trim name)
         (VStr (nowAt (ticks (world s))))] /\
    prompts (db (lib s')) = prompts (db (lib s)) /\
    error (lib s') = None /\ toast (lib s') = Some "Dodano kategorię".
Proof.
  intros K I Hc Hq T Hname Hfresh.
  destruct (I (draws (world s))) as [Ti Ni].
  set (added := mkCategory (uuidAt (draws (world s))) (trim name)
                  (VStr (nowAt (ticks (world s))))).
  set (next := mkDb (version (db (lib s)))
                 (categories (db (lib s)) ++ [added]) (prompts (db (lib s)))).
  assert (Hm : createCategoryMutator (trim name) (db (lib s)) (world s)
               = (Ok next, mkWorld (S (ticks (world s))) (S (draws (world s))))).
  { unfold createCategoryMutator.
    replace (existsb _ (categories (db (lib s)))) with false; [reflexivity|].
    symmetry. apply not_true_is_false. intros E.
    apply existsb_exists in E. destruct E as (c & Hin & E).
    apply String.eqb_eq in E. now apply (Hname c). }
  assert (Hn : canonical next).
  { destruct Hc as (V & Nc & U & Fc & Np & Fp). unfold canonical. simpl.
    split; [exact V|]. split.
    { rewrite map_app. simpl. now apply NoDup_snoc. }
    split. { rewrite map_app. apply in_or_app. now left. }
    split.
    { apply Forall_app. split; [exact Fc|]. constructor; [|constructor].
      repeat split; simpl; try assumption; try apply trimmed_trim.
      apply nonEmpty_true, K. }
    split; [exact Np|].
    eapply Forall_impl; [|exact Fp]. intros p Hp.
    apply (prompt_ok_ids (map c_id (categories (db (lib s))))); [|exact Hp].
    rewrite map_app. intros x Hx. apply in_or_app. now left. }
  pose proof (commit_render (createCategoryMutator (trim name))
                "Dodano kategorię" s next _ Hq Hm Hn) as Hr.
  exists (mkSession (mkLibrary (loading (lib s)) true next None
                       (Some "Dodano kategorię") [])
            (mkWorld (S (ticks (world s))) (S (draws (world s))))).
  split.
  { unfold createCategory, createCategoryAction. cbv zeta.
    apply nonEmpty_true in T. rewrite T. cbn [negb].
    rewrite withValidation_commit. exact Hr. }
  simpl. repeat split.
Qed.

(** *** [renameCategory] *)

(** X6.  Renaming a category other than the reserved one, to a name that no
    other category has up to case, changes that name and nothing else. *)
Theorem renameCategory_renames (id name : string) (s : Session) :
  canonical (db (lib s)) -> queue (lib s) = [] ->
  trim name <> "" -> id <> UNCATEGORIZED_ID ->
  In id (map c_id (categories (db (lib s)))) ->
  (forall c, In c (categories (db (lib s))) -> c_id c <> id ->
             toLowerCase (c_name c) <> toLowerCase (trim name)) ->
  exists s',
    render (snd (renameCategory id name s)) = (Ok tt, s') /\
    categories (db (lib s'))
    = map (fun c => if c_id c =? id
                    then mkCategory id (trim name) (c_createdAt c) else c)
          (categories (db (lib s))) /\
    map c_id (categories (db (lib s'))) = map c_id (categories (db (lib s))) /\
    prompts (db (lib s')) = prompts (db (lib s)) /\
    world s' = world s /\ error (lib s') = None /\
    toast (lib s') = Some "Zmieniono nazwę kategorii".
Proof.
  intros Hc Hq T Hres Hin Hname.
  set (renamed := map (fun c => if c_id c =? id
                                then mkCategory (c_id c) (trim name)
                                       (c_createdAt c)
                                else c) (categories (db (lib s)))).
  set (next := mkDb (version (db (lib s))) renamed (prompts (db (lib s)))).
  assert (Hids : map c_id renamed = map c_id (categories (db (lib s)))).
  { unfold renamed. rewrite map_map. apply map_ext. intros c.
    now destruct (c_id c =? id). }
  assert (Hm : renameCategoryMutator id (trim name) (db (lib s)) (world s)
               = (Ok next, world s)).
  { unfold renameCategoryMutator.
    replace (existsb _ (categories (db (lib s)))) with false.
    - apply existsb_id_In in Hin. rewrite Hin. reflexivity.
    - symmetry. apply not_true_is_false. intros E.
      apply existsb_exists in E. destruct E as (c & Hc' & E).
      apply andb_true_iff in E. destruct E as [E1 E2].
      apply negb_true_iff, String.eqb_neq in E1. apply String.eqb_eq in E2.
      now apply (Hname c). }
  assert (Hn : canonical next).
  { destruct Hc as (V & Nc & U & Fc & Np & Fp). unfold canonical. simpl.
    rewrite Hids. repeat split; try assumption.
    unfold renamed. apply Forall_map. eapply Forall_impl; [|exact Fc].
    intros c ((T1 & N1 & T2 & N2) & Cr). destruct (c_id c =? id).
    - repeat split; simpl; try assumption. apply trimmed_trim.
    - repeat split; assumption. }
  pose proof (commit_render (renameCategoryMutator id (trim name))
                "Zmieniono nazwę kategorii" s next _ Hq Hm Hn) as Hr.
  eexists. split.
  { unfold renameCategory, renameCategoryAction. cbv zeta.
    apply nonEmpty_true in T. rewrite T. cbn [negb].
    apply String.eqb_neq in Hres. rewrite Hres.
    rewrite withValidation_commit. exact Hr. }
  simpl. split.
  { unfold renamed. apply map_ext_in. intros c _.
    destruct (c_id c =? id) eqn:E; [|reflexivity].
    apply String.eqb_eq in E. now rewrite E. }
  repeat split. exact Hids.
Qed.

(** *** [deleteCategory] *)

Lemma NoDup_map_filter {A B} (f : A -> B) (g : A -> bool) (l : list A) :
  NoDup (map f l) -> NoDup (map f (filter g l)).
Proof.
  clear typeErrorMessage toLowerCase localeCompare.
  induction l as [|a l IH]; simpl; [constructor|].
  intros N. inversion N as [|? ? Hx Hl]; subst.
  destruct (g a); [|now apply IH].
  simpl. constructor; [|now apply IH].
  intros H. apply Hx. apply in_map_iff in H. destruct H as (q & E & Hq).
  apply filter_In in Hq. apply in_map_iff. exists q. tauto.
Qed.

(** The loop over the prompts in [deleteCategory] returns. *)
Lemma deleteCategory_mapM (id : string) (ps : list Prompt) :
  forall w : World,
    exists ps' w',
      mapM (fun p =>
              if p_categoryId p =? id
              then now <- nowIso ;;
                   ret (mkPrompt (p_id p) (p_title p) UNCATEGORIZED_ID
                          (p_content p) (p_tags p) (p_favorite p)
                          (p_createdAt p) (VStr now) (p_lastUsedAt p))
              else ret p) ps w
      = (Ok ps', w') /\
      Forall2 (movedFrom id) ps ps'.
Proof.
  induction ps as [|p ps IH]; intros w; simpl.
  - exists [], w. split; [reflexivity|constructor].
  - unfold bind at 1. destruct (p_categoryId p =? id) eqn:E.
    + unfold bind at 1. unfold nowIso at 1. unfold ret at 1.
      destruct (IH (mkWorld (S (ticks w)) (draws w))) as (ps' & w' & H & F).
      unfold bind at 1. rewrite H. unfold ret.
      eexists. eexists. split; [reflexivity|].
      constructor; [|exact F]. unfold movedFrom. rewrite E.
      now exists (ticks w).
    + unfold ret at 1. destruct (IH w) as (ps' & w' & H & F).
      unfold bind at 1. rewrite H. unfold ret.
      eexists. eexists. split; [reflexivity|].
      constructor; [|exact F]. unfold movedFrom. now rewrite E.
Qed.

Lemma movedFrom_ids (id : string) (ps ps' : list Prompt) :
  Forall2 (movedFrom id) ps ps' -> map p_id ps' = map p_id ps.
Proof.
  induction 1 as [|p p' ps ps' H F IH]; simpl; [reflexivity|].
  f_equal; [|exact IH]. unfold movedFrom in H.
  destruct (p_categoryId p =? id); [destruct H as [n ->]|subst]; reflexivity.
Qed.

Lemma movedFrom_ok (id : string) (cats : list Category) (ps ps' : list Prompt) :
  clock_ok -> id <> UNCATEGORIZED_ID ->
  In UNCATEGORIZED_ID (map c_id cats) ->
  Forall (prompt_ok (map c_id cats)) ps ->
  Forall2 (movedFrom id) ps ps' ->
  Forall (prompt_ok
            (map c_id (filter (fun c => negb (c_id c =? id)) cats))) ps'.
Proof.
  intros K N U Fp F.
  assert (Hin : forall x, x <> id -> In x (map c_id cats) ->
                In x (map c_id (filter (fun c => negb (c_id c =? id)) cats))).
  { intros x Nx Hx. apply in_map_iff in Hx. destruct Hx as (c & E & Hc).
    apply in_map_iff. exists c. split; [exact E|]. apply filter_In.
    split; [exact Hc|]. rewrite E. apply negb_true_iff.
    now apply String.eqb_neq. }
  induction F as [|p p' ps ps' H F IH]; [constructor|].
  inversion Fp as [|? ? Hp Hps]; subst.
  constructor; [|now apply IH].
  destruct Hp as ((T1 & N1 & Hc & T2 & Ft & Nt & L) & T & Ni & St & C1 & C2).
  unfold movedFrom in H. destruct (p_categoryId p =? id) eqn:E.
  - destruct H as [n ->]. repeat split; simpl; try assumption.
    + apply Hin; [congruence|exact U].
    + apply nonEmpty_true, K.
  - subst p'. apply String.eqb_neq in E.
    repeat split; try assumption. now apply Hin.
Qed.

(** X7.  Deleting a category other than the reserved one deletes no prompt:
    each prompt of the category is filed under the reserved category and
    marked as updated, every other prompt stays as it is. *)
Theorem deleteCategory_moves (id : string) (s : Session) :
  clock_ok ->
  canonical (db (lib s)) -> queue (lib s) = [] ->
  id <> UNCATEGORIZED_ID ->
  In id (map c_id (categories (db (lib s)))) ->
  exists s',
    render (snd (deleteCategory id s)) = (Ok tt, s') /\
    categories (db (lib s'))
    = filter (fun c => negb (c_id c =? id)) (categories (db (lib s))) /\
    ~ In id (map c_id (categories (db (lib s')))) /\
    Forall2 (movedFrom id) (prompts (db (lib s))) (prompts (db (lib s'))) /\
    map p_id (prompts (db (lib s'))) = map p_id (prompts (db (lib s))) /\
    error (lib s') = None /\ toast (lib s') = Some "Usunięto kategorię".
Proof.
  intros K Hc Hq Hres Hin.
  destruct (deleteCategory_mapM id (prompts (db (lib s))) (world s))
    as (ps' & w' & Hmap & F).
  set (next := mkDb (version (db (lib s)))
                 (filter (fun c => negb (c_id c =? id))
                         (categories (db (lib s)))) ps').
  assert (Hm : deleteCategoryMutator id (db (lib s)) (world s) = (Ok next, w')).
  { unfold deleteCategoryMutator. apply existsb_id_In in Hin. rewrite Hin.
    cbn [negb]. unfold bind at 1. rewrite Hmap. reflexivity. }
  assert (Hn : canonical next).
  { destruct Hc as (V & Nc & U & Fc & Np & Fp). unfold canonical. simpl.
    split; [exact V|]. split; [now apply NoDup_map_filter|].
    split.
    { apply in_map_iff in U. destruct U as (c & E & Hcin).
      apply in_map_iff. exists c. split; [exact E|]. apply filter_In.
      split; [exact Hcin|]. rewrite E. apply negb_true_iff.
      apply String.eqb_neq. congruence. }
    split.
    { apply Forall_forall. intros c Hcin. apply filter_In in Hcin.
      rewrite Forall_forall in Fc. now apply Fc. }
    split; [now rewrite (movedFrom_ids id _ _ F)|].
    now apply (movedFrom_ok id _ (prompts (db (lib s)))). }
  pose proof (commit_render (deleteCategoryMutator id) "Usunięto kategorię"
                s next _ Hq Hm Hn) as Hr.
  eexists. split.
  { unfold deleteCategory, deleteCategoryAction.
    apply String.eqb_neq in Hres. rewrite Hres.
    rewrite withValidation_commit. exact Hr. }
  simpl. split; [reflexivity|]. split.
  { intros H. apply in_map_iff in H. destruct H as (c & E & Hcin).
    apply filter_In in Hcin. destruct Hcin as [_ Hcin].
    rewrite E, String.eqb_refl in Hcin. discriminate. }
  split; [exact F|]. split; [now apply movedFrom_ids with id|].
  split; reflexivity.
Qed.

(** * Import *)

(** ** More on maps *)

Lemma map_set_same {V} (m : Map V) (k : string) (v : V) :
  map_get m k = Some v -> map_set m k v = m.
Proof.
  induction m as [|[k' v'] m IH]; simpl; [discriminate|].
  destruct (String.eqb_spec k' k) as [->|N].
  - now intros [= ->].
  - intros H. now rewrite IH.
Qed.

Lemma entries_get {V} (m : Map V) (k : string) (v : V) :
  NoDup (map fst m) -> In (k, v) m -> map_get m k = Some v.
Proof.
  induction m as [|[k' v'] m IH]; simpl; [contradiction|].
  intros N H. inversion N as [|? ? Hx Hm]; subst.
  destruct H as [[= -> ->]|H].
  - now rewrite String.eqb_refl.
  - destruct (String.eqb_spec k' k) as [->|_]; [|now apply IH].
    exfalso. apply Hx. apply in_map_iff. now exists (k, v).
Qed.

Lemma fold_left_fixed {A B} (f : A -> B -> A) (l : list B) (a : A) :
  (forall b, In b l -> f a b = a) -> fold_left f l a = a.
Proof.
  induction l as [|b l IH]; simpl; [reflexivity|].
  intros H. rewrite (H b) by now left. apply IH.
  intros b' Hb. apply H. now right.
Qed.

(** ** The two loops of [mergeImported] *)

(** The prompts of the merged document, as the second loop leaves them. *)
Lemma mergeImported_fold (current imported : DbFile) (w : World) :
  canonical current -> canonical imported ->
  exists cats idMap added,
    mergedCategories current imported w = (Ok (cats, idMap), w) /\
    cats = categories current ++ added /\
    incl added (categories imported) /\
    let pm := fold_left (mergePromptStep idMap) (prompts imported)
                (promptEntries (prompts current)) in
    mergeImported current imported w
    = (Ok (mkDb 1 cats (map_values pm)), w) /\
    canonical (mkDb 1 cats (map_values pm)) /\
    NoDup (map fst pm) /\
    Forall (fun kv => fst kv = p_id (snd kv)) pm /\
    (forall p, In p (prompts imported) ->
               map_get pm (p_id p) = Some (rewritten idMap (p_id p) p)).
Proof.
  intros Hc Hi.
  destruct (mergedCategories_spec current imported w Hc Hi)
    as (cats & idMap & added & Em & Ec & Hincl & Hnd & Fc & U & Hr & _).
  pose proof Hc as (_ & _ & _ & _ & Np & Fp).
  pose proof Hi as (_ & _ & _ & Fi & Npi & Fpi).
  assert (Hsub : incl (map c_id (categories current)) (map c_id cats)).
  { rewrite Ec, map_app. now apply incl_appl. }
  assert (Hids : Forall (fun p => p_id p <> "") (prompts imported)).
  { eapply Forall_impl; [|exact Fpi]. intros p (_ & _ & N & _). exact N. }
  assert (E0 : map_of (map (fun p => (p_id p, p)) (prompts current))
               = promptEntries (prompts current)).
  { apply map_of_fresh. fold (promptEntries (prompts current)).
    now rewrite promptEntries_keys. }
  destruct (mergePrompts_spec (map c_id cats) idMap (prompts imported)
              (promptEntries (prompts current)) Hr Npi
              (ex_intro _ _ Fpi)) as (H1 & H2 & H3).
  { now rewrite promptEntries_keys. }
  { apply promptEntries_ok. eapply Forall_impl; [|exact Fp].
    intros p. now apply prompt_ok_ids. }
  exists cats, idMap, added.
  split; [exact Em|]. split; [exact Ec|]. split; [exact Hincl|].
  intros pm. fold pm in H1, H2, H3.
  assert (Hk : Forall (fun kv => fst kv = p_id (snd kv)) pm).
  { eapply Forall_impl; [|exact H2]. now intros kv [H _]. }
  assert (Hcan : canonical (mkDb 1 cats (map_values pm))).
  { unfold canonical. simpl.
    assert (Ek : map p_id (map_values pm) = map fst pm).
    { unfold map_values. rewrite map_map. clear - Hk.
      induction Hk as [|kv r E _ IH]; simpl; [reflexivity|].
      now rewrite IH, E. }
    rewrite Ek. repeat split; try assumption.
    unfold map_values. apply Forall_map.
    eapply Forall_impl; [|exact H2]. now intros kv [_ H]. }
  split.
  { unfold mergeImported, mergeNext. unfold bind at 1.
    run_with Em. simpl fst. simpl snd. rewrite E0.
    run_with (mergePrompts_fold idMap (prompts imported) Hids
                (promptEntries (prompts current)) w).
    fold pm. unfold ret at 1.
    now apply normalizeDb_fixed. }
  split; [exact Hcan|]. split; [exact H1|]. split; [exact Hk|exact H3].
Qed.

(** The second loop touches the ids of the imported prompts only. *)
Lemma mergePrompts_other (idMap : Map string) (imported : list Prompt)
    (k : string) :
  ~ In k (map p_id imported) ->
  forall m0 : Map Prompt,
    map_get (fold_left (mergePromptStep idMap) imported m0) k = map_get m0 k.
Proof.
  clear typeErrorMessage toLowerCase.
  induction imported as [|p l IH]; simpl; intros H m0; [reflexivity|].
  rewrite IH by tauto. unfold mergePromptStep. rewrite map_get_set.
  destruct (String.eqb_spec (p_id p) k) as [E|_]; [|reflexivity].
  exfalso. apply H. now left.
Qed.

Lemma mergePrompts_keys (idMap : Map string) (imported : list Prompt)
    (k : string) :
  forall m0 : Map Prompt,
    map_has (fold_left (mergePromptStep idMap) imported m0) k = true ->
    map_has m0 k = true \/ In k (map p_id imported).
Proof.
  clear typeErrorMessage toLowerCase.
  induction imported as [|p l IH]; simpl; intros m0 H; [now left|].
  apply IH in H. destruct H as [H|H]; [|tauto].
  unfold mergePromptStep in H. rewrite map_has_set in H.
  apply orb_true_iff in H. destruct H as [H|H]; [|now left].
  apply String.eqb_eq in H. right. now left.
Qed.

(** The prompts the second loop leaves: those of the library whose id is
    not in the file, as they were, and one for each id of the file. *)
Lemma merged_prompts (current imported : DbFile) (idMap : Map string) :
  NoDup (map p_id (prompts current)) ->
  let pm := fold_left (mergePromptStep idMap) (prompts imported)
              (promptEntries (prompts current)) in
  Forall (fun kv => fst kv = p_id (snd kv)) pm ->
  (forall p, In p (prompts imported) ->
             map_get pm (p_id p) = Some (rewritten idMap (p_id p) p)) ->
  (forall q, In q (prompts current) ->
             ~ In (p_id q) (map p_id (prompts imported)) ->
             In q (map_values pm)) /\
  (forall p, In p (prompts imported) ->
             In (p_id p) (map p_id (map_values pm))) /\
  (forall q, In q (map_values pm) ->
             In (p_id q) (map p_id (prompts current)) \/
             In (p_id q) (map p_id (prompts imported))).
Proof.
  intros Np pm Hk Himp. split; [|split].
  - intros q Hq Hnew.
    assert (G : map_get pm (p_id q) = Some q).
    { unfold pm. rewrite mergePrompts_other by exact Hnew.
      apply entries_get; [now rewrite promptEntries_keys|].
      unfold promptEntries. apply in_map_iff. now exists q. }
    apply map_get_In in G. unfold map_values. apply in_map_iff.
    now exists (p_id q, q).
  - intros p Hp. specialize (Himp p Hp). apply map_get_In in Himp.
    apply in_map_iff. exists (rewritten idMap (p_id p) p).
    split; [reflexivity|]. unfold map_values. apply in_map_iff.
    now exists (p_id p, rewritten idMap (p_id p) p).
  - intros q Hq. unfold map_values in Hq. apply in_map_iff in Hq.
    destruct Hq as ([k q'] & E & Hin). simpl in E. subst q'.
    assert (Ek : k = p_id q)
      by (apply (proj1 (Forall_forall _ _) Hk (k, q) Hin)).
    assert (Hh : map_has pm k = true).
    { apply map_has_In. apply in_map_iff. now exists (k, q). }
    apply mergePrompts_keys in Hh. rewrite <- Ek.
    destruct Hh as [Hh|Hh]; [left|now right].
    apply map_has_In in Hh. now rewrite promptEntries_keys in Hh.
Qed.

(** X8.  A merge loses nothing: the categories of the library stay, in their
    place and as they are; a prompt of the library whose id is not in the
    file stays as it is; and the merged document holds no prompt id that
    is in neither. *)
Theorem mergeImported_keeps (current imported : DbFile) (w : World) :
  canonical current -> canonical imported ->
  exists merged added,
    mergeImported current imported w = (Ok merged, w) /\
    canonical merged /\
    categories merged = categories current ++ added /\
    incl added (categories imported) /\
    (forall q, In q (prompts current) ->
               ~ In (p_id q) (map p_id (prompts imported)) ->
               In q (prompts merged)) /\
    (forall p, In p (prompts imported) ->
               In (p_id p) (map p_id (prompts merged))) /\
    (forall q, In q (prompts merged) ->
               In (p_id q) (map p_id (prompts current)) \/
               In (p_id q) (map p_id (prompts imported))).
Proof.
  intros Hc Hi.
  destruct (mergeImported_fold current imported w Hc Hi)
    as (cats & idMap & added & _ & Ec & Hincl & Em & Hcan & _ & Hk & Himp).
  pose proof Hc as (_ & _ & _ & _ & Np & _).
  destruct (merged_prompts current imported idMap Np Hk Himp)
    as (K1 & K2 & K3).
  eexists. exists added. split; [exact Em|]. simpl.
  split; [exact Hcan|]. split; [exact Ec|]. split; [exact Hincl|].
  split; [exact K1|]. split; [exact K2|exact K3].
Qed.

(** ** [importJson] *)

(** [importJson] of a canonical document, and the render. *)
Lemma importJson_render (imported merged : DbFile) (s : Session) :
  queue (lib s) = [] -> canonical imported ->
  mergeImported (db (lib s)) imported (world s) = (Ok merged, world s) ->
  canonical merged ->
  exists s1,
    importJson (Ok (dbValue imported)) s = (Ok tt, s1) /\
    render s1
    = (Ok tt,
       mkSession (mkLibrary (loading (lib s)) true merged None
                    (Some "Zaimportowano dane") [])
                 (world s)).
Proof.
  intros Hq Hi Hm Hc.
  assert (E : importJson (Ok (dbValue imported)) s
              = commit (fun prev => mergeImported prev imported)
                       "Zaimportowano dane" s).
  { unfold importJson, withValidation, tryCatch.
    unfold bind at 1. unfold lift at 1. unfold bind at 1.
    unfold inWorld at 1. rewrite (normalizeDb_fixed imported (world s) Hi).
    destruct s as [l w]. simpl lib. simpl world.
    rewrite commit_returns. reflexivity. }
  rewrite E. eexists. split; [apply commit_returns|].
  apply (commit_render (fun prev => mergeImported prev imported)
           "Zaimportowano dane" s merged (world s) Hq Hm Hc).
Qed.

(** X9.  What [importJson] cannot read it reports and does not import: when
    the text is not JSON, or when [normalizeDb] throws on what it holds, the
    message of the exception becomes the last error, and the document and
    the updates that wait are as they were. *)
Theorem importJson_rejects (parsed : outcome value) (e : exn) (s : Session) :
  parsed = Throw e \/
  (exists v w', parsed = Ok v /\ normalizeDb v (world s) = (Throw e, w')) ->
  exists s',
    importJson parsed s = (Ok tt, s') /\
    error (lib s') = Some (messageOf e) /\
    db (lib s') = db (lib s) /\ queue (lib s') = queue (lib s) /\
    backupPending (lib s') = backupPending (lib s) /\
    toast (lib s') = toast (lib s).
Proof.
  intros [->|(v & w' & -> & H)]; unfold importJson, withValidation, tryCatch.
  - unfold bind at 1. unfold lift at 1. unfold setError, update.
    eexists. split; [reflexivity|]. simpl. repeat split.
  - unfold bind at 1. unfold lift at 1. unfold bind at 1.
    unfold inWorld at 1. rewrite H. unfold setError, update.
    eexists. split; [reflexivity|]. simpl. repeat split.
Qed.

(** ** Importing what was exported *)

Lemma mergedCategories_self (d : DbFile) (w : World) :
  canonical d ->
  mergedCategories d d w
  = (Ok (categories d, map (fun c => (c_id c, c_id c)) (categories d)), w).
Proof.
  intros (_ & Nc & U & Fc & _). unfold mergedCategories.
  assert (Hids : Forall (fun c => c_id c <> "") (categories d)).
  { eapply Forall_impl; [|exact Fc]. intros c ((_ & N & _) & _). exact N. }
  assert (Ek : map fst (map (fun c => (c_id c, c_id c)) (categories d))
               = map c_id (categories d)).
  { rewrite map_map. reflexivity. }
  assert (E0 : map_of (map (fun c => (c_id c, c_id c)) (categories d))
               = map (fun c => (c_id c, c_id c)) (categories d)).
  { apply map_of_fresh. now rewrite Ek. }
  assert (G : forall k, In k (map c_id (categories d)) ->
              map_get (map (fun c => (c_id c, c_id c)) (categories d)) k
              = Some k).
  { intros k Hk. apply entries_get; [now rewrite Ek|].
    apply in_map_iff in Hk. destruct Hk as (c & <- & Hc).
    apply in_map_iff. now exists c. }
  run_with (mergeCategories_fold (categories d) Hids (categories d)
              (map_of (map (fun c => (c_id c, c_id c)) (categories d)))
              (map_of (map (fun c => (toLowerCase (c_name c), c_id c))
                           (categories d))) w).
  rewrite E0. rewrite fold_left_fixed.
  - unfold ret. simpl. now rewrite (map_set_same _ _ _ (G _ U)).
  - intros c Hc. unfold mergeCategoryStep.
    assert (Hk : In (c_id c) (map c_id (categories d))) by now apply in_map.
    replace (map_has _ (c_id c)) with true.
    + now rewrite (map_set_same _ _ _ (G _ Hk)).
    + symmetry. apply map_has_In. now rewrite Ek.
Qed.

Lemma rewritten_self (d : DbFile) (p : Prompt) :
  canonical d -> In p (prompts d) ->
  rewritten (map (fun c => (c_id c, c_id c)) (categories d)) (p_id p) p = p.
Proof.
  intros (_ & Nc & _ & _ & _ & Fp) Hp.
  rewrite Forall_forall in Fp. specialize (Fp p Hp).
  unfold rewritten. rewrite (tagSet_fixed p _ Fp).
  destruct Fp as ((_ & _ & Hc & _) & _).
  unfold resolveImported. rewrite (entries_get _ (p_categoryId p) (p_categoryId p)).
  - now destruct p.
  - now rewrite map_map.
  - apply in_map_iff in Hc. destruct Hc as (c & E & Hc).
    apply in_map_iff. exists c. now rewrite E.
Qed.

(** Merging a canonical document into itself gives it back. *)
Lemma mergeImported_self (d : DbFile) (w : World) :
  canonical d -> mergeImported d d w = (Ok d, w).
Proof.
  intros Hc. pose proof Hc as (V & _ & _ & _ & Np & Fp).
  assert (Hids : Forall (fun p => p_id p <> "") (prompts d)).
  { eapply Forall_impl; [|exact Fp]. intros p (_ & _ & N & _). exact N. }
  assert (E0 : map_of (map (fun p => (p_id p, p)) (prompts d))
               = promptEntries (prompts d)).
  { apply map_of_fresh. fold (promptEntries (prompts d)).
    now rewrite promptEntries_keys. }
  unfold mergeImported, mergeNext. unfold bind at 1.
  run_with (mergedCategories_self d w Hc). simpl fst. simpl snd. rewrite E0.
  run_with (mergePrompts_fold
              (map (fun c => (c_id c, c_id c)) (categories d)) (prompts d)
              Hids (promptEntries (prompts d)) w).
  rewrite fold_left_fixed.
  - unfold ret at 1. rewrite promptEntries_values.
    replace (mkDb 1 (categories d) (prompts d)) with d
      by (destruct d; simpl in *; now subst).
    now apply normalizeDb_fixed.
  - intros p Hp. unfold mergePromptStep. rewrite (rewritten_self d p Hc Hp).
    apply map_set_same. apply entries_get; [now rewrite promptEntries_keys|].
    unfold promptEntries. apply in_map_iff. now exists p.
Qed.

(** X10.  Importing the text that [exportJson] returns changes nothing in the
    document; the import is reported all the same, and a backup asked for.
    ([JSON.parse] of [JSON.stringify] of the document is taken to be the
    document.) *)
Theorem importJson_own_export (s : Session) :
  canonical (db (lib s)) -> queue (lib s) = [] ->
  exists s1 s',
    importJson (Ok (dbValue (db (lib s)))) s = (Ok tt, s1) /\
    render s1 = (Ok tt, s') /\
    db (lib s') = db (lib s) /\ world s' = world s /\
    error (lib s') = None /\ backupPending (lib s') = true /\
    toast (lib s') = Some "Zaimportowano dane".
Proof.
  intros Hc Hq.
  destruct (importJson_render (db (lib s)) (db (lib s)) s Hq Hc
              (mergeImported_self _ _ Hc) Hc) as (s1 & H1 & H2).
  eexists. eexists. split; [exact H1|]. split; [exact H2|].
  simpl. repeat split.
Qed.

(** ** The import page *)

Lemma includes_In (l : list string) (x : string) :
  includes l x = true <-> In x l.
Proof.
  unfold includes. rewrite existsb_exists. split.
  - intros (y & Hy & E). apply String.eqb_eq in E. now subst.
  - intros H. exists x. split; [exact H|apply String.eqb_refl].
Qed.

Lemma selectedPrompts_ids (preview : DbFile) (ids : list string) (k : string) :
  In k (map p_id (selectedPrompts preview ids)) <->
  In k ids /\ In k (map p_id (prompts preview)).
Proof.
  unfold selectedPrompts. rewrite !in_map_iff. split.
  - intros (p & E & Hp). apply filter_In in Hp. destruct Hp as [Hp Hi].
    apply includes_In in Hi. subst k. split; [exact Hi|now exists p].
  - intros (Hi & p & E & Hp). exists p. split; [exact E|].
    apply filter_In. split; [exact Hp|]. apply includes_In. now rewrite E.
Qed.

(** The payload is a canonical document: the category of every ticked
    prompt goes with it. *)
Lemma selectedPayload_canonical (preview : DbFile) (ids : list string) :
  canonical preview -> canonical (selectedPayload preview ids).
Proof.
  intros (V & Nc & U & Fc & Np & Fp). unfold canonical, selectedPayload.
  simpl. split; [reflexivity|].
  split; [now apply NoDup_map_filter|].
  assert (Hin : forall x,
             In x (map c_id (categories preview)) ->
             In x (UNCATEGORIZED_ID ::
                   map p_categoryId (selectedPrompts preview ids)) ->
             In x (map c_id
                     (filter (fun category =>
                                includes
                                  (UNCATEGORIZED_ID ::
                                   map p_categoryId
                                     (selectedPrompts preview ids))
                                  (c_id category))
                             (categories preview)))).
  { intros x Hx Hu. apply in_map_iff in Hx. destruct Hx as (c & E & Hc).
    apply in_map_iff. exists c. split; [exact E|]. apply filter_In.
    split; [exact Hc|]. apply includes_In. now rewrite E. }
  split; [apply Hin; [exact U|now left]|].
  split.
  { apply Forall_forall. intros c Hc. apply filter_In in Hc.
    rewrite Forall_forall in Fc. now apply Fc. }
  split; [now apply NoDup_map_filter|].
  apply Forall_forall. intros p Hp.
  assert (Hsel : In p (selectedPrompts preview ids)) by exact Hp.
  unfold selectedPrompts in Hp. apply filter_In in Hp. destruct Hp as [Hp _].
  rewrite Forall_forall in Fp.
  destruct (Fp p Hp) as ((T1 & N1 & Hc & R) & Hr).
  repeat split; try assumption; try apply R; try apply Hr.
  apply Hin; [exact Hc|]. right. now apply in_map.
Qed.

(** [applySelectedImport] with a prompt ticked, and the render. *)
Lemma applySelectedImport_runs (preview : DbFile) (ids : list string)
    (name : string) (err : option string) (s : Session) :
  canonical (db (lib s)) -> queue (lib s) = [] -> canonical preview ->
  selectedPrompts preview ids <> [] ->
  exists merged added s1,
    applySelectedImport (mkImportState (Some preview) ids name err) s
    = (Ok (mkImportState None [] "" None), s1) /\
    render s1
    = (Ok tt,
       mkSession (mkLibrary (loading (lib s)) true merged None
                    (Some "Zaimportowano dane") [])
                 (world s)) /\
    canonical merged /\
    categories merged = categories (db (lib s)) ++ added /\
    incl added (categories preview) /\
    (forall q, In q (prompts (db (lib s))) ->
               ~ In (p_id q) (map p_id (selectedPrompts preview ids)) ->
               In q (prompts merged)) /\
    (forall p, In p (selectedPrompts preview ids) ->
               In (p_id p) (map p_id (prompts merged))) /\
    (forall q, In q (prompts merged) ->
               In (p_id q) (map p_id (prompts (db (lib s)))) \/
               In (p_id q) (map p_id (selectedPrompts preview ids))).
Proof.
  intros Hc Hq Hp Hsel.
  pose proof (selectedPayload_canonical preview ids Hp) as Hpay.
  destruct (mergeImported_fold (db (lib s)) (selectedPayload preview ids)
              (world s) Hc Hpay)
    as (cats & idMap & added & _ & Ec & Hincl & Hm & Hcan & _ & Hk & Himp).
  pose proof Hc as (_ & _ & _ & _ & Np & _).
  destruct (merged_prompts (db (lib s)) (selectedPayload preview ids) idMap
              Np Hk Himp) as (K1 & K2 & K3).
  set (merged := mkDb 1 cats
                   (map_values
                      (fold_left (mergePromptStep idMap)
                         (prompts (selectedPayload preview ids))
                         (promptEntries (prompts (db (lib s))))))) in *.
  destruct (importJson_render (selectedPayload preview ids) merged s
              Hq Hpay Hm Hcan) as (s1 & H1 & H2).
  exists merged, added, s1. split.
  { unfold applySelectedImport. simpl.
    destruct (selectedPrompts preview ids) eqn:E; [contradiction|].
    unfold bind. now rewrite H1. }
  split; [exact H2|]. split; [exact Hcan|]. split; [exact Ec|].
  split.
  { intros c Hcin. apply Hincl in Hcin. unfold selectedPayload in Hcin.
    simpl in Hcin. now apply filter_In in Hcin. }
  split; [exact K1|]. split; [exact K2|exact K3].
Qed.

(** X11.  Only what is ticked is imported: a prompt of the library stays as it
    is unless its id is ticked and in the file, every ticked prompt of the
    file is in the library afterwards, and no other id is. *)
Theorem applySelectedImport_ticked (preview : DbFile) (ids : list string)
    (name : string) (err : option string) (s : Session) :
  canonical (db (lib s)) -> queue (lib s) = [] -> canonical preview ->
  selectedPrompts preview ids <> [] ->
  exists s1 s',
    applySelectedImport (mkImportState (Some preview) ids name err) s
    = (Ok (mkImportState None [] "" None), s1) /\
    render s1 = (Ok tt, s') /\
    (forall q, In q (prompts (db (lib s))) ->
               ~ (In (p_id q) ids /\ In (p_id q) (map p_id (prompts preview))) ->
               In q (prompts (db (lib s')))) /\
    (forall p, In p (prompts preview) -> In (p_id p) ids ->
               In (p_id p) (map p_id (prompts (db (lib s'))))) /\
    (forall q, In q (prompts (db (lib s'))) ->
               In (p_id q) (map p_id (prompts (db (lib s)))) \/
               In (p_id q) ids /\ In (p_id q) (map p_id (prompts preview))) /\
    (forall c, In c (categories (db (lib s))) ->
               In c (categories (db (lib s')))).
Proof.
  intros Hc Hq Hp Hsel.
  destruct (applySelectedImport_runs preview ids name err s Hc Hq Hp Hsel)
    as (merged & added & s1 & H1 & H2 & _ & Ec & _ & K1 & K2 & K3).
  eexists. eexists. split; [exact H1|]. split; [exact H2|]. simpl.
  split.
  { intros q Hin Hn. apply K1; [exact Hin|].
    now rewrite selectedPrompts_ids. }
  split.
  { intros p Hin Hi. apply K2. unfold selectedPrompts. apply filter_In.
    split; [exact Hin|]. now apply includes_In. }
  split.
  { intros q Hin. destruct (K3 q Hin) as [H|H]; [now left|right].
    now apply selectedPrompts_ids. }
  intros c Hin. rewrite Ec. apply in_or_app. now left.
Qed.

Lemma defaultSelection_new (current preview : DbFile) (k : string) :
  In k (defaultSelection current preview) ->
  ~ In k (map p_id (prompts current)).
Proof.
  unfold defaultSelection. intros H. apply in_map_iff in H.
  destruct H as (p & E & Hp). apply filter_In in Hp. destruct Hp as [_ Hp].
  apply negb_true_iff in Hp. intros Hin. apply includes_In in Hin.
  rewrite E in Hp. congruence.
Qed.

Lemma render_idle (s : Session) :
  queue (lib s) = [] ->
  render s
  = (Ok tt,
     mkSession (mkLibrary (loading (lib s)) (backupPending (lib s))
                  (db (lib s)) (error (lib s)) (toast (lib s)) [])
               (world s)).
Proof. intros Hq. unfold render. rewrite Hq. reflexivity. Qed.

(** X12.  With the ticks the page sets when a file is opened, an import
    overwrites nothing: every prompt of the library is there afterwards, as
    it was. *)
Theorem applySelectedImport_default (preview : DbFile) (name : string)
    (err : option string) (s : Session) :
  canonical (db (lib s)) -> queue (lib s) = [] -> canonical preview ->
  exists st' s1 s',
    applySelectedImport
      (mkImportState (Some preview)
         (defaultSelection (db (lib s)) preview) name err) s
    = (Ok st', s1) /\
    render s1 = (Ok tt, s') /\
    (forall q, In q (prompts (db (lib s))) -> In q (prompts (db (lib s')))) /\
    (forall p, In p (prompts preview) ->
               In (p_id p) (map p_id (prompts (db (lib s'))))).
Proof.
  intros Hc Hq Hp.
  destruct (selectedPrompts preview (defaultSelection (db (lib s)) preview))
    as [|p0 l0] eqn:E.
  - eexists. exists s. eexists. split.
    { unfold applySelectedImport. simpl. rewrite E. reflexivity. }
    split; [now apply render_idle|]. simpl. split; [tauto|].
    intros p Hin.
    destruct (in_dec string_dec (p_id p) (map p_id (prompts (db (lib s)))))
      as [Y|N]; [exact Y|].
    exfalso.
    assert (Hs : In p (selectedPrompts preview
                         (defaultSelection (db (lib s)) preview))).
    { unfold selectedPrompts. apply filter_In. split; [exact Hin|].
      apply includes_In. unfold defaultSelection. apply in_map.
      apply filter_In. split; [exact Hin|]. apply negb_true_iff.
      apply not_true_is_false. intros H. now apply includes_In in H. }
    rewrite E in Hs. contradiction.
  - assert (Hsel : selectedPrompts preview
                     (defaultSelection (db (lib s)) preview) <> [])
      by (rewrite E; discriminate).
    destruct (applySelectedImport_runs preview _ name err s Hc Hq Hp Hsel)
      as (merged & added & s1 & H1 & H2 & _ & _ & _ & K1 & K2 & _).
    eexists. eexists. eexists. split; [exact H1|]. split; [exact H2|].
    simpl. split.
    + intros q Hin. apply K1; [exact Hin|]. intros H.
      apply selectedPrompts_ids in H. destruct H as [H _].
      apply defaultSelection_new in H. apply H. now apply in_map.
    + intros p Hin.
      destruct (in_dec string_dec (p_id p) (map p_id (prompts (db (lib s)))))
        as [Y|N].
      * apply in_map_iff in Y. destruct Y as (q & Eq & Hq').
        rewrite <- Eq. apply in_map. apply K1; [exact Hq'|]. intros H.
        apply selectedPrompts_ids in H. destruct H as [H _].
        apply defaultSelection_new in H. apply H. now apply in_map.
      * apply K2. unfold selectedPrompts. apply filter_In.
        split; [exact Hin|]. apply includes_In. unfold defaultSelection.
        apply in_map. apply filter_In. split; [exact Hin|].
        apply negb_true_iff. apply not_true_is_false. intros H.
        now apply includes_In in H.
Qed.

(** X13.  Opening a file never throws and does not touch the library.  When
    the text of the file cannot be read or is not JSON, and when
    [normalizeDb] throws on what it holds, the page shows the error and no
    preview.  Otherwise the preview is the document [normalizeDb] returns
    for the file, a canonical one, under the name of the file, and exactly
    those of its prompts are ticked whose id the library on show does not
    have. *)
Theorem onFileImport_preview (fileName : string) (parsed : outcome value)
    (s : Session) :
  clock_ok -> ids_ok -> comparator localeCompare ->
  (forall e, parsed = Throw e ->
     onFileImport fileName parsed s
     = (Ok (mkImportState None [] "" (Some "Niepoprawny plik JSON")), s)) /\
  (forall v e w1,
     parsed = Ok v -> normalizeDb v (world s) = (Throw e, w1) ->
     onFileImport fileName parsed s
     = (Ok (mkImportState None [] "" (Some "Niepoprawny plik JSON")),
        mkSession (lib s) w1)) /\
  (forall v d w1,
     parsed = Ok v -> normalizeDb v (world s) = (Ok d, w1) ->
     exists ticked,
       onFileImport fileName parsed s
       = (Ok (mkImportState (Some d) ticked fileName None),
          mkSession (lib s) w1) /\
       canonical d /\
       (forall k, In k ticked <->
                  In k (map p_id (prompts d)) /\
                  ~ In k (map p_id (prompts (db (lib s)))))).
Proof.
  intros K I C. unfold onFileImport. split; [|split].
  - intros e ->. destruct s. reflexivity.
  - intros v e w1 -> H. unfold bind at 1. unfold lift at 1.
    unfold inWorld at 1. now rewrite H.
  - intros v d w1 -> H. unfold bind at 1. unfold lift at 1.
    unfold inWorld at 1. rewrite H.
    eexists. split; [reflexivity|].
    split; [now apply (normalizeDb_canonical v d (world s) w1)|].
    intros k. unfold defaultSelection. rewrite in_map_iff. split.
    + intros (p & Ep & Hp). apply filter_In in Hp. destruct Hp as [Hp Hn].
      subst k. split; [now apply in_map|].
      apply negb_true_iff in Hn. intros H'. apply includes_In in H'.
      congruence.
    + intros [Hin Hn]. apply in_map_iff in Hin.
      destruct Hin as (p & Ep & Hp). exists p. split; [exact Ep|].
      apply filter_In. split; [exact Hp|]. apply negb_true_iff.
      apply not_true_is_false. intros H'. apply includes_In in H'.
      now rewrite Ep in H'.
Qed.

(** * The contract of [copyPrompt] *)

(** [importJson] of a value [normalizeDb] accepts is the commit of the
    merge. *)
Lemma importJson_commits (v : value) (imported : DbFile) (s : Session)
    (w1 : World) :
  normalizeDb v (world s) = (Ok imported, w1) ->
  importJson (Ok v) s
  = commit (fun prev => mergeImported prev imported) "Zaimportowano dane"
      (mkSession (lib s) w1).
Proof.
  intros H. unfold importJson, withValidation, tryCatch.
  unfold bind at 1. unfold lift at 1. unfold bind at 1.
  unfold inWorld at 1. rewrite H.
  now rewrite commit_returns.
Qed.

(** C9, amended.  [copyPrompt]: when the document on show has no prompt
    with the id, the last error is set and nothing else changes; when it
    has one, the content goes to the clipboard and nothing changes until
    the clipboard answers.  When the clipboard refuses, the last error is
    set and nothing else changes.  When it accepts, in any session reached
    from the first render -- whatever was called since the text was
    handed over, whatever updates wait -- the next render shows the
    document the waiting updates lead to with, in the prompt of that id,
    [lastUsedAt] and [updatedAt] set to the time read at that render,
    [createdAt] and every other field as they were, and every other
    prompt and every category as they were.  No editing call (upsert,
    delete, duplicate of a prompt; create, rename, delete of a category)
    introduces a time of last use: a prompt that has one after the render
    had the same one in the document the waiting updates led to.
    [importJson] is not among them: each imported prompt is in the
    library after the render with the [lastUsedAt] of the file.  What is
    said of renders asks of the platform what holds of it: a time is not
    empty, a generated id is trimmed and not empty, and the collation does
    not put each of two strings after the other. *)
Theorem copyPrompt_contract :
  (forall id s,
      find (fun q => p_id q =? id) (prompts (db (lib s))) = None ->
      copyPrompt id s = (Ok None, surfaced s "Prompt nie istnieje")) /\
  (forall id s p,
      find (fun q => p_id q =? id) (prompts (db (lib s))) = Some p ->
      copyPrompt id s = (Ok (Some (p_content p)), s)) /\
  (forall id e s,
      copyPromptResumed id (Throw e) s
      = (Ok tt, surfaced s "Nie udało się skopiować do schowka")) /\
  (clock_ok -> ids_ok -> comparator localeCompare ->
  (forall w0 cs id prev w1,
      let s := performAll cs (firstRender w0) in
      let now := VStr (nowAt (ticks w1)) in
      runQueue (queue (lib s)) (db (lib s)) (world s) = (Ok prev, w1) ->
      exists s',
        render (snd (copyPromptResumed id (Ok tt) s)) = (Ok tt, s') /\
        error (lib s') = None /\
        categories (db (lib s')) = categories prev /\
        prompts (db (lib s'))
        = map (fun p =>
                 if p_id p =? id
                 then mkPrompt (p_id p) (p_title p) (p_categoryId p)
                        (p_content p) (p_tags p) (p_favorite p)
                        (p_createdAt p) now now
                 else p)
              (prompts prev)) /\
  (forall w0 cs c prev w1 s',
      let s := performAll cs (firstRender w0) in
      isEdit c = true ->
      runQueue (queue (lib s)) (db (lib s)) (world (snd (perform c s)))
      = (Ok prev, w1) ->
      render (snd (perform c s)) = (Ok tt, s') ->
      forall q, In q (prompts (db (lib s'))) -> p_lastUsedAt q <> VNull ->
        exists p, In p (prompts prev) /\ p_id p = p_id q /\
                  p_lastUsedAt p = p_lastUsedAt q) /\
  (forall w0 cs v imported w1 prev w2,
      let s := performAll cs (firstRender w0) in
      normalizeDb v (world s) = (Ok imported, w1) ->
      runQueue (queue (lib s)) (db (lib s)) w1 = (Ok prev, w2) ->
      exists s',
        render (snd (importJson (Ok v) s)) = (Ok tt, s') /\
        forall p, In p (prompts imported) ->
          exists q,
            find (fun q => p_id q =? p_id p) (prompts (db (lib s'))) = Some q /\
            p_lastUsedAt q = p_lastUsedAt p)).
Proof.
  split; [apply copyPrompt_absent|]. split; [apply copyPrompt_found|].
  split; [reflexivity|]. intros K I C. split; [|split].
  - intros w0 cs id prev w1 s now Hq.
    pose proof (pending_canonical w0 cs (world s) w1 prev K I C Hq) as Hc.
    rewrite (copyPrompt_stamps id s prev w1 K Hc Hq).
    eexists. split; [reflexivity|]. simpl. now repeat split.
  - intros w0 cs c prev w1 s' s Hc Hq Hr.
    pose proof (pending_canonical w0 cs _ w1 prev K I C Hq) as Hp.
    exact (edit_call_usesFrom c s s' prev w1 Hc Hp Hq Hr).
  - intros w0 cs v imported w1 prev w2 s Hn Hq.
    pose proof (pending_canonical w0 cs w1 w2 prev K I C Hq) as Hp.
    pose proof (normalizeDb_canonical v imported (world s) w1 K I C Hn) as Hi.
    destruct (mergeImported_spec prev imported w2 Hp Hi)
      as (cats & idMap & pm & _ & E & Hcan & Hk & Hget).
    rewrite (importJson_commits v imported s w1 Hn).
    rewrite (commit_pending (fun prev => mergeImported prev imported)
               "Zaimportowano dane" s w1 prev _ w2 w2 Hq E Hcan).
    eexists. split; [reflexivity|]. simpl. intros p Hin.
    exists (rewritten idMap (p_id p) p). split; [|reflexivity].
    rewrite find_values by assumption. now apply Hget.
Qed.

(** * What holds of every document the hook shows *)

Ltac run_store :=
  cbv beta iota zeta delta
    [loadDb getDb bind onStore onWorld readStoredDbRaw writeStoredDbRaw
     storageGet storageSet saveDb ret lift tryCatch faults held fst snd
     holding ticked defaultAt
     defaultDb uncategorized nowIso UNCATEGORIZED_ID].


(** X15.  After any sequence of calls and renders, whether they return or
    throw, the document of the hook is canonical: one category has the
    reserved id, no two categories and no two prompts share an id, every
    prompt is filed under a category of the document, and every text is
    trimmed. *)
Theorem library_always_canonical (w : World) (cs : list call) :
  clock_ok -> ids_ok -> comparator localeCompare ->
  canonical (db (lib (performAll cs (firstRender w)))).
Proof.
  intros K I C. apply reachable_established.
  now apply canonical_established.
Qed.

(** * The background worker *)

Lemma compare_comparator : comparator String.compare.
Proof.
  intros a b H. rewrite String.compare_antisym, H. discriminate.
Qed.

Lemma trimmedOr_trimmed (v : value) (d : string) :
  trimmed d -> trimmed (trimmedOr v d).
Proof.
  intros Hd. destruct v; simpl; try exact Hd.
  destruct (nonEmpty (trim s)); [apply trimmed_trim|exact Hd].
Qed.

Lemma trimmedOr_nonEmpty (v : value) (d : string) :
  d <> "" -> trimmedOr v d <> "".
Proof.
  intros Hd. destruct v; simpl; try exact Hd.
  destruct (nonEmpty (trim s)) eqn:E; [now apply nonEmpty_true|exact Hd].
Qed.

Lemma trimmedOr_fixed (s d : string) :
  trimmed s -> s <> "" -> trimmedOr (VStr s) d = s.
Proof.
  intros T N. simpl. rewrite T. apply nonEmpty_true in N. now rewrite N.
Qed.

Lemma isText_truthy (v : value) : isText v -> truthy v = true.
Proof. intros (s & -> & N). simpl. now apply nonEmpty_true. Qed.

(** [stringOrNow] returns, and returns a string that is not empty. *)
Lemma stringOrNow_runs (v : value) (w : World) :
  exists x w', stringOrNow v w = (Ok x, w') /\ (clock_ok -> isText x).
Proof.
  assert (D : exists x w',
             (now <- nowIso ;; ret (VStr now)) w = (Ok x, w') /\
             (clock_ok -> isText x)).
  { eexists. eexists. split; [reflexivity|]. intros K. eexists.
    split; [reflexivity|apply K]. }
  destruct v; simpl; try exact D.
  destruct (nonEmpty s) eqn:E; [|exact D].
  exists (VStr s), w. split; [reflexivity|]. intros _. exists s.
  split; [reflexivity|now apply nonEmpty_true].
Qed.

Lemma stringOrNow_fixed (v : value) (w : World) :
  isText v -> stringOrNow v w = (Ok v, w).
Proof.
  intros (s & -> & N). simpl. apply nonEmpty_true in N. now rewrite N.
Qed.

(** ** The loops *)

Lemma worker_categoryLoop_runs (cs : list value) :
  forall (m : Map Category) (w : World),
    exists m' w',
      worker_categoryLoop cs m w = (Ok m', w') /\
      (NoDup (map fst m) -> NoDup (map fst m')) /\
      (clock_ok ->
       Forall (fun kv => fst kv = c_id (snd kv) /\
                         worker_category_ok (snd kv)) m ->
       Forall (fun kv => fst kv = c_id (snd kv) /\
                         worker_category_ok (snd kv)) m') /\
      (forall k, map_has m k = true -> map_has m' k = true).
Proof.
  clear typeErrorMessage toLowerCase localeCompare.
  induction cs as [|category rest IH]; intros m w.
  - exists m, w. simpl. unfold ret. tauto.
  - cbn [worker_categoryLoop]. cbv zeta.
    destruct (negb (nonEmpty (trimmedOr (getOpt category "id") "")) ||
              map_has m (trimmedOr (getOpt category "id") "")) eqn:E.
    + apply IH.
    + apply orb_false_iff in E. destruct E as [E1 E2].
      apply negb_false_iff, nonEmpty_true in E1.
      destruct (stringOrNow_runs (getOpt category "createdAt") w)
        as (createdAt & w1 & Hc & Ht).
      run_with Hc.
      destruct (IH (map_set m (trimmedOr (getOpt category "id") "")
                      (mkCategory (trimmedOr (getOpt category "id") "")
                         (trimmedOr (getOpt category "name") "Bez nazwy")
                         createdAt)) w1)
        as (m' & w' & H & Hn & Hf & Hm).
      exists m', w'. split; [exact H|]. split; [|split].
      * intros N. apply Hn. now apply map_set_NoDup.
      * intros K F. apply (Hf K). apply map_set_Forall; [exact F|].
        split; [reflexivity|]. split; [|now apply Ht].
        repeat split; simpl.
        -- now apply trimmedOr_trimmed.
        -- exact E1.
        -- now apply trimmedOr_trimmed.
        -- apply trimmedOr_nonEmpty. discriminate.
      * intros k Hk. apply Hm. rewrite map_has_set, Hk. apply orb_true_r.
Qed.

(** The id a turn of the loop over the prompts gives a prompt. *)
Lemma worker_promptId (t id : string) (w w1 : World) :
  ids_ok -> trimmed t ->
  (if nonEmpty t then ret t else uuid) w = (Ok id, w1) ->
  trimmed id /\ id <> "".
Proof.
  intros I T H. destruct (nonEmpty t) eqn:E.
  - injection H as <- _. split; [exact T|now apply nonEmpty_true].
  - injection H as <- _. apply I.
Qed.

Lemma worker_updatedAt (v c x : value) (w w' : World) :
  clock_ok ->
  match v with
  | VStr s => if nonEmpty s then ret (VStr s) else stringOrNow c
  | _ => stringOrNow c
  end w = (Ok x, w') ->
  isText x.
Proof.
  intros K H.
  assert (D : forall w w', stringOrNow c w = (Ok x, w') -> isText x).
  { intros w0 w0' E. destruct (stringOrNow_runs c w0) as (y & w1 & E' & T).
    rewrite E in E'. injection E' as <- _. now apply T. }
  destruct v; try (now apply D in H).
  destruct (nonEmpty s) eqn:E; [|now apply D in H].
  injection H as <- _. exists s. split; [reflexivity|now apply nonEmpty_true].
Qed.

Lemma worker_updatedAt_runs (v c : value) (w : World) :
  exists x w',
    match v with
    | VStr s => if nonEmpty s then ret (VStr s) else stringOrNow c
    | _ => stringOrNow c
    end w = (Ok x, w').
Proof.
  assert (D : exists x w', stringOrNow c w = (Ok x, w')).
  { destruct (stringOrNow_runs c w) as (y & w1 & E & _). now exists y, w1. }
  destruct v; try exact D.
  destruct (nonEmpty s); [|exact D]. now exists (VStr s), w.
Qed.

Lemma worker_lastUsedAt (v : value) :
  let x := match v with
           | VStr s => if nonEmpty s then VStr s else VNull
           | _ => VNull
           end in
  x = VNull \/ isText x.
Proof.
  destruct v; simpl; try now left.
  destruct (nonEmpty s) eqn:E; [|now left].
  right. exists s. split; [reflexivity|now apply nonEmpty_true].
Qed.

(** What a turn of the loop stores is a prompt as the worker stores them. *)
Lemma worker_promptLoop_ok (cm : Map Category) (ps : list value) :
  clock_ok -> ids_ok -> In UNCATEGORIZED_ID (map fst cm) ->
  forall (m m' : Map Prompt) (w w' : World),
    worker_promptLoop cm ps m w = (Ok m', w') ->
    (NoDup (map fst m) -> NoDup (map fst m')) /\
    (Forall (fun kv => fst kv = p_id (snd kv) /\
                       worker_prompt_ok (map fst cm) (snd kv)) m ->
     Forall (fun kv => fst kv = p_id (snd kv) /\
                       worker_prompt_ok (map fst cm) (snd kv)) m').
Proof.
  clear typeErrorMessage toLowerCase localeCompare.
  intros K I U. induction ps as [|prompt rest IH]; intros m m' w w' H.
  - injection H as <- _. tauto.
  - cbn [worker_promptLoop] in H. cbv zeta in H.
    apply bind_Ok in H. destruct H as (id & w1 & Hid & H).
    apply (worker_promptId _ _ _ _ I) in Hid;
      [|apply trimmedOr_trimmed; reflexivity].
    destruct Hid as [Ti Ni].
    destruct (map_has m id) eqn:Hh; [now apply IH in H|].
    apply bind_Ok in H. destruct H as (strings & w2 & Hs & H).
    apply bind_Ok in H. destruct H as (createdAt & w3 & Hc & H).
    apply bind_Ok in H. destruct H as (updatedAt & w4 & Hu & H).
    apply IH in H. destruct H as [Hn Hf]. split.
    + intros N. apply Hn. now apply map_set_NoDup.
    + intros F. apply Hf. apply map_set_Forall; [exact F|].
      split; [reflexivity|].
      destruct (sortedSet_ok String.compare (map trim strings)
                  compare_comparator) as (Ft & Nt & St).
      { apply Forall_map, Forall_forall. intros t _. apply trimmed_trim. }
      destruct (stringOrNow_runs (getOpt prompt "createdAt") w2)
        as (y & w5 & E & T).
      rewrite Hc in E. injection E as <- _.
      repeat split; simpl; try assumption.
      * apply trimmedOr_trimmed. reflexivity.
      * apply trimmedOr_nonEmpty. discriminate.
      * now apply resolveCategory_In.
      * apply trimmedOr_trimmed. reflexivity.
      * destruct (worker_lastUsedAt (getOpt prompt "lastUsedAt")) as [L|L];
          [now left|right; now apply isText_truthy].
      * now apply T.
      * now apply (worker_updatedAt _ _ _ _ _ K Hu).
      * apply worker_lastUsedAt.
Qed.

Lemma traverse_stringOf_runs (l : list value) :
  printable l -> exists r, traverse stringOf l = Ok r.
Proof.
  induction 1 as [|v l [s E] _ [r IH]]; simpl; [now exists []|].
  rewrite E, IH. now eexists.
Qed.

Lemma traverse_stringOf_throws (before after : list value) (tag : value)
    (e : exn) :
  printable before -> stringOf tag = Throw e ->
  traverse stringOf (before ++ tag :: after) = Throw e.
Proof.
  induction 1 as [|v l [s E] _ IH]; intros H; simpl.
  - now rewrite H.
  - now rewrite E, IH.
Qed.

(** The loop over the prompts returns when [String] does. *)
Lemma worker_promptLoop_runs (cm : Map Category) (ps : list value) :
  Forall (fun prompt => printable (arrayOrEmpty (getOpt prompt "tags"))) ps ->
  forall (m : Map Prompt) (w : World),
    exists m' w', worker_promptLoop cm ps m w = (Ok m', w').
Proof.
  induction 1 as [|prompt rest S _ IH]; intros m w.
  - now exists m, w.
  - cbn [worker_promptLoop]. cbv zeta.
    assert (E : exists id w1,
               (if nonEmpty (trimmedOr (getOpt prompt "id") "")
                then ret (trimmedOr (getOpt prompt "id") "") else uuid) w
               = (Ok id, w1)).
    { destruct (nonEmpty _); eexists; eexists; reflexivity. }
    destruct E as (id & w1 & E). run_with E.
    destruct (map_has m id); [apply IH|].
    destruct (traverse_stringOf_runs (arrayOrEmpty (getOpt prompt "tags")) S)
      as [strings Hs].
    rewrite Hs. run_lift.
    destruct (stringOrNow_runs (getOpt prompt "createdAt") w1)
      as (createdAt & w2 & Hc & _).
    run_with Hc.
    destruct (worker_updatedAt_runs (getOpt prompt "updatedAt")
                (getOpt prompt "createdAt") w2) as (updatedAt & w3 & Hu).
    run_with Hu. apply IH.
Qed.

(** ** [worker_normalizeDb] *)

(** Up to the loop over the prompts nothing can throw: the categories are
    there, with unique ids and the reserved one among them. *)
Lemma worker_normalizeDb_front (input : value) (w : World) :
  exists cm ps w1,
    ps = arrayOrEmpty (getOpt input "prompts") /\
    NoDup (map fst cm) /\ In UNCATEGORIZED_ID (map fst cm) /\
    (clock_ok ->
     Forall (fun kv => fst kv = c_id (snd kv) /\ worker_category_ok (snd kv))
            cm) /\
    worker_normalizeDb input w
    = (promptMap <- worker_promptLoop cm ps [] ;;
       ret (mkDb 1 (map_values cm) (map_values promptMap))) w1.
Proof.
  unfold worker_normalizeDb.
  assert (B : exists base w0,
             (if isObject input then ret input
              else d <- defaultDb ;; ret (dbValue d)) w = (Ok base, w0)).
  { destruct (isObject input); eexists; eexists; reflexivity. }
  destruct B as (base & w0 & B).
  assert (Eps : arrayOrEmpty (getOpt base "prompts")
                = arrayOrEmpty (getOpt input "prompts")).
  { destruct input; simpl in B; injection B as <- _; reflexivity. }
  run_with B.
  assert (C : exists cats w1,
             (if worker_someUncategorized
                   (arrayOrEmpty (getOpt base "categories"))
              then ret (arrayOrEmpty (getOpt base "categories"))
              else c <- uncategorized ;;
                   ret (arrayOrEmpty (getOpt base "categories") ++
                        [categoryValue c])) w0 = (Ok cats, w1)).
  { destruct (worker_someUncategorized _); eexists; eexists; reflexivity. }
  destruct C as (cats & w1 & C). run_with C.
  destruct (worker_categoryLoop_runs cats [] w1)
    as (cm & w2 & L & Hn & Hf & Hm).
  run_with L.
  assert (N0 : NoDup (map fst cm)) by (apply Hn; constructor).
  destruct (map_has cm UNCATEGORIZED_ID) eqn:E.
  - unfold ret at 1. unfold bind at 1.
    exists cm, (arrayOrEmpty (getOpt base "prompts")), w2.
    split; [exact Eps|].
    split; [exact N0|]. split; [now apply map_has_In|].
    split; [|reflexivity]. intros K. apply (Hf K). constructor.
  - unfold bind at 1. unfold bind at 1. unfold uncategorized at 1.
    unfold bind at 1. unfold nowIso at 1. unfold ret at 1. unfold ret at 1.
    eexists. eexists. eexists.
    split; [exact Eps|].
    split; [|split; [|split; [|reflexivity]]].
    + now apply map_set_NoDup.
    + apply map_has_In. rewrite map_has_set, String.eqb_refl. reflexivity.
    + intros K. apply map_set_Forall; [apply (Hf K); constructor|].
      split; [reflexivity|]. split.
      * repeat split; simpl; discriminate.
      * eexists. split; [reflexivity|apply K].
Qed.

Lemma entries_ids_categories (cm : Map Category) :
  Forall (fun kv => fst kv = c_id (snd kv) /\ worker_category_ok (snd kv)) cm ->
  map c_id (map_values cm) = map fst cm.
Proof.
  unfold map_values. rewrite map_map.
  induction 1 as [|kv r [E _] _ IH]; simpl; [reflexivity|].
  now rewrite IH, E.
Qed.

Lemma entries_ids_prompts (ids : list string) (pm : Map Prompt) :
  Forall (fun kv => fst kv = p_id (snd kv) /\ worker_prompt_ok ids (snd kv)) pm ->
  map p_id (map_values pm) = map fst pm.
Proof.
  unfold map_values. rewrite map_map.
  induction 1 as [|kv r [E _] _ IH]; simpl; [reflexivity|].
  now rewrite IH, E.
Qed.

(** What [worker_normalizeDb] returns is a document as the worker stores
    them. *)
Lemma worker_normalizeDb_canonical (input : value) (d : DbFile)
    (w w' : World) :
  clock_ok -> ids_ok ->
  worker_normalizeDb input w = (Ok d, w') -> worker_canonical d.
Proof.
  intros K I H.
  destruct (worker_normalizeDb_front input w)
    as (cm & ps & w1 & _ & Nc & U & Fc & E).
  rewrite E in H. apply bind_Ok in H. destruct H as (pm & w2 & L & H).
  injection H as <- _.
  destruct (worker_promptLoop_ok cm ps K I U [] pm w1 w2 L) as [Hn Hf].
  specialize (Hn (NoDup_nil _)). specialize (Hf (Forall_nil _)).
  specialize (Fc K).
  unfold worker_canonical. simpl.
  rewrite (entries_ids_categories cm Fc), (entries_ids_prompts _ pm Hf).
  repeat split; try assumption.
  - unfold map_values. apply Forall_map. eapply Forall_impl; [|exact Fc].
    now intros kv [_ H].
  - unfold map_values. apply Forall_map. eapply Forall_impl; [|exact Hf].
    now intros kv [_ H].
Qed.

(** X16.  The normalizer of the worker returns on every value in which
    [String] returns for each tag of each prompt -- every value whose tags
    are strings, whatever else it holds -- and what it returns has unique
    ids, the reserved category, every prompt filed under a category of
    the document, and trimmed text.  It is not total: where [String]
    throws on a tag of the first prompt, it throws. *)
Theorem worker_normalizeDb_total (input : value) (w : World) :
  clock_ok -> ids_ok ->
  (tagsPrint input ->
   exists d w', worker_normalizeDb input w = (Ok d, w') /\
                worker_canonical d) /\
  ((forall prompt tag,
       In prompt (arrayOrEmpty (getOpt input "prompts")) ->
       In tag (arrayOrEmpty (getOpt prompt "tags")) ->
       exists s, tag = VStr s) ->
   exists d w', worker_normalizeDb input w = (Ok d, w') /\
                worker_canonical d) /\
  (forall prompt rest before tag after e,
      getOpt input "prompts" = VArr (prompt :: rest) ->
      getOpt prompt "tags" = VArr (before ++ tag :: after) ->
      printable before -> stringOf tag = Throw e ->
      exists w', worker_normalizeDb input w = (Throw e, w')).
Proof.
  intros K I.
  assert (T : tagsPrint input ->
              exists d w', worker_normalizeDb input w = (Ok d, w') /\
                           worker_canonical d).
  { intros S.
    destruct (worker_normalizeDb_front input w)
      as (cm & ps & w1 & Eps & Nc & U & Fc & E).
    unfold tagsPrint in S. rewrite <- Eps in S.
    destruct (worker_promptLoop_runs cm ps S [] w1) as (pm & w2 & L).
    assert (H : worker_normalizeDb input w
                = (Ok (mkDb 1 (map_values cm) (map_values pm)), w2)).
    { rewrite E. unfold bind. now rewrite L. }
    eexists. eexists. split; [exact H|].
    now apply (worker_normalizeDb_canonical input _ w w2). }
  split; [exact T|]. split.
  - intros S. apply T. apply Forall_forall. intros prompt Hp.
    apply Forall_forall. intros tag Ht.
    destruct (S prompt tag Hp Ht) as [s ->]. now exists s.
  - intros prompt rest before tag after e Hps Htags Hb He.
    destruct (worker_normalizeDb_front input w)
      as (cm & ps & w1 & Eps & _ & _ & _ & E).
    rewrite Hps in Eps. simpl in Eps. subst ps. rewrite E.
    unfold bind at 1. cbn [worker_promptLoop]. cbv zeta.
    unfold bind at 1.
    assert (Eid : exists id w2,
               (if nonEmpty (trimmedOr (getOpt prompt "id") "")
                then ret (trimmedOr (getOpt prompt "id") "") else uuid) w1
               = (Ok id, w2)).
    { destruct (nonEmpty _); eexists; eexists; reflexivity. }
    destruct Eid as (id & w2 & ->). cbn [map_has existsb].
    rewrite Htags. cbn [arrayOrEmpty].
    rewrite (traverse_stringOf_throws before after tag e Hb He).
    now exists w2.
Qed.

(** ** What the worker leaves as it is *)

Lemma worker_someUncategorized_found (l : list Category) :
  In UNCATEGORIZED_ID (map c_id l) ->
  worker_someUncategorized (map categoryValue l) = true.
Proof.
  unfold worker_someUncategorized. intros H. apply existsb_exists.
  apply in_map_iff in H. destruct H as (c & E & Hc).
  exists (categoryValue c). split; [now apply in_map|].
  simpl. rewrite E. reflexivity.
Qed.

Lemma worker_categoryLoop_fixed (l : list Category) :
  forall (m : Map Category) (w : World),
    NoDup (map fst m ++ map c_id l) -> Forall worker_category_ok l ->
    worker_categoryLoop (map categoryValue l) m w
    = (Ok (m ++ categoryEntries l), w).
Proof.
  induction l as [|c l IH]; intros m w Hn Hf.
  - simpl. now rewrite app_nil_r.
  - inversion Hf as [|? ? ((T1 & N1 & T2 & N2) & T3) Hf']; subst.
    destruct c as [id name createdAt]. simpl in T1, N1, T2, N2, T3, Hn.
    assert (G : map_has m id = false).
    { apply map_has_false. intros Hin.
      apply NoDup_remove_2 in Hn. apply Hn, in_or_app. now left. }
    cbn [map worker_categoryLoop]. cbv zeta.
    change (getOpt (categoryValue (mkCategory id name createdAt)) "id")
      with (VStr id).
    change (getOpt (categoryValue (mkCategory id name createdAt)) "name")
      with (VStr name).
    change (getOpt (categoryValue (mkCategory id name createdAt)) "createdAt")
      with createdAt.
    rewrite (trimmedOr_fixed id "" T1 N1).
    rewrite (trimmedOr_fixed name "Bez nazwy" T2 N2).
    apply nonEmpty_true in N1. rewrite N1, G. cbn [negb orb].
    run_with (stringOrNow_fixed createdAt w T3).
    rewrite map_set_fresh by assumption.
    rewrite IH; [|rewrite map_app, <- app_assoc; exact Hn|assumption].
    now rewrite <- app_assoc.
Qed.

Lemma traverse_stringOf_strings (l : list string) :
  traverse stringOf (map VStr l) = Ok l.
Proof.
  induction l as [|s l IH]; simpl; [reflexivity|]. now rewrite IH.
Qed.

Lemma worker_promptLoop_fixed (cm : Map Category) (l : list Prompt) :
  forall (m : Map Prompt) (w : World),
    NoDup (map fst m ++ map p_id l) ->
    Forall (worker_prompt_ok (map fst cm)) l ->
    worker_promptLoop cm (map promptValue l) m w
    = (Ok (m ++ promptEntries l), w).
Proof.
  induction l as [|p l IH]; intros m w Hn Hf.
  - simpl. now rewrite app_nil_r.
  - inversion Hf as [|? ? ((T2 & N2 & Hc & T3 & Ft & Nt & L0) &
                            T1 & N1 & St & C1 & C2 & L) Hf']; subst.
    assert (Ht : tags_ok String.compare (p_tags p))
      by (repeat split; assumption).
    destruct p as [id title categoryId content tags favorite
                   createdAt updatedAt lastUsedAt].
    simpl in T2, N2, Hc, T3, T1, N1, C1, C2, L, Ht, Hn.
    assert (G : map_has m id = false).
    { apply map_has_false. intros Hin.
      apply NoDup_remove_2 in Hn. apply Hn, in_or_app. now left. }
    cbn [map worker_promptLoop]. cbv zeta.
    set (pv := promptValue (mkPrompt id title categoryId content tags favorite
                              createdAt updatedAt lastUsedAt)).
    change (getOpt pv "id") with (VStr id).
    change (getOpt pv "tags") with (VArr (map VStr tags)).
    change (getOpt pv "title") with (VStr title).
    change (getOpt pv "content") with (VStr content).
    change (getOpt pv "categoryId") with (VStr categoryId).
    change (getOpt pv "favorite") with (VBool favorite).
    change (getOpt pv "createdAt") with createdAt.
    change (getOpt pv "updatedAt") with updatedAt.
    change (getOpt pv "lastUsedAt") with lastUsedAt.
    rewrite (trimmedOr_fixed id "" T1 N1).
    rewrite (trimmedOr_fixed title "Nowy prompt" T2 N2).
    assert (Ec : trimmedOr (VStr content) "" = content).
    { simpl. rewrite T3. destruct (nonEmpty content) eqn:E; [reflexivity|].
      now apply nonEmpty_false in E. }
    rewrite Ec.
    apply nonEmpty_true in N1. rewrite N1.
    unfold ret at 1. rewrite bind_run with (a := id) (s1 := w) by reflexivity.
    cbv beta. rewrite G.
    cbn [arrayOrEmpty]. rewrite traverse_stringOf_strings. run_lift.
    rewrite (sortedSet_fixed String.compare tags Ht).
    run_with (stringOrNow_fixed createdAt w C1).
    assert (Eu : match updatedAt with
                 | VStr s => if nonEmpty s then ret (VStr s)
                             else stringOrNow createdAt
                 | _ => stringOrNow createdAt
                 end w = (Ok updatedAt, w)).
    { destruct C2 as (s & -> & N). apply nonEmpty_true in N. now rewrite N. }
    run_with Eu.
    assert (El : match lastUsedAt with
                 | VStr s => if nonEmpty s then VStr s else VNull
                 | _ => VNull
                 end = lastUsedAt).
    { destruct L as [->|(s & -> & N)]; [reflexivity|].
      apply nonEmpty_true in N. now rewrite N. }
    rewrite El.
    rewrite (resolveCategory_fixed cm categoryId Hc).
    cbn [truthy].
    rewrite map_set_fresh by assumption.
    rewrite IH; [|rewrite map_app, <- app_assoc; exact Hn|assumption].
    now rewrite <- app_assoc.
Qed.

(** A document as the worker stores them is a fixed point of its
    normalizer. *)
Lemma worker_normalizeDb_fixed (d : DbFile) (w : World) :
  worker_canonical d -> worker_normalizeDb (dbValue d) w = (Ok d, w).
Proof.
  intros (V & Nc & U & Fc & Np & Fp).
  unfold worker_normalizeDb.
  destruct d as [v cats ps]. simpl in V, Nc, U, Fc, Np, Fp. subst v.
  cbn [isObject dbValue].
  unfold ret at 1.
  rewrite bind_run
    with (a := VObj [("version", VNum 1);
                     ("categories", VArr (map categoryValue cats));
                     ("prompts", VArr (map promptValue ps))]) (s1 := w)
    by reflexivity.
  cbv beta.
  change (getOpt (VObj [("version", VNum 1);
                        ("categories", VArr (map categoryValue cats));
                        ("prompts", VArr (map promptValue ps))]) "categories")
    with (VArr (map categoryValue cats)).
  change (getOpt (VObj [("version", VNum 1);
                        ("categories", VArr (map categoryValue cats));
                        ("prompts", VArr (map promptValue ps))]) "prompts")
    with (VArr (map promptValue ps)).
  cbn [arrayOrEmpty].
  rewrite (worker_someUncategorized_found cats U).
  unfold ret at 1.
  rewrite bind_run with (a := map categoryValue cats) (s1 := w) by reflexivity.
  cbv beta.
  rewrite (bind_run _ _ _ _ _ (worker_categoryLoop_fixed cats [] w Nc Fc)).
  cbv beta. cbn [app].
  assert (H : map_has (categoryEntries cats) UNCATEGORIZED_ID = true).
  { apply map_has_In. now rewrite categoryEntries_keys. }
  rewrite H. unfold ret at 1.
  rewrite bind_run with (a := categoryEntries cats) (s1 := w) by reflexivity.
  cbv beta.
  rewrite (bind_run _ _ _ _ _
             (worker_promptLoop_fixed (categoryEntries cats) ps [] w Np
                ltac:(now rewrite categoryEntries_keys))).
  cbv beta. cbn [app].
  now rewrite categoryEntries_values, promptEntries_values.
Qed.

(** X17.  The normalizer of the worker is idempotent: what it returns it
    returns again, without reading the clock or drawing an id. *)
Theorem worker_normalizeDb_idempotent (input : value) (d : DbFile)
    (w w1 w2 : World) :
  clock_ok -> ids_ok ->
  worker_normalizeDb input w = (Ok d, w1) ->
  worker_normalizeDb (dbValue d) w2 = (Ok d, w2).
Proof.
  intros K I H. apply worker_normalizeDb_fixed.
  now apply (worker_normalizeDb_canonical input d w w1).
Qed.

(** ** The user interface reads what the worker wrote *)

Lemma worker_category_ok_ui (c : Category) :
  worker_category_ok c -> category_ok c.
Proof. intros [S T]. split; [exact S|now apply isText_truthy]. Qed.

(** On tags that are trimmed, not empty and distinct, the tag set of the
    user interface is a sort. *)
Lemma sortedSet_sorts (tags : list string) :
  Forall (fun t => trimmed t /\ t <> "") tags -> NoDup tags ->
  sortedSet localeCompare (map trim tags) = sortBy localeCompare tags.
Proof.
  intros Ht Hn. unfold sortedSet.
  assert (E : map trim tags = tags).
  { clear Hn. induction Ht as [|t r [Ht _] _ IH]; simpl; congruence. }
  rewrite E, filter_all, uniq_fixed; auto.
  apply Forall_forall. intros y Hy. apply nonEmpty_true.
  now apply (proj1 (Forall_forall _ _) Ht).
Qed.

Lemma promptLoop_resorted (cm : Map Category) (l : list Prompt) :
  forall (m : Map Prompt) (w : World),
    NoDup (map fst m ++ map p_id l) ->
    Forall (worker_prompt_ok (map fst cm)) l ->
    promptLoop cm (map promptValue l) m w
    = (Ok (m ++ promptEntries (map resorted l)), w).
Proof.
  induction l as [|p l IH]; intros m w Hn Hf.
  - simpl. now rewrite app_nil_r.
  - inversion Hf as [|? ? ((T2 & N2 & Hc & T3 & Ft & Nt & L) &
                            T1 & N1 & St & C1 & C2 & _) Hf']; subst.
    apply isText_truthy in C1, C2.
    destruct p as [id title categoryId content tags favorite
                   createdAt updatedAt lastUsedAt].
    simpl in *.
    assert (G : map_has m id = false).
    { apply map_has_false. intros Hin.
      apply NoDup_remove_2 in Hn. apply Hn, in_or_app. now left. }
    apply nonEmpty_true in N1.
    cbn [map promptLoop promptValue].
    run_lift. cbn [orElse nullish callTrim]. rewrite T1. run_lift.
    rewrite N1. unfold ret at 1. rewrite bind_run with (a := id) (s1 := w)
      by reflexivity.
    cbv beta. rewrite G.
    run_lift. cbn [orElse nullish mapTrim].
    rewrite traverse_callTrim_strings. run_lift.
    rewrite (sortedSet_sorts tags Ft Nt).
    run_lift. rewrite (trimOr_string title "Nowy prompt" T2 N2). run_lift.
    run_lift. run_lift.
    assert (Ec : trimOr (VStr content) "" = Ok content).
    { unfold trimOr. simpl. rewrite T3. now destruct (nonEmpty content) eqn:E;
        [|apply nonEmpty_false in E; subst]. }
    rewrite Ec. run_lift. run_lift. run_lift.
    run_with (orNow_fixed createdAt w C1).
    run_lift. rewrite (orDefault_fixed updatedAt createdAt C2).
    run_with (orNow_fixed updatedAt w C2).
    run_lift.
    rewrite (resolveCategory_fixed cm categoryId Hc).
    rewrite (orDefault_null_fixed lastUsedAt L).
    assert (Ef : truthy (VBool favorite) = favorite) by reflexivity.
    rewrite Ef.
    rewrite map_set_fresh by assumption.
    rewrite IH; [|rewrite map_app, <- app_assoc; exact Hn|assumption].
    now rewrite <- app_assoc.
Qed.

Lemma normalizeDb_resorts (d : DbFile) (w : World) :
  worker_canonical d ->
  normalizeDb (dbValue d) w
  = (Ok (mkDb 1 (categories d) (map resorted (prompts d))), w).
Proof.
  intros (V & Nc & U & Fc & Np & Fp).
  assert (Fc' : Forall category_ok (categories d)).
  { eapply Forall_impl; [|exact Fc]. apply worker_category_ok_ui. }
  unfold normalizeDb. rewrite get_categories, get_prompts.
  destruct d as [v cats ps]. simpl in *. subst v.
  run_lift. cbn [orElse nullish iterate]. run_lift.
  rewrite (someUncategorized_found cats U). run_lift.
  unfold ret at 1. rewrite bind_run with (a := map categoryValue cats) (s1 := w)
    by reflexivity.
  cbv beta.
  rewrite (bind_run _ _ _ _ _ (categoryLoop_fixed cats [] w Nc Fc')). cbv beta.
  cbn [app].
  assert (H : map_has (categoryEntries cats) UNCATEGORIZED_ID = true).
  { apply map_has_In. now rewrite categoryEntries_keys. }
  rewrite H. unfold ret at 1.
  rewrite bind_run with (a := categoryEntries cats) (s1 := w) by reflexivity.
  cbv beta. run_lift. cbn [orElse nullish iterate]. run_lift.
  rewrite (bind_run _ _ _ _ _
             (promptLoop_resorted (categoryEntries cats) ps [] w Np
                ltac:(now rewrite categoryEntries_keys))).
  cbv beta. cbn [app].
  now rewrite categoryEntries_values, promptEntries_values.
Qed.

(** X18.  When the user interface loads a document the worker wrote, its
    normalizer changes the order of the tags and nothing else: the
    categories are the same, and each prompt is the same but for its tags,
    sorted again with [localeCompare]. *)
Theorem normalizeDb_after_worker (input : value) (d : DbFile)
    (w w1 w2 : World) :
  clock_ok -> ids_ok ->
  worker_normalizeDb input w = (Ok d, w1) ->
  normalizeDb (dbValue d) w2
  = (Ok (mkDb 1 (categories d) (map resorted (prompts d))), w2).
Proof.
  intros K I H. apply normalizeDb_resorts.
  now apply (worker_normalizeDb_canonical input d w w1).
Qed.

(** ** [savePromptFromPage] *)

Lemma defaultDb_worker_canonical (w : World) :
  clock_ok ->
  worker_canonical (mkDb 1 [mkCategory UNCATEGORIZED_ID "Bez kategorii"
                              (VStr (nowAt (ticks w)))] []).
Proof.
  intros K. unfold worker_canonical. simpl.
  split; [reflexivity|]. split; [repeat constructor; now intros []|].
  split; [now left|]. split; [|split; constructor].
  constructor; [|constructor]. split.
  - repeat split; simpl; discriminate.
  - eexists. split; [reflexivity|apply K].
Qed.

(** [getDb] on a store whose next two operations succeed. *)
Lemma getDb_served (w : World) (it : item) :
  clock_ok -> ids_ok ->
  exists d w1,
    worker_canonical d /\
    getDb (w, mkStore it []) = (Ok d, (w1, holding d [])) /\
    (forall rest, getDb (w, mkStore it (None :: None :: rest))
                  = (Ok d, (w1, holding d rest))) /\
    (forall v n w',
        worker_readable it v -> worker_normalizeDb v w = (Ok n, w') ->
        d = n /\ w1 = w') /\
    ((forall v, ~ worker_readable it v) ->
     d = defaultAt (ticks w) /\ w1 = ticked w).
Proof.
  intros K I.
  assert (Fresh : forall w0,
             worker_canonical (defaultAt (ticks w0)))
    by (intros w0; now apply defaultDb_worker_canonical).
  assert (Run : forall v,
             noItem it = false -> parsedItem it = Ok v ->
             worker_readable it v ->
             exists d w1,
               worker_canonical d /\
               getDb (w, mkStore it []) = (Ok d, (w1, holding d [])) /\
               (forall rest, getDb (w, mkStore it (None :: None :: rest))
                             = (Ok d, (w1, holding d rest))) /\
               (forall n w', worker_normalizeDb v w = (Ok n, w') ->
                             d = n /\ w1 = w')).
  { intros v N P _.
    destruct (worker_normalizeDb v w) as [[n|e] w'] eqn:E.
    - exists n, w'.
      split; [now apply (worker_normalizeDb_canonical v n w w')|].
      split; [|split].
      + run_store. rewrite N, P. run_store. now rewrite E.
      + intros rest. run_store. rewrite N, P. run_store. now rewrite E.
      + now intros n0 w0 [= <- <-].
    - exists (defaultAt (ticks w')), (ticked w').
      split; [apply Fresh|]. split; [|split].
      + run_store. rewrite N, P. run_store. now rewrite E.
      + intros rest. run_store. rewrite N, P. run_store. now rewrite E.
      + discriminate. }
  assert (None_ : noItem it = true \/ (exists e, parsedItem it = Throw e) ->
                  (forall v, ~ worker_readable it v) ->
                  exists d w1,
                    worker_canonical d /\
                    getDb (w, mkStore it []) = (Ok d, (w1, holding d [])) /\
                    (forall rest, getDb (w, mkStore it (None :: None :: rest))
                                  = (Ok d, (w1, holding d rest))) /\
                    d = defaultAt (ticks w) /\ w1 = ticked w).
  { intros H _. exists (defaultAt (ticks w)), (ticked w).
    split; [apply Fresh|].
    destruct H as [N|[e P]].
    - split; [|split; [|split]]; try reflexivity.
      + run_store. rewrite N. reflexivity.
      + intros rest. run_store. rewrite N. reflexivity.
    - destruct (noItem it) eqn:N.
      + split; [|split; [|split]]; try reflexivity.
        * run_store. rewrite N. reflexivity.
        * intros rest. run_store. rewrite N. reflexivity.
      + split; [|split; [|split]]; try reflexivity.
        * run_store. rewrite N, P. reflexivity.
        * intros rest. run_store. rewrite N, P. reflexivity. }
  assert (Cases : (exists v, noItem it = false /\ parsedItem it = Ok v /\
                             worker_readable it v) \/
                  ((noItem it = true \/ exists e, parsedItem it = Throw e) /\
                   forall v, ~ worker_readable it v)).
  { destruct it as [|[|] [v|e]|v]; simpl.
    - right. split; [now left|]. intros v [H|[H _]]; discriminate.
    - right. split; [now left|]. intros v0 [H|[H _]]; discriminate.
    - right. split; [now left|]. intros v0 [H|[H _]]; discriminate.
    - left. exists v. repeat split. now left.
    - right. split; [right; now exists e|].
      intros v0 [H|[H _]]; discriminate.
    - destruct (truthy v) eqn:T.
      + left. exists v. repeat split. right. now split.
      + right. split; [now left|].
        intros v0 [H|[H T0]]; [discriminate|].
        injection H as <-. congruence. }
  destruct Cases as [(v & N & P & R)|[H U]].
  - destruct (Run v N P R) as (d & w1 & Hc & G0 & G1 & Hn).
    exists d, w1. split; [exact Hc|]. split; [exact G0|].
    split; [exact G1|]. split.
    + intros v0 n w' R0 E. apply Hn.
      assert (v0 = v); [|now subst].
      destruct R as [R|[R _]], R0 as [R0|[R0 _]]; rewrite R in R0;
        now inversion R0.
    + intros U. exfalso. now apply (U v).
  - destruct (None_ H U) as (d & w1 & Hc & G0 & G1 & Hd).
    exists d, w1. split; [exact Hc|]. split; [exact G0|].
    split; [exact G1|]. split.
    + intros v n w' R _. exfalso. now apply (U v).
    + intros _. exact Hd.
Qed.

(** X19.  The quick save.  Without a title or without a content it throws
    before it reads the store.  When the store rejects the read, it is
    rejected and nothing is written.  Otherwise [getDb] writes and returns
    a document -- the one [worker_normalizeDb] makes of what the store
    holds, the default one when the store holds nothing to read -- and the
    quick save adds one prompt to it when the id drawn for that prompt is
    new: trimmed title and content, the tags of the text split at the
    commas, trimmed, distinct and in the order of the code units, filed
    under the reserved category, never used.  With a store that works the
    store holds that document in the end; when the last write is rejected
    the quick save is rejected and the store holds the document of
    [getDb], without the prompt. *)
Theorem savePromptFromPage_contract (payload : value) (w : World)
    (it : item) :
  let title := match getOpt payload "title" with
               | VStr s => trim s | _ => "" end in
  let content := match getOpt payload "content" with
                 | VStr s => trim s | _ => "" end in
  let tagsRaw := match getOpt payload "tags" with
                 | VStr s => s | _ => "" end in
  (title = "" ->
   forall fs,
     savePromptFromPage payload (w, mkStore it fs)
     = (Throw (Error "Tytul jest wymagany"), (w, mkStore it fs))) /\
  (title <> "" -> content = "" ->
   forall fs,
     savePromptFromPage payload (w, mkStore it fs)
     = (Throw (Error "Tresc promptu jest wymagana"), (w, mkStore it fs))) /\
  (clock_ok -> ids_ok -> title <> "" -> content <> "" ->
   (forall fs w' st',
      savePromptFromPage payload (w, mkStore it fs) = (Ok tt, (w', st')) ->
      exists saved,
        held st' = Text false (Ok (dbValue saved)) /\
        worker_canonical saved) /\
   (forall e rest,
      savePromptFromPage payload (w, mkStore it (Some e :: rest))
      = (Throw e, (w, mkStore it rest))) /\
   exists d w1,
     getDb (w, mkStore it []) = (Ok d, (w1, holding d [])) /\
     worker_canonical d /\
     (forall v n w',
        worker_readable it v -> worker_normalizeDb v w = (Ok n, w') ->
        d = n /\ w1 = w') /\
     ((forall v, ~ worker_readable it v) ->
      d = defaultAt (ticks w) /\ w1 = ticked w) /\
     (~ In (uuidAt (draws w1)) (map p_id (prompts d)) ->
      let saved :=
        mkDb (version d) (categories d)
          (prompts d ++
           [mkPrompt (uuidAt (draws w1)) title "uncategorized" content
              (sortedSet String.compare (map trim (splitComma tagsRaw)))
              false (VStr (nowAt (ticks w1))) (VStr (nowAt (ticks w1)))
              VNull]) in
      let w2 := mkWorld (S (ticks w1)) (S (draws w1)) in
      savePromptFromPage payload (w, mkStore it [])
      = (Ok tt, (w2, holding saved [])) /\
      forall e rest,
        savePromptFromPage payload
          (w, mkStore it (None :: None :: Some e :: rest))
        = (Throw e, (w2, holding d rest)))).
Proof.
  intros title content tagsRaw. unfold savePromptFromPage.
  fold title. fold content. fold tagsRaw. cbv zeta.
  split; [|split].
  - intros E fs. apply nonEmpty_false in E. now rewrite E.
  - intros N E fs. apply nonEmpty_true in N. apply nonEmpty_false in E.
    now rewrite N, E.
  - intros K I N1 N2.
    pose proof N1 as N1'. pose proof N2 as N2'.
    apply nonEmpty_true in N1', N2'. rewrite N1', N2'. cbn [negb].
    split.
    { intros fs w' st' H.
      apply bind_Ok in H. destruct H as (d & s1 & _ & H).
      apply bind_Ok in H. destruct H as (now & s2 & _ & H).
      apply bind_Ok in H. destruct H as (id & s3 & _ & H).
      apply bind_Ok in H. destruct H as (normalized & s4 & Hn & H).
      apply bind_Ok in H. destruct H as ([] & s5 & Hs & H).
      apply ret_Ok in H. destruct H as [_ E]. subst s5.
      apply onWorld_Ok in Hn. destruct Hn as [Hn _].
      apply onStore_Ok in Hs. destruct Hs as [Hs _]. simpl in Hs.
      exists normalized. split; [now apply storageSet_Ok in Hs|].
      eapply worker_normalizeDb_canonical; [exact K|exact I|exact Hn]. }
    split; [intros e rest; reflexivity|].
    destruct (getDb_served w it K I) as (d & w1 & Hc & G0 & G1 & Hr & Hu).
    exists d, w1. split; [exact G0|]. split; [exact Hc|].
    split; [exact Hr|]. split; [exact Hu|]. intros Hfresh.
    assert (Hs : worker_canonical
                   (withPrompts d
                      (prompts d ++
                       [mkPrompt (uuidAt (draws w1)) title UNCATEGORIZED_ID
                          content
                          (sortedSet String.compare
                             (map trim (splitComma tagsRaw)))
                          false (VStr (nowAt (ticks w1)))
                          (VStr (nowAt (ticks w1))) VNull]))).
    { destruct Hc as (V & Nc & U & Fc & Np & Fp).
      destruct (I (draws w1)) as [Ti Ni].
      unfold worker_canonical, withPrompts. simpl.
      split; [exact V|]. split; [exact Nc|]. split; [exact U|].
      split; [exact Fc|]. split.
      + rewrite map_app. simpl. now apply NoDup_snoc.
      + apply Forall_app. split; [exact Fp|]. constructor; [|constructor].
        destruct (sortedSet_ok String.compare (map trim (splitComma tagsRaw))
                    compare_comparator) as (Ft & Nt & St).
        { apply Forall_map, Forall_forall. intros t _. apply trimmed_trim. }
        assert (Hnow : isText (VStr (nowAt (ticks w1)))).
        { eexists. split; [reflexivity|apply K]. }
        assert (Tt : trimmed title).
        { unfold title. destruct (getOpt payload "title");
            try reflexivity. apply trimmed_trim. }
        assert (Tc : trimmed content).
        { unfold content. destruct (getOpt payload "content");
            try reflexivity. apply trimmed_trim. }
        repeat split; simpl; try assumption. now left. now left. }
    cbv zeta. split.
    + run_with G0. unfold bind at 1. unfold onWorld at 1. unfold nowIso at 1.
      cbn [fst snd]. unfold bind at 1. unfold onWorld at 1. unfold uuid at 1.
      cbn [fst snd ticks draws]. unfold bind at 1. unfold onWorld at 1.
      cbn [fst snd].
      rewrite (worker_normalizeDb_fixed _ _ Hs). reflexivity.
    + intros e rest. run_with (G1 (Some e :: rest)).
      unfold bind at 1. unfold onWorld at 1. unfold nowIso at 1.
      cbn [fst snd]. unfold bind at 1. unfold onWorld at 1. unfold uuid at 1.
      cbn [fst snd ticks draws]. unfold bind at 1. unfold onWorld at 1.
      cbn [fst snd].
      rewrite (worker_normalizeDb_fixed _ _ Hs). reflexivity.
Qed.

(** * The pages *)

(** ** The tags of a prompt *)

(** X20.  The tags every writer of the user interface stores: the entries
    trimmed, those that are then empty left out, each kept once, in the
    order of [localeCompare]; made from its own result, the tag set is that
    result. *)
Theorem tagSet_spec (l : list string) :
  comparator localeCompare ->
  tags_ok localeCompare (tagSet l) /\
  (forall t, In t (tagSet l) <-> t <> "" /\ exists x, In x l /\ trim x = t) /\
  tagSet (tagSet l) = tagSet l.
Proof.
  intros C. pose proof (tagSet_ok l C) as Hok.
  split; [exact Hok|]. split.
  - intros t. unfold tagSet. rewrite sortedSet_In, in_map_iff. split.
    + intros [(x & E & Hx) N]. split; [exact N|]. now exists x.
    + intros [N (x & Hx & E)]. split; [|exact N]. now exists x.
  - unfold tagSet at 1. now apply sortedSet_fixed.
Qed.

(** ** The router *)

Lemma splitOn_plain (sep : ascii) (s : string) :
  hasChar sep s = false -> splitOn sep s = [s].
Proof.
  induction s as [|c r IH]; simpl; [reflexivity|].
  intros H. apply orb_false_iff in H. destruct H as [H1 H2].
  rewrite H1, (IH H2). reflexivity.
Qed.

Lemma splitOn_first (sep : ascii) (a b : string) :
  hasChar sep a = false ->
  splitOn sep (a ++ String sep b) = a :: splitOn sep b.
Proof.
  induction a as [|c r IH]; simpl.
  - intros _. now rewrite Ascii.eqb_refl.
  - intros H. apply orb_false_iff in H. destruct H as [H1 H2].
    rewrite H1, (IH H2). reflexivity.
Qed.

Lemma pageName_plain (p : AppPage) : hasChar "?" (pageName p) = false.
Proof. now destruct p. Qed.

Lemma pageOf_name (p : AppPage) : pageOf (pageName p) = Some p.
Proof. now destruct p. Qed.

(** X21.  The hash [makeHash] writes is read back by [parseHash] as the same
    page and the same query, for a query without a question mark (the
    serialization of [URLSearchParams] has none). *)
Theorem parseHash_makeHash (p : AppPage) (query : string) :
  hasChar "?" query = false ->
  parseHash (makeHash p query) = mkRoute p query.
Proof.
  intros H. unfold makeHash, parseHash.
  destruct (nonEmpty query) eqn:E.
  - cbn [dropHash append]. cbv zeta.
    change (pageName p ++ String "?" query)%string
      with (pageName p ++ String "?" query)%string.
    rewrite (splitOn_first "?" (pageName p) query (pageName_plain p)).
    rewrite (splitOn_plain "?" query H).
    cbn [nth nth_error]. rewrite E.
    replace (nonEmpty (pageName p)) with true by now destruct p.
    now rewrite pageOf_name.
  - cbn [dropHash append]. cbv zeta.
    rewrite (splitOn_plain "?" (pageName p) (pageName_plain p)).
    cbn [nth nth_error].
    replace (nonEmpty (pageName p)) with true by now destruct p.
    rewrite pageOf_name. apply nonEmpty_false in E. now subst.
Qed.

(** ** The proposed title *)





(** ** The counts of the categories page *)

Lemma countOf_set (m : Map nat) (k k' : string) (n : nat) :
  countOf (map_set m k n) k' = if k =? k' then n else countOf m k'.
Proof.
  unfold countOf. rewrite map_get_set. now destruct (k =? k').
Qed.

Lemma counts_prompts (ps : list Prompt) (id : string) :
  forall m : Map nat,
    countOf (fold_left (fun m prompt =>
                          map_set m (p_categoryId prompt)
                                  (countOf m (p_categoryId prompt) + 1))
                       ps m) id
    = countOf m id
      + List.length (filter (fun p => p_categoryId p =? id) ps).
Proof.
  induction ps as [|p ps IH]; intros m; simpl; [lia|].
  rewrite IH, countOf_set.
  destruct (String.eqb_spec (p_categoryId p) id) as [->|_]; simpl; lia.
Qed.

Lemma counts_categories (cs : list Category) (id : string) :
  forall m : Map nat,
    countOf m id = 0 ->
    countOf (fold_left (fun m category => map_set m (c_id category) 0) cs m)
            id = 0.
Proof.
  induction cs as [|c cs IH]; intros m H; simpl; [exact H|].
  apply IH. rewrite countOf_set. now destruct (c_id c =? id).
Qed.

Lemma list_sum_add {A} (f g : A -> nat) (l : list A) :
  list_sum (map (fun x => f x + g x) l)
  = list_sum (map f l) + list_sum (map g l).
Proof. induction l as [|x l IH]; simpl; [reflexivity|]. rewrite IH. lia. Qed.

Lemma list_sum_one (x : string) (l : list string) :
  NoDup l -> In x l ->
  list_sum (map (fun y => if x =? y then 1 else 0) l) = 1.
Proof.
  induction l as [|y l IH]; simpl; [contradiction|].
  intros N H. inversion N as [|? ? Hy Hl]; subst.
  destruct (String.eqb_spec x y) as [->|Ne].
  - assert (Z : list_sum (map (fun y0 => if y =? y0 then 1 else 0) l) = 0).
    { clear - Hy. induction l as [|z l IH]; simpl; [reflexivity|].
      destruct (String.eqb_spec y z) as [->|_]; [exfalso; apply Hy; now left|].
      apply IH. intros H. apply Hy. now right. }
    rewrite Z. reflexivity.
  - destruct H as [->|H]; [contradiction|]. now rewrite IH.
Qed.

(** X23.  The number shown for a category is the number of the prompts filed
    under it, and in a canonical document the numbers shown add up to the
    number of prompts: each prompt is counted once. *)
Theorem counts_add_up (d : DbFile) :
  (forall id, countOf (counts d) id
              = List.length (filter (fun p => p_categoryId p =? id)
                                    (prompts d))) /\
  (canonical d ->
   list_sum (map (fun c => countOf (counts d) (c_id c)) (categories d))
   = List.length (prompts d)).
Proof.
  assert (H : forall id, countOf (counts d) id
              = List.length (filter (fun p => p_categoryId p =? id)
                                    (prompts d))).
  { intros id. unfold counts. cbv zeta. rewrite counts_prompts.
    rewrite counts_categories; reflexivity. }
  split; [exact H|].
  intros (_ & Nc & _ & _ & _ & Fp).
  rewrite (map_ext _ _ (fun c => H (c_id c))).
  assert (Hin : Forall (fun p => In (p_categoryId p)
                                    (map c_id (categories d))) (prompts d)).
  { eapply Forall_impl; [|exact Fp]. now intros p ((_ & _ & Hc & _) & _). }
  clear Fp H. induction Hin as [|p ps Hp _ IH]; simpl.
  - induction (categories d) as [|c cs IHc]; simpl; [reflexivity|].
    inversion Nc; subst. now apply IHc.
  - rewrite <- IH.
    rewrite (map_ext
               (fun c => List.length
                           (if p_categoryId p =? c_id c
                            then p :: filter (fun p0 => p_categoryId p0 =? c_id c) ps
                            else filter (fun p0 => p_categoryId p0 =? c_id c) ps))
               (fun c => (if p_categoryId p =? c_id c then 1 else 0)
                         + List.length
                             (filter (fun p0 => p_categoryId p0 =? c_id c) ps))).
    + rewrite list_sum_add.
      rewrite <- (map_map c_id (fun y => if p_categoryId p =? y then 1 else 0)).
      now rewrite (list_sum_one _ _ Nc Hp).
    + intros c. now destruct (p_categoryId p =? c_id c).
Qed.

(** * More on the library *)

(** ** [copyPrompt] and the other prompts *)

(** X24.  A copy touches the copied prompt only.  Whatever updates wait when
    the clipboard has taken the text, the next render shows the document
    they lead to with every category and every other prompt as it is
    there, in its place. *)
Theorem copyPrompt_leaves_others (id : string) (s : Session)
    (prev : DbFile) (w1 : World) :
  clock_ok -> settled canonical s ->
  runQueue (queue (lib s)) (db (lib s)) (world s) = (Ok prev, w1) ->
  exists s',
    render (snd (copyPromptResumed id (Ok tt) s)) = (Ok tt, s') /\
    categories (db (lib s')) = categories prev /\
    map p_id (prompts (db (lib s'))) = map p_id (prompts prev) /\
    (forall q, p_id q <> id ->
       (In q (prompts (db (lib s'))) <-> In q (prompts prev))).
Proof.
  intros K [Hd Hy] Hq.
  assert (Hc : canonical prev)
    by now apply (runQueue_yields canonical _ Hy (db (lib s)) prev
                    (world s) w1).
  rewrite (copyPrompt_stamps id s prev w1 K Hc Hq).
  eexists. split; [reflexivity|]. simpl.
  split; [reflexivity|]. split.
  - now apply ids_replaced.
  - intros q N. now apply others_replaced.
Qed.

(** ** The category of an imported prompt *)

(** X25.  An import keeps a prompt with its category: in the merged document an
    imported prompt is filed under a category of the document that has the
    id of its category in the file, or the name of that category up to
    case. *)
Theorem mergeImported_keeps_category (current imported : DbFile)
    (p : Prompt) (ic : Category) (w : World) :
  canonical current -> canonical imported ->
  In p (prompts imported) -> In ic (categories imported) ->
  c_id ic = p_categoryId p ->
  exists merged q cm,
    mergeImported current imported w = (Ok merged, w) /\
    find (fun q => p_id q =? p_id p) (prompts merged) = Some q /\
    In cm (categories merged) /\ c_id cm = p_categoryId q /\
    (c_id cm = c_id ic \/
     toLowerCase (c_name cm) = toLowerCase (c_name ic)).
Proof.
  intros Hc Hi Hp Hic E.
  destruct (mergeImported_fold current imported w Hc Hi)
    as (cats & idMap & added & Em & _ & _ & Hm & Hcan & _ & Hk & Himp).
  set (pm := fold_left (mergePromptStep idMap) (prompts imported)
               (promptEntries (prompts current))) in *.
  pose proof (mergedCategories_assign current imported w cats idMap Hc Hi Em
                ic Hic) as D.
  assert (Hsome : exists cm, In cm cats /\
                             c_id cm = resolveImported idMap (c_id ic) /\
                             (c_id cm = c_id ic \/
                              toLowerCase (c_name cm)
                              = toLowerCase (c_name ic))).
  { destruct D as [D|(cm & Hcm & D1 & D2)].
    - destruct Hcan as (_ & _ & _ & _ & _ & Fp). simpl in Fp.
      rewrite Forall_forall in Fp.
      assert (Hq : In (rewritten idMap (p_id p) p) (map_values pm)).
      { unfold map_values. apply in_map_iff.
        exists (p_id p, rewritten idMap (p_id p) p). split; [reflexivity|].
        apply map_get_In. now apply Himp. }
      destruct (Fp _ Hq) as ((_ & _ & Hin & _) & _). simpl in Hin.
      rewrite <- E, D in Hin. apply in_map_iff in Hin.
      destruct Hin as (cm & Ecm & Hcm). exists cm.
      split; [exact Hcm|]. rewrite D. split; [exact Ecm|now left].
    - exists cm. split; [exact Hcm|]. split; [exact D1|now right]. }
  destruct Hsome as (cm & Hcm & E1 & E2).
  exists (mkDb 1 cats (map_values pm)), (rewritten idMap (p_id p) p), cm.
  split; [exact Hm|]. simpl. split.
  { rewrite (find_values pm (p_id p) Hk). now apply Himp. }
  split; [exact Hcm|]. split; [now rewrite E1, E|exact E2].
Qed.

(** ** Records that share an id *)

Lemma includes_keys {V} (m : Map V) (k : string) :
  includes (map fst m) k = map_has m k.
Proof.
  destruct (map_has m k) eqn:E.
  - apply includes_In. now apply map_has_In.
  - apply not_true_is_false. intros H. apply includes_In in H.
    apply map_has_In in H. congruence.
Qed.

Lemma categoryLoop_firsts (l : list Category) :
  forall (m : Map Category) (w : World),
    Forall category_ok l ->
    categoryLoop (map categoryValue l) m w
    = (Ok (m ++ categoryEntries (firstCategories (map fst m) l)), w).
Proof.
  induction l as [|c l IH]; intros m w Hf.
  - simpl. now rewrite app_nil_r.
  - inversion Hf as [|? ? ((T1 & N1 & T2 & N2) & T3) Hf']; subst.
    destruct c as [id name createdAt]. simpl in *.
    cbn [map categoryLoop categoryValue].
    apply nonEmpty_true in N1.
    run_lift. cbn [orElse nullish callTrim]. rewrite T1. run_lift.
    rewrite N1. cbn [negb orb]. rewrite includes_keys.
    destruct (map_has m id) eqn:G.
    + now apply IH.
    + run_lift. rewrite (trimOr_string name "Bez nazwy" T2 N2). run_lift.
      run_lift. run_with (orNow_fixed createdAt w T3).
      rewrite map_set_fresh by assumption.
      rewrite IH by assumption.
      rewrite map_app. simpl. now rewrite <- app_assoc.
Qed.

Lemma promptLoop_firsts (cm : Map Category) (l : list Prompt) :
  forall (m : Map Prompt) (w : World),
    Forall (prompt_ok (map fst cm)) l ->
    promptLoop cm (map promptValue l) m w
    = (Ok (m ++ promptEntries (firstPrompts (map fst m) l)), w).
Proof.
  induction l as [|p l IH]; intros m w Hf.
  - simpl. now rewrite app_nil_r.
  - inversion Hf as [|? ? ((T2 & N2 & Hc & T3 & Ft & Nt & L) &
                            T1 & N1 & St & C1 & C2) Hf']; subst.
    assert (Ht : tags_ok localeCompare (p_tags p)) by (repeat split; assumption).
    destruct p as [id title categoryId content tags favorite
                   createdAt updatedAt lastUsedAt].
    simpl in *.
    apply nonEmpty_true in N1.
    cbn [map promptLoop promptValue].
    run_lift. cbn [orElse nullish callTrim]. rewrite T1. run_lift.
    rewrite N1. unfold ret at 1. rewrite bind_run with (a := id) (s1 := w)
      by reflexivity.
    cbv beta. rewrite includes_keys.
    destruct (map_has m id) eqn:G; [now apply IH|].
    run_lift. cbn [orElse nullish mapTrim].
    rewrite traverse_callTrim_strings. run_lift.
    change (sortedSet localeCompare (map trim tags)) with (tagSet tags).
    unfold tagSet. rewrite (sortedSet_fixed localeCompare tags Ht).
    run_lift. rewrite (trimOr_string title "Nowy prompt" T2 N2). run_lift.
    run_lift. run_lift.
    assert (Ec : trimOr (VStr content) "" = Ok content).
    { unfold trimOr. simpl. rewrite T3. now destruct (nonEmpty content) eqn:E;
        [|apply nonEmpty_false in E; subst]. }
    rewrite Ec. run_lift. run_lift. run_lift.
    run_with (orNow_fixed createdAt w C1).
    run_lift. rewrite (orDefault_fixed updatedAt createdAt C2).
    run_with (orNow_fixed updatedAt w C2).
    run_lift.
    rewrite (resolveCategory_fixed cm categoryId Hc).
    rewrite (orDefault_null_fixed lastUsedAt L).
    assert (Ef : truthy (VBool favorite) = favorite) by reflexivity.
    rewrite Ef.
    rewrite map_set_fresh by assumption.
    rewrite IH by assumption.
    rewrite map_app. simpl. now rewrite <- app_assoc.
Qed.

Lemma firstCategories_ids (l : list Category) :
  forall (seen : list string) (k : string),
    In k (map c_id l) ->
    In k seen \/ In k (map c_id (firstCategories seen l)).
Proof.
  induction l as [|c l IH]; intros seen k H; simpl in *; [contradiction|].
  destruct (includes seen (c_id c)) eqn:E.
  - destruct H as [<-|H]; [left; now apply includes_In|now apply IH].
  - simpl. destruct H as [<-|H]; [right; now left|].
    destruct (IH (seen ++ [c_id c]) k H) as [H'|H']; [|right; now right].
    apply in_app_or in H'. destruct H' as [H'|[<-|[]]]; [now left|].
    right. now left.
Qed.

(** X26.  Of the categories that share an id, and of the prompts that share an
    id, [normalizeDb] keeps the first and drops the others; the records
    kept are as they were, and the version is 1. *)
Theorem normalizeDb_first_wins (v : Z) (cats : list Category)
    (ps : list Prompt) (w : World) :
  In UNCATEGORIZED_ID (map c_id cats) -> Forall category_ok cats ->
  Forall (prompt_ok (map c_id (firstCategories [] cats))) ps ->
  normalizeDb (dbValue (mkDb v cats ps)) w
  = (Ok (mkDb 1 (firstCategories [] cats) (firstPrompts [] ps)), w).
Proof.
  intros U Fc Fp.
  unfold normalizeDb. rewrite get_categories, get_prompts. simpl.
  run_lift. cbn [orElse nullish iterate]. run_lift.
  rewrite (someUncategorized_found cats U). run_lift.
  unfold ret at 1. rewrite bind_run with (a := map categoryValue cats) (s1 := w)
    by reflexivity.
  cbv beta.
  rewrite (bind_run _ _ _ _ _ (categoryLoop_firsts cats [] w Fc)). cbv beta.
  cbn [app map].
  assert (H : map_has (categoryEntries (firstCategories [] cats))
                      UNCATEGORIZED_ID = true).
  { apply map_has_In. rewrite categoryEntries_keys.
    destruct (firstCategories_ids cats [] _ U) as [[]|H]. exact H. }
  rewrite H. unfold ret at 1.
  rewrite bind_run
    with (a := categoryEntries (firstCategories [] cats)) (s1 := w)
    by reflexivity.
  cbv beta. run_lift. cbn [orElse nullish iterate]. run_lift.
  rewrite (bind_run _ _ _ _ _
             (promptLoop_firsts (categoryEntries (firstCategories [] cats))
                ps [] w ltac:(now rewrite categoryEntries_keys))).
  cbv beta. cbn [app map].
  now rewrite categoryEntries_values, promptEntries_values.
Qed.

(** ** The tags of the editor *)


(** * What [normalizeDb] repairs *)

Lemma get_any (c : value) (k k' : string) (v : value) :
  get c k = Ok v -> exists v', get c k' = Ok v'.
Proof. destruct c; simpl; try discriminate; intros _; now eexists. Qed.

Lemma callTrim_text (v : value) :
  textOrMissing v -> exists s, callTrim (orElse v (VStr "")) = Ok s.
Proof.
  intros [N|(s & ->)].
  - unfold orElse. rewrite N. now eexists.
  - now eexists.
Qed.

Lemma trimOr_text (v : value) (d : string) :
  textOrMissing v -> exists s, trimOr v d = Ok s.
Proof.
  intros [N|(s & ->)]; unfold trimOr.
  - rewrite N. now eexists.
  - simpl. now eexists.
Qed.

Lemma orNow_runs (v : value) (w : World) :
  exists x w', orNow v w = (Ok x, w').
Proof.
  unfold orNow. destruct (truthy v); eexists; eexists; reflexivity.
Qed.

Lemma someUncategorized_runs (cs : list value) :
  Forall categoryLike cs -> exists b, someUncategorized cs = Ok b.
Proof.
  induction 1 as [|c cs (idv & namev & G & _) _ [b IH]]; simpl;
    [now eexists|].
  rewrite G. destruct (isString idv UNCATEGORIZED_ID); [now eexists|].
  now exists b.
Qed.

Lemma categoryLoop_runs (cs : list value) :
  Forall categoryLike cs ->
  forall (m : Map Category) (w : World),
    exists m' w', categoryLoop cs m w = (Ok m', w').
Proof.
  induction 1 as [|c cs (idv & namev & G & Ti & Gn & Tn) _ IH]; intros m w.
  - now exists m, w.
  - cbn [categoryLoop]. rewrite G. run_lift.
    destruct (callTrim_text idv Ti) as [id ->]. run_lift.
    destruct (negb (nonEmpty id) || map_has m id); [apply IH|].
    rewrite Gn. run_lift.
    destruct (trimOr_text namev "Bez nazwy" Tn) as [name ->]. run_lift.
    destruct (get_any c "id" "createdAt" idv G) as [cv ->]. run_lift.
    destruct (orNow_runs cv w) as (x & w1 & E). run_with E.
    apply IH.
Qed.

Lemma promptLoop_runs (cm : Map Category) (ps : list value) :
  Forall promptLike ps ->
  forall (m : Map Prompt) (w : World),
    exists m' w', promptLoop cm ps m w = (Ok m', w').
Proof.
  induction 1
    as [|p ps (idv & titlev & contentv & tagsv & G & Ti & Gt & Tt & Gc & Tc &
               Gg & Tg) _ IH]; intros m w.
  - now exists m, w.
  - cbn [promptLoop]. rewrite G. run_lift.
    destruct (callTrim_text idv Ti) as [t ->]. run_lift.
    assert (E : exists id w1,
               (if nonEmpty t then ret t else uuid) w = (Ok id, w1)).
    { destruct (nonEmpty t); eexists; eexists; reflexivity. }
    destruct E as (id & w1 & E). run_with E.
    destruct (map_has m id); [apply IH|].
    rewrite Gg. run_lift.
    assert (Em : exists strings, mapTrim (orElse tagsv (VArr [])) = Ok strings).
    { destruct Tg as [N|(tags & ->)].
      - unfold orElse. rewrite N. now eexists.
      - cbn [orElse nullish mapTrim]. rewrite traverse_callTrim_strings.
        now eexists. }
    destruct Em as [strings ->]. run_lift.
    rewrite Gt. run_lift.
    destruct (trimOr_text titlev "Nowy prompt" Tt) as [title ->]. run_lift.
    destruct (get_any p "id" "categoryId" idv G) as [catv ->]. run_lift.
    rewrite Gc. run_lift.
    destruct (trimOr_text contentv "" Tc) as [content ->]. run_lift.
    destruct (get_any p "id" "favorite" idv G) as [favv ->]. run_lift.
    destruct (get_any p "id" "createdAt" idv G) as [createdv ->]. run_lift.
    destruct (orNow_runs createdv w1) as (createdAt & w2 & E1). run_with E1.
    destruct (get_any p "id" "updatedAt" idv G) as [updatedv ->]. run_lift.
    destruct (orNow_runs (orDefault updatedv createdv) w2)
      as (updatedAt & w3 & E2).
    run_with E2.
    destruct (get_any p "id" "lastUsedAt" idv G) as [lastv ->]. run_lift.
    apply IH.
Qed.

Lemma categoryValue_like (c : Category) : categoryLike (categoryValue c).
Proof.
  exists (VStr (c_id c)), (VStr (c_name c)).
  repeat split; try reflexivity; right; now eexists.
Qed.

(** X28.  [normalizeDb] repairs every value whose fields are missing or of the
    right type: when [categories] and [prompts] are arrays or missing, the
    ids, names, titles and contents of their elements strings or missing,
    and the tags arrays of strings or missing, it returns, and returns a
    canonical document -- whatever is padded, blank, missing, or there
    twice. *)
Theorem normalizeDb_repairs (input : value) (w : World) :
  clock_ok -> ids_ok -> comparator localeCompare ->
  documentLike input ->
  exists d w', normalizeDb input w = (Ok d, w') /\ canonical d.
Proof.
  intros K I C (cats & ps & Gc & Hc & Gp & Hp).
  assert (Ec : exists cs, iterate (orElse cats (VArr [])) = Ok cs /\
                          Forall categoryLike cs).
  { destruct Hc as [N|(cs & -> & F)].
    - unfold orElse. rewrite N. exists []. now split.
    - now exists cs. }
  assert (Ep : exists l, iterate (orElse ps (VArr [])) = Ok l /\
                         Forall promptLike l).
  { destruct Hp as [N|(l & -> & F)].
    - unfold orElse. rewrite N. exists []. now split.
    - now exists l. }
  destruct Ec as (cs & Ec & Fc). destruct Ep as (l & Ep & Fp).
  assert (H : exists d w', normalizeDb input w = (Ok d, w')).
  { unfold normalizeDb. rewrite Gc. run_lift. rewrite Ec. run_lift.
    destruct (someUncategorized_runs cs Fc) as [found ->]. run_lift.
    assert (E1 : exists cs' w1,
               (if found then ret cs
                else c <- uncategorized ;; ret (cs ++ [categoryValue c])) w
               = (Ok cs', w1) /\ Forall categoryLike cs').
    { destruct found.
      - exists cs, w. now split.
      - eexists. eexists. split; [reflexivity|].
        apply Forall_app. split; [exact Fc|].
        constructor; [apply categoryValue_like|constructor]. }
    destruct E1 as (cs' & w1 & E1 & Fc'). run_with E1.
    destruct (categoryLoop_runs cs' Fc' [] w1) as (cm & w2 & E2).
    run_with E2.
    assert (E3 : exists cm' w3,
               (if map_has cm UNCATEGORIZED_ID then ret cm
                else c <- uncategorized ;;
                     ret (map_set cm UNCATEGORIZED_ID c)) w2 = (Ok cm', w3)).
    { destruct (map_has cm UNCATEGORIZED_ID); eexists; eexists; reflexivity. }
    destruct E3 as (cm' & w3 & E3). run_with E3.
    rewrite Gp. run_lift. rewrite Ep. run_lift.
    destruct (promptLoop_runs cm' l Fp [] w3) as (pm & w4 & E4).
    run_with E4. eexists. eexists. reflexivity. }
  destruct H as (d & w' & H). exists d, w'. split; [exact H|].
  now apply (normalizeDb_canonical input d w w').
Qed.

(** * Importing a file again *)

(** The three ways a turn of the loop over the imported categories can
    go. *)
Lemma mergeCategoryStep_cases (cats : list Category)
    (idMap nameMap : Map string) (b : Category) :
  (map_has idMap (c_id b) = true /\
   mergeCategoryStep (cats, idMap, nameMap) b
   = (cats, map_set idMap (c_id b) (c_id b), nameMap)) \/
  (map_has idMap (c_id b) = false /\
   exists v, map_get nameMap (toLowerCase (c_name b)) = Some v /\ v <> "" /\
             mergeCategoryStep (cats, idMap, nameMap) b
             = (cats, map_set idMap (c_id b) v, nameMap)) \/
  (map_has idMap (c_id b) = false /\
   (forall v, map_get nameMap (toLowerCase (c_name b)) = Some v -> v = "") /\
   mergeCategoryStep (cats, idMap, nameMap) b
   = (cats ++ [b], map_set idMap (c_id b) (c_id b),
      map_set nameMap (toLowerCase (c_name b)) (c_id b))).
Proof.
  unfold mergeCategoryStep. destruct (map_has idMap (c_id b)); [now left|].
  right. destruct (map_get nameMap (toLowerCase (c_name b))) as [v|] eqn:G.
  - destruct (nonEmpty v) eqn:N.
    + left. split; [reflexivity|]. exists v. apply nonEmpty_true in N.
      now repeat split.
    + right. split; [reflexivity|]. split; [|reflexivity].
      intros v' [= <-]. now apply nonEmpty_false.
  - right. split; [reflexivity|]. split; [discriminate|reflexivity].
Qed.

Lemma nameMapOf_snoc (cats : list Category) (b : Category) :
  nameMapOf (cats ++ [b])
  = map_set (nameMapOf cats) (toLowerCase (c_name b)) (c_id b).
Proof.
  unfold nameMapOf, map_of. now rewrite map_app, fold_left_app.
Qed.

Lemma nameMapOf_value (cats : list Category) (k v : string) :
  map_get (nameMapOf cats) k = Some v -> In v (map c_id cats).
Proof.
  intros H. apply map_of_get, in_map_iff in H.
  destruct H as (c & [= _ <-] & Hc). now apply in_map.
Qed.

(** The loop adds categories, of those it is given, and moves none. *)
Lemma mergeCategories_grow (l : list Category) :
  forall cats idMap nameMap catsF idMapF nameMapF,
    fold_left mergeCategoryStep l (cats, idMap, nameMap)
    = (catsF, idMapF, nameMapF) ->
    exists added, catsF = cats ++ added /\ incl added l.
Proof.
  induction l as [|b rest IH]; intros cats idMap nameMap catsF idMapF nameMapF H.
  - injection H as <- _ _. exists []. split; [now rewrite app_nil_r|].
    apply incl_refl.
  - cbn [fold_left] in H.
    destruct (mergeCategoryStep_cases cats idMap nameMap b)
      as [[_ E]|[(_ & v & _ & _ & E)|(_ & _ & E)]]; rewrite E in H;
      apply IH in H; destruct H as (added & -> & Hi).
    + exists added. split; [reflexivity|]. now apply incl_tl.
    + exists added. split; [reflexivity|]. now apply incl_tl.
    + exists (b :: added). split; [now rewrite <- app_assoc|].
      intros x [<-|Hx]; [now left|right; now apply Hi].
Qed.

(** It writes the id-to-id map at the ids of those it is given only. *)
Lemma mergeCategories_other (l : list Category) (k : string) :
  ~ In k (map c_id l) ->
  forall cats idMap nameMap catsF idMapF nameMapF,
    fold_left mergeCategoryStep l (cats, idMap, nameMap)
    = (catsF, idMapF, nameMapF) ->
    map_get idMapF k = map_get idMap k.
Proof.
  clear typeErrorMessage localeCompare.
  induction l as [|b rest IH]; intros Hk cats idMap nameMap catsF idMapF
                                      nameMapF H.
  - now injection H as _ <- _.
  - cbn [fold_left] in H. simpl in Hk.
    assert (Nb : (c_id b =? k) = false) by (apply String.eqb_neq; tauto).
    destruct (mergeCategoryStep_cases cats idMap nameMap b)
      as [[_ E]|[(_ & v & _ & _ & E)|(_ & _ & E)]]; rewrite E in H;
      apply IH in H; try tauto; rewrite H, map_get_set, Nb; reflexivity.
Qed.

(** The name-to-id map stays that of the categories. *)
Lemma mergeCategories_names (l : list Category) :
  forall cats idMap catsF idMapF nameMapF,
    fold_left mergeCategoryStep l (cats, idMap, nameMapOf cats)
    = (catsF, idMapF, nameMapF) ->
    nameMapF = nameMapOf catsF.
Proof.
  induction l as [|b rest IH]; intros cats idMap catsF idMapF nameMapF H.
  - now injection H as <- _ <-.
  - cbn [fold_left] in H.
    destruct (mergeCategoryStep_cases cats idMap (nameMapOf cats) b)
      as [[_ E]|[(_ & v & _ & _ & E)|(_ & _ & E)]]; rewrite E in H.
    + now apply IH in H.
    + now apply IH in H.
    + rewrite <- nameMapOf_snoc in H. now apply IH in H.
Qed.

(** A name that is sent to an id stays sent to it. *)
Lemma mergeCategories_persist (l : list Category) (k v : string) :
  v <> "" ->
  forall cats idMap nameMap catsF idMapF nameMapF,
    fold_left mergeCategoryStep l (cats, idMap, nameMap)
    = (catsF, idMapF, nameMapF) ->
    map_get nameMap k = Some v -> map_get nameMapF k = Some v.
Proof.
  intros Nv. induction l as [|b rest IH];
    intros cats idMap nameMap catsF idMapF nameMapF H G.
  - now injection H as _ _ <-.
  - cbn [fold_left] in H.
    destruct (mergeCategoryStep_cases cats idMap nameMap b)
      as [[_ E]|[(_ & v' & _ & _ & E)|(_ & Hn & E)]]; rewrite E in H.
    + now apply (IH _ _ _ _ _ _ H).
    + now apply (IH _ _ _ _ _ _ H).
    + apply (IH _ _ _ _ _ _ H). rewrite map_get_set.
      destruct (String.eqb_spec (toLowerCase (c_name b)) k) as [<-|_];
        [|exact G].
      apply Hn in G. contradiction.
Qed.

(** The loop run again, from the categories it left: nothing is added,
    and the id of every category of the file is sent where it was sent. *)
Lemma mergeCategories_again (l : list Category) :
  NoDup (map c_id l) -> Forall (fun c => c_id c <> "") l ->
  forall cats idMap catsF idMapF nameMapF,
    (forall k, In k (map c_id cats) -> map_has idMap k = true) ->
    (forall k, In k (map c_id l) -> map_has idMap k = true ->
               In k (map c_id cats)) ->
    Forall (fun c => c_id c <> "") cats ->
    fold_left mergeCategoryStep l (cats, idMap, nameMapOf cats)
    = (catsF, idMapF, nameMapF) ->
    forall idMap2,
      (forall k, In k (map c_id catsF) -> map_has idMap2 k = true) ->
      (forall k, In k (map c_id l) -> map_has idMap2 k = true ->
                 In k (map c_id catsF)) ->
      exists idMap2F,
        fold_left mergeCategoryStep l (catsF, idMap2, nameMapOf catsF)
        = (catsF, idMap2F, nameMapOf catsF) /\
        (forall c, In c l -> map_get idMap2F (c_id c) = map_get idMapF (c_id c)) /\
        (forall k, ~ In k (map c_id l) -> map_get idMap2F k = map_get idMap2 k).
Proof.
  clear typeErrorMessage localeCompare.
  induction l as [|b rest IH];
    intros Nl Fl cats idMap catsF idMapF nameMapF H1 H2 H3 H idMap2 G1 G2.
  - injection H as <- _ _. exists idMap2. split; [reflexivity|].
    split; [intros c []|reflexivity].
  - cbn [fold_left] in H. simpl in Nl. inversion Nl as [|? ? Nb Nrest]; subst.
    inversion Fl as [|? ? Eb Frest]; subst.
    (* what the second run does with [b], once we know where the first run
       sent it *)
    assert (Step : forall cats' idMap' x,
               fold_left mergeCategoryStep rest (cats', idMap', nameMapOf cats')
               = (catsF, idMapF, nameMapF) ->
               (forall k, In k (map c_id cats') -> map_has idMap' k = true) ->
               (forall k, In k (map c_id rest) -> map_has idMap' k = true ->
                          In k (map c_id cats')) ->
               Forall (fun c => c_id c <> "") cats' ->
               map_get idMap' (c_id b) = Some x ->
               mergeCategoryStep (catsF, idMap2, nameMapOf catsF) b
               = (catsF, map_set idMap2 (c_id b) x, nameMapOf catsF) ->
               exists idMap2F,
                 fold_left mergeCategoryStep (b :: rest)
                           (catsF, idMap2, nameMapOf catsF)
                 = (catsF, idMap2F, nameMapOf catsF) /\
                 (forall c, In c (b :: rest) ->
                    map_get idMap2F (c_id c) = map_get idMapF (c_id c)) /\
                 (forall k, ~ In k (map c_id (b :: rest)) ->
                    map_get idMap2F k = map_get idMap2 k)).
    { intros cats' idMap' x Hf A1 A2 A3 Gx E2.
      destruct (IH Nrest Frest cats' idMap' catsF idMapF nameMapF
                  A1 A2 A3 Hf (map_set idMap2 (c_id b) x))
        as (idMap2F & R1 & R2 & R3).
      { intros k Hk. rewrite map_has_set, (G1 k Hk). apply orb_true_r. }
      { intros k Hk Hh. rewrite map_has_set in Hh.
        apply orb_true_iff in Hh. destruct Hh as [Hh|Hh].
        - apply String.eqb_eq in Hh. subst k. contradiction.
        - apply G2; [now right|exact Hh]. }
      exists idMap2F. cbn [fold_left]. rewrite E2.
      split; [exact R1|]. split.
      - intros c [<-|Hc]; [|now apply R2].
        rewrite (R3 _ Nb), map_get_set, String.eqb_refl.
        now rewrite (mergeCategories_other rest (c_id b) Nb _ _ _ _ _ _ Hf).
      - intros k Hk. simpl in Hk.
        rewrite R3 by tauto. rewrite map_get_set.
        destruct (String.eqb_spec (c_id b) k) as [E|_]; [|reflexivity].
        exfalso. apply Hk. now left. }
    destruct (mergeCategoryStep_cases cats idMap (nameMapOf cats) b)
      as [[Hh E]|[(Hh & v & Gv & Nv & E)|(Hh & Hn & E)]]; rewrite E in H.
    + (* the id of [b] is an id of the library *)
      assert (Hin : In (c_id b) (map c_id cats))
        by (apply H2; [now left|exact Hh]).
      destruct (mergeCategories_grow rest _ _ _ _ _ _ H) as (added & EF & _).
      apply (Step cats (map_set idMap (c_id b) (c_id b)) (c_id b) H).
      * intros k Hk. rewrite map_has_set, (H1 k Hk). apply orb_true_r.
      * intros k Hk Hk'. rewrite map_has_set in Hk'.
        apply orb_true_iff in Hk'. destruct Hk' as [Hk'|Hk'].
        -- apply String.eqb_eq in Hk'. subst k. contradiction.
        -- apply H2; [now right|exact Hk'].
      * exact H3.
      * now rewrite map_get_set, String.eqb_refl.
      * unfold mergeCategoryStep.
        rewrite G1; [reflexivity|]. rewrite EF, map_app.
        apply in_or_app. now left.
    + (* the name of [b] is a name of the library *)
      destruct (mergeCategories_grow rest _ _ _ _ _ _ H) as (added & EF & Hi).
      assert (Hout : map_has idMap2 (c_id b) = false).
      { apply not_true_is_false. intros Hh2.
        apply G2 in Hh2; [|now left]. rewrite EF, map_app in Hh2.
        apply in_app_or in Hh2. destruct Hh2 as [Hh2|Hh2].
        - apply H1 in Hh2. congruence.
        - apply Nb. apply in_map_iff in Hh2. destruct Hh2 as (c & Ec & Hc).
          rewrite <- Ec. apply in_map. now apply Hi. }
      assert (Gf : map_get (nameMapOf catsF) (toLowerCase (c_name b)) = Some v).
      { rewrite <- (mergeCategories_names rest _ _ _ _ _ H).
        now apply (mergeCategories_persist rest _ v Nv _ _ _ _ _ _ H). }
      apply (Step cats (map_set idMap (c_id b) v) v H).
      * intros k Hk. rewrite map_has_set, (H1 k Hk). apply orb_true_r.
      * intros k Hk Hk'. rewrite map_has_set in Hk'.
        apply orb_true_iff in Hk'. destruct Hk' as [Hk'|Hk'].
        -- apply String.eqb_eq in Hk'. subst k. contradiction.
        -- apply H2; [now right|exact Hk'].
      * exact H3.
      * now rewrite map_get_set, String.eqb_refl.
      * unfold mergeCategoryStep. rewrite Hout, Gf.
        apply nonEmpty_true in Nv. now rewrite Nv.
    + (* [b] is added *)
      rewrite <- nameMapOf_snoc in H.
      destruct (mergeCategories_grow rest _ _ _ _ _ _ H) as (added & EF & _).
      apply (Step (cats ++ [b]) (map_set idMap (c_id b) (c_id b)) (c_id b) H).
      * intros k Hk. rewrite map_has_set. rewrite map_app in Hk.
        apply in_app_or in Hk. destruct Hk as [Hk|[<-|[]]].
        -- rewrite (H1 k Hk). apply orb_true_r.
        -- now rewrite String.eqb_refl.
      * intros k Hk Hk'. rewrite map_has_set in Hk'. rewrite map_app.
        apply in_or_app.
        apply orb_true_iff in Hk'. destruct Hk' as [Hk'|Hk'].
        -- apply String.eqb_eq in Hk'. subst k. contradiction.
        -- left. apply H2; [now right|exact Hk'].
      * apply Forall_app. split; [exact H3|]. now constructor.
      * now rewrite map_get_set, String.eqb_refl.
      * unfold mergeCategoryStep.
        rewrite G1; [reflexivity|]. rewrite EF, !map_app.
        apply in_or_app. left. apply in_or_app. right. now left.
Qed.

Lemma mergedCategories_fold (current imported : DbFile) (w : World)
    (catsF : list Category) (idMapF nameMapF : Map string) :
  Forall (fun c => c_id c <> "") (categories imported) ->
  fold_left mergeCategoryStep (categories imported)
    (categories current,
     map_of (map (fun c => (c_id c, c_id c)) (categories current)),
     nameMapOf (categories current))
  = (catsF, idMapF, nameMapF) ->
  mergedCategories current imported w
  = (Ok (catsF, map_set idMapF UNCATEGORIZED_ID UNCATEGORIZED_ID), w).
Proof.
  intros Hids F. unfold mergedCategories.
  run_with (mergeCategories_fold (categories imported) Hids
              (categories current)
              (map_of (map (fun c => (c_id c, c_id c)) (categories current)))
              (map_of (map (fun c => (toLowerCase (c_name c), c_id c))
                           (categories current))) w).
  fold (nameMapOf (categories current)). now rewrite F.
Qed.

Lemma promptEntries_keyed (pm : Map Prompt) :
  Forall (fun kv => fst kv = p_id (snd kv)) pm ->
  promptEntries (map_values pm) = pm.
Proof.
  unfold promptEntries, map_values. rewrite map_map.
  induction 1 as [|[k p] r E _ IH]; simpl; [reflexivity|].
  simpl in E. now rewrite IH, E.
Qed.

Lemma category_ids_nonEmpty (d : DbFile) :
  canonical d -> Forall (fun c => c_id c <> "") (categories d).
Proof.
  intros (_ & _ & _ & Fc & _). eapply Forall_impl; [|exact Fc].
  intros c ((_ & N & _) & _). exact N.
Qed.

(** X29.  Importing a file a second time changes nothing: the document merged
    with the file, merged with the file again, is the document merged
    with the file. *)
Theorem mergeImported_again (current imported : DbFile) (w : World) :
  canonical current -> canonical imported ->
  exists merged,
    mergeImported current imported w = (Ok merged, w) /\
    mergeImported merged imported w = (Ok merged, w).
Proof.
  intros Hc Hi.
  destruct (mergeImported_fold current imported w Hc Hi)
    as (cats1 & idMap1 & added & Em1 & _ & _ & Hm1 & Hcan1 & _ & Hk1 & Himp1).
  set (pm1 := fold_left (mergePromptStep idMap1) (prompts imported)
                (promptEntries (prompts current))) in *.
  exists (mkDb 1 cats1 (map_values pm1)). split; [exact Hm1|].
  pose proof (category_ids_nonEmpty imported Hi) as Hids.
  (* the first run of the loop over the categories *)
  destruct (fold_left mergeCategoryStep (categories imported)
              (categories current,
               map_of (map (fun c => (c_id c, c_id c)) (categories current)),
               nameMapOf (categories current)))
    as [[catsF idMapF] nameMapF] eqn:F1.
  pose proof (mergedCategories_fold current imported w _ _ _ Hids F1) as E1.
  rewrite Em1 in E1. injection E1 as -> ->.
  (* the second run *)
  destruct (mergeCategories_again (categories imported)
              (proj1 (proj2 Hi)) Hids (categories current)
              (map_of (map (fun c => (c_id c, c_id c)) (categories current)))
              catsF idMapF nameMapF)
    with (idMap2 := map_of (map (fun c => (c_id c, c_id c)) catsF))
    as (idMap2F & F2 & Agree & _).
  { intros k Hk. apply map_of_has. now rewrite map_map. }
  { intros k _ Hk. apply map_of_has in Hk. now rewrite map_map in Hk. }
  { now apply category_ids_nonEmpty. }
  { exact F1. }
  { intros k Hk. apply map_of_has. now rewrite map_map. }
  { intros k _ Hk. apply map_of_has in Hk. now rewrite map_map in Hk. }
  pose proof (mergedCategories_fold (mkDb 1 catsF (map_values pm1)) imported w
                _ _ _ Hids F2) as E2.
  destruct (mergeImported_fold (mkDb 1 catsF (map_values pm1)) imported w
              Hcan1 Hi)
    as (cats2 & idMap2 & added2 & Em2 & _ & _ & Hm2 & _).
  rewrite Em2 in E2. injection E2 as -> ->.
  rewrite Hm2. simpl prompts.
  rewrite (promptEntries_keyed pm1 Hk1).
  rewrite fold_left_fixed; [reflexivity|].
  intros p Hp. unfold mergePromptStep.
  assert (R : rewritten (map_set idMap2F UNCATEGORIZED_ID UNCATEGORIZED_ID)
                (p_id p) p
              = rewritten (map_set idMapF UNCATEGORIZED_ID UNCATEGORIZED_ID)
                  (p_id p) p).
  { unfold rewritten. f_equal. unfold resolveImported.
    rewrite !map_get_set.
    destruct (UNCATEGORIZED_ID =? p_categoryId p); [reflexivity|].
    destruct Hi as (_ & _ & _ & _ & _ & Fp). rewrite Forall_forall in Fp.
    destruct (Fp p Hp) as ((_ & _ & Hin & _) & _).
    apply in_map_iff in Hin. destruct Hin as (c & Ec & Hcin).
    now rewrite <- Ec, (Agree c Hcin). }
  rewrite R. apply map_set_same. now apply Himp1.
Qed.

(** * Calls return, and wait for the render *)

Lemma quiet_ret {A} (a : A) : quiet (ret a).
Proof. now intros s. Qed.

Lemma quiet_raise {A} (e : exn) : quiet (@raise Session A e).
Proof. now intros s. Qed.

Lemma quiet_lift {A} (o : outcome A) : quiet (lift o).
Proof. now intros s. Qed.

Lemma quiet_bind {A B} (m : Ctl A) (k : A -> Ctl B) :
  quiet m -> (forall a, quiet (k a)) -> quiet (bind m k).
Proof.
  intros Hm Hk s. unfold bind. specialize (Hm s).
  destruct (m s) as [[a|e] s1]; simpl in *; [|exact Hm].
  now rewrite Hk.
Qed.

Lemma quiet_tryCatch {A} (m : Ctl A) (h : exn -> Ctl A) :
  quiet m -> (forall e, quiet (h e)) -> quiet (tryCatch m h).
Proof.
  intros Hm Hh s. unfold tryCatch. specialize (Hm s).
  destruct (m s) as [[a|e] s1]; simpl in *; [exact Hm|].
  now rewrite Hh.
Qed.

Lemma quiet_inWorld {A} (m : M A) : quiet (inWorld m).
Proof. intros s. unfold inWorld. now destruct (m (world s)). Qed.

Lemma quiet_update (f : Library -> Library) :
  (forall l, db (f l) = db l) -> quiet (update f).
Proof. intros H s. apply H. Qed.

Lemma quiet_commit (mutator : DbFile -> M DbFile) (message : string) :
  quiet (commit mutator message).
Proof.
  unfold commit. repeat (apply quiet_bind; [|intros _]);
    try (destruct (nonEmpty message)); try apply quiet_ret;
    now apply quiet_update.
Qed.

Lemma quiet_withValidation (action : Ctl unit) :
  quiet action -> quiet (withValidation action).
Proof.
  intros H. apply quiet_tryCatch; [exact H|].
  intros e. now apply quiet_update.
Qed.

Lemma withValidation_returns (action : Ctl unit) (s : Session) :
  exists s', withValidation action s = (Ok tt, s').
Proof.
  unfold withValidation, tryCatch.
  destruct (action s) as [[[]|e] s1]; now eexists.
Qed.

(** X30.  No call of the hook but the render changes the document on show: what
    a call changes waits for the render.  And no call throws to its caller
    but the render, when an update throws, and [upsertPrompt], when the
    title, the category or the content of the draft is blank. *)
Theorem calls_return_and_wait (c : call) (s : Session) :
  (c <> CallRender -> db (lib (snd (perform c s))) = db (lib s)) /\
  (mayThrow c = false -> exists s', perform c s = (Ok tt, s')).
Proof.
  split.
  - intros N. revert s.
    change (quiet (perform c)).
    destruct c; simpl perform; try contradiction.
    + intros s. unfold loaded.
      now destruct (loadDb (world s, st)) as [[d|e] [w st']].
    + apply quiet_bind; [|intros _; apply quiet_ret].
      unfold upsertPrompt.
      repeat match goal with
             | |- quiet (if ?b then _ else _) =>
                 destruct b; [apply quiet_raise|]
             end.
      apply quiet_bind; [apply quiet_inWorld|intros promptId].
      apply quiet_bind; [|intros _; apply quiet_ret].
      apply quiet_withValidation, quiet_commit.
    + apply quiet_withValidation, quiet_commit.
    + apply quiet_bind; [|intros _; apply quiet_ret].
      unfold duplicatePrompt.
      apply quiet_bind; [apply quiet_inWorld|intros copyId].
      apply quiet_bind; [|intros _; apply quiet_ret].
      apply quiet_withValidation, quiet_commit.
    + apply quiet_bind; [|intros _; apply quiet_ret].
      intros s. unfold copyPrompt.
      now destruct (find _ (prompts (db (lib s)))).
    + unfold copyPromptResumed.
      destruct answer; [apply quiet_commit|now apply quiet_update].
    + apply quiet_withValidation. unfold createCategoryAction. cbv zeta.
      destruct (negb _); [apply quiet_raise|apply quiet_commit].
    + apply quiet_withValidation. unfold renameCategoryAction. cbv zeta.
      destruct (negb _); [apply quiet_raise|].
      destruct (id =? UNCATEGORIZED_ID); [apply quiet_raise|].
      apply quiet_commit.
    + apply quiet_withValidation. unfold deleteCategoryAction.
      destruct (id =? UNCATEGORIZED_ID); [apply quiet_raise|].
      apply quiet_commit.
    + apply quiet_withValidation.
      apply quiet_bind; [apply quiet_lift|intros v].
      apply quiet_bind; [apply quiet_inWorld|intros d].
      apply quiet_commit.
    + now apply quiet_update.
    + now apply quiet_update.
  - intros T. destruct c; simpl in T; try discriminate; simpl perform.
    + unfold loaded.
      destruct (loadDb (world s, st)) as [[d|e] [w st']]; now eexists.
    + apply orb_false_iff in T. destruct T as [T T3].
      apply orb_false_iff in T. destruct T as [T1 T2].
      unfold upsertPrompt. rewrite T1, T2, T3.
      unfold bind at 1. unfold bind at 1. unfold inWorld at 1.
      assert (E : exists promptId w1,
                 match d_id draft with
                 | Some id => orUuid id
                 | None => uuid
                 end (world s) = (Ok promptId, w1)).
      { destruct (d_id draft) as [id|]; [|now eexists; eexists].
        unfold orUuid. destruct (nonEmpty id); now eexists; eexists. }
      destruct E as (promptId & w1 & ->).
      unfold bind at 1.
      destruct (withValidation_returns
                  (commit (upsertMutator draft promptId) "Zapisano")
                  (mkSession (lib s) w1)) as [s' ->].
      now eexists.
    + apply withValidation_returns.
    + unfold duplicatePrompt. unfold bind at 1. unfold bind at 1.
      unfold inWorld at 1. unfold uuid at 1. unfold bind at 1.
      destruct (withValidation_returns
                  (commit (duplicateMutator id (uuidAt (draws (world s))))
                          "Zduplikowano")
                  (mkSession (lib s)
                     (mkWorld (ticks (world s)) (S (draws (world s))))))
        as [s' ->].
      now eexists.
    + unfold bind, copyPrompt.
      destruct (find _ (prompts (db (lib s)))); now eexists.
    + unfold copyPromptResumed. destruct answer; [|now eexists].
      rewrite commit_returns. now eexists.
    + apply withValidation_returns.
    + apply withValidation_returns.
    + apply withValidation_returns.
    + apply withValidation_returns.
    + now eexists.
    + now eexists.
Qed.

End App.

(** * Examples *)

Lemma tally_trimEnd (n : nat) : trimEnd (tally n) = tally n.
Proof.
  induction n as [|n IH]; simpl; [reflexivity|].
  rewrite IH. now destruct (tally n).
Qed.

(** [String] on the samples: numbers, an array, and the two kinds of
    object. *)
Example sampleStringOf_values :
  map sampleStringOf
      [VNum 5; VNum (-12); VNum (2 ^ 64); VNum (10 ^ 21);
       VArr [VNum 1; VNull; VArr [VStr "a"; VBool true]];
       VObj [("id", VStr "p1")]; VObj [("toString", VNum 1)]]
  = [Ok "5"; Ok "-12"; Ok "18446744073709552000"; Ok "1e+21";
     Ok "1,,a,true"; Ok "[object Object]"; Throw TypeError].
Proof. vm_compute. reflexivity. Qed.

Lemma sampleNow_ok : clock_ok sampleNow.
Proof. intros n. discriminate. Qed.

Lemma sampleUuid_ok : ids_ok sampleUuid.
Proof.
  intros n. split; [|discriminate].
  unfold trimmed, trim, sampleUuid. simpl.
  rewrite tally_trimEnd. now destruct (tally n).
Qed.

Lemma sampleCompare_ok : comparator sampleCompare.
Proof.
  intros a b H. unfold sampleCompare in *.
  rewrite String.compare_antisym, H. discriminate.
Qed.

Example normalizeDb_rawSample :
  normalizeDb sampleCompare sampleNow sampleUuid rawSample world0
  = (Ok repairedSample, mkWorld 6 1).
Proof. vm_compute. reflexivity. Qed.

Lemma normalizeDb_idempotent_witness :
  normalizeDb sampleCompare sampleNow sampleUuid (dbValue repairedSample)
    (mkWorld 6 1)
  = (Ok repairedSample, mkWorld 6 1).
Proof.
  apply (normalizeDb_idempotent sampleCompare sampleNow sampleUuid
           rawSample repairedSample world0 (mkWorld 6 1) (mkWorld 6 1)
           sampleNow_ok sampleUuid_ok sampleCompare_ok).
  vm_compute. reflexivity.
Defined.

(** The second prompt of the sample was filed under ["gone"], which is no
    category of the document: it is under ["uncategorized"] now. *)
Lemma normalizeDb_referential_integrity_witness :
  exists pv records,
    get rawSample "prompts" = Ok pv /\
    iterate (orElse pv (VArr [])) = Ok records /\
    Forall
      (fun q =>
         In (p_categoryId q) (map c_id (categories repairedSample)) /\
         exists record idv catv,
           In record records /\
           get record "id" = Ok idv /\
           (callTrim (orElse idv (VStr "")) = Ok (p_id q) \/
            callTrim (orElse idv (VStr "")) = Ok "") /\
           get record "categoryId" = Ok catv /\
           ((exists id, catv = VStr id /\
                        In id (map c_id (categories repairedSample)) /\
                        p_categoryId q = id) \/
            ((forall id, catv = VStr id ->
                         ~ In id (map c_id (categories repairedSample))) /\
             p_categoryId q = "uncategorized")))
      (prompts repairedSample).
Proof.
  apply (normalizeDb_referential_integrity sampleCompare sampleNow sampleUuid
           rawSample repairedSample world0 (mkWorld 6 1)).
  vm_compute. reflexivity.
Defined.

Lemma sampleLibrary_canonical : canonical sampleCompare sampleLibrary.
Proof.
  unfold canonical, sampleLibrary. simpl.
  repeat split; repeat constructor; simpl; intuition discriminate.
Qed.

(** The clipboard answers after a category was created: the render shows
    the category, and the prompt as used at the time of the render. *)
Lemma copyPrompt_contract_witness :
  let s := performAll sampleCompare lowerCase sampleTypeError sampleNow
             sampleUuid copying (firstRender sampleNow world0) in
  exists s',
    render (snd (copyPromptResumed sampleCompare sampleNow sampleUuid "p2"
                   (Ok tt) s))
    = (Ok tt, s') /\
    categories (db (lib s')) = categories afterCopying /\
    map (fun p => (p_id p, p_createdAt p, p_updatedAt p, p_lastUsedAt p))
        (prompts (db (lib s')))
    = [("u", VStr "Tiii", VStr "Tiiii", VNull);
       ("p2", VStr "Tiiiii", VStr "Tiiiiiiii", VStr "Tiiiiiiii")].
Proof.
  intros s.
  destruct (proj1 (proj2 (proj2 (proj2
              (copyPrompt_contract sampleCompare lowerCase sampleTypeError
                 sampleNow sampleUuid)))
              sampleNow_ok sampleUuid_ok sampleCompare_ok)
              world0 copying "p2" afterCopying (mkWorld 8 2) eq_refl)
    as (s' & Hr & _ & Hc & Hp).
  exists s'. split; [exact Hr|]. split; [exact Hc|].
  rewrite Hp. reflexivity.
Defined.

(** [importJson] of a file in which the sample prompt was used, then the
    render: the prompt of the library is now used, and [copyPrompt] was not
    called. *)
Example importJson_usedElsewhere :
  map p_lastUsedAt
      (prompts (db (lib (snd (render
         (snd (importJson sampleCompare lowerCase sampleTypeError sampleNow
                 sampleUuid (Ok usedElsewhere) sampleSession)))))))
  = [VStr "2024-02-01"].
Proof. vm_compute. reflexivity. Qed.

Lemma importJson_marks_use :
  ~ onlyCopyPromptMarksUse sampleCompare lowerCase sampleTypeError
      sampleNow sampleUuid.
Proof.
  intros H.
  pose (s' := snd (render
         (snd (importJson sampleCompare lowerCase sampleTypeError sampleNow
                 sampleUuid (Ok usedElsewhere) sampleSession)))).
  specialize (H (CallImportJson (Ok usedElsewhere)) sampleSession s').
  assert (U : usesFrom sampleLibrary (db (lib s'))).
  { apply H.
    - discriminate.
    - discriminate.
    - apply sampleLibrary_canonical.
    - reflexivity.
    - vm_compute. reflexivity. }
  destruct (U (mkPrompt "p1" "Hello" "uncategorized" "World" [] false
                 (VStr "2024-01-03") (VStr "2024-02-01") (VStr "2024-02-01")))
    as (p & Hp & _ & E).
  - vm_compute. now left.
  - discriminate.
  - destruct Hp as [<-|[]]. discriminate.
Qed.

Lemma normalizers_disagree_witness :
  normalizeDb sampleCompare sampleNow sampleUuid
    (storedWith (VStr "Hello") (VArr [VStr "a"; VStr "B"])) world0
  = (Ok (storedAs "Hello" ["a"; "B"]), world0) /\
  worker_normalizeDb sampleStringOf sampleNow sampleUuid
    (storedWith (VStr "Hello") (VArr [VStr "a"; VStr "B"])) world0
  = (Ok (storedAs "Hello" ["B"; "a"]), world0) /\
  normalizeDb sampleCompare sampleNow sampleUuid
    (dbValue (storedAs "Hello" ["B"; "a"])) world0
  = (Ok (storedAs "Hello" ["a"; "B"]), world0).
Proof.
  apply (normalizers_disagree sampleCompare sampleStringOf sampleNow
           sampleUuid world0); reflexivity.
Defined.

(** The same on the path of the quick-save widget: the worker stores the
    tags ["a,B"] as ["B"; "a"]; the user interface, loading that document,
    stores ["a"; "B"]. *)
Example savePromptFromPage_then_load :
  exists d w d' w',
    savePromptFromPage sampleStringOf sampleNow sampleUuid quickSave
      (world0, mkStore Absent [])
    = (Ok tt, (w, mkStore (Text false (Ok (dbValue d))) [])) /\
    map p_tags (prompts d) = [["B"; "a"]] /\
    loadDb sampleCompare sampleNow sampleUuid
      (w, mkStore (Text false (Ok (dbValue d))) [])
    = (Ok d', (w', mkStore (Text false (Ok (dbValue d'))) [])) /\
    map p_tags (prompts d') = [["a"; "B"]].
Proof.
  exists (mkDb 1 [mkCategory "uncategorized" "Bez kategorii" (VStr "T")]
            [mkPrompt "u" "Greeting" "uncategorized" "Hello" ["B"; "a"]
               false (VStr "Ti") (VStr "Ti") VNull]).
  do 3 eexists. repeat split; vm_compute; reflexivity.
Qed.

(** ** The merge *)

Lemma sampleImport_canonical : canonical sampleCompare sampleImport.
Proof.
  unfold canonical, sampleImport. simpl.
  repeat split; repeat constructor; simpl; intuition discriminate.
Qed.


(** What the merge of the two samples is: no category is added, and the
    prompt is the imported one, filed under ["c1"]. *)
Example mergeImported_samples :
  mergeImported sampleCompare lowerCase sampleNow sampleUuid
    sampleLibrary sampleImport world0
  = (Ok (mkDb 1 (categories sampleLibrary)
           [mkPrompt "p1" "Hello again" "c1" "World, again" ["a"; "B"] true
              (VStr "2024-01-03") (VStr "2024-03-02") VNull]),
     world0).
Proof. vm_compute. reflexivity. Qed.

Lemma merge_name_fallback_witness :
  exists merged,
    mergeImported sampleCompare lowerCase sampleNow sampleUuid
      sampleLibrary sampleImport world0
    = (Ok merged, world0) /\
    ~ In "c9" (map c_id (categories merged)) /\
    (forall p, In p (prompts sampleImport) -> p_categoryId p = "c9" ->
       exists q, find (fun q => p_id q =? p_id p) (prompts merged) = Some q /\
                 p_categoryId q = "c1") /\
    ((forall c, In c (categories sampleImport) ->
        In (c_id c) (map c_id (categories sampleLibrary)) \/
        exists c0, In c0 (categories sampleLibrary) /\
                   lowerCase (c_name c0) = lowerCase (c_name c)) ->
     categories merged = categories sampleLibrary).
Proof.
  apply (merge_name_fallback sampleCompare lowerCase sampleNow sampleUuid
           sampleLibrary sampleImport
           (mkCategory "c1" "Work" (VStr "2024-01-02")) workElsewhere world0
           sampleLibrary_canonical sampleImport_canonical).
  - right. now left.
  - right. now left.
  - reflexivity.
  - simpl. intuition discriminate.
  - simpl. intros c [<-|[<-|[]]] E; [discriminate|reflexivity].
Defined.

Lemma twoCategories_canonical : canonical sampleCompare twoCategories.
Proof.
  unfold canonical, twoCategories. simpl.
  repeat split; repeat constructor; simpl; intuition discriminate.
Qed.

Lemma clashingImport_canonical : canonical sampleCompare clashingImport.
Proof.
  unfold canonical, clashingImport. simpl.
  repeat split; repeat constructor; simpl; intuition discriminate.
Qed.

(** The id decides before the name does: the imported ["work"] carries the
    id of the current ["Other"], and its prompt stays under that id. *)
Example mergeImported_clash :
  mergeImported sampleCompare lowerCase sampleNow sampleUuid
    twoCategories clashingImport world0
  = (Ok (mkDb 1 (categories twoCategories) (prompts clashingImport)), world0).
Proof. vm_compute. reflexivity. Qed.

Lemma name_fallback_needs_fresh_id :
  ~ nameFallbackAsStated sampleCompare lowerCase sampleNow sampleUuid.
Proof.
  intros H.
  destruct (H twoCategories clashingImport
              (mkDb 1 (categories twoCategories) (prompts clashingImport))
              (mkCategory "c1" "Work" (VStr "2024-01-02"))
              (mkCategory "c2" "work" (VStr "2024-03-01"))
              world0 world0
              twoCategories_canonical clashingImport_canonical)
    as [_ Hp].
  - right. now left.
  - right. now left.
  - reflexivity.
  - discriminate.
  - apply mergeImported_clash.
  - destruct (Hp (mkPrompt "p9" "Note" "c2" "Text" [] false
                    (VStr "2024-03-02") (VStr "2024-03-02") VNull))
      as (q & Hq & Ec).
    + now left.
    + reflexivity.
    + vm_compute in Hq. injection Hq as <-. discriminate.
Qed.

(** ** The error policy *)

Example upsertPrompt_blank_title :
  upsertPrompt sampleCompare sampleTypeError sampleNow sampleUuid
    blankDraft sampleSession
  = (Throw (Error "Pole title jest wymagane"), sampleSession).
Proof. reflexivity. Qed.

Lemma upsertPrompt_throws_to_caller :
  ~ upsertFailureSurfaces sampleCompare sampleTypeError sampleNow sampleUuid.
Proof.
  intros H. destruct (H blankDraft sampleSession eq_refl) as (id & m & E).
  rewrite upsertPrompt_blank_title in E. discriminate.
Qed.

(** A failure raised inside the updater does not reach [withValidation]:
    creating a second ["work"] clears the last error, announces success,
    and the render that follows throws. *)
Example createCategory_duplicate :
  let s := snd (createCategory sampleCompare lowerCase sampleTypeError
                  sampleNow sampleUuid "work" sampleSession) in
  error (lib s) = None /\
  toast (lib s) = Some "Dodano kategorię" /\
  backupPending (lib s) = true /\
  fst (render s) = Throw (Error "Kategoria o tej nazwie już istnieje").
Proof. repeat split; vm_compute; reflexivity. Qed.

(** ** The invariants on the samples *)

Lemma reserved_category_invariance_witness :
  reservedCount repairedSample = 1 /\
  renameCategory sampleCompare lowerCase sampleTypeError sampleNow sampleUuid
    UNCATEGORIZED_ID "Misc" sampleSession
  = (Ok tt, surfaced sampleSession
              "Nie można zmienić nazwy kategorii Bez kategorii") /\
  deleteCategory sampleCompare sampleTypeError sampleNow sampleUuid
    UNCATEGORIZED_ID sampleSession
  = (Ok tt, surfaced sampleSession "Nie można usunąć kategorii Bez kategorii").
Proof.
  pose proof (reserved_category_invariance sampleCompare lowerCase
                sampleTypeError sampleNow sampleUuid) as (H1 & _ & _).
  split; [|split; reflexivity].
  apply (H1 rawSample repairedSample world0 (mkWorld 6 1)).
  vm_compute. reflexivity.
Defined.

Lemma stored_text_is_trimmed_witness :
  (text_trimmed repairedSample /\ text_bare repairedSample) /\
  text_bare
    (db (lib (performAll sampleCompare lowerCase sampleTypeError sampleNow
                sampleUuid
                [CallLoaded (mkStore (Plain rawSample) []);
                 CallRender;
                 CallUpsertPrompt
                   (mkDraft None " Title " "c1" " Text " [" x "; "x"] true);
                 CallRender]
                (firstRender sampleNow world0)))).
Proof.
  pose proof (stored_text_is_trimmed sampleCompare lowerCase sampleTypeError
                sampleNow sampleUuid) as (H1 & H2).
  split; [|apply H2].
  apply (H1 rawSample repairedSample world0 (mkWorld 6 1)).
  vm_compute. reflexivity.
Defined.

(** What these calls leave in the library. *)
Example performAll_sample :
  map (fun p => (p_title p, p_content p, p_tags p))
    (prompts
       (db (lib (performAll sampleCompare lowerCase sampleTypeError sampleNow
                   sampleUuid
                   [CallLoaded (mkStore (Plain rawSample) []);
                    CallRender;
                    CallUpsertPrompt
                      (mkDraft None " Title " "c1" " Text " [" x "; "x"] true);
                    CallRender]
                   (firstRender sampleNow world0)))))
  = [("hi", "", ["A"; "b"]); ("Nowy prompt", "", []);
     ("Title", "Text", ["x"])].
Proof. vm_compute. reflexivity. Qed.

Lemma validation_failures_witness :
  createCategory sampleCompare lowerCase sampleTypeError sampleNow sampleUuid
    "  " sampleSession
  = (Ok tt, surfaced sampleSession "Nazwa kategorii jest wymagana") /\
  exists message,
    upsertPrompt sampleCompare sampleTypeError sampleNow sampleUuid
      blankDraft sampleSession
    = (Throw (Error message), sampleSession).
Proof.
  pose proof (validation_failures sampleCompare lowerCase sampleTypeError
                sampleNow sampleUuid) as (H1 & _ & _ & _ & H5).
  split.
  - apply (H1 "  " sampleSession). reflexivity.
  - apply (H5 blankDraft sampleSession). left. reflexivity.
Defined.

(** * The library at work on the samples *)

(** Saving [helloDraft] over the sample prompt. *)
Lemma upsertPrompt_updates_witness :
  exists s1 s',
    upsertPrompt sampleCompare sampleTypeError sampleNow sampleUuid
      helloDraft sampleSession = (Ok "p1", s1) /\
    render s1 = (Ok tt, s') /\
    find (fun q => p_id q =? "p1") (prompts (db (lib s')))
    = Some (mkPrompt "p1" "Hello again" "c1" "New text" ["a"; "b"] true
              (VStr "2024-01-03") (VStr "T") VNull).
Proof.
  destruct (upsertPrompt_updates sampleCompare sampleTypeError sampleNow
              sampleUuid helloDraft "p1" sampleHello sampleSession
              sampleNow_ok sampleCompare_ok sampleLibrary_canonical eq_refl
              ltac:(discriminate) ltac:(discriminate) ltac:(discriminate)
              eq_refl eq_refl)
    as (s1 & s' & A & B & C & _).
  exists s1, s'. split; [exact A|]. split; [exact B|exact C].
Defined.

(** Saving [noteDraft]: a new prompt, filed under the reserved category. *)
Lemma upsertPrompt_creates_witness :
  exists s1 s',
    upsertPrompt sampleCompare sampleTypeError sampleNow sampleUuid
      noteDraft sampleSession = (Ok "u", s1) /\
    render s1 = (Ok tt, s') /\
    prompts (db (lib s'))
    = [sampleHello;
       mkPrompt "u" "Note" "uncategorized" "Text" [] false
         (VStr "T") (VStr "T") VNull].
Proof.
  destruct (upsertPrompt_creates sampleCompare sampleTypeError sampleNow
              sampleUuid noteDraft sampleSession
              sampleNow_ok sampleUuid_ok sampleCompare_ok
              sampleLibrary_canonical eq_refl
              ltac:(discriminate) ltac:(discriminate) ltac:(discriminate)
              eq_refl ltac:(simpl; intuition discriminate))
    as (s1 & s' & A & B & C & _).
  exists s1, s'. split; [exact A|]. split; [exact B|exact C].
Defined.

Lemma deletePrompt_removes_witness :
  exists s',
    render (snd (deletePrompt sampleCompare sampleTypeError sampleNow
                   sampleUuid "p1" sampleSession)) = (Ok tt, s') /\
    prompts (db (lib s')) = [] /\
    categories (db (lib s')) = categories sampleLibrary.
Proof.
  destruct (deletePrompt_removes sampleCompare sampleTypeError sampleNow
              sampleUuid "p1" sampleSession sampleLibrary_canonical eq_refl)
    as (s' & A & B & _ & _ & C & _).
  exists s'. split; [exact A|]. split; [exact B|exact C].
Defined.

Lemma duplicatePrompt_copies_witness :
  exists s1 s',
    duplicatePrompt sampleCompare sampleTypeError sampleNow sampleUuid
      "p1" sampleSession = (Ok "u", s1) /\
    render s1 = (Ok tt, s') /\
    prompts (db (lib s'))
    = [sampleHello;
       mkPrompt "u" "Hello (kopia)" "c1" "World" ["a"] false
         (VStr "T") (VStr "T") VNull].
Proof.
  destruct (duplicatePrompt_copies sampleCompare sampleTypeError sampleNow
              sampleUuid "p1" sampleHello sampleSession
              sampleNow_ok sampleUuid_ok sampleLibrary_canonical eq_refl
              eq_refl ltac:(simpl; intuition discriminate))
    as (s1 & s' & A & B & C & _).
  exists s1, s'. split; [exact A|]. split; [exact B|exact C].
Defined.

Lemma createCategory_adds_witness :
  exists s',
    render (snd (createCategory sampleCompare lowerCase sampleTypeError
                   sampleNow sampleUuid " Play " sampleSession))
    = (Ok tt, s') /\
    categories (db (lib s'))
    = categories sampleLibrary ++ [mkCategory "u" "Play" (VStr "T")].
Proof.
  destruct (createCategory_adds sampleCompare lowerCase sampleTypeError
              sampleNow sampleUuid " Play " sampleSession
              sampleNow_ok sampleUuid_ok sampleLibrary_canonical eq_refl
              ltac:(discriminate)
              ltac:(simpl; intros c [<-|[<-|[]]]; discriminate)
              ltac:(simpl; intuition discriminate))
    as (s' & A & B & _).
  exists s'. split; [exact A|exact B].
Defined.

Lemma renameCategory_renames_witness :
  exists s',
    render (snd (renameCategory sampleCompare lowerCase sampleTypeError
                   sampleNow sampleUuid "c1" " Job " sampleSession))
    = (Ok tt, s') /\
    categories (db (lib s'))
    = [mkCategory "uncategorized" "Bez kategorii" (VStr "2024-01-01");
       mkCategory "c1" "Job" (VStr "2024-01-02")] /\
    prompts (db (lib s')) = [sampleHello].
Proof.
  destruct (renameCategory_renames sampleCompare lowerCase sampleTypeError
              sampleNow sampleUuid "c1" " Job " sampleSession
              sampleLibrary_canonical eq_refl
              ltac:(discriminate) ltac:(discriminate)
              ltac:(simpl; tauto)
              ltac:(simpl; intros c [<-|[<-|[]]] N;
                    [discriminate|now contradiction N]))
    as (s' & A & B & _ & C & _).
  exists s'. split; [exact A|]. split; [exact B|exact C].
Defined.

Lemma deleteCategory_moves_witness :
  exists s',
    render (snd (deleteCategory sampleCompare sampleTypeError sampleNow
                   sampleUuid "c1" sampleSession)) = (Ok tt, s') /\
    categories (db (lib s'))
    = [mkCategory "uncategorized" "Bez kategorii" (VStr "2024-01-01")] /\
    Forall2 (movedFrom sampleNow "c1") [sampleHello] (prompts (db (lib s'))).
Proof.
  destruct (deleteCategory_moves sampleCompare sampleTypeError sampleNow
              sampleUuid "c1" sampleSession
              sampleNow_ok sampleLibrary_canonical eq_refl
              ltac:(discriminate) ltac:(simpl; tauto))
    as (s' & A & B & _ & C & _).
  exists s'. split; [exact A|]. split; [exact B|exact C].
Defined.

Lemma mergeImported_keeps_witness :
  exists merged added,
    mergeImported sampleCompare lowerCase sampleNow sampleUuid
      sampleLibrary sampleImport world0 = (Ok merged, world0) /\
    canonical sampleCompare merged /\
    categories merged = categories sampleLibrary ++ added /\
    incl added (categories sampleImport).
Proof.
  destruct (mergeImported_keeps sampleCompare lowerCase sampleNow sampleUuid
              sampleLibrary sampleImport world0
              sampleLibrary_canonical sampleImport_canonical)
    as (merged & added & A & B & C & D & _).
  exists merged, added. split; [exact A|]. split; [exact B|].
  split; [exact C|exact D].
Defined.

(** The text [null] is JSON and no document. *)
Lemma importJson_rejects_witness :
  exists s',
    importJson sampleCompare lowerCase sampleTypeError sampleNow sampleUuid
      (Ok VNull) sampleSession = (Ok tt, s') /\
    error (lib s') = Some "TypeError" /\
    db (lib s') = sampleLibrary /\ queue (lib s') = [].
Proof.
  destruct (importJson_rejects sampleCompare lowerCase sampleTypeError
              sampleNow sampleUuid (Ok VNull) TypeError sampleSession
              (or_intror (ex_intro _ VNull
                            (ex_intro _ world0 (conj eq_refl eq_refl)))))
    as (s' & A & B & C & D & _).
  exists s'. split; [exact A|]. split; [exact B|]. split; [exact C|exact D].
Defined.

Lemma importJson_own_export_witness :
  exists s1 s',
    importJson sampleCompare lowerCase sampleTypeError sampleNow sampleUuid
      (Ok (dbValue sampleLibrary)) sampleSession = (Ok tt, s1) /\
    render s1 = (Ok tt, s') /\
    db (lib s') = sampleLibrary /\ world s' = world0.
Proof.
  destruct (importJson_own_export sampleCompare lowerCase sampleTypeError
              sampleNow sampleUuid sampleSession
              sampleLibrary_canonical eq_refl)
    as (s1 & s' & A & B & C & D & _).
  exists s1, s'. split; [exact A|]. split; [exact B|].
  split; [exact C|exact D].
Defined.

(** The prompt of [sampleImport] ticked: it replaces the prompt of the
    library, whose id it has. *)
Lemma applySelectedImport_ticked_witness :
  exists s1 s',
    applySelectedImport sampleCompare lowerCase sampleTypeError sampleNow
      sampleUuid (mkImportState (Some sampleImport) ["p1"] "file.json" None)
      sampleSession
    = (Ok (mkImportState None [] "" None), s1) /\
    render s1 = (Ok tt, s') /\
    In "p1" (map p_id (prompts (db (lib s')))).
Proof.
  destruct (applySelectedImport_ticked sampleCompare lowerCase
              sampleTypeError sampleNow sampleUuid sampleImport ["p1"]
              "file.json" None sampleSession
              sampleLibrary_canonical eq_refl sampleImport_canonical
              ltac:(discriminate))
    as (s1 & s' & A & B & _ & C & _).
  exists s1, s'. split; [exact A|]. split; [exact B|].
  apply (C helloElsewhere); now left.
Defined.

(** [clashingImport] with the ticks of the page: its prompt is new, the
    prompt of the library stays. *)
Lemma applySelectedImport_default_witness :
  exists st' s1 s',
    applySelectedImport sampleCompare lowerCase sampleTypeError sampleNow
      sampleUuid
      (mkImportState (Some clashingImport)
         (defaultSelection sampleLibrary clashingImport) "file.json" None)
      sampleSession
    = (Ok st', s1) /\
    render s1 = (Ok tt, s') /\
    In sampleHello (prompts (db (lib s'))) /\
    In "p9" (map p_id (prompts (db (lib s')))).
Proof.
  destruct (applySelectedImport_default sampleCompare lowerCase
              sampleTypeError sampleNow sampleUuid clashingImport
              "file.json" None sampleSession
              sampleLibrary_canonical eq_refl clashingImport_canonical)
    as (st' & s1 & s' & A & B & C & D).
  exists st', s1, s'. split; [exact A|]. split; [exact B|]. split.
  - apply C. now left.
  - apply (D (mkPrompt "p9" "Note" "c2" "Text" [] false
                (VStr "2024-03-02") (VStr "2024-03-02") VNull)).
    now left.
Defined.


Lemma library_always_canonical_witness :
  canonical sampleCompare
    (db (lib (performAll sampleCompare lowerCase sampleTypeError sampleNow
                sampleUuid
                [CallLoaded (mkStore (Plain rawSample) []); CallRender;
                 CallCreateCategory "Work"; CallRender;
                 CallDeleteCategory "c1"; CallRender]
                (firstRender sampleNow world0)))).
Proof.
  apply (library_always_canonical sampleCompare lowerCase sampleTypeError
           sampleNow sampleUuid world0 _
           sampleNow_ok sampleUuid_ok sampleCompare_ok).
Defined.

(** The worker repairs the sample, and throws on a tag that has a
    property [toString]. *)
Lemma worker_normalizeDb_total_witness :
  (exists d w',
     worker_normalizeDb sampleStringOf sampleNow sampleUuid rawSample world0
     = (Ok d, w') /\
     worker_canonical d) /\
  exists w',
    worker_normalizeDb sampleStringOf sampleNow sampleUuid badTags world0
    = (Throw TypeError, w').
Proof.
  destruct (worker_normalizeDb_total sampleStringOf sampleNow sampleUuid
              rawSample world0 sampleNow_ok sampleUuid_ok) as (A & _ & _).
  split.
  - apply A. unfold tagsPrint, printable. simpl.
    repeat constructor; eexists; reflexivity.
  - apply (proj2 (proj2 (worker_normalizeDb_total sampleStringOf sampleNow
                           sampleUuid badTags world0 sampleNow_ok
                           sampleUuid_ok))
             _ [] [VStr "a"] (VObj [("toString", VNum 1)]) [] TypeError
             eq_refl eq_refl).
    + repeat constructor. now eexists.
    + reflexivity.
Defined.

Lemma worker_normalizeDb_idempotent_witness :
  worker_normalizeDb sampleStringOf sampleNow sampleUuid
    (dbValue (storedAs "Nowy prompt" [])) world0
  = (Ok (storedAs "Nowy prompt" []), world0).
Proof.
  apply (worker_normalizeDb_idempotent sampleStringOf sampleNow sampleUuid
           (storedWith (VNum 5) (VArr [])) (storedAs "Nowy prompt" [])
           world0 world0 world0 sampleNow_ok sampleUuid_ok).
  vm_compute. reflexivity.
Defined.

(** The tags the worker stored as ["B"; "a"] are read as ["a"; "B"]. *)
Lemma normalizeDb_after_worker_witness :
  normalizeDb sampleCompare sampleNow sampleUuid
    (dbValue (storedAs "Hello" ["B"; "a"])) world0
  = (Ok (mkDb 1 (categories (storedAs "Hello" ["B"; "a"]))
           (map (resorted sampleCompare)
                (prompts (storedAs "Hello" ["B"; "a"])))),
     world0).
Proof.
  apply (normalizeDb_after_worker sampleCompare sampleStringOf sampleNow
           sampleUuid
           (storedWith (VStr "Hello") (VArr [VStr "a"; VStr "B"]))
           (storedAs "Hello" ["B"; "a"]) world0 world0 world0
           sampleNow_ok sampleUuid_ok).
  vm_compute. reflexivity.
Defined.

Lemma tagSet_spec_witness :
  tags_ok sampleCompare (tagSet sampleCompare [" b "; "A"; "b"; " "]) /\
  tagSet sampleCompare (tagSet sampleCompare [" b "; "A"; "b"; " "])
  = tagSet sampleCompare [" b "; "A"; "b"; " "].
Proof.
  destruct (tagSet_spec sampleCompare [" b "; "A"; "b"; " "] sampleCompare_ok)
    as (A & _ & B).
  split; [exact A|exact B].
Defined.

Lemma parseHash_makeHash_witness :
  parseHash (makeHash PagePrompts "tag=a%20b")
  = mkRoute PagePrompts "tag=a%20b".
Proof. apply (parseHash_makeHash PagePrompts "tag=a%20b" eq_refl). Defined.

Lemma copyPrompt_leaves_others_witness :
  exists s',
    render (snd (copyPromptResumed sampleCompare sampleNow sampleUuid "p1"
                   (Ok tt) sampleSession)) = (Ok tt, s') /\
    categories (db (lib s')) = categories sampleLibrary /\
    map p_id (prompts (db (lib s'))) = ["p1"].
Proof.
  destruct (copyPrompt_leaves_others sampleCompare sampleNow sampleUuid
              "p1" sampleSession sampleLibrary world0
              sampleNow_ok (conj sampleLibrary_canonical (Forall_nil _))
              eq_refl)
    as (s' & A & B & C & _).
  exists s'. split; [exact A|]. split; [exact B|exact C].
Defined.

(** The prompt of [sampleImport] is filed under ["c9"], named ["work"];
    merged into the sample library it is filed under a category of that
    name up to case. *)
Lemma mergeImported_keeps_category_witness :
  exists merged q cm,
    mergeImported sampleCompare lowerCase sampleNow sampleUuid
      sampleLibrary sampleImport world0 = (Ok merged, world0) /\
    find (fun q => p_id q =? "p1") (prompts merged) = Some q /\
    In cm (categories merged) /\ c_id cm = p_categoryId q /\
    (c_id cm = "c9" \/ lowerCase (c_name cm) = "work").
Proof.
  apply (mergeImported_keeps_category sampleCompare lowerCase sampleNow
           sampleUuid sampleLibrary sampleImport helloElsewhere workElsewhere
           world0 sampleLibrary_canonical sampleImport_canonical).
  - now left.
  - right. now left.
  - reflexivity.
Defined.

Lemma normalizeDb_first_wins_witness :
  normalizeDb sampleCompare sampleNow sampleUuid
    (dbValue (mkDb 7 twiceCategories twicePrompts)) world0
  = (Ok sampleLibrary, world0).
Proof.
  apply (normalizeDb_first_wins sampleCompare sampleNow sampleUuid
           7 twiceCategories twicePrompts world0).
  - now left.
  - repeat constructor; simpl; discriminate.
  - repeat constructor; simpl; intuition discriminate.
Defined.


(** The file of [usedElsewhere] holds the prompt of the library: it is in
    the preview, and not ticked. *)
Lemma onFileImport_preview_witness :
  onFileImport sampleCompare sampleNow sampleUuid "file.json"
    (Ok usedElsewhere) sampleSession
  = (Ok (mkImportState (Some usedElsewhereDb) [] "file.json" None),
     mkSession (lib sampleSession) (mkWorld 1 0)).
Proof.
  destruct (proj2 (proj2 (onFileImport_preview sampleCompare sampleNow
                            sampleUuid "file.json" (Ok usedElsewhere)
                            sampleSession
                            sampleNow_ok sampleUuid_ok sampleCompare_ok))
              usedElsewhere usedElsewhereDb (mkWorld 1 0) eq_refl eq_refl)
    as (ticked & A & _ & T).
  rewrite A. destruct ticked as [|k l]; [reflexivity|].
  exfalso. destruct (proj1 (T k) (or_introl eq_refl)) as [[<-|[]] N].
  apply N. now left.
Defined.

Lemma counts_add_up_witness :
  list_sum (map (fun c => countOf (counts sampleLibrary) (c_id c))
                (categories sampleLibrary))
  = 1.
Proof.
  apply (proj2 (counts_add_up sampleCompare sampleLibrary)
           sampleLibrary_canonical).
Defined.

(** The quick save of [quickSave] into an empty store, and into one that
    refuses the last write. *)
Lemma savePromptFromPage_contract_witness :
  savePromptFromPage sampleStringOf sampleNow sampleUuid quickSave
    (world0, mkStore Absent [])
  = (Ok tt,
     (mkWorld 2 1,
      holding
        (mkDb 1
           [mkCategory "uncategorized" "Bez kategorii" (VStr "T")]
           [mkPrompt "u" "Greeting" "uncategorized" "Hello" ["B"; "a"] false
              (VStr "Ti") (VStr "Ti") VNull])
        [])) /\
  savePromptFromPage sampleStringOf sampleNow sampleUuid quickSave
    (world0, mkStore Absent [None; None; Some (Error "quota")])
  = (Throw (Error "quota"),
     (mkWorld 2 1, holding (defaultAt sampleNow 0) [])).
Proof.
  destruct (proj2 (proj2 (savePromptFromPage_contract sampleStringOf sampleNow
                            sampleUuid quickSave world0 Absent))
              sampleNow_ok sampleUuid_ok
              ltac:(discriminate) ltac:(discriminate))
    as (_ & _ & d & w1 & _ & _ & _ & U & H).
  destruct U as [-> ->]; [intros v [E|[E _]]; discriminate|].
  destruct H as [A B]; [simpl; tauto|].
  split; [exact A|exact (B (Error "quota") [])].
Defined.

Lemma rawSample_like : documentLike rawSample.
Proof.
  eexists. eexists. split; [reflexivity|]. split; [|split; [reflexivity|]].
  - right. eexists. split; [reflexivity|].
    constructor; [|constructor; [|constructor]].
    + eexists. eexists. split; [reflexivity|].
      split; [right; now eexists|]. split; [reflexivity|now left].
    + eexists. eexists. split; [reflexivity|].
      split; [now left|]. split; [reflexivity|now left].
  - right. eexists. split; [reflexivity|].
    constructor; [|constructor; [|constructor]].
    + eexists. eexists. eexists. eexists. split; [reflexivity|].
      split; [now left|]. split; [reflexivity|].
      split; [right; now eexists|]. split; [reflexivity|].
      split; [now left|]. split; [reflexivity|].
      right. now exists [" b"; "A"; "b"; ""].
    + eexists. eexists. eexists. eexists. split; [reflexivity|].
      split; [right; now eexists|]. split; [reflexivity|].
      split; [now left|]. split; [reflexivity|].
      split; [now left|]. split; [reflexivity|now left].
Qed.

Lemma normalizeDb_repairs_witness :
  exists d w',
    normalizeDb sampleCompare sampleNow sampleUuid rawSample world0
    = (Ok d, w') /\
    canonical sampleCompare d.
Proof.
  apply (normalizeDb_repairs sampleCompare sampleNow sampleUuid rawSample
           world0 sampleNow_ok sampleUuid_ok sampleCompare_ok rawSample_like).
Defined.

Lemma mergeImported_again_witness :
  exists merged,
    mergeImported sampleCompare lowerCase sampleNow sampleUuid
      sampleLibrary sampleImport world0 = (Ok merged, world0) /\
    mergeImported sampleCompare lowerCase sampleNow sampleUuid
      merged sampleImport world0 = (Ok merged, world0).
Proof.
  apply (mergeImported_again sampleCompare lowerCase sampleNow sampleUuid
           sampleLibrary sampleImport world0
           sampleLibrary_canonical sampleImport_canonical).
Defined.

(** Duplicating a prompt that is not there returns, and shows the same
    document. *)
Lemma calls_return_and_wait_witness :
  db (lib (snd (perform sampleCompare lowerCase sampleTypeError sampleNow
                  sampleUuid (CallDuplicatePrompt "p2") sampleSession)))
  = sampleLibrary /\
  exists s',
    perform sampleCompare lowerCase sampleTypeError sampleNow sampleUuid
      (CallDuplicatePrompt "p2") sampleSession
    = (Ok tt, s').
Proof.
  destruct (calls_return_and_wait sampleCompare lowerCase sampleTypeError
              sampleNow sampleUuid (CallDuplicatePrompt "p2") sampleSession)
    as [A B].
  split; [apply A; discriminate|apply B; reflexivity].
Defined.
